(* ===== verification/_CoqProject ===== *)
-Q . S2P
Prelude.v
Buffer.v
Types.v
Address.v
NetIP.v
Packet.v
Builders.v
Framing.v
Crypt.v
UDPCrypt.v
TCPCrypt.v
LowID.v
Text.v
Search.v
SearchParse.v
SortedIDs.v
FileMeta.v
NameIndex.v
Rank.v
Servers.v
MemEngine.v
MemSources.v
MemStore.v
MemInv.v
MemOffer.v
MemLeave.v
MemClean.v
MemRefine.v
MemQuery.v
Engine.v
MemAPI.v
Sha256.v
Float64.v
RateLimit.v
BotDetector.v
RuntimeState.v
Runtime.v
Demo.v
Sessions.v
Offers.v
Paging.v
Routing.v
NatTraversal.v
NatRegistry.v
NatRendezvous.v
Gossip.v
UDPPorts.v
NatCallback.v
UDPState.v
UDPHandler.v
GossipTable.v
NatReach.v
UDPReach.v
UDPRuns.v
GossipWire.v
NatProof.v
IPFilter.v
NetFilter.v
ServerMet.v
