(* ===== verification/Prelude.v ===== *)
(** * eNode-go: a verification of the server

    eNode-go is a server of the eDonkey network. Clients log in over TCP, offer files, search
    and ask for sources; clients and other servers send datagrams; servers tell each other
    about peers. This development translates the server's Go code (under [src/]) to Rocq
    functions and proves what it promises. Every definition is executable, and every theorem
    with hypotheses has a witness that applies it to a concrete server.

    ** The parts and their files

    - Values. [Prelude]: integers as [Z] with their wraps written out, strings and byte slices
      as [bytes], results ([Ok], [Err], and [Panic] for a run-time panic), the state-and-error
      monad [M], the lemmas and tactics shared by all. [Types]: the records of
      [storage/storage.go]. [Text]: [strings], [unicode], [unicode/utf8]. [Address], [NetIP]:
      [net.IP], its text form, [ed2k/address.go]. [Float64]: binary64 arithmetic and
      [time.Duration]. [Sha256]: SHA-256 and HMAC.
    - The wire. [Buffer] ([ed2k/buffer.go]), [Packet] ([packet.go]), [Builders]
      ([tcpoperations.go], [udpoperations.go], [ipv6sources.go]), [Framing] (the packet stream
      of a session, [processPacketData] of [server_runtime.go]), [Crypt], [UDPCrypt],
      [TCPCrypt] ([crypt.go], [udpcrypt.go], [tcpcrypt.go] and [handleBytes]).
    - Searching. [Search] ([storage/search.go], [search_hash.go]: the matcher, the SQL it is
      rendered to, the guard against scans), [SearchParse] ([ed2k/search.go]), [SortedIDs],
      [NameIndex] ([storage/memory_index.go]), [Rank] ([memory_rank.go]), [FileMeta]
      ([filemeta.go]).
    - The memory engine. [MemEngine], [Servers] ([storage/storage.go], [servers.go],
      [related.go]): the engine as its slots, chains and tables. [MemSources], [MemStore],
      [MemInv], [MemOffer], [MemLeave], [MemClean] prove its invariant operation by operation;
      [MemRefine] and [MemQuery] prove that it implements a catalogue of sessions, files and
      sources. [Engine] is the interface the server uses, a class with laws
      ([storage/factory.go]); [MemAPI] discharges it for the memory engine.
    - TCP sessions. [LowID] ([ed2k/lowidclients.go]); [RuntimeState], [Runtime]: the state of
      [ServerRuntime] and [tcpClient] and every request handler of [ed2k/server_runtime.go],
      [contentfilter.go], [metasearch.go], [relatedsearch.go], [statsboost.go],
      [countercache.go]. [Sessions], [Offers], [Paging], [Routing] prove what holds in every
      interleaving of connections. [Demo] is a concrete server.
    - Datagrams. [RateLimit] ([internal/ratelimit]), [BotDetector], [UDPPorts],
      [NatTraversal] ([nattraversal.go], [natwake.go], the conns of [udpserver.go]),
      [NatCallback] ([natcallback.go]), [Gossip] ([gossip.go], [gossipoperations.go],
      [gossipclient.go]), [UDPState], [UDPHandler] (every opcode of [UDPHandler] in
      [server_runtime.go] and [gossipdispatch.go]). [NatRegistry], [NatRendezvous],
      [GossipTable], [NatReach], [UDPReach], [UDPRuns], [GossipWire], [NatProof] prove them.
    - Around the server. [IPFilter], [NetFilter] ([netfilter/]: the access filter, an instance
      of the interface [AccessFilter] the UDP server asks), [ServerMet] ([ed2k/servermet.go]).

    ** State, steps and time

    A Go struct is a record with the fields the modelled code reads; a method is a function
    from the state to the new state and its results. What runs under a lock is one step. A
    handler that waits (a dial-back, a probe) is cut where it waits, and the steps of
    different connections interleave there: [Sessions.serverStep],
    [NatRendezvous.natRun], [UDPRuns.udpRun]. The clock is an argument, in nanoseconds. Random draws, and the order in
    which Go ranges over a map, are arguments too ([Walk]), so the theorems hold for all.
    Integers are those of a 64-bit Linux build.

    ** What the theorems show

    - Sessions: storage, session index and connections agree in every interleaving, a user
      hash is logged in once; every source returned is a live session; only the same client
      takes a session over; a session stays under its file limit; result pages are complete;
      callbacks reach the owner of the LowID.
    - Wire: decoders do not panic and stay in bounds; what is built is read back; the stream is
      cut into packets the same way however TCP cuts it, obfuscated or not; nothing is handled
      before the login.
    - Storage: the memory engine refines the catalogue; a search answers what a scan would;
      the SQL rendering selects the rows the matcher does; departures leave nothing behind.
    - Datagrams: an answer only goes where a datagram came from; one datagram has at most a
      hundred answers; the NAT registry hands out only addresses their session registered and
      answers every waiter in time; a keepalive proof is used once; gossip never lets one host
      speak for another; the access filter says what its file says.
    - Where the code does not do what its comments say, a theorem proves that: a LowID pool
      that refuses with room left, a LowID freed under its owner, a LowID leaked, a peer
      advertised on two plaintext datagrams, a reload that keeps the old filter list.

    ** Bounds and fuel

    Recursion is structural or carries fuel that provably suffices: [processPacketData] gets
    more fuel than bytes and each call consumes some ([processPacketData_spec], [deliver_fuel]);
    the search parser counts the depth down from its limit of 24; the bisection [sortSearch]
    gets the length of the list and halves it ([searchLoop_spec]); [digitsOf] prints at most
    twenty digits, enough for a 64-bit number; an IPv6 address has at most eight groups
    ([parseGroups]); [siftDown] gets the length of the heap ([siftFrom_spec]).

    ** Interfaces

    Third-party code is a class, with laws from its documentation where a proof needs them:
    [Zlib], [Charmap], [CountryDB], [MetaHash] (the module enodemeta). [Adverts] stands for
    [net/url] and for the node links of [ed3k/ident]. So are what Go leaves
    open or keeps in tables ([sort.Slice]: [SortSlice], [GoSort]; [unicode]: [Unicode],
    [UpperTables]) and the server's own seams ([ContentFilter], [SpamObserver], [AccessFilter]).
    The witnesses are computed on concrete instances.

    ** Not modelled

    The storage engines on MySQL, MongoDB and Manticore, whose effects are statements sent to
    a service (the SQL of a search is modelled, in [Search]); their ed3k and accounts tables.
    The ed3k node and its vendored QUIC and TLS stacks ([ed3k/], [internal/ed3k/]). The handover
    of a process to its successor and the snapshots ([ed2k/handoff.go], [internal/handoff],
    [storage/handoff.go], [snapshot.go]): they move file descriptors and files. The copy of
    other servers' files ([mirror.go]), the client side of the handshake ([ed2k/client.go]) and
    the in-memory ed3k and accounts tables could be modelled and are out of scope.
    The HTTP services ([metaapi/], [serverlink/], [accounts/], [admin/]) and the metadata search
    ([meta/]). The content and spam filters behind their interfaces ([contentfilter/],
    [spamfilter/]), the memory guard, configuration, logging, the listeners' accept loops and
    the program's start ([cmd/], [config/], [logging/], [memguard/], [ed2k/tcpserver.go]). The
    NAT simulators ([internal/natsim]) are test tools. *)

From Stdlib Require Export ZArith Lia.
From stdpp Require Export base tactics list numbers gmap strings.
From coqutil Require Export Datatypes.RecordSetters.
Export OCamlLikeNotations.
#[global] Arguments constant {_} _ _ /.

#[export] Set Default Goal Selector "!".
#[local] Set Warnings "-clear-no-such-hyp".

(** ** Go values

    Every machine integer is a [Z]; an operation that can leave its width writes the
    wrap out.  [bytes] models both [[]byte] and Go's [string], which is an immutable
    byte sequence; [str] turns a Coq literal into one. *)

Local Open Scope Z_scope.

Abbreviation bytes := (list Z).

(** A length in an integer expression: Go's [len] is an [int]. *)
Coercion Z.of_nat : nat >-> Z.

Fixpoint str (s : String.string) : bytes :=
  match s with
  | String.EmptyString => []
  | String.String c s' => Z.of_N (Ascii.N_of_ascii c) :: str s'
  end.

Definition u8 (z : Z) : Z := z `mod` 2 ^ 8.
Definition u16 (z : Z) : Z := z `mod` 2 ^ 16.
Definition u32 (z : Z) : Z := z `mod` 2 ^ 32.
Definition u64 (z : Z) : Z := z `mod` 2 ^ 64.

(** A value of an unsigned type of [w] bits. *)
Definition fits (w z : Z) : Prop := 0 <= z < 2 ^ w.

Definition is_byte (z : Z) : Prop := 0 <= z < 256.
Abbreviation wf_bytes := (Forall is_byte).

#[export] Instance fits_dec w z : Decision (fits w z).
Proof. unfold fits. apply _. Defined.
#[export] Instance is_byte_dec z : Decision (is_byte z).
Proof. unfold is_byte. apply _. Defined.

(** ** Errors and results

    [ErrNew] is an [errors.New] sentinel, told apart by its text; [ErrWrap] is an error
    built around another one ([fmt.Errorf] with [%w], or a struct with [Unwrap]).
    [Panic] is a Go run-time panic: an index or a slice bound out of range. *)

Inductive error :=
| ErrNew (msg : String.string)
| ErrWrap (msg : String.string) (args : list Z) (inner : error).

#[export] Instance error_eq_dec : EqDecision error.
Proof. solve_decision. Defined.

(** [errors.Is]. *)
Fixpoint errors_Is (e target : error) : bool :=
  bool_decide (e = target) ||
  match e with
  | ErrNew _ => false
  | ErrWrap _ _ inner => errors_Is inner target
  end.

Inductive result (A : Type) :=
| Ok (a : A)
| Err (e : error)
| Panic.
Arguments Ok {A} a.
Arguments Err {A} e.
Arguments Panic {A}.

#[export] Instance result_eq_dec {A} `{EqDecision A} : EqDecision (result A).
Proof. solve_decision. Defined.

(** ** The state-and-error monad

    A Go method on a mutable receiver of type [S] that returns [(A, error)]. The state
    is kept when the method fails: the caller still holds the receiver. *)

Definition M (S A : Type) : Type := S → S * result A.

#[export] Instance M_ret S : MRet (M S) := λ A a s, (s, Ok a).
#[export] Instance M_bind S : MBind (M S) := λ A B f m s,
  match m s with
  | (s', Ok a) => f a s'
  | (s', Err e) => (s', Err e)
  | (s', Panic) => (s', Panic)
  end.

Definition fail {S A} (e : error) : M S A := λ s, (s, Err e).
Definition panic {S A} : M S A := λ s, (s, Panic).
Definition get_st {S} : M S S := λ s, (s, Ok s).
Definition put_st {S} (s : S) : M S unit := λ _, (s, Ok tt).

(** [if err != nil { return ..., g(err) }]. *)
Definition wrap_err {S A} (g : error → error) (m : M S A) : M S A := λ s,
  match m s with
  | (s', Err e) => (s', Err (g e))
  | r => r
  end.

(** [for i := 0; i < n; i++] collecting one value per round; a failing round ends the
    loop. The index is passed to the body. *)
Fixpoint for_collect {S A} (n : nat) (i : Z) (body : Z → M S A) : M S (list A) :=
  match n with
  | O => mret []
  | S n' => x ← body i; xs ← for_collect n' (i + 1) body; mret (x :: xs)
  end.

(** The same loop folding a value along. *)
Fixpoint for_fold {S A} (n : nat) (i : Z) (body : Z → A → M S A) (a : A) : M S A :=
  match n with
  | O => mret a
  | S n' => a' ← body i a; for_fold n' (i + 1) body a'
  end.

(** [range] over a slice, for its effect. *)
Fixpoint for_each {S A} (body : A → M S unit) (l : list A) : M S unit :=
  match l with
  | [] => mret tt
  | x :: l' => body x;; for_each body l'
  end.

(** ** Little-endian integers ([encoding/binary]) *)

Fixpoint le_combine (l : bytes) : Z :=
  match l with
  | [] => 0
  | b :: l' => b + 256 * le_combine l'
  end.

Fixpoint le_split (k : nat) (z : Z) : bytes :=
  match k with
  | O => []
  | S k' => z `mod` 256 :: le_split k' (z `div` 256)
  end.

(** ** Tactics and hint databases *)

Create HintDb go.
Create Rewrite HintDb gorw.

(** Solve a byte or width side condition. *)
Ltac solve_range :=
  unfold fits, is_byte, u8, u16, u32, u64 in *; Z.to_euclidean_division_equations; lia.

(** Split on an integer test of the goal, dropping the branch arithmetic refutes. *)
Ltac int_test :=
  match goal with
  | |- context [(?a <? ?b)%nat] => destruct (Nat.ltb_spec a b); try (exfalso; lia)
  | |- context [(?a <=? ?b)%nat] => destruct (Nat.leb_spec a b); try (exfalso; lia)
  | |- context [?a <? ?b] => destruct (Z.ltb_spec a b); try (exfalso; lia)
  | |- context [?a <=? ?b] => destruct (Z.leb_spec a b); try (exfalso; lia)
  | |- context [?a =? ?b] => destruct (Z.eqb_spec a b); try (exfalso; lia)
  end.

(** Prove a closed decidable proposition by running its decision procedure. *)
Ltac by_decision :=
  match goal with |- ?P => apply (bool_decide_eq_true_1 P); vm_compute; reflexivity end.

(** ** Lemmas on bytes *)

Lemma length_le_split k z : length (le_split k z) = k.
Proof. revert z. induction k as [|k IH]; intros z; simpl; [done|]. by rewrite IH. Qed.

Lemma wf_le_split k z : wf_bytes (le_split k z).
Proof.
  revert z. induction k as [|k IH]; intros z; simpl; constructor; [|apply IH].
  unfold is_byte. pose proof (Z.mod_pos_bound z 256). lia.
Qed.

Lemma le_combine_bound l : wf_bytes l → 0 <= le_combine l < 2 ^ (8 * length l).
Proof.
  induction 1 as [|b l Hb Hl IH]; simpl; [lia|].
  replace (8 * S (length l)) with (8 + 8 * length l) by lia.
  rewrite Z.pow_add_r by lia. change (2 ^ 8) with 256. unfold is_byte in Hb. lia.
Qed.

Lemma le_combine_split_mod (k : nat) z : le_combine (le_split k z) = z `mod` 2 ^ (8 * k).
Proof.
  revert z. induction k as [|k IH]; intros z; simpl; [by rewrite Z.mod_1_r|].
  rewrite IH. replace (8 * S k) with (8 + 8 * k) by lia.
  rewrite Z.pow_add_r by lia. by rewrite Z.rem_mul_r by lia.
Qed.

Lemma le_combine_split (k : nat) z : fits (8 * k) z → le_combine (le_split k z) = z.
Proof. intros Hz. rewrite le_combine_split_mod. by apply Z.mod_small. Qed.

Lemma le_split_app (j k : nat) z :
  le_split (j + k) z = le_split j z ++ le_split k (z `div` 2 ^ (8 * j)).
Proof.
  revert z. induction j as [|j IH]; intros z; simpl; [by rewrite Z.div_1_r|].
  rewrite IH. replace (8 * S j) with (8 + 8 * j) by lia.
  by rewrite Z.pow_add_r, Z.div_div by lia.
Qed.

Lemma le_split_combine l : wf_bytes l → le_split (length l) (le_combine l) = l.
Proof.
  induction 1 as [|b l Hb Hl IH]; simpl; [done|]. unfold is_byte in Hb.
  rewrite (Z.mul_comm 256), Z.mod_add, Z.div_add by lia.
  rewrite Z.mod_small, Z.div_small by lia. rewrite Z.add_0_l. by rewrite IH.
Qed.

Lemma le_split_byte z : fits 8 z → le_split 1 z = [z].
Proof. intros Hz. simpl. by rewrite Z.mod_small. Qed.

Lemma wf_str s : wf_bytes (str s).
Proof.
  induction s as [|c s IH]; simpl; constructor; [|done]. unfold is_byte.
  pose proof (Ascii.N_ascii_bounded c). lia.
Qed.
#[export] Hint Resolve wf_le_split wf_str : go.
#[export] Hint Rewrite length_le_split : gorw.

#[global] Arguments le_split : simpl never.

(** ** Lemmas on lists *)

Lemma take_app_exact {A} (l k : list A) n : n = length l → take n (l ++ k) = l.
Proof. intros ->. by rewrite take_app_length. Qed.

Lemma drop_app_exact {A} (l k : list A) n : n = length l → drop n (l ++ k) = k.
Proof. intros ->. by rewrite drop_app_length. Qed.

Lemma filter_all {A} (P : A → Prop) `{∀ x, Decision (P x)} (l : list A) : (∀ x, x ∈ l → P x) → filter P l = l.
Proof.
  induction l as [|x l IH]; intros Hl; [done|]. rewrite filter_cons_True by (apply Hl; by left). f_equal. apply IH.
  intros y Hy. apply Hl. by right.
Qed.

Lemma size_list_set {A} `{Countable A} (l : list A) : (size (list_to_set l : gset A) <= length l)%nat.
Proof.
  induction l as [|x l IH]; [done|]. rewrite list_to_set_cons, size_union_alt, size_singleton. cbn [length].
  assert (size ((list_to_set l : gset A) ∖ {[x]}) <= size (list_to_set l : gset A))%nat by (apply subseteq_size; set_solver). lia.
Qed.

Lemma size_image {A B} `{Countable A} `{Countable B} (f : A → B) (l : list A) :
  (size (list_to_set (map f l) : gset B) <= size (list_to_set l : gset A))%nat.
Proof.
  induction l as [|a l IH]; [done|]. cbn [map list_to_set foldr]. change (list_to_set (a :: l)) with ({[a]} ∪ list_to_set l : gset A).
  change (list_to_set (f a :: map f l)) with ({[f a]} ∪ list_to_set (map f l) : gset B).
  destruct (decide (a ∈ (list_to_set l : gset A))) as [Ha|Ha].
  - rewrite (subseteq_union_1_L {[a]} (list_to_set l)) by set_solver. rewrite (subseteq_union_1_L {[f a]} _); [done|].
    apply singleton_subseteq_l, elem_of_list_to_set, list_elem_of_fmap. exists a. split; [done|]. by apply elem_of_list_to_set in Ha.
  - rewrite (size_union {[a]}) by set_solver. rewrite size_union_alt, !size_singleton.
    assert (size ((list_to_set (map f l) : gset B) ∖ {[f a]}) <= size (list_to_set (map f l) : gset B))%nat by (apply subseteq_size; set_solver). lia.
Qed.
