(* ===== verification/Buffer.v ===== *)
(** * The wire buffer: [ed2k/buffer.go]

    The cursor over a byte slice every packet is read from and written to, its tags
    (typed, named values) and the file lists built of them. *)

From S2P Require Import Prelude.
Local Open Scope Z_scope.

(** ** Errors and constants *)

Definition ErrOutOfBounds : error := ErrNew "buffer: out of bounds".
Definition ErrInvalidHashLength : error := ErrNew "buffer: hash must be 16 bytes".
Definition ErrUnsupportedTag : error := ErrNew "buffer: unsupported tag type".

Definition TypeHash : Z := 0x01.
Definition TypeString : Z := 0x02.
Definition TypeUint32 : Z := 0x03.
Definition TypeFloat : Z := 0x04.
Definition TypeBool : Z := 0x05.
Definition TypeBoolArray : Z := 0x06.
Definition TypeBlob : Z := 0x07.
Definition TypeUint16 : Z := 0x08.
Definition TypeUint8 : Z := 0x09.
Definition TypeBsob : Z := 0x0a.
Definition TypeUint64 : Z := 0x0b.
Definition TypeTags : Z := 0x0f.

Definition TagName : Z := 0x01.
Definition TagSize : Z := 0x02.
Definition TagType : Z := 0x03.
Definition TagFormat : Z := 0x04.
Definition TagVersion : Z := 0x11.
Definition TagPort : Z := 0x0f.
Definition TagDescription : Z := 0x0b.
Definition TagSources : Z := 0x15.
Definition TagCompleteSources : Z := 0x30.
Definition TagMuleVersion : Z := 0xfb.
Definition TagFlags : Z := 0x20.
Definition TagRating : Z := 0xf7.
Definition TagSizeHi : Z := 0x3a.
Definition TagMediaArtist : Z := 0xd0.
Definition TagMediaAlbum : Z := 0xd1.
Definition TagMediaTitle : Z := 0xd2.
Definition TagMediaLength : Z := 0xd3.
Definition TagMediaBitrate : Z := 0xd4.
Definition TagMediaCodec : Z := 0xd5.
Definition TagSearchTree : Z := 0x0e.
Definition TagEmuleUDPPorts : Z := 0xf9.
Definition TagEmuleOptions1 : Z := 0xfa.
Definition TagEmuleOptions2 : Z := 0xfe.
Definition TagModVersion : Z := 0x55.
Definition TagModIPv6 : Z := 0xae.
Definition TagModSvrIPv6 : Z := 0xaf.
Definition TagModYourIP : Z := 0xad.
Definition TagNatPort : Z := 0x9d.
Definition TagIPv6Status : Z := 0xab.
Definition TagMetaAPIFingerprint : Z := 0x9c.
Definition TagMetaAPI : Z := 0x9e.
Definition TagMetaAPIVersion : Z := 0x9f.
Definition TagEd3k : Z := 0xe3.

Definition ValPartialID : Z := 0xfcfcfcfc.
Definition ValPartialPort : Z := 0xfcfc.

Definition minTagBytes : Z := 2.
Definition minFileRecordBytes : Z := 26.

(** ** Data *)

(** The dynamic types a tag's [any] takes, on the way in and on the way out. A float is
    its 32 bits. *)
Inductive any :=
| ANil
| AString (s : bytes)
| ABytes (b : bytes)
| AUint8 (v : Z)
| AUint16 (v : Z)
| AUint32 (v : Z)
| AUint64 (v : Z)
| AInt (v : Z)
| AFloat32 (bits : Z)
| ABool (b : bool).

#[export] Instance any_eq_dec : EqDecision any.
Proof. solve_decision. Defined.

Record Tag := mkTag { tag_Type : Z; tag_Code : Z; tag_Data : any }.

Record NamedTag := mkNamedTag { nt_Name : bytes; nt_Value : any; nt_Type : Z }.

Record FileRecord := mkFileRecord {
  fr_Hash : bytes;
  fr_Complete : bool;
  fr_ID : Z;
  fr_Port : Z;
  fr_SizeLo : Z;
  fr_SizeHi : Z;
  fr_Size : Z;
  fr_Name : bytes;
  fr_Type : bytes;
  fr_Sources : Z;
  fr_Title : bytes;
  fr_Artist : bytes;
  fr_Album : bytes;
  fr_Length : Z;
  fr_Bitrate : Z;
  fr_Codec : bytes;
  fr_Extra : list NamedTag;
  fr_sizeLo : Z;
  fr_sizeHi : Z;
}.

Record Buffer := mkBuffer { data : bytes; pointer : nat }.

#[export] Instance NamedTag_eq_dec : EqDecision NamedTag.
Proof. solve_decision. Defined.
#[export] Instance Buffer_eq_dec : EqDecision Buffer.
Proof. solve_decision. Defined.

Definition NewBuffer (size : nat) : Buffer := mkBuffer (replicate size 0) 0.
Definition NewBufferFromBytes (d : bytes) : Buffer := mkBuffer d 0.
Definition Bytes (b : Buffer) : bytes := data b.

(** ** The cursor *)

(** [Pos()] reads the position, [Pos(p)] sets it, clamped to the buffer. *)
Definition Pos : M Buffer nat := λ b, (b, Ok (pointer b)).

Definition SetPos (pos : Z) : M Buffer nat := λ b,
  let p := Z.to_nat (Z.min (Z.max pos 0) (length (data b))) in
  (mkBuffer (data b) p, Ok p).

Definition Remaining_of (b : Buffer) : nat :=
  if (length (data b) <=? pointer b)%nat then 0 else length (data b) - pointer b.

Definition Remaining : M Buffer Z := λ b, (b, Ok (Z.of_nat (Remaining_of b))).

Definition require (n : nat) : M Buffer unit := λ b,
  if (length (data b) <? pointer b + n)%nat then (b, Err ErrOutOfBounds) else (b, Ok tt).

(** [b.data[b.pointer:]]: a slice bound past the end panics. *)
Definition slice_from (b : Buffer) : result bytes :=
  if (length (data b) <? pointer b)%nat then Panic else Ok (drop (pointer b) (data b)).

(** [binary.LittleEndian.UintN] on what [slice_from] gives, [k] bytes wide: a short
    slice panics. *)
Definition read_le (k : nat) : M Buffer Z := λ b,
  match slice_from b with
  | Ok s => if (length s <? k)%nat then (b, Panic)
            else (mkBuffer (data b) (pointer b + k), Ok (le_combine (take k s)))
  | Err e => (b, Err e)
  | Panic => (b, Panic)
  end.

(** Writing [bs] at the cursor: [copy] into [b.data[b.pointer:]], [k] bytes that are
    known to fit; panics when they do not (an index or [PutUintN] out of range). *)
Definition write_at (bs : bytes) : M Buffer unit := λ b,
  if (length (data b) <? pointer b + length bs)%nat then (b, Panic)
  else (mkBuffer (take (pointer b) (data b) ++ bs ++ drop (pointer b + length bs) (data b))
                 (pointer b + length bs), Ok tt).

Definition GetUInt8 : M Buffer Z := require 1;; read_le 1.
Definition PutUInt8 (n : Z) : M Buffer unit := require 1;; write_at (le_split 1 n).
Definition GetUInt16LE : M Buffer Z := require 2;; read_le 2.
Definition PutUInt16LE (n : Z) : M Buffer unit := require 2;; write_at (le_split 2 n).
Definition GetUInt32LE : M Buffer Z := require 4;; read_le 4.
Definition PutUInt32LE (n : Z) : M Buffer unit := require 4;; write_at (le_split 4 n).

(** Two little-endian words, as the code reads them. *)
Definition GetUInt64LE : M Buffer Z :=
  require 8;;
  lo ← read_le 4;
  hi ← read_le 4;
  mret (u64 (lo + hi * 0x100000000)).

Definition PutUInt64LE (n : Z) : M Buffer unit := require 8;; write_at (le_split 8 n).

(** [Get()]: the rest. *)
Definition GetRest : M Buffer bytes := λ b,
  match slice_from b with
  | Ok s => (mkBuffer (data b) (length (data b)), Ok s)
  | Err e => (b, Err e)
  | Panic => (b, Panic)
  end.

(** [Get(n)]: up to [n] bytes, cut at the end of the buffer; [b.data[lo:hi]] panics on
    bounds that cross. *)
Definition Get (n : Z) : M Buffer bytes := λ b,
  if n =? 0 then (b, Ok []) else
  let fin := Z.min (pointer b + n) (length (data b)) in
  if fin <? pointer b then (b, Panic)
  else (mkBuffer (data b) (Z.to_nat fin),
        Ok (take (Z.to_nat fin - pointer b) (drop (pointer b) (data b)))).

(** [GetString(l)] with an explicit length. *)
Definition GetStringN (l : Z) : M Buffer bytes :=
  r ← Remaining;
  if (l <? 0) || (r <? l) then fail ErrOutOfBounds else Get l.

(** [GetString()]: a 16-bit length, then the bytes. *)
Definition GetString : M Buffer bytes := l ← GetUInt16LE; GetStringN l.

Definition PutString (s : bytes) : M Buffer unit :=
  PutUInt16LE (u16 (length s));;
  require (length s);;
  write_at s.

(** [PutBuffer]: as much of [src] as fits. *)
Definition PutBuffer (src : bytes) : M Buffer unit := λ b,
  match slice_from b with
  | Ok s =>
      let n := length s `min` length src in
      (mkBuffer (take (pointer b) (data b) ++ take n src ++ drop (pointer b + n) (data b))
                ((pointer b + n) `min` length (data b)), Ok tt)
  | Err e => (b, Err e)
  | Panic => (b, Panic)
  end%nat.

Definition PutHash (hash : bytes) : M Buffer unit :=
  if bool_decide (length hash = 16%nat) then PutBuffer hash else fail ErrInvalidHashLength.

(** ** Writing tags *)

Definition UnsupportedTag (typ : Z) : error := ErrWrap "%w: 0x%x" [typ] ErrUnsupportedTag.

(** One tag's share of [TagsLength]: the 4-byte header and the value. *)
Definition tagLength (t : Tag) : result nat :=
  let ty := tag_Type t in
  if ty =? TypeString then
    match tag_Data t with AString v => Ok (4 + (2 + length v))%nat | _ => Err ErrUnsupportedTag end
  else if ty =? TypeHash then Ok 20%nat
  else if ty =? TypeUint8 then Ok 5%nat
  else if ty =? TypeUint16 then Ok 6%nat
  else if ty =? TypeUint32 then Ok 8%nat
  else if ty =? TypeUint64 then Ok 12%nat
  else Err (UnsupportedTag ty).

Fixpoint tagsLength_from (len : nat) (tags : list Tag) : result nat :=
  match tags with
  | [] => Ok len
  | t :: ts => match tagLength t with
               | Ok n => tagsLength_from (len + n) ts
               | Err e => Err e
               | Panic => Panic
               end
  end.

Definition TagsLength (tags : list Tag) : result nat := tagsLength_from 4 tags.

Definition PutTag (tag : Tag) : M Buffer unit :=
  PutUInt8 (tag_Type tag);;
  PutUInt16LE 1;;
  PutUInt8 (tag_Code tag);;
  let ty := tag_Type tag in
  if ty =? TypeString then
    match tag_Data tag with AString v => PutString v | _ => fail ErrUnsupportedTag end
  else if ty =? TypeHash then
    match tag_Data tag with ABytes v => PutHash v | _ => fail ErrUnsupportedTag end
  else if ty =? TypeUint8 then
    match tag_Data tag with
    | AUint8 v => PutUInt8 v | AInt v => PutUInt8 (u8 v) | _ => fail ErrUnsupportedTag end
  else if ty =? TypeUint16 then
    match tag_Data tag with
    | AUint16 v => PutUInt16LE v | AInt v => PutUInt16LE (u16 v) | _ => fail ErrUnsupportedTag end
  else if ty =? TypeUint32 then
    match tag_Data tag with
    | AUint32 v => PutUInt32LE v | AInt v => PutUInt32LE (u32 v) | _ => fail ErrUnsupportedTag end
  else if ty =? TypeUint64 then
    match tag_Data tag with
    | AUint64 v => PutUInt64LE v | AInt v => PutUInt64LE (u64 v) | _ => fail ErrUnsupportedTag end
  else fail (UnsupportedTag ty).

Definition PutTags (tags : list Tag) : M Buffer unit :=
  PutUInt32LE (u32 (length tags));;
  for_each PutTag tags.

(** ** Reading tags *)

(** The remaining-bytes test before a variable-length value, then the copy of it. *)
Definition GetChecked (n : Z) : M Buffer bytes :=
  r ← Remaining;
  if r <? n then fail ErrOutOfBounds else Get n.

Definition GetTagValue (typ : Z) : M Buffer any :=
  if typ =? TypeString then s ← GetString; mret (AString s)
  else if typ =? TypeUint8 then v ← GetUInt8; mret (AUint64 v)
  else if typ =? TypeUint16 then v ← GetUInt16LE; mret (AUint64 v)
  else if typ =? TypeUint32 then v ← GetUInt32LE; mret (AUint64 v)
  else if typ =? TypeUint64 then v ← GetUInt64LE; mret (AUint64 v)
  else if typ =? TypeHash then v ← GetChecked 16; mret (ABytes v)
  else if typ =? TypeFloat then v ← GetChecked 4; mret (AFloat32 (le_combine v))
  else if typ =? TypeBool then v ← GetUInt8; mret (ABool (negb (v =? 0)))
  else if typ =? TypeBlob then n ← GetUInt32LE; v ← GetChecked n; mret (ABytes v)
  else if typ =? TypeBsob then n ← GetUInt8; v ← GetChecked n; mret (ABytes v)
  else if typ =? TypeBoolArray then
    n ← GetUInt16LE; GetChecked (n `div` 8 + 1);; mret ANil
  else if (0x11 <=? typ) && (typ <=? 0x20) then s ← GetStringN (typ - 0x10); mret (AString s)
  else fail (UnsupportedTag typ).

(** [fmt.Sprintf("0x%x", code)] of a byte. *)
Definition hexDigit (d : Z) : Z := if d <? 10 then 48 + d else 87 + d.
Definition hexByte (c : Z) : bytes :=
  str "0x" ++ (if c <? 16 then [hexDigit c] else [hexDigit (c `div` 16); hexDigit (c `mod` 16)]).

Definition tagNames : list (Z * String.string) := [
  (TagName, "name"); (TagSize, "size"); (TagSizeHi, "sizehi"); (TagType, "type");
  (TagFormat, "format"); (TagDescription, "description"); (TagVersion, "version");
  (TagPort, "port2"); (TagSources, "sources"); (TagMuleVersion, "muleversion");
  (TagModVersion, "modversion"); (TagFlags, "flags"); (TagRating, "rating");
  (TagMediaArtist, "artist"); (TagMediaAlbum, "album"); (TagMediaTitle, "title");
  (TagMediaLength, "length"); (TagMediaBitrate, "bitrate"); (TagMediaCodec, "codec");
  (TagSearchTree, "searchtree"); (TagEmuleUDPPorts, "udpports");
  (TagEmuleOptions1, "options1"); (TagEmuleOptions2, "options2"); (TagModIPv6, "ipv6");
  (TagModSvrIPv6, "svripv6"); (TagNatPort, "natport"); (TagModYourIP, "yourip");
  (TagIPv6Status, "ipv6status"); (TagMetaAPI, "metaapi"); (TagMetaAPIVersion, "metaapiver");
  (TagMetaAPIFingerprint, "metaapifp"); (TagEd3k, "ed3k")]%string.

(** The [switch] on the code is a search for the first matching case. *)
Definition tagName (code : Z) : bytes :=
  match list_find (λ c, c.1 = code) tagNames with
  | Some (_, (_, n)) => str n
  | None => hexByte code
  end.

Definition TagDecodeError (pos : nat) (stage : String.string) (typ code : Z) (e : error) : error :=
  ErrWrap stage [Z.of_nat pos; typ; code] e.

Definition GetTag : M Buffer NamedTag :=
  startPos ← Pos;
  tagType ← GetUInt8;
  let stage {A} name code (m : M Buffer A) :=
    wrap_err (TagDecodeError startPos name tagType code) m in
  if negb (Z.land tagType 0x80 =? 0) then
    code ← stage "read-short-code"%string 0 GetUInt8;
    let typ := Z.land tagType 0x7f in
    if 0x10 <=? typ then
      s ← stage "read-short-string"%string code (GetStringN (typ - 0x10));
      mret (mkNamedTag (tagName code) (AString s) TypeString)
    else
      v ← stage "read-value"%string code (GetTagValue typ);
      mret (mkNamedTag (tagName code) v typ)
  else
    l ← stage "read-name-len"%string 0 GetUInt16LE;
    '(name, code) ←
      (if l =? 1 then
         c ← stage "read-name-code"%string 0 GetUInt8; mret (tagName c, c)
       else
         n ← stage "read-name-string"%string 0 (GetChecked l); mret (n, 0));
    v ← stage "read-value"%string code (GetTagValue tagType);
    mret (mkNamedTag name v
            (if (0x11 <=? tagType) && (tagType <=? 0x20) then TypeString else tagType)).

(** [remaining/minBytesEach] is an [int] division of a non-negative [int]. *)
Definition checkWireCount {S} (count remaining minBytesEach : Z) : M S unit :=
  let remaining := Z.max remaining 0 in
  if remaining `quot` minBytesEach <? count
  then fail (ErrWrap "count exceeds remaining bytes" [count; remaining] ErrOutOfBounds)
  else mret tt.

Definition tagsDecodeFailed (start : nat) (i : Z) (e : error) : error :=
  ErrWrap "tags decode failed" [Z.of_nat start; i] e.

Definition GetTags : M Buffer (list NamedTag) :=
  startPos ← Pos;
  count ← GetUInt32LE;
  r ← Remaining;
  checkWireCount count r minTagBytes;;
  for_collect (Z.to_nat count) 0 (λ i, wrap_err (tagsDecodeFailed startPos i) GetTag).

(** ** File records *)

(** [v, _ := value.(string)] and friends: the zero value for any other type. *)
Definition as_string (v : any) : bytes := match v with AString s => s | _ => [] end.
Definition as_uint64 (v : any) : Z := match v with AUint64 n => n | _ => 0 end.

Definition tagUint32 (v : any) : Z :=
  match v with
  | AUint64 n => if 0xffffffff <? n then 0xffffffff else u32 n
  | _ => 0
  end.

Definition FileRecord0 : FileRecord :=
  mkFileRecord [] false 0 0 0 0 0 [] [] 0 [] [] [] 0 0 [] [] 0 0.

(** The two size tags add up to [Size], in whichever order they come. *)
Definition sumSize (r : FileRecord) : FileRecord :=
  { r with fr_Size := u64 (fr_sizeLo r + fr_sizeHi r * 0x100000000) }.

Definition SetTag (name : bytes) (value : any) (r : FileRecord) : FileRecord * bool :=
  let called s := bool_decide (name = str s) in
  if called "name"%string then ({ r with fr_Name := as_string value }, true)
  else if called "type"%string then ({ r with fr_Type := as_string value }, true)
  else if called "title"%string then ({ r with fr_Title := as_string value }, true)
  else if called "artist"%string then ({ r with fr_Artist := as_string value }, true)
  else if called "album"%string then ({ r with fr_Album := as_string value }, true)
  else if called "codec"%string then ({ r with fr_Codec := as_string value }, true)
  else if called "sources"%string then ({ r with fr_Sources := tagUint32 value }, true)
  else if called "length"%string then ({ r with fr_Length := tagUint32 value }, true)
  else if called "bitrate"%string then ({ r with fr_Bitrate := tagUint32 value }, true)
  else if called "size"%string then
    let v := as_uint64 value in
    (sumSize { r with fr_sizeLo := v; fr_SizeLo := u32 v }, true)
  else if called "sizehi"%string then
    let v := as_uint64 value in
    (sumSize { r with fr_sizeHi := v; fr_SizeHi := u32 v }, true)
  else (r, false).

(** The value of the last [Extra] tag called [name]. *)
Definition FileRecord_Tag (name : bytes) (r : FileRecord) : any :=
  match list_find (λ t, nt_Name t = name) (reverse (fr_Extra r)) with
  | Some (_, t) => nt_Value t
  | None => ANil
  end.

Definition getFileTags (keepExtra : bool) (record : FileRecord) : M Buffer FileRecord :=
  startPos ← Pos;
  count ← GetUInt32LE;
  r ← Remaining;
  checkWireCount count r minTagBytes;;
  for_fold (Z.to_nat count) 0
    (λ i record,
       tag ← wrap_err (tagsDecodeFailed startPos i) GetTag;
       let '(record', known) := SetTag (nt_Name tag) (nt_Value tag) record in
       mret (if negb known && keepExtra
             then { record' with fr_Extra := fr_Extra record' ++ [tag] } else record'))
    record.

Definition filelistDecodeFailed (i id port : Z) (e : error) : error :=
  ErrWrap "filelist decode failed" [i; id; port] e.

Definition getFileRecord (keepExtra : bool) (i : Z) : M Buffer FileRecord :=
  hash ← Get 16;
  if negb (bool_decide (length hash = 16%nat)) then fail ErrOutOfBounds else
  id ← GetUInt32LE;
  port ← GetUInt16LE;
  let record := { FileRecord0 with fr_Hash := hash;
                  fr_Complete := negb ((id =? ValPartialID) && (port =? ValPartialPort));
                  fr_ID := id; fr_Port := port } in
  wrap_err (filelistDecodeFailed i id port) (getFileTags keepExtra record).

Definition getFileList (keepExtra : bool) : M Buffer (list FileRecord) :=
  count ← GetUInt32LE;
  r ← Remaining;
  checkWireCount count r minFileRecordBytes;;
  for_collect (Z.to_nat count) 0 (getFileRecord keepExtra).

Definition GetFileList : M Buffer (list FileRecord) := getFileList true.
Definition GetOfferedFiles : M Buffer (list FileRecord) := getFileList false.

(** ** Well-formed buffers and decoders

    [decodes P m]: on any well-formed buffer [m] does not panic, leaves the bytes alone,
    moves the cursor forward inside the buffer, and a value it returns satisfies [P]. *)

Definition wf_buf (b : Buffer) : Prop :=
  (pointer b <= length (data b))%nat ∧ wf_bytes (data b).

#[export] Instance wf_buf_dec b : Decision (wf_buf b).
Proof. unfold wf_buf. apply _. Defined.

Definition advances (b b' : Buffer) : Prop :=
  data b' = data b ∧ (pointer b <= pointer b')%nat ∧ (pointer b' <= length (data b))%nat.

Definition decodes {A} (P : A → Prop) (m : M Buffer A) : Prop := ∀ b, wf_buf b →
  match m b with
  | (b', Ok a) => advances b b' ∧ P a
  | (b', Err _) => advances b b'
  | (_, Panic) => False
  end.

(** [reads m bs a]: wherever [bs] lies under the cursor, [m] consumes exactly [bs] and
    returns [a]. [writes m bs]: [m] overwrites the next [length bs] bytes with [bs]. *)

Definition reads {A} (m : M Buffer A) (bs : bytes) (a : A) : Prop := ∀ pre post,
  m (mkBuffer (pre ++ bs ++ post) (length pre)) =
    (mkBuffer (pre ++ bs ++ post) (length pre + length bs), Ok a).

Definition writes (m : M Buffer unit) (bs : bytes) : Prop := ∀ pre old post,
  length old = length bs →
  m (mkBuffer (pre ++ old ++ post) (length pre)) =
    (mkBuffer (pre ++ bs ++ post) (length pre + length bs), Ok tt).

(** *** The structural rules *)

Lemma advances_refl b : wf_buf b → advances b b.
Proof. intros [? _]. done. Qed.

Lemma advances_trans b1 b2 b3 : advances b1 b2 → advances b2 b3 → advances b1 b3.
Proof. intros (E1&?&?) (E2&?&?). rewrite E1 in *. unfold advances. naive_solver lia. Qed.

Lemma advances_wf b b' : wf_buf b → advances b b' → wf_buf b'.
Proof. intros [? ?] (E&?&?). unfold wf_buf. rewrite E. auto. Qed.

Lemma decodes_ret {A} (P : A → Prop) a : P a → decodes P (mret a).
Proof. intros HP b Hb. split; [by apply advances_refl|done]. Qed.

Lemma decodes_fail {A} (P : A → Prop) e : decodes P (fail e).
Proof. intros b Hb. by apply advances_refl. Qed.

Lemma decodes_bind {A B} (P : A → Prop) (Q : B → Prop) m f :
  decodes P m → (∀ a, P a → decodes Q (f a)) → decodes Q (m ≫= f).
Proof.
  intros Hm Hf b Hb. specialize (Hm b Hb). unfold mbind, M_bind.
  destruct (m b) as [b1 [a|e|]]; [|done|done]. destruct Hm as [Ha HP].
  specialize (Hf a HP b1 (advances_wf _ _ Hb Ha)).
  destruct (f a b1) as [b2 [c|e|]]; [|by eapply advances_trans|done].
  destruct Hf. split; [by eapply advances_trans|done].
Qed.

Lemma decodes_wrap {A} (P : A → Prop) g m : decodes P m → decodes P (wrap_err g m).
Proof.
  intros Hm b Hb. specialize (Hm b Hb). unfold wrap_err. by destruct (m b) as [? []].
Qed.

Lemma decodes_weaken {A} (P Q : A → Prop) m : decodes P m → (∀ a, P a → Q a) → decodes Q m.
Proof. intros Hm H b Hb. generalize (Hm b Hb). destruct (m b) as [? []]; [|done|done]. intros [??]. auto. Qed.

Lemma decodes_for_collect {A} (P : A → Prop) n i body :
  (∀ i, decodes P (body i)) →
  decodes (λ l, length l = n ∧ Forall P l) (for_collect n i body).
Proof.
  intros Hb. revert i. induction n as [|n IH]; intros i; simpl.
  { apply decodes_ret. by split. }
  eapply decodes_bind; [apply Hb|]. intros a Ha.
  eapply decodes_bind; [apply IH|]. intros l [<- Hl]. apply decodes_ret. by split; [|constructor].
Qed.

Lemma decodes_for_fold {A} (P : A → Prop) n i body a :
  P a → (∀ i a, P a → decodes P (body i a)) → decodes P (for_fold n i body a).
Proof.
  intros Ha Hb. revert i a Ha. induction n as [|n IH]; intros i a Ha; simpl.
  { by apply decodes_ret. }
  eapply decodes_bind; [by apply Hb|]. auto.
Qed.

Lemma decodes_if {A} (P : A → Prop) (c : bool) m1 m2 :
  (c = true → decodes P m1) → (c = false → decodes P m2) → decodes P (if c then m1 else m2).
Proof. destruct c; auto. Qed.

Lemma reads_ret {A} (a : A) : reads (mret a) [] a.
Proof. intros pre post. simpl. by rewrite Nat.add_0_r. Qed.

Lemma reads_bind {A B} (m : M Buffer A) (f : A → M Buffer B) bs1 bs2 a c :
  reads m bs1 a → reads (f a) bs2 c → reads (m ≫= f) (bs1 ++ bs2) c.
Proof.
  intros H1 H2 pre post. unfold mbind, M_bind. rewrite <- !app_assoc.
  rewrite (H1 pre (bs2 ++ post)). specialize (H2 (pre ++ bs1) post).
  rewrite length_app, <- app_assoc in H2. rewrite H2. by rewrite length_app, Nat.add_assoc.
Qed.

(** The same, run at a given place. *)
Lemma reads_then {A B} (m : M Buffer A) (f : A → M Buffer B) bs a pre post :
  reads m bs a →
  (m ≫= f) (mkBuffer (pre ++ bs ++ post) (length pre)) =
    f a (mkBuffer ((pre ++ bs) ++ post) (length (pre ++ bs))).
Proof. intros H. unfold mbind, M_bind. rewrite H, length_app. by rewrite <- app_assoc. Qed.

Lemma reads_start {A B} (m : M Buffer A) (f : A → M Buffer B) bs a post :
  reads m bs a → (m ≫= f) (mkBuffer (bs ++ post) 0) = f a (mkBuffer (bs ++ post) (length bs)).
Proof. apply (reads_then m f bs a []). Qed.

(** A step that reads nothing: a test of the cursor or of the remaining bytes. *)
Lemma reads_bind0 {A B} (m : M Buffer A) (f : A → M Buffer B) bs c :
  (∀ pre post, ∃ a, m (mkBuffer (pre ++ bs ++ post) (length pre)) =
     (mkBuffer (pre ++ bs ++ post) (length pre), Ok a) ∧
     f a (mkBuffer (pre ++ bs ++ post) (length pre)) =
       (mkBuffer (pre ++ bs ++ post) (length pre + length bs), Ok c)) →
  reads (m ≫= f) bs c.
Proof. intros H pre post. destruct (H pre post) as (a&E&Ef). unfold mbind, M_bind. by rewrite E. Qed.

Lemma reads_wrap {A} g (m : M Buffer A) bs a : reads m bs a → reads (wrap_err g m) bs a.
Proof. intros H pre post. unfold wrap_err. by rewrite H. Qed.

Lemma reads_for_collect {A} (encs : list bytes) (vals : list A) body :
  Forall2 (λ bs a, ∀ i, reads (body i) bs a) encs vals →
  ∀ i, reads (for_collect (length vals) i body) (concat encs) vals.
Proof.
  induction 1 as [|bs a encs vals H _ IH]; intros i; simpl; [apply reads_ret|].
  eapply reads_bind; [apply H|]. rewrite <- (app_nil_r (concat encs)).
  eapply reads_bind; [apply IH|]. apply reads_ret.
Qed.

Lemma writes_seq m1 m2 bs1 bs2 : writes m1 bs1 → writes m2 bs2 → writes (m1;; m2) (bs1 ++ bs2).
Proof.
  intros H1 H2 pre old post Hl. rewrite length_app in Hl. unfold mbind, M_bind.
  rewrite <- (take_drop (length bs1) old), <- !app_assoc.
  rewrite (H1 pre (take (length bs1) old)) by (rewrite length_take; lia).
  specialize (H2 (pre ++ bs1) (drop (length bs1) old) post).
  rewrite length_app, <- app_assoc in H2. rewrite H2 by (rewrite length_drop; lia).
  by rewrite length_app, Nat.add_assoc, <- app_assoc.
Qed.

Lemma writes_for_each {A} (body : A → M Buffer unit) l encs :
  Forall2 (λ x bs, writes (body x) bs) l encs → writes (for_each body l) (concat encs).
Proof.
  induction 1 as [|x bs l encs H _ IH]; simpl; [|by apply writes_seq].
  intros pre old post. destruct old; [|done]. intros _. simpl. by rewrite Nat.add_0_r.
Qed.

(** *** The primitives decode *)

Ltac solve_advances := unfold advances; simpl; split_and!; [done|lia|lia].

Lemma decodes_Pos : decodes (λ _, True) Pos.
Proof. intros b Hb. split; [by apply advances_refl|done]. Qed.

Lemma decodes_Remaining : decodes (λ _, True) Remaining.
Proof. intros b Hb. split; [by apply advances_refl|done]. Qed.

Lemma decodes_le k (n : nat) :
  (k <= n)%nat → ∀ b, wf_buf b → (pointer b + n <= length (data b))%nat →
  ∃ v, read_le k b = (mkBuffer (data b) (pointer b + k), Ok v) ∧ fits (8 * k) v.
Proof.
  intros Hk b [Hp Hw] Hn. unfold read_le, slice_from.
  destruct (Nat.ltb_spec (length (data b)) (pointer b)); [lia|].
  rewrite length_drop. destruct (Nat.ltb_spec (length (data b) - pointer b) k); [lia|].
  eexists; split; [done|]. unfold fits.
  assert (length (take k (drop (pointer b) (data b))) = k) as Hlen
    by (rewrite length_take, length_drop; lia).
  rewrite <- Hlen at 3. apply le_combine_bound. by apply Forall_take, Forall_drop.
Qed.

Lemma decodes_require_le (k : nat) : decodes (fits (8 * k)) (require k;; read_le k).
Proof.
  intros b Hb. unfold mbind, M_bind, require.
  destruct (Nat.ltb_spec (length (data b)) (pointer b + k)); [by apply advances_refl|].
  destruct (decodes_le k k ltac:(done) b Hb) as (v&->&Hv); [lia|].
  split; [|done]. solve_advances.
Qed.

Lemma decodes_GetUInt8 : decodes (fits 8) GetUInt8.
Proof. apply (decodes_require_le 1). Qed.
Lemma decodes_GetUInt16LE : decodes (fits 16) GetUInt16LE.
Proof. apply (decodes_require_le 2). Qed.
Lemma decodes_GetUInt32LE : decodes (fits 32) GetUInt32LE.
Proof. apply (decodes_require_le 4). Qed.

Lemma decodes_GetUInt64LE : decodes (fits 64) GetUInt64LE.
Proof.
  intros b Hb. unfold GetUInt64LE, mbind, M_bind, require.
  destruct (Nat.ltb_spec (length (data b)) (pointer b + 8)); [by apply advances_refl|].
  destruct (decodes_le 4 8 ltac:(lia) b Hb) as (lo&->&Hlo); [lia|].
  destruct (decodes_le 4 4 ltac:(lia) (mkBuffer (data b) (pointer b + 4))) as (hi&->&Hhi).
  { destruct Hb. unfold wf_buf; simpl. split; [lia|done]. }
  { simpl. lia. }
  simpl. split; [solve_advances|].
  unfold fits, u64. apply Z.mod_pos_bound. lia.
Qed.

Lemma decodes_Get n : 0 <= n → decodes (λ s, wf_bytes s ∧ length s <= n) (Get n).
Proof.
  intros Hn b [Hp Hw]. unfold Get. destruct (Z.eqb_spec n 0) as [->|Hn0].
  { split; [by apply advances_refl|]. split; [constructor|simpl; lia]. }
  destruct (Z.ltb_spec (Z.min (pointer b + n) (length (data b))) (pointer b)); [lia|].
  split; [solve_advances|]. split; [by apply Forall_take, Forall_drop|].
  rewrite length_take, length_drop. lia.
Qed.

Lemma decodes_GetChecked n : 0 <= n → decodes (λ s, wf_bytes s ∧ length s = Z.to_nat n) (GetChecked n).
Proof.
  intros Hn b Hb. pose proof (decodes_Get n Hn b Hb) as HG.
  unfold GetChecked, mbind, M_bind, Remaining, Remaining_of.
  destruct (Nat.leb_spec (length (data b)) (pointer b)).
  - destruct (Z.ltb_spec 0%nat n); [by apply advances_refl|].
    replace n with 0 in * by lia. unfold Get in *. simpl in *.
    destruct HG as [? [? ?]]. split_and!; [done..|lia].
  - destruct (Z.ltb_spec (length (data b) - pointer b)%nat n); [by apply advances_refl|].
    unfold Get in *. destruct (Z.eqb_spec n 0) as [->|Hn0]; [by destruct HG as [? [? ?]]; split_and!|].
    destruct (Z.ltb_spec (Z.min (pointer b + n) (length (data b))) (pointer b)); [done|].
    destruct HG as [? [? ?]]. split; [done|]. split; [done|].
    rewrite length_take, length_drop. lia.
Qed.

(** [GetStringN] is [GetChecked] behind the sign test. *)
Lemma GetStringN_checked l : 0 <= l → ∀ b, GetStringN l b = GetChecked l b.
Proof.
  intros Hl b. unfold GetStringN, GetChecked, mbind, M_bind, Remaining.
  destruct (Z.ltb_spec l 0); [lia|]. done.
Qed.

Lemma decodes_GetStringN l : 0 <= l → decodes (λ s, wf_bytes s ∧ length s = Z.to_nat l) (GetStringN l).
Proof. intros Hl b Hb. rewrite GetStringN_checked by done. by apply decodes_GetChecked. Qed.

Lemma decodes_GetString : decodes (λ s, wf_bytes s ∧ (length s < 2 ^ 16)) GetString.
Proof.
  eapply decodes_bind; [apply decodes_GetUInt16LE|]. intros l [? ?].
  eapply decodes_weaken; [by apply decodes_GetStringN|]. intros s [? ->]. split; [done|lia].
Qed.

Create HintDb decodes.
#[export] Hint Extern 1 (0 <= _) => solve_range : decodes.
#[export] Hint Resolve decodes_GetChecked decodes_GetStringN : decodes.
#[export] Hint Resolve decodes_Pos decodes_Remaining decodes_GetUInt8 decodes_GetUInt16LE
  decodes_GetUInt32LE decodes_GetUInt64LE decodes_GetString decodes_fail : decodes.

(** Walk a decoder: one rule per [bind], [if] and [wrap_err]. *)
Ltac decode_step :=
  lazymatch goal with
  | |- decodes _ (if _ then _ else _) => apply decodes_if; intros ?
  | |- decodes _ (mbind _ _) => eapply decodes_bind; [|cbv beta; intros ? ?]
  | |- decodes _ (wrap_err _ _) => apply decodes_wrap
  | |- decodes _ (mret _) => apply decodes_ret
  | |- decodes _ (let '_ := ?x in _) => destruct x eqn:?
  | |- decodes _ (match ?x with _ => _ end) => destruct x eqn:?
  | |- decodes _ _ => solve [eauto with decodes]
  end.

(** The types a decoded tag value takes. *)
Definition wf_value (v : any) : Prop :=
  match v with
  | ANil | ABool _ => True
  | AString s | ABytes s => wf_bytes s
  | AUint64 n => fits 64 n
  | AFloat32 n => fits 32 n
  | _ => False
  end.

Lemma decodes_GetTagValue typ : decodes wf_value (GetTagValue typ).
Proof.
  unfold GetTagValue.
  repeat decode_step; cbv beta in *; destruct_and?; try done; try (simpl; solve_range).
  pose proof (le_combine_bound a) as Ha. replace (length a) with 4%nat in Ha by done.
  by apply Ha.
Qed.

Lemma wf_hexByte c : fits 8 c → wf_bytes (hexByte c).
Proof.
  intros Hc. unfold hexByte. apply Forall_app. split; [apply wf_str|].
  destruct (Z.ltb_spec c 16); repeat constructor; unfold hexDigit;
    (case_match; solve_range).
Qed.

Lemma wf_tagName c : fits 8 c → wf_bytes (tagName c).
Proof.
  intros Hc. unfold tagName. destruct (list_find _ _) as [[i [c' n]]|]; [apply wf_str|].
  by apply wf_hexByte.
Qed.

Definition wf_tag (t : NamedTag) : Prop :=
  wf_bytes (nt_Name t) ∧ wf_value (nt_Value t) ∧ fits 8 (nt_Type t).

Lemma decodes_GetTag : decodes wf_tag GetTag.
Proof.
  unfold GetTag.
  eapply decodes_bind; [apply decodes_Pos|]. intros start _.
  eapply decodes_bind; [apply decodes_GetUInt8|]. intros ty Hty.
  assert (0 <= Z.land ty 0x7f < 2 ^ 7) as Hland.
  { change 0x7f with (Z.ones 7). rewrite Z.land_ones by lia. by apply Z.mod_pos_bound. }
  apply decodes_if; intros _.
  - eapply decodes_bind; [apply decodes_wrap, decodes_GetUInt8|]. intros c Hc.
    apply decodes_if; intros Hs.
    + eapply decodes_bind; [apply decodes_wrap, decodes_GetStringN; solve_range|].
      intros s [Hs1 _]. apply decodes_ret. split_and!; [by apply wf_tagName|done|done].
    + eapply decodes_bind; [apply decodes_wrap, decodes_GetTagValue|]. intros v Hv.
      apply decodes_ret. split_and!; [by apply wf_tagName|done|simpl; solve_range].
  - eapply decodes_bind; [apply decodes_wrap, decodes_GetUInt16LE|]. intros l Hl.
    eapply (decodes_bind (λ p, wf_bytes p.1)).
    { apply decodes_if; intros _.
      - eapply decodes_bind; [apply decodes_wrap, decodes_GetUInt8|]. intros c Hc.
        apply decodes_ret. by apply wf_tagName.
      - eapply decodes_bind; [apply decodes_wrap, decodes_GetChecked; solve_range|].
        intros n [Hn _]. by apply decodes_ret. }
    intros [name code] Hname.
    eapply decodes_bind; [apply decodes_wrap, decodes_GetTagValue|]. intros v Hv.
    apply decodes_ret. split_and!; [done..|]. simpl. by case_match.
Qed.

Lemma Remaining_of_wf b : wf_buf b → Remaining_of b = (length (data b) - pointer b)%nat.
Proof. intros _. unfold Remaining_of. case_match eqn:E; [apply Nat.leb_le in E; lia|done]. Qed.

(** A counted list reserves no more rounds than the bytes left can hold. *)
Lemma counted_count minBytes b :
  0 < minBytes → wf_buf b →
  match (count ← GetUInt32LE; r ← Remaining; checkWireCount count r minBytes;; mret count) b with
  | (b', Ok count) => advances b b' ∧ 0 <= count ∧ minBytes * count + 4 <= Remaining_of b
  | (b', Err _) => advances b b'
  | (_, Panic) => False
  end.
Proof.
  intros Hm Hb. pose proof (decodes_GetUInt32LE b Hb) as H. unfold mbind, M_bind.
  unfold GetUInt32LE, mbind, M_bind, require in *.
  destruct (Nat.ltb_spec (length (data b)) (pointer b + 4)); [done|].
  destruct (decodes_le 4 4 ltac:(done) b Hb) as (v&E&Hv); [lia|]. rewrite E in *.
  destruct H as [Ha _]. pose proof (advances_wf _ _ Hb Ha) as Hb'.
  simpl. rewrite (Remaining_of_wf b Hb), (Remaining_of_wf _ Hb'). unfold checkWireCount. simpl.
  set (r := Z.of_nat (length (data b) - (pointer b + 4))).
  destruct (Z.ltb_spec (Z.max r 0 `quot` minBytes) v); simpl; [done|].
  split; [done|]. unfold fits in Hv. split; [lia|].
  assert (minBytes * (Z.max r 0 `quot` minBytes) <= Z.max r 0) by (apply Z.mul_quot_le; lia).
  subst r. nia.
Qed.

(** A counted loop: [count], the test of it against what is left, [count] rounds. *)
Definition counted {A} (minBytes : Z) (loop : nat → M Buffer A) : M Buffer A :=
  count ← GetUInt32LE; r ← Remaining; checkWireCount count r minBytes;; loop (Z.to_nat count).

Lemma counted_decodes {A} minBytes (loop : nat → M Buffer A) (P : nat → A → Prop) b :
  0 < minBytes → wf_buf b → (∀ n, decodes (P n) (loop n)) →
  match counted minBytes loop b with
  | (b', Ok a) => advances b b' ∧ ∃ n : nat, P n a ∧ minBytes * n + 4 <= Remaining_of b
  | (b', Err _) => advances b b'
  | (_, Panic) => False
  end.
Proof.
  intros Hm Hb Hl. pose proof (counted_count minBytes b Hm Hb) as H.
  unfold counted, mbind, M_bind, mret, M_ret in *.
  destruct (GetUInt32LE b) as [b1 [count|e|]]; [|done|done].
  destruct (Remaining b1) as [b2 [r|e|]]; [|done|done].
  destruct (checkWireCount count r minBytes b2) as [b3 [[]|e|]]; [|done|done].
  destruct H as (Ha&H0&Hc). pose proof (advances_wf _ _ Hb Ha) as Hb3.
  specialize (Hl (Z.to_nat count) b3 Hb3).
  destruct (loop _ b3) as [b4 [a|e|]]; [|by eapply advances_trans|done].
  destruct Hl as [Ha' HP]. split; [by eapply advances_trans|].
  exists (Z.to_nat count). split; [done|]. by rewrite Z2Nat.id.
Qed.

Lemma counted_decodes' {A} minBytes (loop : nat → M Buffer A) (P : A → Prop) :
  0 < minBytes → (∀ n, decodes P (loop n)) → decodes P (counted minBytes loop).
Proof.
  intros Hm Hl b Hb. pose proof (counted_decodes minBytes loop (λ _, P) b Hm Hb Hl) as H.
  destruct (counted minBytes loop b) as [b' [a|e|]]; [|done|done].
  destruct H as (?&?&?&?). done.
Qed.

(** What a decoded record holds: every field in the range of its Go type, and the two
    halves of the size adding up. *)
Record wf_record (r : FileRecord) : Prop := {
  wfr_hash : length (fr_Hash r) = 16%nat ∧ wf_bytes (fr_Hash r);
  wfr_id : fits 32 (fr_ID r);
  wfr_port : fits 16 (fr_Port r);
  wfr_sizes : fits 64 (fr_sizeLo r) ∧ fits 64 (fr_sizeHi r);
  wfr_lo : fr_SizeLo r = u32 (fr_sizeLo r);
  wfr_hi : fr_SizeHi r = u32 (fr_sizeHi r);
  wfr_size : fr_Size r = u64 (fr_sizeLo r + fr_sizeHi r * 0x100000000);
  wfr_nums : fits 32 (fr_Sources r) ∧ fits 32 (fr_Length r) ∧ fits 32 (fr_Bitrate r);
  wfr_texts : wf_bytes (fr_Name r) ∧ wf_bytes (fr_Type r) ∧ wf_bytes (fr_Title r) ∧
    wf_bytes (fr_Artist r) ∧ wf_bytes (fr_Album r) ∧ wf_bytes (fr_Codec r);
  wfr_complete : fr_Complete r =
    negb ((fr_ID r =? ValPartialID) && (fr_Port r =? ValPartialPort));
  wfr_extra : Forall wf_tag (fr_Extra r);
}.

Lemma wf_as_string v : wf_value v → wf_bytes (as_string v).
Proof. destruct v; simpl; auto. Qed.

Lemma wf_as_uint64 v : wf_value v → fits 64 (as_uint64 v).
Proof. destruct v; simpl; try done; intros; solve_range. Qed.

Lemma wf_tagUint32 v : fits 32 (tagUint32 v).
Proof. destruct v; simpl; try (case_match); solve_range. Qed.
#[export] Hint Resolve wf_as_string wf_as_uint64 wf_tagUint32 : go.

Lemma SetTag_wf name v r : wf_record r → wf_value v → wf_record (SetTag name v r).1.
Proof.
  intros [] Hv. unfold SetTag. destruct_and!.
  repeat (case_bool_decide; [simpl; split; simpl; split_and?; auto with go|]). by split.
Qed.

Lemma decodes_getFileTags keepExtra r : wf_record r → decodes wf_record (getFileTags keepExtra r).
Proof.
  intros Hr. unfold getFileTags. eapply decodes_bind; [apply decodes_Pos|]. intros start _.
  refine (counted_decodes' minTagBytes (λ n, for_fold n 0 _ r) _ _ _); [done|].
  intros n. apply decodes_for_fold; [done|].
  intros i a Ha. eapply decodes_bind; [apply decodes_wrap, decodes_GetTag|]. intros t Ht.
  destruct (SetTag _ _ a) as [r' known] eqn:E. apply decodes_ret.
  assert (wf_record r') as Hr'.
  { replace r' with (SetTag (nt_Name t) (nt_Value t) a).1 by (by rewrite E).
    apply SetTag_wf; [done|]. apply Ht. }
  case_match; [|done]. destruct Hr'. split; simpl; auto. apply Forall_app; split; auto.
Qed.

Lemma decodes_getFileRecord keepExtra i : decodes wf_record (getFileRecord keepExtra i).
Proof.
  unfold getFileRecord. eapply decodes_bind; [apply decodes_Get; lia|]. intros h [Hh _].
  apply decodes_if; intros H16; [apply decodes_fail|].
  apply negb_false_iff, bool_decide_eq_true in H16.
  eapply decodes_bind; [apply decodes_GetUInt32LE|]. intros id Hid.
  eapply decodes_bind; [apply decodes_GetUInt16LE|]. intros port Hport.
  apply decodes_wrap, decodes_getFileTags. split; simpl; auto; repeat split; auto; solve_range.
Qed.

Lemma counted_collect {A} minBytes (body : Z → M Buffer A) (P : A → Prop) b :
  0 < minBytes → wf_buf b → (∀ i, decodes P (body i)) →
  match counted minBytes (λ n, for_collect n 0 body) b with
  | (b', Ok l) => advances b b' ∧ Forall P l ∧ minBytes * length l + 4 <= Remaining_of b
  | (b', Err _) => advances b b'
  | (_, Panic) => False
  end.
Proof.
  intros Hm Hb Hbody.
  pose proof (counted_decodes minBytes (λ n, for_collect n 0 body)
    (λ n l, length l = n ∧ Forall P l) b Hm Hb (λ n, decodes_for_collect P n 0 body Hbody)) as H.
  destruct (counted _ _ b) as [b' [l|e|]]; [|done..]. by destruct H as (?&n&[<- ?]&?).
Qed.

Lemma decodes_GetTags : decodes (Forall wf_tag) GetTags.
Proof.
  intros b Hb.
  pose proof (counted_collect minTagBytes (λ i, wrap_err (tagsDecodeFailed (pointer b) i) GetTag)
    wf_tag b eq_refl Hb (λ i, decodes_wrap _ _ _ decodes_GetTag)) as H.
  change (GetTags b) with (counted minTagBytes
    (λ n, for_collect n 0 (λ i, wrap_err (tagsDecodeFailed (pointer b) i) GetTag)) b).
  destruct (counted _ _ b) as [b' [l|e|]]; [|done..]. by destruct H as (?&?&_).
Qed.

(** Decoding a tag list from any bytes a peer may send never panics: it returns or
    fails with an error, the bytes are untouched, the cursor stays inside the buffer, the
    list never has more entries than half the bytes that were left, and every value has
    the range its type promises. *)
Lemma GetTags_safe b : wf_buf b →
  match GetTags b with
  | (b', Ok l) => advances b b' ∧ Forall wf_tag l ∧ 2 * length l + 4 <= Remaining_of b
  | (b', Err _) => advances b b'
  | (_, Panic) => False
  end.
Proof.
  intros Hb. apply (counted_collect minTagBytes); [done..|].
  intros i. apply decodes_wrap, decodes_GetTag.
Qed.

(** A tag count of 2^32-1 over two bytes is refused, and nothing panics. *)
(** C33: the same for a file list, offered or received: no panic on any input, the cursor
    in bounds, at most one record per 26 bytes left, and every record well formed: a
    16-byte hash, every number in its Go type, and the 64-bit size equal to the sum of the
    two size tags whatever order and however often they came. *)
Theorem getFileList_safe keepExtra b : wf_buf b →
  match getFileList keepExtra b with
  | (b', Ok l) => advances b b' ∧ Forall wf_record l ∧ 26 * length l + 4 <= Remaining_of b
  | (b', Err _) => advances b b'
  | (_, Panic) => False
  end.
Proof.
  intros Hb. apply (counted_collect minFileRecordBytes); [done..|]. apply decodes_getFileRecord.
Qed.

(** One record of a name and both size tags, the high word first. *)
Definition sampleFileList : bytes :=
  [1; 0; 0; 0] ++ replicate 16 7 ++ [1; 2; 3; 4; 5; 6] ++ [3; 0; 0; 0] ++
  [0x89; 0x3a; 2] ++ [0x83; 0x02; 1; 0; 0; 0] ++ [0x92; 0x01; 97; 98].

Lemma getFileList_safe_witness :
  let b := NewBufferFromBytes sampleFileList in
  wf_buf b ∧
  match getFileList false b with
  | (b', Ok [r]) => advances b b' ∧ wf_record r ∧ fr_Size r = 2 * 2 ^ 32 + 1
  | _ => False
  end.
Proof.
  assert (wf_buf (NewBufferFromBytes sampleFileList)) as Hb.
  { by_decision. }
  split; [exact Hb|]. pose proof (getFileList_safe false _ Hb) as H.
  destruct (getFileList false _) as [b' res] eqn:E. vm_compute in E. injection E as <- <-.
  destruct H as (?&Hr&_). inversion_clear Hr. by split_and!.
Defined.

(** ** The primitives read and write *)

Lemma take_pre {A} (pre bs post : list A) : take (length pre) (pre ++ bs ++ post) = pre.
Proof. by rewrite take_app_length. Qed.

Lemma writes_write_at bs : writes (require (length bs);; write_at bs) bs.
Proof.
  intros pre old post Hl. unfold mbind, M_bind, require, write_at. simpl.
  rewrite !length_app. int_test.
  simpl. rewrite !length_app. int_test.
  by rewrite take_pre, drop_app_add, drop_app_exact by lia.
Qed.

Lemma writes_le k n : writes (require k;; write_at (le_split k n)) (le_split k n).
Proof. pose proof (writes_write_at (le_split k n)) as H. by rewrite length_le_split in H. Qed.

Lemma writes_PutString s : writes (PutString s) (le_split 2 (u16 (length s)) ++ s).
Proof. apply writes_seq; [apply writes_le|apply writes_write_at]. Qed.

Lemma writes_PutBuffer src : writes (PutBuffer src) src.
Proof.
  intros pre old post Hl. unfold PutBuffer, slice_from. simpl.
  rewrite !length_app. int_test.
  rewrite drop_app_length, length_app, Nat.min_r by lia.
  rewrite take_pre, drop_app_add, drop_app_exact, firstn_all by lia. f_equal. f_equal. lia.
Qed.

Lemma writes_PutHash h : length h = 16%nat → writes (PutHash h) h.
Proof. intros H. unfold PutHash. rewrite bool_decide_true by done. apply writes_PutBuffer. Qed.

(** A read that passed its [require] reads on from inside the buffer. *)
Lemma reads_le_mod (k : nat) z : reads (read_le k) (le_split k z) (z `mod` 2 ^ (8 * k)).
Proof.
  intros pre post. unfold read_le, slice_from. simpl.
  rewrite !length_app, length_le_split. int_test.
  rewrite drop_app_length, length_app, length_le_split. int_test.
  rewrite take_app_exact by (by rewrite length_le_split). by rewrite le_combine_split_mod.
Qed.

Lemma reads_require {A} k (m : M Buffer A) bs a :
  (k <= length bs)%nat → reads m bs a → reads (require k;; m) bs a.
Proof.
  intros Hk H. apply reads_bind0. intros pre post. exists (). split; [|apply H].
  unfold require. simpl. rewrite !length_app. int_test. done.
Qed.

Lemma reads_le (k : nat) z : fits (8 * k) z → reads (require k;; read_le k) (le_split k z) z.
Proof.
  intros Hz. apply reads_require; [by rewrite length_le_split|].
  rewrite <- (Z.mod_small z (2 ^ (8 * k))) at 2 by done. apply reads_le_mod.
Qed.

Lemma reads_GetUInt64LE z : fits 64 z → reads GetUInt64LE (le_split 8 z) z.
Proof.
  intros Hz. apply reads_require; [by rewrite length_le_split|].
  change 8%nat with (4 + 4)%nat. rewrite le_split_app.
  eapply reads_bind; [apply reads_le_mod|]. rewrite <- (app_nil_r (le_split 4 (_ `div` _))).
  eapply reads_bind; [apply reads_le_mod|].
  replace (u64 _) with z; [apply reads_ret|].
  change (8 * 4%nat) with 32. solve_range.
Qed.

Lemma reads_Get s : reads (Get (length s)) s s.
Proof.
  intros pre post. unfold Get. simpl. rewrite !length_app. int_test. int_test.
  - destruct s; [|simpl in *; lia]. by rewrite Nat.add_0_r.
  - rewrite drop_app_length. repeat f_equal; [lia|]. rewrite take_app_exact by lia. done.
Qed.

Lemma reads_remaining {A} (f : Z → M Buffer A) bs a :
  (∀ n, length bs <= n → reads (f n) bs a) → reads (r ← Remaining; f r) bs a.
Proof.
  intros H. apply reads_bind0. intros pre post. eexists; split; [done|]. apply H.
  unfold Remaining_of. simpl. rewrite !length_app. int_test; lia.
Qed.

Lemma reads_GetChecked (n : Z) s : n = length s → reads (GetChecked n) s s.
Proof. intros ->. apply reads_remaining. intros n Hn. int_test. apply reads_Get. Qed.

Lemma reads_GetStringN (n : Z) s : n = length s → reads (GetStringN n) s s.
Proof. intros ->. apply reads_remaining. intros n Hn. do 2 int_test. apply reads_Get. Qed.

Lemma reads_GetString s :
  length s < 2 ^ 16 → reads GetString (le_split 2 (u16 (length s)) ++ s) s.
Proof.
  intros Hs. replace (u16 (length s)) with (Z.of_nat (length s)) by solve_range.
  eapply reads_bind; [apply reads_le; solve_range|]. by apply reads_GetStringN.
Qed.

(** ** The tag format, and the round trip through it *)

(** The tags a writer may pass: a value of the dynamic type its wire type asks for, in
    that type's range. An [int] is written at any of the integer types, truncated. *)
Definition tagInRange (t : Tag) : Prop :=
  fits 8 (tag_Code t) ∧
  match tag_Data t with
  | AString s => tag_Type t = TypeString ∧ length s < 2 ^ 16
  | ABytes h => tag_Type t = TypeHash ∧ length h = 16%nat
  | AUint8 v => tag_Type t = TypeUint8 ∧ fits 8 v
  | AUint16 v => tag_Type t = TypeUint16 ∧ fits 16 v
  | AUint32 v => tag_Type t = TypeUint32 ∧ fits 32 v
  | AUint64 v => tag_Type t = TypeUint64 ∧ fits 64 v
  | AInt v => tag_Type t ∈ [TypeUint8; TypeUint16; TypeUint32; TypeUint64]
  | _ => False
  end.

#[export] Instance tagInRange_dec t : Decision (tagInRange t).
Proof. unfold tagInRange. destruct (tag_Data t); apply _. Defined.

(** The width in bytes of an integer type. *)
Definition intWidth (ty : Z) : nat :=
  if ty =? TypeUint8 then 1 else if ty =? TypeUint16 then 2 else if ty =? TypeUint32 then 4 else 8.

(** A tag's bytes on the wire, and the tag a reader gets back. *)
Definition encValue (t : Tag) : bytes :=
  match tag_Data t with
  | AString s => le_split 2 (u16 (length s)) ++ s
  | ABytes h => h
  | AUint8 v | AUint16 v | AUint32 v | AUint64 v => le_split (intWidth (tag_Type t)) v
  | AInt v => le_split (intWidth (tag_Type t)) (v `mod` 2 ^ (8 * intWidth (tag_Type t)))
  | _ => []
  end.

Definition encTag (t : Tag) : bytes :=
  le_split 1 (tag_Type t) ++ le_split 2 1 ++ le_split 1 (tag_Code t) ++ encValue t.

Definition encTags (tags : list Tag) : bytes :=
  le_split 4 (u32 (length tags)) ++ concat (map encTag tags).

Definition decodedTag (t : Tag) : NamedTag :=
  mkNamedTag (tagName (tag_Code t))
    match tag_Data t with
    | AUint8 v | AUint16 v | AUint32 v | AUint64 v => AUint64 v
    | AInt v => AUint64 (v `mod` 2 ^ (8 * intWidth (tag_Type t)))
    | d => d
    end (tag_Type t).

(** Case analysis on a tag in range: one goal per type and dynamic type. *)
Ltac tag_cases H :=
  destruct H as [?Hcode H];
  match type of H with
  | context [tag_Data ?t] => destruct t as [?ty ?code []]; cbn in *; try done;
      try (rewrite !elem_of_cons, elem_of_nil in H); destruct_and?; destruct_or?; simplify_eq
  end.

Lemma writes_PutTag t : tagInRange t → writes (PutTag t) (encTag t).
Proof.
  intros H. unfold PutTag, encTag.
  apply writes_seq; [apply writes_le|]. apply writes_seq; [apply writes_le|].
  apply writes_seq; [apply writes_le|].
  tag_cases H; first [apply writes_PutString | by apply writes_PutHash | apply writes_le].
Qed.

Lemma reads_GetTagValue t :
  tagInRange t → reads (GetTagValue (tag_Type t)) (encValue t) (nt_Value (decodedTag t)).
Proof.
  intros H. rewrite <- (app_nil_r (encValue t)).
  unfold encValue, GetTagValue.
  tag_cases H; cbn; (eapply reads_bind; [|apply reads_ret]);
    first [by apply reads_GetString | apply reads_GetChecked; lia
          | apply reads_le; solve_range | apply reads_GetUInt64LE; solve_range].
Qed.

Lemma reads_Pos {A} (f : nat → M Buffer A) bs a :
  (∀ p, reads (f p) bs a) → reads (p ← Pos; f p) bs a.
Proof. intros H. apply reads_bind0. intros pre post. eexists; split; [done|apply H]. Qed.

Lemma reads_GetTag t : tagInRange t → reads GetTag (encTag t) (decodedTag t).
Proof.
  intros H. pose proof (reads_GetTagValue t H) as Hv. destruct H as [Hcode Hd].
  assert (fits 8 (tag_Type t) ∧ (0x11 <=? tag_Type t) = false ∧ Z.land (tag_Type t) 0x80 = 0)
    as (Hty&Hshort&Hl).
  { clear Hv. assert (tagInRange t) as H by done. tag_cases H; done. }
  apply reads_Pos. intros p. unfold encTag.
  eapply reads_bind; [by apply reads_le|]. rewrite Hl. cbn -[mbind wrap_err].
  eapply reads_bind; [by apply reads_wrap, reads_le|]. cbn -[mbind wrap_err].
  eapply reads_bind.
  { rewrite <- (app_nil_r (le_split 1 _)).
    eapply reads_bind; [by apply reads_wrap, reads_le|apply reads_ret]. }
  rewrite <- (app_nil_r (encValue t)). eapply reads_bind; [by apply reads_wrap|].
  rewrite Hshort. apply reads_ret.
Qed.

Lemma reads_checkWireCount {S} count remaining minBytes (s : S) :
  0 < minBytes → count * minBytes <= remaining → checkWireCount count remaining minBytes s = (s, Ok ()).
Proof.
  intros Hm Hc. unfold checkWireCount.
  destruct (Z.ltb_spec (Z.max remaining 0 `quot` minBytes) count); [|done].
  exfalso. assert (count <= Z.max remaining 0 `quot` minBytes); [|lia].
  apply Z.quot_le_lower_bound; lia.
Qed.

Lemma reads_counted {A} minBytes (loop : nat → M Buffer A) (n : nat) bs a :
  0 < minBytes → n < 2 ^ 32 → n * minBytes <= length bs → reads (loop n) bs a →
  reads (counted minBytes loop) (le_split 4 n ++ bs) a.
Proof.
  intros Hm Hn Hb H. eapply reads_bind; [apply reads_le; solve_range|].
  apply reads_remaining. intros r Hr. rewrite Nat2Z.id.
  apply reads_bind0. intros pre post. exists (). split; [|apply H].
  apply reads_checkWireCount; lia.
Qed.

Lemma length_encTag t : length (encTag t) = (4 + length (encValue t))%nat.
Proof. unfold encTag. by rewrite !length_app, !length_le_split. Qed.

Lemma length_encs_lower {A} (enc : A → bytes) (k : nat) l :
  (∀ x, (k <= length (enc x))%nat) → length l * k <= length (concat (map enc l)).
Proof.
  intros Hk. induction l as [|x l IH]; [done|]. cbn [map concat length].
  rewrite length_app. specialize (Hk x). lia.
Qed.

Lemma reads_GetTags tags :
  Forall tagInRange tags → length tags < 2 ^ 32 →
  reads GetTags (encTags tags) (map decodedTag tags).
Proof.
  intros Ht Hn. apply reads_Pos. intros p. unfold encTags.
  replace (u32 (length tags)) with (Z.of_nat (length tags)) by solve_range.
  rewrite <- (length_map decodedTag tags) at 1.
  refine (reads_counted minTagBytes (λ n, for_collect n 0 _) _ _ _ _ _ _ _); [done|..].
  - by rewrite length_map.
  - rewrite length_map. pose proof (length_encs_lower encTag 2 tags) as Hl.
    apply Hl. intros t. rewrite length_encTag. lia.
  - apply reads_for_collect. apply Forall2_fmap, Forall_Forall2_diag.
    eapply Forall_impl; [done|]. intros t Htag i. by apply reads_wrap, reads_GetTag.
Qed.

Lemma writes_PutTags tags : Forall tagInRange tags → writes (PutTags tags) (encTags tags).
Proof.
  intros Ht. apply writes_seq; [apply writes_le|]. apply writes_for_each.
  apply Forall2_fmap_r, Forall_Forall2_diag. eapply Forall_impl; [done|]. apply writes_PutTag.
Qed.

Lemma tagLength_encTag t : tagInRange t → tagLength t = Ok (length (encTag t)).
Proof.
  intros H. rewrite length_encTag. unfold tagLength, encValue.
  tag_cases H; cbn; rewrite ?length_app, ?length_le_split; do 2 f_equal; lia.
Qed.

Lemma tagsLength_from_encTags tags k : Forall tagInRange tags →
  tagsLength_from k tags = Ok (k + length (concat (map encTag tags)))%nat.
Proof.
  intros H. revert k. induction H as [|t tags Ht _ IH]; intros k;
    cbn [tagsLength_from map concat]; [by rewrite Nat.add_0_r|].
  rewrite tagLength_encTag, IH by done. rewrite length_app. f_equal. lia.
Qed.

Lemma TagsLength_encTags tags : Forall tagInRange tags → TagsLength tags = Ok (length (encTags tags)).
Proof.
  intros H. unfold TagsLength, encTags. rewrite tagsLength_from_encTags by done.
  by rewrite length_app, length_le_split.
Qed.

(** Writing over the whole of a fresh buffer leaves exactly the bytes written. *)
Lemma writes_NewBuffer m bs : writes m bs → m (NewBuffer (length bs)) = (mkBuffer bs (length bs), Ok ()).
Proof.
  intros H. specialize (H [] (replicate (length bs) 0) []). simpl in H.
  rewrite !app_nil_r in H. apply H. by rewrite length_replicate.
Qed.

Lemma reads_all {A} (m : M Buffer A) bs a :
  reads m bs a → m (NewBufferFromBytes bs) = (mkBuffer bs (length bs), Ok a).
Proof. intros H. specialize (H [] []). simpl in H. by rewrite !app_nil_r in H. Qed.

(** C32: tags written are read back. For every list of tags whose values are in the range
    of their wire types, [TagsLength] is the exact size of the encoding: [PutTags] fills a
    buffer of that size to its last byte, and [GetTags] on those bytes consumes them all and
    returns every tag under its name, strings and hashes as they were and every integer as
    the [uint64] of its value (an [int] truncated to the tag's width). *)
Theorem tags_roundtrip tags :
  Forall tagInRange tags → length tags < 2 ^ 32 →
  ∃ n b, TagsLength tags = Ok n ∧
    PutTags tags (NewBuffer n) = (b, Ok tt) ∧ pointer b = n ∧ length (Bytes b) = n ∧
    GetTags (NewBufferFromBytes (Bytes b)) = (mkBuffer (Bytes b) n, Ok (map decodedTag tags)).
Proof.
  intros Ht Hn. exists (length (encTags tags)). eexists. split_and!.
  - by apply TagsLength_encTags.
  - by apply writes_NewBuffer, writes_PutTags.
  - done.
  - done.
  - by apply reads_all, reads_GetTags.
Qed.

Definition sampleTags : list Tag :=
  [mkTag TypeString TagName (AString (str "abc")); mkTag TypeUint32 TagVersion (AInt 0x3c);
   mkTag TypeUint64 TagSize (AUint64 (2 ^ 40)); mkTag TypeUint8 TagPort (AInt (-1));
   mkTag TypeHash TagFlags (ABytes (replicate 16 9))].

Lemma tags_roundtrip_witness :
  Forall tagInRange sampleTags ∧
  ∃ b, PutTags sampleTags (NewBuffer 58) = (b, Ok tt) ∧
    GetTags (NewBufferFromBytes (Bytes b)) = (mkBuffer (Bytes b) 58, Ok (map decodedTag sampleTags)).
Proof.
  assert (Forall tagInRange sampleTags) as Ht by by_decision.
  split; [exact Ht|].
  destruct (tags_roundtrip sampleTags Ht ltac:(done)) as (n&b&Hn&HP&_&_&HG).
  vm_compute in Hn. injection Hn as <-. exists b. split; [exact HP|exact HG].
Defined.

(** ** A writer that stays inside the space it was given

    [puts n m]: with [n] bytes left [m] writes [n] bytes, or refuses the value; it neither
    runs out of room nor panics. *)

Definition puts (n : nat) (m : M Buffer unit) : Prop := ∀ b,
  (pointer b + n <= length (data b))%nat →
  match m b with
  | (b', Ok _) => length (data b') = length (data b) ∧ pointer b' = (pointer b + n)%nat
  | (_, Err e) => errors_Is e ErrOutOfBounds = false
  | (_, Panic) => False
  end.

Lemma puts_seq n1 n2 m1 m2 : puts n1 m1 → puts n2 m2 → puts (n1 + n2) (m1;; m2).
Proof.
  intros H1 H2 b Hb. specialize (H1 b ltac:(lia)). unfold mbind, M_bind.
  destruct (m1 b) as [b1 [[]|e|]]; [|done|done]. destruct H1 as [Hl Hp].
  specialize (H2 b1 ltac:(lia)).
  destruct (m2 b1) as [b2 [[]|e|]]; [|done|done]. lia.
Qed.

Lemma puts_fail n e : errors_Is e ErrOutOfBounds = false → puts n (fail e).
Proof. by intros H b Hb. Qed.

Lemma puts_writes m bs : writes m bs → puts (length bs) m.
Proof.
  intros H b Hb.
  specialize (H (take (pointer b) (data b)) (take (length bs) (drop (pointer b) (data b)))
                (drop (length bs) (drop (pointer b) (data b)))).
  destruct b as [d p]. simpl in *. rewrite !take_drop in H.
  replace (length (take p d)) with p in H by (rewrite length_take; lia). rewrite H by (rewrite length_take, length_drop; lia).
  simpl. rewrite !length_app, length_take, !length_drop. lia.
Qed.

Lemma puts_le k n : puts k (require k;; write_at (le_split k n)).
Proof. pose proof (puts_writes _ _ (writes_le k n)) as H. by rewrite length_le_split in H. Qed.

Lemma puts_PutString s : puts (2 + length s) (PutString s).
Proof.
  pose proof (puts_writes _ _ (writes_PutString s)) as H.
  by rewrite length_app, length_le_split in H.
Qed.

Lemma puts_PutHash h : puts 16 (PutHash h).
Proof.
  unfold PutHash. case_bool_decide as Hh; [|by apply puts_fail].
  rewrite <- Hh. apply puts_writes, writes_PutBuffer.
Qed.

Lemma puts_PutTag t n : tagLength t = Ok n → puts n (PutTag t).
Proof.
  intros H. unfold tagLength in H. unfold PutTag.
  assert (∃ k, n = 1 + (2 + (1 + k)))%nat as [k ->].
  { exists (n - 4)%nat. repeat case_match; simplify_eq; lia. }
  do 3 (apply puts_seq; [apply puts_le|]).
  repeat (case_match; simplify_eq;
    try solve [by apply puts_fail | apply puts_PutString | apply puts_PutHash | apply (puts_le 1)
              | apply (puts_le 2) | apply (puts_le 4) | apply (puts_le 8)]).
Qed.

Lemma puts_for_each_PutTag tags k n :
  tagsLength_from k tags = Ok n → (k <= n)%nat ∧ puts (n - k) (for_each PutTag tags).
Proof.
  revert k. induction tags as [|t tags IH]; intros k; simpl.
  { intros [= <-]. split; [done|]. rewrite Nat.sub_diag. intros b Hb. simpl. lia. }
  destruct (tagLength t) as [m|e|] eqn:Ht; [|done|done]. intros Hn.
  destruct (IH _ Hn) as [Hk Hp]. split; [lia|].
  replace (n - k)%nat with (m + (n - (k + m)))%nat by lia.
  apply puts_seq; [by apply puts_PutTag|done].
Qed.

(** A tag list whose length was computed never overruns the space reserved for it.
    Whatever the tags hold, when [TagsLength] gives [n] then [PutTags] on any buffer with at
    least [n] bytes left either writes exactly [n] bytes or refuses a value of the wrong
    type; it never reports the buffer as too short and never panics. *)
Lemma PutTags_fits tags n b :
  TagsLength tags = Ok n → (pointer b + n <= length (data b))%nat →
  match PutTags tags b with
  | (b', Ok _) => length (data b') = length (data b) ∧ pointer b' = (pointer b + n)%nat
  | (_, Err e) => errors_Is e ErrOutOfBounds = false
  | (_, Panic) => False
  end.
Proof.
  intros Hn Hb. destruct (puts_for_each_PutTag tags 4 n Hn) as [Hk Hp].
  replace n with (4 + (n - 4))%nat in Hb |- * by lia.
  by apply (puts_seq 4 (n - 4) (PutUInt32LE _) _ (puts_le 4 _) Hp).
Qed.

(** A hash tag that carries a string is sized, then refused. *)
(** ** File records read back *)

Lemma reads_for_fold {A V} (body : Z → A → M Buffer A) (step : A → V → A) encs vals :
  Forall2 (λ bs v, ∀ i a, reads (body i a) bs (step a v)) encs vals →
  ∀ i a, reads (for_fold (length vals) i body a) (concat encs) (fold_left step vals a).
Proof.
  induction 1 as [|bs v encs vals Hb _ IH]; intros i a; simpl; [apply reads_ret|].
  eapply reads_bind; [apply Hb|apply IH].
Qed.

(** What one tag does to the record being read. *)
Definition stepTag (keepExtra : bool) (r : FileRecord) (tag : NamedTag) : FileRecord :=
  let '(r', known) := SetTag (nt_Name tag) (nt_Value tag) r in
  if negb known && keepExtra then { r' with fr_Extra := fr_Extra r' ++ [tag] } else r'.

Lemma reads_getFileTags keepExtra tags r :
  Forall tagInRange tags → length tags < 2 ^ 32 →
  reads (getFileTags keepExtra r) (encTags tags)
    (fold_left (stepTag keepExtra) (map decodedTag tags) r).
Proof.
  intros Ht Hn. apply reads_Pos. intros p. unfold encTags.
  replace (u32 (length tags)) with (Z.of_nat (length tags)) by solve_range.
  rewrite <- (length_map decodedTag tags) at 1.
  refine (reads_counted minTagBytes (λ n, for_fold n 0 _ r) _ _ _ _ _ _ _); [done|..].
  - by rewrite length_map.
  - rewrite length_map. pose proof (length_encs_lower encTag 2 tags) as Hl.
    apply Hl. intros t. rewrite length_encTag. lia.
  - apply reads_for_fold. apply Forall2_fmap, Forall_Forall2_diag.
    eapply Forall_impl; [done|]. intros t Htag i a. rewrite <- (app_nil_r (encTag t)).
    eapply reads_bind; [by apply reads_wrap, reads_GetTag|]. unfold stepTag.
    destruct (SetTag _ _ a). apply reads_ret.
Qed.

(** A record on the wire: hash, ID, port, tags. *)
Definition encRecord (hash : bytes) (id port : Z) (tags : list Tag) : bytes :=
  hash ++ le_split 4 id ++ le_split 2 port ++ encTags tags.

Definition headRecord (hash : bytes) (id port : Z) : FileRecord :=
  { FileRecord0 with fr_Hash := hash;
    fr_Complete := negb ((id =? ValPartialID) && (port =? ValPartialPort));
    fr_ID := id; fr_Port := port }.

Lemma reads_getFileRecord keepExtra i hash id port tags :
  length hash = 16%nat → fits 32 id → fits 16 port → Forall tagInRange tags → length tags < 2 ^ 32 →
  reads (getFileRecord keepExtra i) (encRecord hash id port tags)
    (fold_left (stepTag keepExtra) (map decodedTag tags) (headRecord hash id port)).
Proof.
  intros Hh Hid Hport Ht Hn. unfold getFileRecord, encRecord.
  eapply reads_bind; [pose proof (reads_Get hash) as HG; by rewrite Hh in HG|].
  rewrite bool_decide_true by done. cbn [negb].
  eapply reads_bind; [by apply reads_le|]. eapply reads_bind; [by apply reads_le|].
  by apply reads_wrap, reads_getFileTags.
Qed.
