(* ===== verification/Types.v ===== *)
(** * The records the server passes around: the types of [storage/storage.go]

    One record per Go struct, its fields in the source's order under a short prefix, and
    the limits that go with them. *)

From S2P Require Import Prelude.
Local Open Scope Z_scope.

Definition hashLen : nat := 16.
Definition MaxWireSources : Z := 255.
Definition MaxSearchResults : Z := 1000.
Definition searchRankScan : Z := 20000.
Definition MaxSearchPage : Z := 255.
Definition MetaKindED2K : Z := 4.

Record ClientInfo := mkClientInfo {
  ci_ID : Z;
  ci_IPv4 : Z;
  ci_Port : Z;
  ci_Hash : bytes;
  ci_LowID : bool;
  ci_StoreID : Z;
  ci_CryptOptions : Z;
  ci_IPv6 : bytes;
  ci_IPv6Reachable : bool;
}.

Record Source := mkSource {
  src_ID : Z;
  src_Port : Z;
  src_UserHash : bytes;
  src_CryptOptions : Z;
  src_IPv6 : bytes;
  src_IPv6Reachable : bool;
}.

Record MetaInfo := mkMetaInfo {
  mi_Kind : Z;
  mi_Version : Z;
  mi_FileIndex : Z;
  mi_FilePath : bytes;
  mi_TotalSize : Z;
  mi_CatalogID : bytes;
  mi_Seeders : Z;
  mi_Peers : Z;
  mi_AgeDays : Z;
  mi_Indexer : bytes;
  mi_Flags : Z;
  mi_Magnet : bytes;
  mi_Network : Z;
}.

Record File := mkFile {
  f_Hash : bytes;
  f_Name : bytes;
  f_Size : Z;
  f_Type : bytes;
  f_Sources : Z;
  f_Completed : Z;
  f_Title : bytes;
  f_Artist : bytes;
  f_Album : bytes;
  f_Runtime : Z;
  f_Bitrate : Z;
  f_Codec : bytes;
  f_SourceID : Z;
  f_SourcePort : Z;
  f_Meta : option MetaInfo;
}.

Record Server := mkServer { sv_IP : bytes; sv_Port : Z }.

#[export] Instance ClientInfo_eq_dec : EqDecision ClientInfo.
Proof. solve_decision. Defined.
#[export] Instance Source_eq_dec : EqDecision Source.
Proof. solve_decision. Defined.
#[export] Instance MetaInfo_eq_dec : EqDecision MetaInfo.
Proof. solve_decision. Defined.
#[export] Instance File_eq_dec : EqDecision File.
Proof. solve_decision. Defined.
#[export] Instance Server_eq_dec : EqDecision Server.
Proof. solve_decision. Defined.

(** [MetaInfo.Native], callable on a nil pointer. *)
Definition Native (m : option MetaInfo) : bool :=
  match m with Some m => mi_Kind m =? MetaKindED2K | None => false end.

(** Every field inside the Go type that holds it. *)
Record wf_meta (m : MetaInfo) : Prop := {
  wfm_u8 : fits 8 (mi_Kind m) ∧ fits 8 (mi_Version m) ∧ fits 8 (mi_Network m);
  wfm_u32 : fits 32 (mi_FileIndex m) ∧ fits 32 (mi_Seeders m) ∧ fits 32 (mi_Peers m) ∧
    fits 32 (mi_AgeDays m) ∧ fits 32 (mi_Flags m);
  wfm_u64 : fits 64 (mi_TotalSize m);
}.

Record wf_file (f : File) : Prop := {
  wff_size : fits 64 (f_Size f);
  wff_u32 : fits 32 (f_Sources f) ∧ fits 32 (f_Completed f) ∧ fits 32 (f_Runtime f) ∧
    fits 32 (f_Bitrate f) ∧ fits 32 (f_SourceID f);
  wff_u16 : fits 16 (f_SourcePort f);
  wff_meta : match f_Meta f with Some m => wf_meta m | None => True end;
}.
