(* ===== verification/Address.v ===== *)
(** * Addresses: [ed2k/address.go] and the address helpers of [ed2k/misc.go]

    A [net.IP] is its bytes: four, sixteen, or something else that is no address. *)

From S2P Require Import Prelude.
Local Open Scope Z_scope.

(** ** [net.IP] *)

Definition v4InV6Prefix : bytes := replicate 10 0 ++ [0xff; 0xff].

Definition To4 (ip : bytes) : option bytes :=
  if bool_decide (length ip = 4%nat) then Some ip
  else if bool_decide (length ip = 16%nat ∧ take 12 ip = v4InV6Prefix) then Some (drop 12 ip)
  else None.

Definition To16 (ip : bytes) : option bytes :=
  if bool_decide (length ip = 4%nat) then Some (v4InV6Prefix ++ ip)
  else if bool_decide (length ip = 16%nat) then Some ip else None.

(** [ip[i]]; only used on slices known to be long enough. *)
Definition octet (ip : bytes) (i : nat) : Z := nth i ip 0.

(** [ip.Equal(x)]: the same bytes, or the same IPv4 address in either form. *)
Definition EqualIP (ip x : bytes) : bool :=
  if bool_decide (length ip = length x) then bool_decide (ip = x)
  else if bool_decide (length ip = 4%nat ∧ length x = 16%nat) then bool_decide (x = v4InV6Prefix ++ ip)
  else if bool_decide (length ip = 16%nat ∧ length x = 4%nat) then bool_decide (ip = v4InV6Prefix ++ x)
  else false.

Definition IPv4bcast : bytes := [255; 255; 255; 255].
Definition IPv6unspecified : bytes := replicate 16 0.
Definition IPv6loopback : bytes := replicate 15 0 ++ [1].

Definition IsUnspecified (ip : bytes) : bool := EqualIP ip [0; 0; 0; 0] || EqualIP ip IPv6unspecified.

Definition IsLoopback (ip : bytes) : bool :=
  match To4 ip with Some v4 => octet v4 0 =? 127 | None => EqualIP ip IPv6loopback end.

Definition IsMulticast (ip : bytes) : bool :=
  match To4 ip with
  | Some v4 => Z.land (octet v4 0) 0xf0 =? 0xe0
  | None => bool_decide (length ip = 16%nat) && (octet ip 0 =? 0xff)
  end.

Definition IsLinkLocalUnicast (ip : bytes) : bool :=
  match To4 ip with
  | Some v4 => (octet v4 0 =? 169) && (octet v4 1 =? 254)
  | None => bool_decide (length ip = 16%nat) && (octet ip 0 =? 0xfe) &&
            (Z.land (octet ip 1) 0xc0 =? 0x80)
  end.

Definition IsGlobalUnicast (ip : bytes) : bool :=
  bool_decide (length ip = 4%nat ∨ length ip = 16%nat) && negb (EqualIP ip IPv4bcast) &&
  negb (IsUnspecified ip) && negb (IsLoopback ip) && negb (IsMulticast ip) &&
  negb (IsLinkLocalUnicast ip).

Definition IsPrivate (ip : bytes) : bool :=
  match To4 ip with
  | Some v4 =>
      (octet v4 0 =? 10) || ((octet v4 0 =? 172) && (Z.land (octet v4 1) 0xf0 =? 16)) ||
      ((octet v4 0 =? 192) && (octet v4 1 =? 168))
  | None => bool_decide (length ip = 16%nat) && (Z.land (octet ip 0) 0xfe =? 0xfc)
  end.

(** ** address.go *)

(** nil is [None]. *)
Definition NormalizeIP (ip : option bytes) : option bytes :=
  match ip with
  | None => None
  | Some ip => match To4 ip with Some v4 => Some v4 | None => To16 ip end
  end.

Definition IPv4ToUint32LE (ip : bytes) : option Z :=
  match To4 ip with Some v4 => Some (le_combine v4) | None => None end.

Definition IPv6Bytes (ip : bytes) : option bytes :=
  match To4 ip with Some _ => None | None => To16 ip end.

Definition IsPublicIPv6 (ip : bytes) : bool :=
  match To4 ip, To16 ip with
  | None, Some _ => IsGlobalUnicast ip && negb (IsPrivate ip)
  | _, _ => false
  end.

Definition IsLANIP (ip : bytes) : bool :=
  match To4 ip with
  | None => false
  | Some v4 =>
      let o0 := octet v4 0 in let o1 := octet v4 1 in
      (o0 =? 0) || (o0 =? 10) || (o0 =? 127) || ((o0 =? 172) && (16 <=? o1) && (o1 <=? 31)) ||
      ((o0 =? 192) && (o1 =? 168)) || ((o0 =? 169) && (o1 =? 254))
  end.

Definition IsGoodIP (ip : bytes) (allowLAN : bool) : bool :=
  match To4 ip with
  | None => false
  | Some v4 => if (octet v4 0 =? 0) || (224 <=? octet v4 0) then false else allowLAN || negb (IsLANIP ip)
  end.

Definition IsGoodIPPort (ip : bytes) (port : Z) (allowLAN : bool) : bool :=
  negb (port =? 0) && IsGoodIP ip allowLAN.

Definition IsGoodServerEntry (ip : bytes) (port : Z) (hasDynIP allowLAN : bool) : bool :=
  if port =? 0 then false
  else if hasDynIP then true
  else match To4 ip with None => IsPublicIPv6 ip | Some _ => IsGoodIP ip allowLAN end.

(** ** misc.go *)

(** [strings.Split(s, sep)] for a one-byte separator. *)
Fixpoint split_on (sep : Z) (s : bytes) : list bytes :=
  match s with
  | [] => [[]]
  | c :: s' =>
      if c =? sep then [] :: split_on sep s'
      else match split_on sep s' with p :: ps => (c :: p) :: ps | [] => [[c]] end
  end.

Definition is_digit (c : Z) : bool := (48 <=? c) && (c <=? 57).

(** [strconv.ParseUint(s, 10, 8)]: digits only, at least one, at most 255. *)
Definition ParseUint8 (s : bytes) : option Z :=
  match s with
  | [] => None
  | _ =>
      if forallb is_digit s then
        let v := fold_left (λ n c, n * 10 + (c - 48)) s 0 in
        if v <=? 255 then Some v else None
      else None
  end.

Definition ErrInvalidIPv4 : error := ErrNew "invalid ipv4".

Definition IPv4ToInt32LE (ipv4 : bytes) : result Z :=
  match split_on 46 ipv4 with
  | [a; b; c; d] =>
      match ParseUint8 a, ParseUint8 b, ParseUint8 c, ParseUint8 d with
      | Some a, Some b, Some c, Some d => Ok (u32 (a + b * 0x100 + c * 0x10000 + d * 0x1000000))
      | _, _, _, _ => Err ErrInvalidIPv4
      end
  | _ => Err ErrInvalidIPv4
  end.

(** ** Client IDs (tcpoperations.go) *)

Definition isLowID (id : Z) : bool := (0 <? id) && (id <=? 0x00FFFFFF).
Definition HasHighID (id : Z) : bool := negb (id =? 0) && negb (isLowID id).

(** ** Properties *)

Lemma To4_length ip v4 : To4 ip = Some v4 → length v4 = 4%nat.
Proof.
  unfold To4. repeat case_bool_decide; intros; simplify_eq; [done|].
  destruct_and!. rewrite length_drop. lia.
Qed.

Lemma To4_wf ip v4 : wf_bytes ip → To4 ip = Some v4 → wf_bytes v4.
Proof.
  intros Hw. unfold To4. repeat case_bool_decide; intros; simplify_eq; [done|]. by apply Forall_drop.
Qed.

(** An IPv4 address has a client ID of its own, and it is a HighID exactly when the
    last octet is not zero: the ID holds the octets least significant first, so an address
    ending in .0 comes out no larger than 0x00ffffff, where IDs are LowIDs. *)
Lemma highid_iff_last_octet ip v4 id :
  wf_bytes ip → To4 ip = Some v4 → IPv4ToUint32LE ip = Some id →
  le_split 4 id = v4 ∧ (HasHighID id = true ↔ octet v4 3 ≠ 0).
Proof.
  intros Hw H4. unfold IPv4ToUint32LE. rewrite H4. intros [= <-].
  pose proof (To4_length _ _ H4) as Hl. pose proof (To4_wf _ _ Hw H4) as Hw4.
  split; [by rewrite <- Hl at 1; apply le_split_combine|].
  destruct v4 as [|a [|b [|c [|d []]]]]; try done.
  repeat match goal with H : Forall _ (_ :: _) |- _ => inversion_clear H end.
  unfold HasHighID, isLowID, octet, is_byte in *. simpl.
  rewrite andb_true_iff, !negb_true_iff, Z.eqb_neq, andb_false_iff, Z.ltb_ge, Z.leb_gt. lia.
Qed.

