(* ===== verification/NetIP.v ===== *)
(** * Addresses as text: package [net] and the server list of [storage/servers.go]

    [net.ParseIP] and [net.IP.String] as the standard library has them, and the identity of
    a peer server built on them. An address without a zone only: [net.ParseIP] refuses the
    others. *)

From S2P Require Import Prelude Types Address.
Local Open Scope Z_scope.

(** ** Numbers *)

(** The digits of a number in [base], most significant first: [fuel] is at least their
    count. *)
Fixpoint digitsOf (base : Z) (fuel : nat) (n : Z) : list Z :=
  match fuel with
  | O => []
  | S fuel => (if n <? base then [] else digitsOf base fuel (n `div` base)) ++ [n `mod` base]
  end.

Definition digitChar (d : Z) : Z := if d <? 10 then 48 + d else 97 + (d - 10).

(** [strconv.Itoa] and [%d], of a number that is not negative: a 64-bit one has twenty digits
    at most. *)
Definition Itoa (n : Z) : bytes := map digitChar (digitsOf 10 20 n).

(** ** [net.ParseIP] *)

Definition hexVal (c : Z) : option Z :=
  if (48 <=? c) && (c <=? 57) then Some (c - 48)
  else if (97 <=? c) && (c <=? 102) then Some (c - 97 + 10)
  else if (65 <=? c) && (c <=? 70) then Some (c - 65 + 10)
  else None.

Definition decField (s : bytes) : option Z :=
  match s with
  | [] => None
  | c :: tl => if (c =? 48) && bool_decide (tl ≠ []) then None else ParseUint8 s
  end.

Definition parseIPv4 (s : bytes) : option bytes :=
  match split_on 46 s with
  | [a; b; c; d] =>
      match decField a, decField b, decField c, decField d with
      | Some a, Some b, Some c, Some d => Some [a; b; c; d]
      | _, _, _, _ => None
      end
  | _ => None
  end.

(** The digits a group starts with, and the rest. *)
Fixpoint hexRun (s : bytes) : list Z * bytes :=
  match s with
  | [] => ([], [])
  | c :: tl =>
      match hexVal c with
      | Some d => let '(ds, rest) := hexRun tl in (d :: ds, rest)
      | None => ([], s)
      end
  end.

Definition hexValue (ds : list Z) : Z := fold_left (λ n d, n * 16 + d) ds 0.
Definition group (n : Z) : bytes := [n `div` 256; n `mod` 256].

(** The loop of [parseIPv6]: the bytes so far and where the ellipsis was. Every turn adds two
    bytes, so there are eight at most. *)
Fixpoint parseGroups (fuel : nat) (s ip : bytes) (ellipsis : option nat) : option (bytes * option nat) :=
  match fuel with
  | O => if bool_decide (s = []) then Some (ip, ellipsis) else None
  | S fuel =>
      let '(ds, rest) := hexRun s in
      if bool_decide (length ds = 0%nat) || (4 <? length ds) then None
      else
        let ip' := ip ++ group (hexValue ds) in
        match rest with
        | [] => Some (ip', ellipsis)
        | c :: rest =>
            if c =? 46 then
              if (bool_decide (ellipsis = None) && negb (bool_decide (length ip = 12%nat))) || (12 <? length ip)
              then None
              else match parseIPv4 s with Some v4 => Some (ip ++ v4, ellipsis) | None => None end
            else if negb (c =? 58) then None
            else match rest with
                 | [] => None
                 | c :: rest' =>
                     if c =? 58 then
                       if bool_decide (ellipsis ≠ None) then None
                       else if bool_decide (rest' = []) then Some (ip', Some (length ip'))
                       else parseGroups fuel rest' ip' (Some (length ip'))
                     else parseGroups fuel rest ip' ellipsis
                 end
        end
  end.

(** The ellipsis stands for the groups that are missing, one at least. *)
Definition expand (r : option (bytes * option nat)) : option bytes :=
  match r with
  | Some (ip, Some e) =>
      if (length ip <? 16)%nat then Some (take e ip ++ replicate (16 - length ip) 0 ++ drop e ip) else None
  | Some (ip, None) => if bool_decide (length ip = 16%nat) then Some ip else None
  | None => None
  end.

Definition parseIPv6 (s : bytes) : option bytes :=
  match s with
  | 58 :: 58 :: rest =>
      if bool_decide (rest = []) then Some IPv6unspecified else expand (parseGroups 8 rest [] (Some 0%nat))
  | _ => expand (parseGroups 8 s [] None)
  end.

Definition isSeparator (c : Z) : bool := (c =? 46) || (c =? 58).

(** An address of sixteen bytes, whichever family the text is of. *)
Definition ParseIP (s : bytes) : option bytes :=
  if bool_decide (37 ∈ s) then None
  else match find isSeparator s with
       | Some c => if c =? 46 then (λ v4, v4InV6Prefix ++ v4) <$> parseIPv4 s else parseIPv6 s
       | None => None
       end.

(** ** [net.IP.String] *)

Fixpoint joinWith (sep : Z) (parts : list bytes) : bytes :=
  match parts with
  | [] => []
  | [p] => p
  | p :: ps => p ++ sep :: joinWith sep ps
  end.

Fixpoint groupsOf (ip : bytes) : list Z :=
  match ip with a :: b :: tl => 256 * a + b :: groupsOf tl | _ => [] end.

Definition hexGroup (n : Z) : bytes := map digitChar (digitsOf 16 4 n).

(** How many zero groups a list starts with. *)
Fixpoint zeroRun (gs : list Z) : nat :=
  match gs with g :: tl => if g =? 0 then S (zeroRun tl) else 0 | [] => 0 end.

(** The first longest run of two or more zero groups: where it starts and its length, on
    top of the one found so far. *)
Fixpoint longestRun (i : nat) (gs : list Z) (best : nat * nat) : nat * nat :=
  match gs with
  | [] => best
  | _ :: tl =>
      let l := zeroRun gs in
      longestRun (S i) tl (if (2 <=? l)%nat && (best.2 <? l)%nat then (i, l) else best)
  end.

Definition string6 (ip : bytes) : bytes :=
  let gs := groupsOf ip in
  let '(start, len) := longestRun 0 gs (0, 0)%nat in
  if (len =? 0)%nat then joinWith 58 (map hexGroup gs)
  else joinWith 58 (map hexGroup (take start gs)) ++ [58; 58] ++
       joinWith 58 (map hexGroup (drop (start + len) gs)).

Definition hexBytes (b : bytes) : bytes := flat_map (λ c, [digitChar (c `div` 16); digitChar (c `mod` 16)]) b.

Definition IPString (ip : bytes) : bytes :=
  if bool_decide (ip = []) then str "<nil>"
  else match To4 ip with
       | Some v4 => joinWith 46 (map Itoa v4)
       | None => if bool_decide (length ip = 16%nat) then string6 ip else 63 :: hexBytes ip
       end.

(** [net.JoinHostPort]. *)
Definition JoinHostPort (host port : bytes) : bytes :=
  if bool_decide (58 ∈ host) || bool_decide (37 ∈ host) then 91 :: host ++ [93; 58] ++ port
  else host ++ 58 :: port.
