(* ===== verification/Packet.v ===== *)
(** * TCP and UDP packets: [ed2k/packet.go]

    The items a packet is built of, the two packet makers, zlib on the way out and in, and
    the reassembly of one packet from received bytes. [compress/zlib] is the class
    [Zlib]. *)

From S2P Require Import Prelude Buffer Types.
Local Open Scope Z_scope.

Definition PrED2K : Z := 0xe3.
Definition PrEMule : Z := 0xc5.
Definition PrZlib : Z := 0xd4.
Definition MaxTCPPacketSize : Z := 2000000.
Definition PacketHeaderSize : Z := 6.

Definition PsNew : Z := 1.
Definition PsReady : Z := 2.
Definition PsWaitingData : Z := 3.

Definition TagMetaKind : Z := 0x60.
Definition TagMetaVersion : Z := 0x61.
Definition TagMetaFileIndex : Z := 0x62.
Definition TagMetaFilePath : Z := 0x63.
Definition TagMetaTotalSize : Z := 0x64.
Definition TagMetaID : Z := 0x65.
Definition TagMetaSeeders : Z := 0x67.
Definition TagMetaPeers : Z := 0x68.
Definition TagMetaAge : Z := 0x69.
Definition TagMetaIndexer : Z := 0x6a.
Definition TagMetaFlags : Z := 0x6b.
Definition TagMetaMagnet : Z := 0x6c.
Definition TagMetaNetwork : Z := 0x6d.
Definition MetaNetworkKad : Z := 3.
Definition MetaNetworkWeb : Z := 5.

Definition ErrPacketTooLarge : error := ErrNew "packet: declared size exceeds maximum".
Definition ErrInflatedTooLarge : error := ErrNew "packet: inflated payload exceeds maximum".
Definition ErrUnknownProtocol : error := ErrNew "packet: unknown protocol byte".

(** [IsProtocol] of misc.go. *)
Definition IsProtocol (protocol : Z) : bool :=
  (protocol =? PrED2K) || (protocol =? PrEMule) || (protocol =? PrZlib).

(** ** Items *)

(** A [PacketItem]'s value: one of the dynamic types of a tag, or a [[]Tag]. *)
Inductive item_value :=
| IVal (v : any)
| ITags (tags : list Tag).

Record PacketItem := mkItem { pi_Type : Z; pi_Value : item_value }.

Definition itemTagsU8 : Z := 0xfe.

Definition itemSize (item : PacketItem) : result Z :=
  let ty := pi_Type item in
  if ty =? TypeUint8 then Ok 1
  else if ty =? TypeUint16 then Ok 2
  else if ty =? TypeUint32 then Ok 4
  else if ty =? TypeString then
    match pi_Value item with
    | IVal (AString v) => Ok (2 + length v)
    | _ => Err ErrUnsupportedTag
    end
  else if ty =? TypeHash then Ok 16
  else if ty =? TypeTags then
    match pi_Value item with
    | ITags v =>
        match TagsLength v with Ok n => Ok (Z.of_nat n) | Err e => Err e | Panic => Panic end
    | _ => Err ErrUnsupportedTag
    end
  else if ty =? itemTagsU8 then
    match pi_Value item with
    | ITags v =>
        match TagsLength v with Ok n => Ok (n - 3) | Err e => Err e | Panic => Panic end
    | _ => Err ErrUnsupportedTag
    end
  else Err (UnsupportedTag ty).

Definition putItem (item : PacketItem) : M Buffer unit :=
  let ty := pi_Type item in
  let v := pi_Value item in
  if ty =? TypeUint8 then
    match v with
    | IVal (AUint8 n) => PutUInt8 n | IVal (AInt n) => PutUInt8 (u8 n)
    | _ => fail ErrUnsupportedTag end
  else if ty =? TypeUint16 then
    match v with
    | IVal (AUint16 n) => PutUInt16LE n | IVal (AInt n) => PutUInt16LE (u16 n)
    | _ => fail ErrUnsupportedTag end
  else if ty =? TypeUint32 then
    match v with
    | IVal (AUint32 n) => PutUInt32LE n | IVal (AInt n) => PutUInt32LE (u32 n)
    | _ => fail ErrUnsupportedTag end
  else if ty =? TypeString then
    match v with IVal (AString s) => PutString s | _ => fail ErrUnsupportedTag end
  else if ty =? TypeHash then
    match v with IVal (ABytes h) => PutHash h | _ => fail ErrUnsupportedTag end
  else if ty =? TypeTags then
    match v with ITags tags => PutTags tags | _ => fail ErrUnsupportedTag end
  else if ty =? itemTagsU8 then
    match v with
    | ITags tags => PutUInt8 (u8 (length tags));; for_each PutTag tags
    | _ => fail ErrUnsupportedTag end
  else fail ErrUnsupportedTag.

(** The summing loop both makers start with. *)
Fixpoint itemsSize (items : list PacketItem) : result Z :=
  match items with
  | [] => Ok 0
  | item :: items' =>
      match itemSize item with
      | Ok l => match itemsSize items' with Ok n => Ok (l + n) | r => r end
      | r => r
      end
  end.

(** Run a writer on a fresh buffer and rewind it: [buf.Pos(0)]; a failing writer's buffer
    is dropped. [make([]byte, n)] panics on a negative length. *)
Definition make_buffer (size : Z) (m : M Buffer unit) : result Buffer :=
  if size <? 0 then Panic else
  match m (NewBuffer (Z.to_nat size)) with
  | (b, Ok _) => Ok (mkBuffer (data b) 0)
  | (_, Err e) => Err e
  | (_, Panic) => Panic
  end.

Definition MakePacket (protocol : Z) (items : list PacketItem) : result Buffer :=
  match itemsSize items with
  | Ok size =>
      make_buffer (5 + size)
        (PutUInt8 protocol;; PutUInt32LE (u32 size);; for_each putItem items)
  | Err e => Err e
  | Panic => Panic
  end.

Definition MakeUDPPacket (protocol : Z) (items : list PacketItem) : result Buffer :=
  match itemsSize items with
  | Ok size => make_buffer (1 + size) (PutUInt8 protocol;; for_each putItem items)
  | Err e => Err e
  | Panic => Panic
  end.

(** ** zlib *)

(** [compress/zlib]. [zlib_compress p] is what a [zlib.Writer] leaves in the buffer after
    [Write(p)] and [Close]; [zlib_inflate n p] is [io.Copy] from
    [io.LimitReader(zlib.NewReader(p), n)]. *)
Class Zlib := {
  zlib_compress : bytes → bytes;
  zlib_inflate : Z → bytes → result bytes;
}.

(** What the packages document: the limit is kept, reading is total, and reading back what
    was written gives it, cut at the limit. *)
Class ZlibLaws `{Zlib} : Prop := {
  zlib_limit n p out : 0 <= n → zlib_inflate n p = Ok out → length out <= n;
  zlib_total n p : zlib_inflate n p ≠ Panic;
  zlib_inverse n p : 0 <= n → zlib_inflate n (zlib_compress p) = Ok (take (Z.to_nat n) p);
}.

(** [packet] is never nil here: every caller passes a built packet. *)
Definition MaybeCompressTCPPacket `{Zlib} (packet : Buffer) (minPayloadLen : Z) : result Buffer :=
  let raw := Bytes packet in
  match raw with
  | proto :: _ :: _ :: _ :: _ :: opcode :: payload =>
      if negb (proto =? PrED2K) && negb (proto =? PrEMule) then Ok packet
      else if length payload <? minPayloadLen then Ok packet
      else
        let compressed := zlib_compress payload in
        if (length payload <=? length compressed)%nat then Ok packet
        else
          make_buffer (6 + length compressed)
            (PutUInt8 PrZlib;; PutUInt32LE (u32 (length compressed + 1));; PutUInt8 opcode;;
             PutBuffer compressed)
  | _ => Ok packet
  end.

Definition InflateZlibPayload `{Zlib} (payload : bytes) : result bytes :=
  match zlib_inflate (MaxTCPPacketSize + 1) payload with
  | Ok out =>
      if MaxTCPPacketSize <? length out
      then Err (ErrWrap "inflated" [MaxTCPPacketSize] ErrInflatedTooLarge)
      else Ok out
  | Err e => Err e
  | Panic => Panic
  end.

(** What [handlePacket] makes of a body under each protocol byte it serves. *)
Definition openPayload `{Zlib} (proto : Z) (body : bytes) : result bytes :=
  if proto =? PrED2K then Ok body
  else if proto =? PrZlib then InflateZlibPayload body
  else Err ErrUnknownProtocol.

(** ** File entries *)

Record SharedFile := mkSharedFile {
  sf_Name : bytes;
  sf_Size : Z;
  sf_Type : bytes;
  sf_Sources : Z;
  sf_Completed : Z;
  sf_Title : bytes;
  sf_Artist : bytes;
  sf_Album : bytes;
  sf_Runtime : Z;
  sf_Bitrate : Z;
  sf_Codec : bytes;
  sf_Hash : bytes;
  sf_SourceID : Z;
  sf_SourcePort : Z;
  sf_Meta : option MetaInfo;
}.

(** [if cond { tags = append(tags, tag) }]. *)
Definition when (cond : bool) (tag : Tag) : list Tag := if cond then [tag] else [].

Definition nonempty (s : bytes) : bool := match s with [] => false | _ => true end.

Definition metaNetworkOf (m : MetaInfo) : Z :=
  if mi_Network m =? MetaNetworkWeb then MetaNetworkWeb else MetaNetworkKad.

Definition metaTags (m : MetaInfo) : list Tag :=
  [mkTag TypeUint8 TagMetaKind (AUint8 (mi_Kind m));
   mkTag TypeUint8 TagMetaVersion (AUint8 (mi_Version m));
   mkTag TypeUint32 TagMetaFileIndex (AUint32 (mi_FileIndex m))] ++
  when (nonempty (mi_FilePath m)) (mkTag TypeString TagMetaFilePath (AString (mi_FilePath m))) ++
  when (0 <? mi_TotalSize m) (mkTag TypeUint64 TagMetaTotalSize (AUint64 (mi_TotalSize m))) ++
  [mkTag TypeString TagMetaID (AString (mi_CatalogID m));
   mkTag TypeUint32 TagMetaSeeders (AUint32 (mi_Seeders m));
   mkTag TypeUint32 TagMetaPeers (AUint32 (mi_Peers m));
   mkTag TypeUint32 TagMetaAge (AUint32 (mi_AgeDays m))] ++
  when (nonempty (mi_Indexer m)) (mkTag TypeString TagMetaIndexer (AString (mi_Indexer m))) ++
  [mkTag TypeUint32 TagMetaFlags (AUint32 (mi_Flags m))] ++
  when (nonempty (mi_Magnet m)) (mkTag TypeString TagMetaMagnet (AString (mi_Magnet m))).

Definition appendMetaTags (tags : list Tag) (m : MetaInfo) : list Tag := tags ++ metaTags m.

(** The tags [AddFile] builds before the meta ones. *)
Definition fileTags (file : SharedFile) : list Tag :=
  [mkTag TypeString TagName (AString (sf_Name file));
   mkTag TypeUint32 TagSize (AUint32 (u32 (sf_Size file `mod` 0x100000000)));
   mkTag TypeString TagType (AString (sf_Type file));
   mkTag TypeUint32 TagSources (AUint32 (sf_Sources file));
   mkTag TypeUint32 TagCompleteSources (AUint32 (sf_Completed file))] ++
  when (0x100000000 <=? sf_Size file)
    (mkTag TypeUint32 TagSizeHi (AUint32 (u32 (sf_Size file `div` 0x100000000)))) ++
  when (nonempty (sf_Title file)) (mkTag TypeString TagMediaTitle (AString (sf_Title file))) ++
  when (nonempty (sf_Artist file)) (mkTag TypeString TagMediaArtist (AString (sf_Artist file))) ++
  when (nonempty (sf_Album file)) (mkTag TypeString TagMediaAlbum (AString (sf_Album file))) ++
  when (0 <? sf_Runtime file) (mkTag TypeUint32 TagMediaLength (AUint32 (sf_Runtime file))) ++
  when (0 <? sf_Bitrate file) (mkTag TypeUint32 TagMediaBitrate (AUint32 (sf_Bitrate file))) ++
  when (nonempty (sf_Codec file)) (mkTag TypeString TagMediaCodec (AString (sf_Codec file))).

Definition AddFile (packet : list PacketItem) (file : SharedFile) : list PacketItem :=
  let tags :=
    match sf_Meta file with
    | Some m =>
        if Native (Some m)
        then fileTags file ++ [mkTag TypeUint8 TagMetaNetwork (AUint8 (metaNetworkOf m))]
        else appendMetaTags (fileTags file) m
    | None => fileTags file
    end in
  packet ++ [mkItem TypeHash (IVal (ABytes (sf_Hash file)));
             mkItem TypeUint32 (IVal (AUint32 (sf_SourceID file)));
             mkItem TypeUint16 (IVal (AUint16 (sf_SourcePort file)));
             mkItem TypeTags (ITags tags)].

(** ** Receiving one packet *)

(** [Data], a fresh buffer over the payload; [recv], the payload as it arrives. *)
Record Packet := mkPacket {
  p_Protocol : Z;
  p_Size : Z;
  p_Code : Z;
  p_Status : Z;
  p_Data : Buffer;
  p_HasExcess : bool;
  p_Excess : bytes;
  p_recv : bytes;
}.

Definition NewPacket : Packet := mkPacket 0 0 0 PsNew (NewBuffer 0) false [] [].

(** [chunk[:take]] panics on a negative [take], which is when more than [Size] bytes were
    received already. *)
Definition Append (chunk : bytes) (p : Packet) : result Packet :=
  let tk := Z.min (p_Size p - length (p_recv p)) (length chunk) in
  if tk <? 0 then Panic else
  let recv := p_recv p ++ take (Z.to_nat tk) chunk in
  if length recv <? p_Size p then
    Ok { p with p_recv := recv; p_Status := PsWaitingData; p_HasExcess := false }
  else
    let hasExcess := tk <? length chunk in
    let p' := { p with p_Data := NewBufferFromBytes recv; p_recv := []; p_Status := PsReady;
                p_HasExcess := hasExcess } in
    Ok (if hasExcess then { p' with p_Excess := drop (Z.to_nat tk) chunk } else p').

Definition release (p : Packet) : Packet := { p with p_Data := NewBuffer 0 }.

(** The header, then what came with it. A failing [Init] leaves the fields it had set. *)
Definition Init (buffer : Buffer) (p : Packet) : Packet * result unit :=
  let p := { p with p_HasExcess := false } in
  match GetUInt8 buffer with
  | (_, Err e) => (p, Err e)
  | (_, Panic) => (p, Panic)
  | (buffer, Ok protocol) =>
      let p := { p with p_Protocol := protocol } in
      if (protocol =? PrED2K) || (protocol =? PrZlib) || (protocol =? PrEMule) then
        match GetUInt32LE buffer with
        | (_, Err e) => (p, Err e)
        | (_, Panic) => (p, Panic)
        | (buffer, Ok size) =>
            if size =? 0 then (p, Err ErrOutOfBounds)
            else if MaxTCPPacketSize <? size - 1 then
              (p, Err (ErrWrap "declared" [size - 1; MaxTCPPacketSize] ErrPacketTooLarge))
            else
              let p := { p with p_Size := size - 1 } in
              match GetUInt8 buffer with
              | (_, Err e) => (p, Err e)
              | (_, Panic) => (p, Panic)
              | (buffer, Ok code) =>
                  let p := { p with p_Code := code; p_recv := []; p_Data := NewBuffer 0 } in
                  match GetRest buffer with
                  | (_, Ok chunk) =>
                      match Append chunk p with
                      | Ok p' => (p', Ok tt)
                      | Err e => (p, Err e)
                      | Panic => (p, Panic)
                      end
                  | (_, Err e) => (p, Err e)
                  | (_, Panic) => (p, Panic)
                  end
              end
        end
      else (p, Err (ErrWrap "protocol" [protocol] ErrUnknownProtocol))
  end.

(** ** Making a packet: exact size, exact bytes *)

(** Items whose value has the dynamic type and the range its wire type asks for. *)
Definition itemInRange (i : PacketItem) : Prop :=
  match pi_Value i with
  | IVal (AUint8 v) => pi_Type i = TypeUint8 ∧ fits 8 v
  | IVal (AUint16 v) => pi_Type i = TypeUint16 ∧ fits 16 v
  | IVal (AUint32 v) => pi_Type i = TypeUint32 ∧ fits 32 v
  | IVal (AString s) => pi_Type i = TypeString ∧ length s < 2 ^ 16
  | IVal (ABytes h) => pi_Type i = TypeHash ∧ length h = 16%nat
  | ITags tags =>
      Forall tagInRange tags ∧
      ((pi_Type i = TypeTags ∧ length tags < 2 ^ 32) ∨
       (pi_Type i = itemTagsU8 ∧ length tags < 2 ^ 8))
  | _ => False
  end.

#[export] Instance itemInRange_dec i : Decision (itemInRange i).
Proof. unfold itemInRange. destruct (pi_Value i) as [[]|]; apply _. Defined.

(** An item's bytes on the wire. *)
Definition encItem (i : PacketItem) : bytes :=
  match pi_Value i with
  | IVal (AUint8 v) => le_split 1 v
  | IVal (AUint16 v) => le_split 2 v
  | IVal (AUint32 v) => le_split 4 v
  | IVal (AString s) => le_split 2 (length s) ++ s
  | IVal (ABytes h) => h
  | ITags tags =>
      if pi_Type i =? TypeTags then encTags tags
      else le_split 1 (length tags) ++ concat (map encTag tags)
  | _ => []
  end.

Definition encItems (items : list PacketItem) : bytes := concat (map encItem items).

Ltac item_cases H :=
  match type of H with
  | itemInRange ?i =>
      unfold itemInRange in H; destruct i as [?ty [[]|?tags]]; cbn in *; try done;
      destruct_and?; destruct_or?; destruct_and?; simplify_eq
  end.

Lemma writes_putItem i : itemInRange i → writes (putItem i) (encItem i).
Proof.
  intros H. unfold putItem, encItem.
  item_cases H; try first [apply writes_le | by apply writes_PutHash | by apply writes_PutTags].
  - pose proof (writes_PutString s) as Hw.
    by replace (u16 (length s)) with (Z.of_nat (length s)) in Hw by solve_range.
  - replace (u8 (length tags)) with (Z.of_nat (length tags)) by solve_range.
    apply writes_seq; [apply writes_le|]. apply writes_for_each.
    apply Forall2_fmap_r, Forall_Forall2_diag. eapply Forall_impl; [done|]. apply writes_PutTag.
Qed.

Lemma itemSize_encItem i : itemInRange i → itemSize i = Ok (Z.of_nat (length (encItem i))).
Proof.
  intros H. unfold itemSize, encItem.
  item_cases H; rewrite ?length_app, ?length_le_split; try (f_equal; lia).
  - by rewrite TagsLength_encTags.
  - rewrite TagsLength_encTags by done. unfold encTags. cbn -[encTag le_split].
    rewrite !length_app, !length_le_split. f_equal. lia.
Qed.

Lemma itemsSize_encItems items :
  Forall itemInRange items → itemsSize items = Ok (Z.of_nat (length (encItems items))).
Proof.
  unfold encItems. induction 1 as [|i items Hi _ IH]; [done|].
  cbn [itemsSize map concat]. rewrite itemSize_encItem, IH by done.
  rewrite length_app. f_equal. lia.
Qed.

Lemma writes_items items : Forall itemInRange items → writes (for_each putItem items) (encItems items).
Proof.
  intros H. apply writes_for_each. apply Forall2_fmap_r, Forall_Forall2_diag.
  eapply Forall_impl; [done|]. apply writes_putItem.
Qed.

(** A writer of known bytes fills a buffer of their length. *)
Lemma make_buffer_writes m bs (size : Z) :
  writes m bs → size = length bs → make_buffer size m = Ok (mkBuffer bs 0).
Proof.
  intros Hm ->. unfold make_buffer. int_test. rewrite Nat2Z.id.
  by rewrite (writes_NewBuffer m bs).
Qed.

(** The bytes of a TCP packet. *)
Definition encPacket (protocol : Z) (body : bytes) : bytes :=
  le_split 1 protocol ++ le_split 4 (length body) ++ body.

Lemma MakePacket_items protocol items :
  Forall itemInRange items → length (encItems items) < 2 ^ 32 →
  MakePacket protocol items = Ok (mkBuffer (encPacket protocol (encItems items)) 0).
Proof.
  intros Hi Hl. unfold MakePacket, encPacket. rewrite itemsSize_encItems by done.
  apply make_buffer_writes; [|rewrite !length_app, !length_le_split; lia].
  apply writes_seq; [apply writes_le|]. apply writes_seq; [|by apply writes_items].
  replace (u32 _) with (Z.of_nat (length (encItems items))) by solve_range. apply writes_le.
Qed.

Lemma MakeUDPPacket_items protocol items :
  Forall itemInRange items →
  MakeUDPPacket protocol items = Ok (mkBuffer (le_split 1 protocol ++ encItems items) 0).
Proof.
  intros Hi. unfold MakeUDPPacket. rewrite itemsSize_encItems by done.
  apply make_buffer_writes; [|rewrite !length_app, !length_le_split; lia].
  apply writes_seq; [apply writes_le|by apply writes_items].
Qed.

(** A packet is exactly its items. For items in range, [MakePacket] reserves exactly
    the bytes it then writes: the result is the protocol byte, the 32-bit length of the body,
    and the items' encodings end to end, with nothing missing and nothing left over; a UDP
    packet is the same without the length. *)
Lemma MakePacket_exact protocol items :
  Forall itemInRange items → length (encItems items) < 2 ^ 32 →
  MakePacket protocol items = Ok (mkBuffer (encPacket protocol (encItems items)) 0) ∧
  MakeUDPPacket protocol items = Ok (mkBuffer (le_split 1 protocol ++ encItems items) 0).
Proof. intros Hi Hl. split; [by apply MakePacket_items|by apply MakeUDPPacket_items]. Qed.

Lemma puts_putItem i n : itemSize i = Ok n → 0 <= n ∧ puts (Z.to_nat n) (putItem i).
Proof.
  unfold itemSize, putItem. intros H.
  destruct (Z.eqb_spec (pi_Type i) TypeUint8); [|destruct (Z.eqb_spec (pi_Type i) TypeUint16);
    [|destruct (Z.eqb_spec (pi_Type i) TypeUint32); [|destruct (Z.eqb_spec (pi_Type i) TypeString);
    [|destruct (Z.eqb_spec (pi_Type i) TypeHash); [|destruct (Z.eqb_spec (pi_Type i) TypeTags);
    [|destruct (Z.eqb_spec (pi_Type i) itemTagsU8); [|done]]]]]]].
  1-3,5: injection H as <-; split; [done|];
    destruct (pi_Value i) as [[]|]; try (by apply puts_fail);
    first [apply (puts_le 1) | apply (puts_le 2) | apply (puts_le 4) | apply puts_PutHash].
  - destruct (pi_Value i) as [[]|]; try done. injection H as <-. split; [lia|].
    replace (Z.to_nat _) with (2 + length s)%nat by lia. apply puts_PutString.
  - destruct (pi_Value i) as [|tags]; [done|]. destruct (TagsLength tags) as [k| |] eqn:Hk; try done.
    injection H as <-. split; [lia|]. rewrite Nat2Z.id.
    destruct (puts_for_each_PutTag tags 4 k Hk) as [H4 Hp].
    replace k with (4 + (k - 4))%nat by lia. by apply puts_seq; [apply puts_le|].
  - destruct (pi_Value i) as [|tags]; [done|]. destruct (TagsLength tags) as [k| |] eqn:Hk; try done.
    injection H as <-. destruct (puts_for_each_PutTag tags 4 k Hk) as [H4 Hp]. split; [lia|].
    replace (Z.to_nat _) with (1 + (k - 4))%nat by lia. by apply puts_seq; [apply puts_le|].
Qed.

Lemma puts_items items n : itemsSize items = Ok n → 0 <= n ∧ puts (Z.to_nat n) (for_each putItem items).
Proof.
  revert n. induction items as [|i items IH]; intros n; cbn [itemsSize for_each].
  { intros [= <-]. split; [done|]. intros b Hb. simpl. lia. }
  destruct (itemSize i) as [l| |] eqn:Hl; [|done|done].
  destruct (itemsSize items) as [m| |]; [|done|done]. intros [= <-].
  destruct (puts_putItem i l Hl), (IH m eq_refl). split; [lia|].
  rewrite Z2Nat.inj_add by lia. by apply puts_seq.
Qed.

Lemma make_buffer_puts m (size : Z) : 0 <= size → puts (Z.to_nat size) m →
  match make_buffer size m with
  | Ok b => length (Bytes b) = Z.to_nat size ∧ pointer b = 0%nat
  | Err e => errors_Is e ErrOutOfBounds = false
  | Panic => False
  end.
Proof.
  intros Hs Hp. unfold make_buffer. int_test. specialize (Hp (NewBuffer (Z.to_nat size))).
  simpl in Hp. rewrite length_replicate in Hp. specialize (Hp ltac:(lia)).
  destruct (m _) as [b [[]|e|]]; [|done|done]. simpl. by destruct Hp.
Qed.

Lemma itemsSize_not_oob items e : itemsSize items = Err e → errors_Is e ErrOutOfBounds = false.
Proof.
  assert (∀ tags k e, tagsLength_from k tags = Err e → errors_Is e ErrOutOfBounds = false) as HT.
  { induction tags as [|t tags IH]; intros k e'; simpl; [done|].
    destruct (tagLength t) as [| |] eqn:Ht; [by apply IH| |done]. intros [= <-].
    unfold tagLength in Ht. repeat case_match; simplify_eq; done. }
  revert e. induction items as [|i items IH]; intros e; cbn [itemsSize]; [done|].
  destruct (itemSize i) as [l|e'|] eqn:Hl; [|intros [= <-]|done].
  { destruct (itemsSize items) as [|e''|]; intros; simplify_eq; eauto. }
  unfold itemSize in Hl. repeat case_match; simplify_eq; try done; by eapply HT.
Qed.

Lemma itemsSize_total items : itemsSize items ≠ Panic.
Proof.
  assert (∀ tags k, tagsLength_from k tags ≠ Panic) as HT.
  { induction tags as [|t tags IH]; intros k; simpl; [done|].
    destruct (tagLength t) eqn:Ht; [apply IH|done|].
    unfold tagLength in Ht. repeat case_match; done. }
  induction items as [|i items IH]; cbn [itemsSize]; [done|].
  destruct (itemSize i) as [l|e|] eqn:Hl; [by destruct (itemsSize items)|done|].
  unfold itemSize in Hl. repeat case_match; simplify_eq; try done. all: exfalso; by eapply HT.
Qed.

(** Making a packet never panics and never overruns its own buffer, whatever the
    items: it returns a buffer as long as its header and its items' sizes add up to, or the
    error of an item that cannot be encoded, which is never the out-of-bounds error. *)
Lemma MakePacket_total protocol items :
  match MakePacket protocol items with
  | Ok b => ∃ size, itemsSize items = Ok size ∧ Z.of_nat (length (Bytes b)) = 5 + size
  | Err e => errors_Is e ErrOutOfBounds = false
  | Panic => False
  end.
Proof.
  unfold MakePacket. pose proof (itemsSize_not_oob items) as He. pose proof (itemsSize_total items).
  destruct (itemsSize items) as [size|e|] eqn:Hs; [|by apply He|done].
  destruct (puts_items items size Hs) as [H0 Hp].
  pose proof (puts_seq 1 _ _ _ (puts_le 1 protocol)
    (puts_seq 4 _ _ _ (puts_le 4 (u32 size)) Hp)) as Hall.
  replace (1 + (4 + Z.to_nat size))%nat with (Z.to_nat (5 + size)) in Hall by lia.
  pose proof (make_buffer_puts _ (5 + size) ltac:(lia) Hall) as Hm.
  unfold PutUInt8, PutUInt32LE. destruct (make_buffer _ _) as [b|e|]; [|done|done].
  destruct Hm as [Hb _]. exists size. split; [done|lia].
Qed.

(** ** Receiving: the header, then the payload *)

(** The packet as [Init] leaves it once the header is read. *)
Definition headed (p : Packet) (proto size code : Z) : Packet :=
  { p with p_HasExcess := false; p_Protocol := proto; p_Size := size - 1; p_Code := code;
    p_recv := []; p_Data := NewBuffer 0 }.

(** [Init] on a whole header: what each of its tests decides. *)
Lemma Init_header p proto b1 b2 b3 b4 code chunk :
  let size := le_combine [b1; b2; b3; b4] in
  let refused := { p with p_HasExcess := false; p_Protocol := proto } in
  Init (NewBufferFromBytes (proto :: b1 :: b2 :: b3 :: b4 :: code :: chunk)) p =
    if IsProtocol proto then
      if size =? 0 then (refused, Err ErrOutOfBounds)
      else if MaxTCPPacketSize <? size - 1 then
        (refused, Err (ErrWrap "declared" [size - 1; MaxTCPPacketSize] ErrPacketTooLarge))
      else
        match Append chunk (headed p proto size code) with
        | Ok p' => (p', Ok tt)
        | Err e => (headed p proto size code, Err e)
        | Panic => (headed p proto size code, Panic)
        end
    else (refused, Err (ErrWrap "protocol" [proto] ErrUnknownProtocol)).
Proof.
  intros size refused. unfold Init, GetUInt8, GetUInt32LE, mbind, M_bind, require.
  cbn -[le_combine Append headed Z.eqb Z.ltb Z.sub MaxTCPPacketSize take].
  change (le_combine (take 1 (proto :: _))) with (proto + 256 * 0).
  change (le_combine (take 1 (code :: _))) with (code + 256 * 0).
  change (le_combine (take 4 (b1 :: _))) with size. rewrite !Z.add_0_r.
  replace (IsProtocol proto) with ((proto =? PrED2K) || (proto =? PrZlib) || (proto =? PrEMule))
    by (unfold IsProtocol; destruct (proto =? PrED2K), (proto =? PrZlib), (proto =? PrEMule); done).
  done.
Qed.

(** [Append] never panics while no more than [Size] bytes are in, and it cuts the received
    bytes at [Size]. *)
Lemma Append_spec chunk p : length (p_recv p) <= p_Size p →
  let all := p_recv p ++ chunk in
  let n := Z.to_nat (p_Size p) in
  Append chunk p = Ok
    (if length all <? p_Size p
     then { p with p_recv := all; p_Status := PsWaitingData; p_HasExcess := false }
     else { p with p_Data := NewBufferFromBytes (take n all); p_recv := []; p_Status := PsReady;
            p_HasExcess := p_Size p <? length all;
            p_Excess := if p_Size p <? length all then drop n all else p_Excess p }).
Proof.
  intros Hr all n. destruct p as [pr sz cd st d he ex rc]. unfold Append, all, n in *. simpl in *.
  int_test. rewrite !length_app, length_take.
  destruct (Z.ltb_spec (length rc + length chunk)%nat sz).
  - rewrite Z.min_r by lia. rewrite Nat2Z.id, Nat.min_id. int_test.
    by rewrite firstn_all.
  - rewrite Z.min_l by lia. rewrite Nat.min_l by lia.
    destruct (Z.ltb_spec (length rc + Z.to_nat (sz - length rc))%nat sz); [lia|].
    replace (sz - length rc <? length chunk) with (sz <? (length rc + length chunk)%nat)
      by (destruct (Z.ltb_spec sz (length rc + length chunk)%nat),
            (Z.ltb_spec (sz - length rc) (length chunk)); lia || done).
    rewrite take_app_ge, drop_app_ge by lia.
    replace (Z.to_nat sz - length rc)%nat with (Z.to_nat (sz - length rc)) by lia.
    by destruct (sz <? _).
Qed.

(** ** Compression *)

Section Compression.
Context `{ZLaws : ZlibLaws}.

Lemma Inflate_compressed payload :
  length payload <= MaxTCPPacketSize → InflateZlibPayload (zlib_compress payload) = Ok payload.
Proof.
  intros Hl. unfold InflateZlibPayload. rewrite zlib_inverse by done.
  rewrite take_ge by lia. int_test. done.
Qed.

(** What [MaybeCompressTCPPacket] leaves: the packet, or a shorter one under [PR_ZLIB]. *)
Lemma MaybeCompress_cases opcode payload minLen :
  fits 8 opcode → length payload <= MaxTCPPacketSize →
  let packet := mkBuffer (encPacket PrED2K (opcode :: payload)) 0 in
  MaybeCompressTCPPacket packet minLen = Ok packet ∨
  (length (zlib_compress payload) < length payload)%nat ∧
  MaybeCompressTCPPacket packet minLen =
    Ok (mkBuffer (encPacket PrZlib (opcode :: zlib_compress payload)) 0).
Proof.
  intros Hop Hl packet.
  assert (∃ b1 b2 b3 b4, encPacket PrED2K (opcode :: payload) =
    PrED2K :: b1 :: b2 :: b3 :: b4 :: opcode :: payload) as (b1&b2&b3&b4&Hraw)
    by (by eexists _, _, _, _).
  unfold MaybeCompressTCPPacket, packet, Bytes. simpl data. rewrite Hraw. simpl.
  destruct (length payload <? minLen); [by left|].
  destruct (Nat.leb_spec (length payload) (length (zlib_compress payload))); [by left|].
  right. split; [done|]. apply make_buffer_writes.
  - unfold encPacket. apply writes_seq; [apply writes_le|].
    assert (u32 (length (zlib_compress payload) + 1) =
      length (opcode :: zlib_compress payload)) as ->.
    { unfold MaxTCPPacketSize in *. simpl length. solve_range. }
    apply writes_seq; [apply writes_le|].
    replace (opcode :: zlib_compress payload) with (le_split 1 opcode ++ zlib_compress payload)
      by by rewrite le_split_byte.
    apply writes_seq; [apply writes_le|apply writes_PutBuffer].
  - unfold encPacket. rewrite !length_app, !length_le_split. simpl length. lia.
Qed.

(** Either way it is a packet the other side accepts, carrying the same payload. *)
Lemma MaybeCompress_open opcode payload minLen :
  fits 8 opcode → length payload <= MaxTCPPacketSize →
  let packet := mkBuffer (encPacket PrED2K (opcode :: payload)) 0 in
  ∃ proto body, MaybeCompressTCPPacket packet minLen = Ok (mkBuffer (encPacket proto (opcode :: body)) 0) ∧
    IsProtocol proto = true ∧ length body <= MaxTCPPacketSize ∧ (length body <= length payload)%nat ∧
    openPayload proto body = Ok payload.
Proof.
  intros Hop Hl packet. destruct (MaybeCompress_cases opcode payload minLen Hop Hl) as [HM|[Hlt HM]].
  - exists PrED2K, payload. by split_and!.
  - exists PrZlib, (zlib_compress payload). split_and!; [done|done|lia|lia|].
    unfold openPayload. simpl. by apply Inflate_compressed.
Qed.
End Compression.

(** ** A codec that satisfies the laws

    A run of one byte is stored as the byte and its length, anything else as it is. *)

Definition rle_compress (p : bytes) : bytes :=
  match p with
  | b :: _ =>
      if bool_decide (p = replicate (length p) b ∧ length p < 2 ^ 32)
      then 1 :: b :: le_split 4 (length p) else 0 :: p
  | [] => [0]
  end.

Definition rle_inflate (n : Z) (p : bytes) : result bytes :=
  match p with
  | 0 :: p => Ok (take (Z.to_nat n) p)
  | 1 :: b :: l => Ok (replicate (Z.to_nat (Z.min n (le_combine l))) b)
  | _ => Err (ErrNew "zlib: invalid header")
  end.

Definition rleZlib : Zlib := {| zlib_compress := rle_compress; zlib_inflate := rle_inflate |}.

Lemma rleZlib_laws : @ZlibLaws rleZlib.
Proof.
  split; simpl.
  - intros n p out Hn. unfold rle_inflate.
    repeat case_match; intros [= <-]; rewrite ?length_take, ?length_replicate; lia.
  - intros n p. unfold rle_inflate. by repeat case_match.
  - intros n p Hn. destruct p as [|b p]; [simpl; by rewrite take_nil|].
    unfold rle_compress. case_bool_decide as Hr; [|done]. destruct Hr as [Hr Hl].
    unfold rle_inflate. rewrite le_combine_split by solve_range. rewrite Hr at 2.
    rewrite take_replicate. do 2 f_equal. lia.
Qed.
