(* ===== verification/Builders.v ===== *)
(** * The packets the server sends and the requests it reads:
      [ed2k/tcpoperations.go], [ed2k/udpoperations.go], [ed2k/ipv6sources.go] *)

From S2P Require Import Prelude Buffer Types Address NetIP Packet.
Local Open Scope Z_scope.

Definition minZlibPayloadOnSend : Z := 128.
Definition udpSearchDatagramBudget : Z := 1300.
Definition udpSourceDatagramBudget : Z := 4900.
Definition SentinelIPv6ID : Z := 0xffffffff.
Definition natProofVersion : Z := 1.

Definition OpServerMessage : Z := 0x38.
Definition OpServerStatus : Z := 0x34.
Definition OpIDChange : Z := 0x40.
Definition OpServerList : Z := 0x32.
Definition OpServerIdent : Z := 0x41.
Definition OpFoundSources : Z := 0x42.
Definition OpSearchResult : Z := 0x33.
Definition OpCallbackReqd : Z := 0x35.
Definition OpCallbackFailed : Z := 0x36.
Definition OpFoundSourcesObfu : Z := 0x44.
Definition OpGlobServStatRes : Z := 0x97.
Definition OpGlobSearchRes : Z := 0x99.
Definition OpGlobFoundSources : Z := 0x9b.
Definition OpServerDescRes : Z := 0xa3.
Definition OpFoundSourcesIPv6 : Z := 0x25.
Definition OpGlobFoundSourcesIPv6 : Z := 0xa6.
Definition OpCallbackReqdIPv6 : Z := 0x26.

Definition TagDynIP : Z := 0x85.
Definition TagVersion2 : Z := 0x91.
Definition TagAuxPortsList : Z := 0x93.
Definition TagServerUDPFlags : Z := 0x92.
Definition TagNatToken : Z := 0xac.
Definition TagNatProof : Z := 0xa9.
Definition TagServerSearch : Z := 0xa0.
Definition TagServerSearchFingerprint : Z := 0xa1.

(** ** Reading a login *)

Record LoginRequest := mkLoginRequest {
  lr_Hash : bytes;
  lr_ID : Z;
  lr_Port : Z;
  lr_Tags : list NamedTag;
}.

Definition ParseLoginRequest : M Buffer LoginRequest :=
  hash ← Get 16;
  if negb (bool_decide (length hash = 16%nat)) then fail ErrOutOfBounds else
  id ← GetUInt32LE;
  port ← GetUInt16LE;
  tags ← GetTags;
  mret (mkLoginRequest hash id port tags).

(** ** TCP replies *)

Definition u8_item (v : Z) : PacketItem := mkItem TypeUint8 (IVal (AUint8 v)).
Definition u16_item (v : Z) : PacketItem := mkItem TypeUint16 (IVal (AUint16 v)).
Definition u32_item (v : Z) : PacketItem := mkItem TypeUint32 (IVal (AUint32 v)).
Definition hash_item (h : bytes) : PacketItem := mkItem TypeHash (IVal (ABytes h)).
Definition string_item (s : bytes) : PacketItem := mkItem TypeString (IVal (AString s)).

(** [MakePacket(PrED2K, pack)], then [MaybeCompressTCPPacket]: how every TCP builder
    ends. *)
Definition sendPacket `{Zlib} (pack : list PacketItem) : result Buffer :=
  match MakePacket PrED2K pack with
  | Ok packet => MaybeCompressTCPPacket packet minZlibPayloadOnSend
  | r => r
  end.

Inductive SourceFormat := FormatClassic | FormatSentinel.

Definition is_sentinel (f : SourceFormat) : bool :=
  match f with FormatSentinel => true | FormatClassic => false end.

Definition sourceHasReachableIPv6 (src : Source) : bool :=
  bool_decide (length (src_IPv6 src) = 16%nat) && src_IPv6Reachable src.

Definition sentinelForSource (src : Source) : bool :=
  sourceHasReachableIPv6 src && negb (HasHighID (src_ID src)).

Definition capWireSources (sources : list Source) : list Source :=
  if MaxWireSources <? length sources then take (Z.to_nat MaxWireSources) sources else sources.

(** The obfuscation byte of a source. *)
Definition obfuByte (src : Source) : Z :=
  let obf := Z.land (src_CryptOptions src) 0x07 in
  if negb (obf =? 0) && bool_decide (length (src_UserHash src) = 16%nat) then Z.lor obf 0x80 else obf.

Definition sourceItems (withObfuSettings : bool) (format : SourceFormat) (src : Source) : list PacketItem :=
  let useSentinel := is_sentinel format && sentinelForSource src in
  let id := if useSentinel then SentinelIPv6ID else src_ID src in
  [u32_item id; u16_item (src_Port src)] ++
  (if withObfuSettings then
     let obf := obfuByte src in
     u8_item obf :: (if negb (Z.land obf 0x80 =? 0) then [hash_item (src_UserHash src)] else [])
   else []) ++
  (if useSentinel then [hash_item (src_IPv6 src)] else []).

Definition buildFoundSourcesPacketWithOpcode `{Zlib} (opcode : Z) (fileHash : bytes)
    (sources : list Source) (withObfuSettings : bool) (format : SourceFormat) : result Buffer :=
  let sources := capWireSources sources in
  sendPacket
    ([u8_item opcode; hash_item fileHash; u8_item (u8 (length sources))] ++
     flat_map (sourceItems withObfuSettings format) sources).

Definition BuildFoundSourcesPacket `{Zlib} (fileHash : bytes) (sources : list Source) : result Buffer :=
  buildFoundSourcesPacketWithOpcode OpFoundSources fileHash sources false FormatClassic.

Definition BuildFoundSourcesObfuPacket `{Zlib} (fileHash : bytes) (sources : list Source) : result Buffer :=
  buildFoundSourcesPacketWithOpcode OpFoundSourcesObfu fileHash sources true FormatClassic.

Definition BuildFoundSourcesSentinelPacket `{Zlib} (fileHash : bytes) (sources : list Source)
    (obfu : bool) : result Buffer :=
  let opcode := if obfu then OpFoundSourcesObfu else OpFoundSources in
  buildFoundSourcesPacketWithOpcode opcode fileHash sources obfu FormatSentinel.

(** The field-by-field copy of a stored file into a [SharedFile]. *)
Definition sharedFile (file : File) : SharedFile :=
  mkSharedFile (f_Name file) (f_Size file) (f_Type file) (f_Sources file) (f_Completed file)
    (f_Title file) (f_Artist file) (f_Album file) (f_Runtime file) (f_Bitrate file) (f_Codec file)
    (f_Hash file) (f_SourceID file) (f_SourcePort file) (f_Meta file).

Definition BuildSearchResultPacket `{Zlib} (files : list File) (moreAvailable : bool) : result Buffer :=
  let pack := [u8_item OpSearchResult; u32_item (u32 (length files))] in
  let pack := fold_left (λ pack file, AddFile pack (sharedFile file)) files pack in
  let more := if moreAvailable then 1 else 0 in
  sendPacket (pack ++ [u8_item more]).

Definition ParsePublicIPv6 (s : bytes) : option bytes :=
  match ParseIP s with
  | Some ip => if IsPublicIPv6 ip then IPv6Bytes ip else None
  | None => None
  end.

(** Family 4, 6 or none. *)
Inductive server_ip := SIPv4 (ip : Z) | SIPv6 (ip : bytes) | SNone.

Definition ClassifyServerIP (ip : bytes) : server_ip :=
  match IPv4ToInt32LE ip with
  | Ok n => SIPv4 n
  | _ => match ParsePublicIPv6 ip with Some b => SIPv6 b | None => SNone end
  end.

(** The two lists [BuildServerListPacket] sorts the servers into, each capped. *)
Definition classifyServers (includeV6 : bool) (servers : list Server) :
    list (Z * Z) * list (bytes * Z) :=
  fold_left (λ '(v4, v6) s,
    match ClassifyServerIP (sv_IP s) with
    | SIPv4 ip => if length v4 <? MaxWireSources then (v4 ++ [(ip, sv_Port s)], v6) else (v4, v6)
    | SIPv6 ip => if includeV6 && (length v6 <? MaxWireSources)
                  then (v4, v6 ++ [(ip, sv_Port s)]) else (v4, v6)
    | SNone => (v4, v6)
    end) servers ([], []).

Definition BuildServerListPacket `{Zlib} (servers : list Server) (includeV6 : bool) :
    result Buffer :=
  let '(v4, v6) := classifyServers includeV6 servers in
  sendPacket
    ([u8_item OpServerList; u8_item (u8 (length v4))] ++
     flat_map (λ '(ip, port), [u32_item ip; u16_item port]) v4 ++
     (if includeV6 && (0 <? length v6) then
        u8_item (u8 (length v6)) :: flat_map (λ '(ip, port), [hash_item ip; u16_item port]) v6
      else [])).

Definition BuildServerStatusPacket `{Zlib} (clients files : Z) : result Buffer :=
  sendPacket [u8_item OpServerStatus; u32_item (u32 clients); u32_item (u32 files)].

Record IDChangeNatPorts := mkNatPorts { np_ObfuscationTCPPort : Z; np_ClientTCPPort : Z }.

Definition BuildIDChangePacket `{Zlib} (id tcpFlags primaryPort observedClientIPv4 : Z)
    (natPorts : option IDChangeNatPorts) : result Buffer :=
  let observed := if HasHighID observedClientIPv4 then observedClientIPv4 else 0 in
  sendPacket
    ([u8_item OpIDChange; u32_item id; u32_item tcpFlags; u32_item primaryPort; u32_item observed] ++
     match natPorts with
     | Some np => [u32_item (np_ObfuscationTCPPort np); u32_item (np_ClientTCPPort np)]
     | None => []
     end).

Definition BuildCallbackFailedPacket `{Zlib} : result Buffer := sendPacket [u8_item OpCallbackFailed].

Record MetaAPIAdvert := mkMetaAPIAdvert { ma_URL : bytes; ma_Version : Z; ma_Fingerprint : bytes }.

Record ServerConfig := mkServerConfig {
  sc_Name : bytes;
  sc_Description : bytes;
  sc_Address : bytes;
  sc_Hash : bytes;
  sc_TCPPort : Z;
  sc_TCPFlags : Z;
  sc_IPv6 : bytes;
  sc_NatPort : Z;
  sc_ClientIPv6 : bytes;
  sc_ClientIPv6Status : Z;
  sc_MetaAPI : MetaAPIAdvert;
  sc_Ed3k : bytes;
  sc_UDPFlags : Z;
  sc_NatToken : bytes;
}.

Definition is16 (b : bytes) : bool := bool_decide (length b = 16%nat).

Definition serverIdentTags (conf : ServerConfig) : list Tag :=
  [mkTag TypeString TagName (AString (sc_Name conf));
   mkTag TypeString TagDescription (AString (sc_Description conf))] ++
  when (is16 (sc_IPv6 conf)) (mkTag TypeHash TagModSvrIPv6 (ABytes (sc_IPv6 conf))) ++
  when (negb (sc_NatPort conf =? 0)) (mkTag TypeUint16 TagNatPort (AUint16 (sc_NatPort conf))) ++
  (if nonempty (ma_URL (sc_MetaAPI conf)) then
     [mkTag TypeString TagMetaAPI (AString (ma_URL (sc_MetaAPI conf)));
      mkTag TypeUint32 TagMetaAPIVersion (AUint32 (ma_Version (sc_MetaAPI conf)))] ++
     when (nonempty (ma_Fingerprint (sc_MetaAPI conf)))
       (mkTag TypeString TagMetaAPIFingerprint (AString (ma_Fingerprint (sc_MetaAPI conf))))
   else []) ++
  when (nonempty (sc_Ed3k conf)) (mkTag TypeString TagEd3k (AString (sc_Ed3k conf))) ++
  when (negb (sc_UDPFlags conf =? 0))
    (mkTag TypeUint32 TagServerUDPFlags (AUint32 (sc_UDPFlags conf))) ++
  (if is16 (sc_NatToken conf) then
     [mkTag TypeHash TagNatToken (ABytes (sc_NatToken conf));
      mkTag TypeUint32 TagNatProof (AUint32 natProofVersion)]
   else []) ++
  when (is16 (sc_ClientIPv6 conf)) (mkTag TypeHash TagModYourIP (ABytes (sc_ClientIPv6 conf))) ++
  when (negb (sc_ClientIPv6Status conf =? 0))
    (mkTag TypeUint8 TagIPv6Status (AUint8 (sc_ClientIPv6Status conf))).

Definition BuildServerIdentPacket `{Zlib} (conf : ServerConfig) : result Buffer :=
  let ip := match IPv4ToInt32LE (sc_Address conf) with Ok ip => ip | _ => 0 end in
  sendPacket [u8_item OpServerIdent; hash_item (sc_Hash conf); u32_item ip; u16_item (sc_TCPPort conf);
              mkItem TypeTags (ITags (serverIdentTags conf))].

(** [strings.ReplaceAll] of a CRLF pair and of a single byte. *)
Fixpoint replaceCRLF (s : bytes) : bytes :=
  match s with
  | [] => []
  | c :: s' =>
      if c =? 13 then
        match s' with
        | d :: s'' => if d =? 10 then 10 :: replaceCRLF s'' else c :: replaceCRLF s'
        | [] => [c]
        end
      else c :: replaceCRLF s'
  end.

Definition replaceByte (old : Z) (new : bytes) (s : bytes) : bytes :=
  flat_map (λ c, if c =? old then new else [c]) s.

Definition crlfMessageLines (s : bytes) : bytes :=
  if negb (existsb (λ c, (c =? 13) || (c =? 10)) s) then s
  else replaceByte 10 [13; 10] (replaceByte 13 [10] (replaceCRLF s)).

Definition BuildServerMessagePacket `{Zlib} (message : bytes) : result Buffer :=
  sendPacket [u8_item OpServerMessage; string_item (crlfMessageLines message)].

Definition BuildCallbackRequestedPacket `{Zlib} (ipv4 port cryptOptions : Z) (userHash : bytes) :
    result Buffer :=
  sendPacket
    ([u8_item OpCallbackReqd; u32_item ipv4; u16_item port] ++
     (if is16 userHash then [u8_item (Z.land cryptOptions 0x07); hash_item userHash] else [])).

Definition BuildCallbackRequestedIPv6Packet `{Zlib} (ipv6 : bytes) (port : Z) : result Buffer :=
  sendPacket [u8_item OpCallbackReqdIPv6; hash_item ipv6; u16_item port].

(** ** UDP replies *)

Definition uint32FromV4 (v4 : bytes) : Z :=
  match v4 with
  | a :: b :: c :: d :: _ =>
      Z.lor (Z.lor (Z.lor a (Z.shiftl b 8)) (Z.shiftl c 16)) (Z.shiftl d 24)
  | _ => 0
  end.

(** The [for i, src := range sources] that stops the list before the source that would
    take the datagram over the budget. *)
Fixpoint cutAtBudget (cost : Source → Z) (size : Z) (sources : list Source) : list Source :=
  match sources with
  | [] => []
  | src :: rest =>
      let size := size + cost src in
      if udpSourceDatagramBudget <? size then [] else src :: cutAtBudget cost size rest
  end.

Definition globSourceCost (format : SourceFormat) (src : Source) : Z :=
  6 + (if is_sentinel format && sentinelForSource src then 16 else 0).

Definition buildGlobFoundSources (fileHash : bytes) (sources : list Source) (format : SourceFormat) :
    result Buffer :=
  let sources := capWireSources sources in
  let sources := cutAtBudget (globSourceCost format) (1 + 1 + 16 + 1) sources in
  MakeUDPPacket PrED2K
    ([u8_item OpGlobFoundSources; hash_item fileHash; u8_item (u8 (length sources))] ++
     flat_map (sourceItems false format) sources).

Definition BuildGlobFoundSourcesPacket (fileHash : bytes) (sources : list Source) : result Buffer :=
  buildGlobFoundSources fileHash sources FormatClassic.

Definition BuildGlobFoundSourcesSentinelPacket (fileHash : bytes) (sources : list Source) : result Buffer :=
  buildGlobFoundSources fileHash sources FormatSentinel.

(** *** The tag-block form (ipv6sources.go) *)

Definition ipv6SourceCost (src : Source) : Z :=
  4 + 2 + 1 + (if sourceHasReachableIPv6 src then 1 + 2 + 1 + 16 else 0).

Definition ipv6SourceItems (src : Source) : list PacketItem :=
  let reachable := sourceHasReachableIPv6 src in
  let id := if reachable && negb (HasHighID (src_ID src)) then SentinelIPv6ID else src_ID src in
  let tags := if reachable then [mkTag TypeHash TagModIPv6 (ABytes (src_IPv6 src))] else [] in
  [u32_item id; u16_item (src_Port src); mkItem itemTagsU8 (ITags tags)].

Definition buildFoundSourcesIPv6 `{Zlib} (opcode : Z) (udp : bool) (fileHash : bytes)
    (sources : list Source) : result Buffer :=
  let sources := capWireSources sources in
  let sources := if udp then cutAtBudget ipv6SourceCost (1 + 1 + 16 + 1) sources else sources in
  let pack := [u8_item opcode; hash_item fileHash; u8_item (u8 (length sources))] ++
              flat_map ipv6SourceItems sources in
  if udp then MakeUDPPacket PrED2K pack else sendPacket pack.

Definition BuildFoundSourcesIPv6Packet `{Zlib} (fileHash : bytes) (sources : list Source) : result Buffer :=
  buildFoundSourcesIPv6 OpFoundSourcesIPv6 false fileHash sources.

Definition BuildGlobFoundSourcesIPv6Packet `{Zlib} (fileHash : bytes) (sources : list Source) : result Buffer :=
  buildFoundSourcesIPv6 OpGlobFoundSourcesIPv6 true fileHash sources.

(** *** Search answers, status and description *)

Definition globSearchRecord (file : File) : result Buffer :=
  MakeUDPPacket PrED2K (AddFile [u8_item OpGlobSearchRes] (sharedFile file)).

(** The loop of [BuildGlobSearchResPackets] with its two accumulators. *)
Fixpoint packRecords (files : list File) (out : list Buffer) (pend : bytes) : result (list Buffer) :=
  match files with
  | [] => Ok (if nonempty pend then out ++ [NewBufferFromBytes pend] else out)
  | file :: files =>
      match globSearchRecord file with
      | Ok b =>
          let record := Bytes b in
          if nonempty pend && (udpSearchDatagramBudget <? length pend + length record)
          then packRecords files (out ++ [NewBufferFromBytes pend]) record
          else packRecords files out (pend ++ record)
      | Err e => Err e
      | Panic => Panic
      end
  end.

Definition BuildGlobSearchResPackets (files : list File) : result (list Buffer) :=
  packRecords files [] [].

Record ServerSearchAdvert := mkServerSearchAdvert { ssa_URL : bytes; ssa_Fingerprint : bytes }.

Record UDPConfig := mkUDPConfig {
  uc_Name : bytes;
  uc_Description : bytes;
  uc_DynIP : bytes;
  uc_UDPFlags : Z;
  uc_UDPPortObf : Z;
  uc_TCPPortObf : Z;
  uc_UDPServerKey : Z;
  uc_MaxConnections : Z;
  uc_SoftFiles : Z;
  uc_HardFiles : Z;
  uc_ObservedIP : bytes;
  uc_ServerSearch : ServerSearchAdvert;
  uc_Ed3k : bytes;
}.

Definition BuildGlobServStatResPacket (challenge : Z) (cfg : UDPConfig)
    (clientsCount filesCount lowIDCount : Z) : result Buffer :=
  MakeUDPPacket PrED2K
    ([u8_item OpGlobServStatRes; u32_item challenge; u32_item (u32 clientsCount);
      u32_item (u32 filesCount); u32_item (uc_MaxConnections cfg); u32_item (uc_SoftFiles cfg);
      u32_item (uc_HardFiles cfg); u32_item (uc_UDPFlags cfg); u32_item (u32 lowIDCount);
      u16_item (uc_UDPPortObf cfg); u16_item (uc_TCPPortObf cfg); u32_item (uc_UDPServerKey cfg)] ++
     match To4 (uc_ObservedIP cfg) with Some v4 => [u32_item (uint32FromV4 v4)] | None => [] end).

Definition BuildServerDescResOldPacket (name desc : bytes) : result Buffer :=
  MakeUDPPacket PrED2K [u8_item OpServerDescRes; string_item name; string_item desc].

Definition ENodeVersionStr : String.string := "v0.5.20".
Definition ENodeName : String.string := "eNode-go".
Definition GossipCompatVersion : String.string := "17.15".
Definition GossipVersionStr : bytes :=
  str GossipCompatVersion ++ str " (" ++ str ENodeName ++ str " " ++ str ENodeVersionStr ++ str ")".

Definition serverDescTags (cfg : UDPConfig) : list Tag :=
  [mkTag TypeString TagName (AString (uc_Name cfg));
   mkTag TypeString TagDescription (AString (uc_Description cfg));
   mkTag TypeString TagDynIP (AString (uc_DynIP cfg));
   mkTag TypeString TagVersion2 (AString GossipVersionStr);
   mkTag TypeString TagAuxPortsList (AString [])] ++
  (if nonempty (ssa_URL (uc_ServerSearch cfg)) then
     mkTag TypeString TagServerSearch (AString (ssa_URL (uc_ServerSearch cfg))) ::
     when (nonempty (ssa_Fingerprint (uc_ServerSearch cfg)))
       (mkTag TypeString TagServerSearchFingerprint (AString (ssa_Fingerprint (uc_ServerSearch cfg))))
   else []) ++
  when (nonempty (uc_Ed3k cfg)) (mkTag TypeString TagEd3k (AString (uc_Ed3k cfg))).

Definition BuildServerDescResPacket (challenge : Z) (cfg : UDPConfig) : result Buffer :=
  MakeUDPPacket PrED2K
    [u8_item OpServerDescRes; u32_item challenge; mkItem TypeTags (ITags (serverDescTags cfg))].

(** ** Logins *)

(** Reading a login request from arbitrary bytes never panics and stays in bounds; what
    is returned has a 16-byte user hash, an ID and a port of their widths and well-formed
    tags. *)
Lemma ParseLoginRequest_safe b : wf_buf b →
  match ParseLoginRequest b with
  | (b', Ok r) => advances b b' ∧ length (lr_Hash r) = 16%nat ∧ wf_bytes (lr_Hash r) ∧
      fits 32 (lr_ID r) ∧ fits 16 (lr_Port r) ∧ Forall wf_tag (lr_Tags r)
  | (b', Err _) => advances b b'
  | (_, Panic) => False
  end.
Proof.
  revert b. fold (decodes (λ r, length (lr_Hash r) = 16%nat ∧ wf_bytes (lr_Hash r) ∧
    fits 32 (lr_ID r) ∧ fits 16 (lr_Port r) ∧ Forall wf_tag (lr_Tags r)) ParseLoginRequest).
  unfold ParseLoginRequest. eapply decodes_bind; [apply decodes_Get; lia|]. intros h [Hh _].
  apply decodes_if; intros H16; [apply decodes_fail|].
  apply negb_false_iff, bool_decide_eq_true in H16.
  eapply decodes_bind; [apply decodes_GetUInt32LE|]. intros id Hid.
  eapply decodes_bind; [apply decodes_GetUInt16LE|]. intros port Hport.
  eapply decodes_bind; [apply decodes_GetTags|]. intros tags Htags.
  apply decodes_ret. done.
Qed.

(** ** Search results across the wire *)

(** A file the wire format can carry: a full hash and every text short enough for its
    16-bit length. *)
Record wireFile (f : File) : Prop := {
  wf_typed : wf_file f;
  wf_hash16 : length (f_Hash f) = 16%nat;
  wf_texts : length (f_Name f) < 2 ^ 16 ∧ length (f_Type f) < 2 ^ 16 ∧ length (f_Title f) < 2 ^ 16 ∧
    length (f_Artist f) < 2 ^ 16 ∧ length (f_Album f) < 2 ^ 16 ∧ length (f_Codec f) < 2 ^ 16;
  wf_metatexts : match f_Meta f with
    | Some m => length (mi_FilePath m) < 2 ^ 16 ∧ length (mi_CatalogID m) < 2 ^ 16 ∧
        length (mi_Indexer m) < 2 ^ 16 ∧ length (mi_Magnet m) < 2 ^ 16
    | None => True
    end;
}.

(** The meta tags of a row, by what it stands for. *)
Definition fileMetaTags (meta : option MetaInfo) : list Tag :=
  match meta with
  | Some m => if Native (Some m) then [mkTag TypeUint8 TagMetaNetwork (AUint8 (metaNetworkOf m))]
              else metaTags m
  | None => []
  end.

Definition allTags (f : File) : list Tag := fileTags (sharedFile f) ++ fileMetaTags (f_Meta f).

Lemma AddFile_items pack f :
  AddFile pack (sharedFile f) =
  pack ++ [hash_item (f_Hash f); u32_item (f_SourceID f); u16_item (f_SourcePort f);
           mkItem TypeTags (ITags (allTags f))].
Proof.
  unfold AddFile, allTags, fileMetaTags, appendMetaTags. simpl sf_Meta.
  destruct (f_Meta f) as [m|]; [by destruct (Native (Some m))|by rewrite app_nil_r].
Qed.

Lemma Forall_when (P : Tag → Prop) c t : (c = true → P t) → Forall P (when c t).
Proof. destruct c; simpl; auto. Qed.

Ltac tags_in_range :=
  repeat lazymatch goal with
         | |- Forall _ (_ ++ _) => apply Forall_app; split
         | |- Forall _ (when _ _) => apply Forall_when; intros _
         | |- Forall _ (_ :: _) => apply Forall_cons; split
         | |- Forall _ [] => constructor
         end;
  (split; [done|simpl; split_and?; try done; solve_range]).

Lemma allTags_inRange f : wireFile f → Forall tagInRange (allTags f).
Proof.
  intros [[] Hh Htexts Hmeta]. destruct_and!. apply Forall_app; split.
  - unfold fileTags, sharedFile. simpl. tags_in_range.
  - unfold fileMetaTags. destruct (f_Meta f) as [m|]; [|constructor].
    destruct wff_meta as []. destruct_and!. case_match.
    + assert (fits 8 (metaNetworkOf m)) by (unfold metaNetworkOf; by case_match). tags_in_range.
    + unfold metaTags. tags_in_range.
Qed.

Lemma length_allTags f : length (allTags f) < 2 ^ 32.
Proof.
  unfold allTags, fileTags, fileMetaTags, metaTags. rewrite !length_app.
  assert (∀ c t, (length (when c t) <= 1)%nat) as Hw by (intros []; simpl; lia).
  destruct (f_Meta f) as [m|]; [case_match|]; rewrite ?length_app;
    repeat match goal with |- context [length (when ?c ?t)] =>
      pose proof (Hw c t); generalize dependent (length (when c t)); intros end; simpl; lia.
Qed.

(** The record a peer reads for a file: every field as stored, the size whole again, and
    the tags a record has no field for kept in [Extra]. *)
Definition receivedRecord (f : File) : FileRecord :=
  {| fr_Hash := f_Hash f;
     fr_Complete := negb ((f_SourceID f =? ValPartialID) && (f_SourcePort f =? ValPartialPort));
     fr_ID := f_SourceID f; fr_Port := f_SourcePort f;
     fr_SizeLo := f_Size f `mod` 2 ^ 32; fr_SizeHi := f_Size f `div` 2 ^ 32; fr_Size := f_Size f;
     fr_Name := f_Name f; fr_Type := f_Type f; fr_Sources := f_Sources f;
     fr_Title := f_Title f; fr_Artist := f_Artist f; fr_Album := f_Album f;
     fr_Length := f_Runtime f; fr_Bitrate := f_Bitrate f; fr_Codec := f_Codec f;
     fr_Extra := decodedTag (mkTag TypeUint32 TagCompleteSources (AUint32 (f_Completed f))) ::
                 map decodedTag (fileMetaTags (f_Meta f));
     fr_sizeLo := f_Size f `mod` 2 ^ 32; fr_sizeHi := f_Size f `div` 2 ^ 32 |}.

(** One optional tag, then the rest. *)
Lemma fold_when c t tags r r1 r2 :
  (c = true → stepTag true r (decodedTag t) = r1) → (c = false → r = r1) →
  fold_left (stepTag true) (map decodedTag tags) r1 = r2 →
  fold_left (stepTag true) (map decodedTag (when c t ++ tags)) r = r2.
Proof. intros Ht Hf <-. destruct c; simpl; [by rewrite Ht|by rewrite Hf]. Qed.

(** Meta tags have no field: they all go to [Extra]. *)
Definition metaCode (c : Z) : bool := (0x60 <=? c) && (c <=? 0x6d).

Lemma SetTag_meta c v r : metaCode c = true → SetTag (tagName c) v r = (r, false).
Proof.
  intros Hc.
  assert (c ∈ [0x60; 0x61; 0x62; 0x63; 0x64; 0x65; 0x66; 0x67; 0x68; 0x69; 0x6a; 0x6b; 0x6c; 0x6d]) as Hin.
  { unfold metaCode in Hc. rewrite !elem_of_cons. lia. }
  rewrite !elem_of_cons, elem_of_nil in Hin. destruct_or!; subst; done.
Qed.

Lemma fold_meta tags r :
  Forall (λ t, metaCode (tag_Code t) = true) tags →
  fold_left (stepTag true) (map decodedTag tags) r =
    { r with fr_Extra := fr_Extra r ++ map decodedTag tags }.
Proof.
  intros Ht. revert r. induction Ht as [|t tags Hc _ IH]; intros r.
  { destruct r. simpl. by rewrite app_nil_r. }
  cbn [map fold_left]. rewrite IH. unfold stepTag. simpl. rewrite SetTag_meta by done. simpl.
  destruct r. simpl. by rewrite <- app_assoc.
Qed.

Lemma fileMetaTags_codes meta : Forall (λ t, metaCode (tag_Code t) = true) (fileMetaTags meta).
Proof.
  unfold fileMetaTags, metaTags. destruct meta as [m|]; [|constructor].
  case_match; repeat lazymatch goal with
         | |- Forall _ (_ ++ _) => apply Forall_app; split
         | |- Forall _ (when _ _) => apply Forall_when; intros _
         | |- Forall _ (_ :: _) => apply Forall_cons; split
         | |- Forall _ [] => constructor
         end; done.
Qed.

Lemma nonempty_false s : nonempty s = false → s = [].
Proof. by destruct s. Qed.

Lemma u32_small z : fits 32 z → u32 z = z.
Proof. apply Z.mod_small. Qed.

(** The record after some of the tags: the size so far, and the media fields so far. *)
Definition partialRecord (f : File) (hi : Z) (title artist album : bytes) (len bitrate : Z)
    (codec : bytes) : FileRecord :=
  let lo := f_Size f `mod` 2 ^ 32 in
  {| fr_Hash := f_Hash f;
     fr_Complete := negb ((f_SourceID f =? ValPartialID) && (f_SourcePort f =? ValPartialPort));
     fr_ID := f_SourceID f; fr_Port := f_SourcePort f;
     fr_SizeLo := lo; fr_SizeHi := hi; fr_Size := lo + hi * 2 ^ 32;
     fr_Name := f_Name f; fr_Type := f_Type f; fr_Sources := f_Sources f;
     fr_Title := title; fr_Artist := artist; fr_Album := album;
     fr_Length := len; fr_Bitrate := bitrate; fr_Codec := codec;
     fr_Extra := [decodedTag (mkTag TypeUint32 TagCompleteSources (AUint32 (f_Completed f)))];
     fr_sizeLo := lo; fr_sizeHi := hi |}.

Lemma tagUint32_small z : fits 32 z → tagUint32 (AUint64 z) = z.
Proof. intros Hz. simpl. int_test; [unfold fits in Hz; lia|by apply u32_small]. Qed.

Lemma fold_fileTags f : wireFile f →
  fold_left (stepTag true) (map decodedTag (fileTags (sharedFile f)))
    (headRecord (f_Hash f) (f_SourceID f) (f_SourcePort f)) =
  partialRecord f (f_Size f `div` 2 ^ 32) (f_Title f) (f_Artist f) (f_Album f) (f_Runtime f)
    (f_Bitrate f) (f_Codec f).
Proof.
  intros [[] Hh Htexts Hmeta]. destruct_and!. unfold fileTags, sharedFile. simpl sf_Name. simpl sf_Size.
  simpl sf_Type. simpl sf_Title. simpl sf_Artist. simpl sf_Album. simpl sf_Runtime. simpl sf_Bitrate.
  simpl sf_Codec. simpl sf_Sources. simpl sf_Completed.
  rewrite map_app, fold_left_app. rewrite <- (app_nil_r (when (nonempty (f_Codec f)) _)).
  set (base := fold_left _ (map decodedTag (_ :: _)) _).
  assert (base = partialRecord f 0 [] [] [] 0 0 []) as ->.
  { change base with {| fr_Hash := f_Hash f;
     fr_Complete := negb ((f_SourceID f =? ValPartialID) && (f_SourcePort f =? ValPartialPort));
     fr_ID := f_SourceID f; fr_Port := f_SourcePort f;
     fr_SizeLo := u32 (u32 (f_Size f `mod` 0x100000000)); fr_SizeHi := 0;
     fr_Size := u64 (u32 (f_Size f `mod` 0x100000000) + 0 * 0x100000000);
     fr_Name := f_Name f; fr_Type := f_Type f; fr_Sources := tagUint32 (AUint64 (f_Sources f));
     fr_Title := []; fr_Artist := []; fr_Album := [];
     fr_Length := 0; fr_Bitrate := 0; fr_Codec := [];
     fr_Extra := [decodedTag (mkTag TypeUint32 TagCompleteSources (AUint32 (f_Completed f)))];
     fr_sizeLo := u32 (f_Size f `mod` 0x100000000); fr_sizeHi := 0 |}.
    rewrite tagUint32_small by done. unfold partialRecord. f_equal; solve_range. }
  set (P := partialRecord f (f_Size f `div` 2 ^ 32)).
  apply (fold_when _ _ _ _ (P [] [] [] 0 0 [])).
  { intros _. unfold P, partialRecord.
    match goal with |- stepTag _ ?r (decodedTag (mkTag _ _ (AUint32 ?v))) = _ =>
      change (stepTag true r (decodedTag (mkTag TypeUint32 TagSizeHi (AUint32 v)))) with
        (sumSize { r with fr_sizeHi := v; fr_SizeHi := u32 v }) end.
    unfold sumSize. simpl. f_equal; solve_range. }
  { intros Hs. unfold P, partialRecord. f_equal; solve_range. }
  apply (fold_when _ _ _ _ (P (f_Title f) [] [] 0 0 [])); [done|by intros ->%nonempty_false|].
  apply (fold_when _ _ _ _ (P (f_Title f) (f_Artist f) [] 0 0 [])); [done|by intros ->%nonempty_false|].
  apply (fold_when _ _ _ _ (P (f_Title f) (f_Artist f) (f_Album f) 0 0 []));
    [done|by intros ->%nonempty_false|].
  apply (fold_when _ _ _ _ (P (f_Title f) (f_Artist f) (f_Album f) (f_Runtime f) 0 [])).
  { intros _. rewrite <- (tagUint32_small (f_Runtime f)) at 2 by done. done. }
  { intros Hz. unfold P. f_equal. solve_range. }
  apply (fold_when _ _ _ _ (P (f_Title f) (f_Artist f) (f_Album f) (f_Runtime f) (f_Bitrate f) [])).
  { intros _. rewrite <- (tagUint32_small (f_Bitrate f)) at 2 by done. done. }
  { intros Hz. unfold P. f_equal. solve_range. }
  apply (fold_when _ _ _ _ (P (f_Title f) (f_Artist f) (f_Album f) (f_Runtime f) (f_Bitrate f) (f_Codec f)));
    [done|by intros ->%nonempty_false|done].
Qed.

Lemma fold_allTags f : wireFile f →
  fold_left (stepTag true) (map decodedTag (allTags f))
    (headRecord (f_Hash f) (f_SourceID f) (f_SourcePort f)) = receivedRecord f.
Proof.
  intros Hf. unfold allTags. rewrite map_app, fold_left_app, fold_fileTags by done.
  rewrite fold_meta by apply fileMetaTags_codes. unfold receivedRecord. simpl.
  f_equal. destruct Hf as [[] _ _ _]. solve_range.
Qed.

Section Wire.
Context `{ZLaws : ZlibLaws}.

(** A reply of ours, as the other side opens it. *)
Definition opens (r : result Buffer) (opcode : Z) (payload : bytes) : Prop :=
  ∃ proto body, r = Ok (mkBuffer (encPacket proto (opcode :: body)) 0) ∧
    IsProtocol proto = true ∧ length body <= MaxTCPPacketSize ∧ openPayload proto body = Ok payload.

Lemma sendPacket_opens opcode items :
  fits 8 opcode → Forall itemInRange items → length (encItems items) <= MaxTCPPacketSize →
  opens (sendPacket (u8_item opcode :: items)) opcode (encItems items).
Proof.
  intros Hop Hi Hl. unfold sendPacket.
  assert (Forall itemInRange (u8_item opcode :: items)) as Hi' by (constructor; done).
  assert (encItems (u8_item opcode :: items) = opcode :: encItems items) as Henc.
  { unfold encItems. cbn [map concat]. change (encItem (u8_item opcode)) with (le_split 1 opcode).
    by rewrite le_split_byte. }
  pose proof (MakePacket_items PrED2K (u8_item opcode :: items) Hi') as HP.
  rewrite Henc in HP. rewrite HP by (simpl; unfold MaxTCPPacketSize in *; lia).
  destruct (MaybeCompress_open opcode (encItems items) minZlibPayloadOnSend Hop Hl)
    as (proto&body&HM&Hp&Hb&_&Ho).
  by exists proto, body.
Qed.

(** A file's entry in a result list. *)
Definition encFile (f : File) : bytes := encRecord (f_Hash f) (f_SourceID f) (f_SourcePort f) (allTags f).

Definition searchPayload (files : list File) (more : bool) : bytes :=
  (le_split 4 (length files) ++ concat (map encFile files)) ++ [if more then 1 else 0].

Definition fileItems (f : File) : list PacketItem :=
  [hash_item (f_Hash f); u32_item (f_SourceID f); u16_item (f_SourcePort f);
   mkItem TypeTags (ITags (allTags f))].

Lemma fold_AddFile files pack :
  fold_left (λ pack file, AddFile pack (sharedFile file)) files pack = pack ++ flat_map fileItems files.
Proof.
  revert pack. induction files as [|f files IH]; intros pack; simpl; [by rewrite app_nil_r|].
  by rewrite IH, AddFile_items, <- app_assoc.
Qed.

Lemma encItems_app l1 l2 : encItems (l1 ++ l2) = encItems l1 ++ encItems l2.
Proof. unfold encItems. by rewrite map_app, concat_app. Qed.

Lemma encItems_cons x l : encItems (x :: l) = encItem x ++ encItems l.
Proof. done. Qed.

Lemma encItems_flat_map {A} (g : A → list PacketItem) l :
  encItems (flat_map g l) = concat (map (λ x, encItems (g x)) l).
Proof.
  induction l as [|x l IH]; [done|]. cbn [flat_map map concat]. by rewrite encItems_app, IH.
Qed.

Lemma encItems_fileItems f : encItems (fileItems f) = encFile f.
Proof.
  unfold encItems, fileItems, encFile, encRecord. cbn [map concat]. by rewrite app_nil_r.
Qed.

Lemma fileItems_inRange f : wireFile f → Forall itemInRange (fileItems f).
Proof.
  intros Hf. pose proof (allTags_inRange f Hf). pose proof (length_allTags f).
  destruct Hf as [[] Hh _ _]. destruct_and!.
  repeat (apply Forall_cons; split); try done. split; [done|]. by left.
Qed.

Lemma Forall_flat_map {A B} (P : B → Prop) (g : A → list B) l :
  Forall (λ x, Forall P (g x)) l → Forall P (flat_map g l).
Proof. induction 1; simpl; [constructor|]. by apply Forall_app. Qed.

Lemma reads_GetFileList files :
  Forall wireFile files → length files < 2 ^ 32 →
  reads GetFileList (le_split 4 (length files) ++ concat (map encFile files)) (map receivedRecord files).
Proof.
  intros Hf Hn. rewrite <- (length_map receivedRecord files) at 1.
  refine (reads_counted minFileRecordBytes (λ n, for_collect n 0 _) _ _ _ _ _ _ _); [done|..].
  - by rewrite length_map.
  - rewrite length_map. transitivity (Z.of_nat (length files * 26)); [unfold minFileRecordBytes; lia|].
    clear Hn. induction Hf as [|f files Hf _ IH]; [done|]. cbn [map concat length].
    rewrite length_app. assert (26 <= length (encFile f))%nat; [|lia].
    unfold encFile, encRecord, encTags. rewrite !length_app, !length_le_split, (wf_hash16 f Hf). lia.
  - apply reads_for_collect. apply Forall2_fmap, Forall_Forall2_diag.
    eapply Forall_impl; [done|]. intros f Hwire i. rewrite <- fold_allTags by done.
    destruct Hwire as [[] ? ? ?] eqn:E. destruct_and!. apply reads_getFileRecord; try done.
    + by apply allTags_inRange.
    + apply length_allTags.
Qed.

(** C30: search results arrive as stored. The packet built for any list of files (with
    16-byte hashes and texts under 64 KiB, and no larger than a packet may be) is one the
    receiver opens, under compression or not; reading the file list from it gives every
    file's record, in order, with its name, type, sources, media fields, source address and
    full 64-bit size, and exactly one byte follows, telling whether there is more. *)
Theorem search_results_delivered files more :
  Forall wireFile files → length (searchPayload files more) <= MaxTCPPacketSize →
  ∃ payload, opens (BuildSearchResultPacket files more) OpSearchResult payload ∧
    ∃ b, GetFileList (NewBufferFromBytes payload) = (b, Ok (map receivedRecord files)) ∧
      drop (pointer b) payload = [if more then 1 else 0].
Proof.
  intros Hf Hl. exists (searchPayload files more).
  assert (length files < 2 ^ 32) as Hn.
  { unfold searchPayload in Hl. rewrite !length_app, length_le_split in Hl.
    pose proof (length_encs_lower encFile 1 files) as Hlow.
    assert (∀ x, (1 <= length (encFile x))%nat).
    { intros x. unfold encFile, encRecord. rewrite !length_app, !length_le_split. lia. }
    specialize (Hlow ltac:(done)). unfold MaxTCPPacketSize in Hl. lia. }
  split.
  - unfold BuildSearchResultPacket. rewrite fold_AddFile. rewrite <- app_assoc. cbn [app].
    replace (searchPayload files more) with
      (encItems (u32_item (u32 (length files)) :: flat_map fileItems files ++ [u8_item (if more then 1 else 0)])) in *.
    { apply sendPacket_opens; [done| |done]. constructor; [split; [done|solve_range]|].
      apply Forall_app. split; [|constructor; [by destruct more|done]]. apply Forall_flat_map.
      eapply Forall_impl; [done|]. apply fileItems_inRange. }
    rewrite encItems_cons, encItems_app, encItems_flat_map.
    unfold searchPayload. replace (u32 (length files)) with (Z.of_nat (length files)) by solve_range.
    rewrite <- app_assoc. f_equal. f_equal; [|by destruct more]. f_equal. apply map_ext, encItems_fileItems.
  - pose proof (reads_GetFileList files Hf Hn [] [if more then 1 else 0]) as Hr. simpl in Hr.
    eexists. split; [exact Hr|]. simpl. unfold searchPayload. by rewrite drop_app_length.
Qed.
(** *** Found sources *)

(** A source a reply can carry. [0xffffffff] is not the ID of any client: it is the packed
    broadcast address, and the sentinel of the IPv6 form. *)
Definition wireSource (src : Source) : Prop :=
  fits 32 (src_ID src) ∧ src_ID src ≠ SentinelIPv6ID ∧ fits 16 (src_Port src) ∧
  fits 8 (src_CryptOptions src).

(** What a client reads, by the format eMule documents: ID and port, in the obfuscated
    form the settings byte and the user hash it announces, and after them, under the
    sentinel ID, the IPv6 address. *)
Record WireSource := mkWireSource {
  ws_ID : Z;
  ws_Port : Z;
  ws_Obfu : Z;
  ws_UserHash : bytes;
  ws_IPv6 : bytes;
}.

Definition readObfu (obfu : bool) : M Buffer (Z * bytes) :=
  if obfu then
    obf ← GetUInt8;
    if negb (Z.land obf 0x80 =? 0) then h ← GetChecked 16; mret (obf, h) else mret (obf, [])
  else mret (0, []).

Definition readSource (obfu sentinel : bool) : M Buffer WireSource :=
  id ← GetUInt32LE;
  port ← GetUInt16LE;
  '(obf, hash) ← readObfu obfu;
  ipv6 ← (if sentinel && (id =? SentinelIPv6ID) then GetChecked 16 else mret []);
  mret (mkWireSource id port obf hash ipv6).

Definition readSources (obfu sentinel : bool) : M Buffer (bytes * list WireSource) :=
  fileHash ← GetChecked 16;
  n ← GetUInt8;
  sources ← for_collect (Z.to_nat n) 0 (λ _, readSource obfu sentinel);
  mret (fileHash, sources).

(** What it should read for a stored source. *)
Definition sentSource (obfu : bool) (format : SourceFormat) (src : Source) : WireSource :=
  let useSentinel := is_sentinel format && sentinelForSource src in
  let crypt := Z.land (src_CryptOptions src) 0x07 in
  let hashed := obfu && negb (crypt =? 0) && bool_decide (length (src_UserHash src) = 16%nat) in
  mkWireSource (if useSentinel then SentinelIPv6ID else src_ID src) (src_Port src)
    (if obfu then if hashed then crypt + 0x80 else crypt else 0)
    (if hashed then src_UserHash src else []) (if useSentinel then src_IPv6 src else []).

Lemma crypt_bits c : Z.land c 0x07 ∈ [0; 1; 2; 3; 4; 5; 6; 7].
Proof.
  assert (0 <= Z.land c 0x07 < 8).
  { change 0x07 with (Z.ones 3). rewrite Z.land_ones by lia. by apply Z.mod_pos_bound. }
  rewrite !elem_of_cons. lia.
Qed.

Lemma obfuByte_spec src :
  let crypt := Z.land (src_CryptOptions src) 0x07 in
  let hashed := negb (crypt =? 0) && bool_decide (length (src_UserHash src) = 16%nat) in
  obfuByte src = (if hashed then crypt + 0x80 else crypt) ∧ fits 8 (obfuByte src) ∧
  negb (Z.land (obfuByte src) 0x80 =? 0) = hashed.
Proof.
  unfold obfuByte. pose proof (crypt_bits (src_CryptOptions src)) as Hc.
  rewrite !elem_of_cons, elem_of_nil in Hc.
  destruct (bool_decide (length (src_UserHash src) = 16%nat)); destruct_or!; rewrite Hc; done.
Qed.
Lemma reads_readObfu obfu format src :
  reads (readObfu obfu)
    (encItems (if obfu then u8_item (obfuByte src) ::
       (if negb (Z.land (obfuByte src) 0x80 =? 0) then [hash_item (src_UserHash src)] else []) else []))
    (ws_Obfu (sentSource obfu format src), ws_UserHash (sentSource obfu format src)).
Proof.
  destruct obfu; [|apply reads_ret]. destruct (obfuByte_spec src) as (E&Hf&Hh).
  unfold readObfu. rewrite encItems_cons. eapply reads_bind; [by apply reads_le|].
  rewrite Hh. simpl ws_Obfu. simpl ws_UserHash. rewrite E. clear E.
  destruct (_ && bool_decide _) eqn:Ehash; cbn [andb]; rewrite ?Ehash; [|apply reads_ret].
  apply andb_true_iff in Ehash as [_ Hl%bool_decide_eq_true].
  rewrite encItems_cons. eapply reads_bind; [|apply reads_ret].
  apply (reads_GetChecked 16 (src_UserHash src)). by rewrite Hl.
Qed.

Lemma sentinel_ipv6 src : sentinelForSource src = true → length (src_IPv6 src) = 16%nat.
Proof.
  unfold sentinelForSource, sourceHasReachableIPv6. rewrite !andb_true_iff, bool_decide_eq_true.
  by intros [[? _] _].
Qed.

Lemma reads_readSource obfu format src : wireSource src →
  reads (readSource obfu (is_sentinel format)) (encItems (sourceItems obfu format src))
    (sentSource obfu format src).
Proof.
  intros (Hid&Hns&Hport&_). unfold sourceItems, readSource.
  set (us := is_sentinel format && sentinelForSource src).
  set (id := if us then SentinelIPv6ID else src_ID src).
  assert (fits 32 id) as Hid' by (unfold id; by destruct us).
  assert (is_sentinel format && (id =? SentinelIPv6ID) = us) as Hus.
  { unfold id, us in *. destruct (is_sentinel format); [|done]. cbn [andb].
    destruct (sentinelForSource src); [done|]. by apply Z.eqb_neq. }
  rewrite encItems_app, encItems_app, !encItems_cons, <- !app_assoc.
  change (encItems []) with ([] : bytes). cbn [app].
  eapply reads_bind; [by apply reads_le|]. eapply reads_bind; [by apply reads_le|].
  eapply reads_bind; [apply (reads_readObfu obfu format src)|].
  rewrite Hus. rewrite <- (app_nil_r (encItems (if us then _ else _))).
  eapply (reads_bind _ _ _ _ (if us then src_IPv6 src else [])); [|apply reads_ret].
  destruct us eqn:Eus; [|apply reads_ret].
  rewrite encItems_cons, app_nil_r. apply (reads_GetChecked 16 (src_IPv6 src)).
  unfold us in Eus. apply andb_true_iff in Eus as [_ Hs]. by rewrite (sentinel_ipv6 src Hs).
Qed.

Lemma capWireSources_take sources : capWireSources sources = take 255 sources.
Proof. unfold capWireSources, MaxWireSources. int_test; [done|]. rewrite take_ge by lia. done. Qed.

Definition sourcesPayload (fileHash : bytes) (obfu : bool) (format : SourceFormat) (sources : list Source) :
    bytes :=
  fileHash ++ le_split 1 (length sources) ++ concat (map (λ s, encItems (sourceItems obfu format s)) sources).

Lemma reads_readSources fileHash obfu format sources :
  length fileHash = 16%nat → Forall wireSource sources → length sources < 2 ^ 8 →
  reads (readSources obfu (is_sentinel format)) (sourcesPayload fileHash obfu format sources)
    (fileHash, map (sentSource obfu format) sources).
Proof.
  intros Hh Hs Hn. unfold readSources, sourcesPayload.
  eapply reads_bind; [apply reads_GetChecked; by rewrite Hh|].
  eapply reads_bind; [by apply reads_le; solve_range|].
  rewrite <- (app_nil_r (concat _)). eapply reads_bind; [|apply reads_ret].
  rewrite Nat2Z.id. rewrite <- (length_map (sentSource obfu format) sources).
  apply reads_for_collect. apply Forall2_fmap, Forall_Forall2_diag.
  eapply Forall_impl; [done|]. intros src Hw i. by apply reads_readSource.
Qed.
Lemma sourceItems_inRange obfu format src :
  wireSource src → Forall itemInRange (sourceItems obfu format src).
Proof.
  intros (Hid&_&Hport&_). unfold sourceItems. destruct (obfuByte_spec src) as (_&Hf&Hh).
  repeat (apply Forall_app; split).
  - assert (fits 32 (if is_sentinel format && sentinelForSource src then SentinelIPv6ID else src_ID src))
      by (by destruct (is_sentinel format && sentinelForSource src)).
    constructor; [done|]. by constructor.
  - destruct obfu; [|done]. constructor; [done|]. rewrite Hh.
    destruct (_ && bool_decide _) eqn:E; [|done]. apply andb_true_iff in E as [_ E%bool_decide_eq_true].
    by constructor.
  - destruct (_ && sentinelForSource src) eqn:E; [|done]. apply andb_true_iff in E as [_ E].
    constructor; [split; [done|by apply sentinel_ipv6]|done].
Qed.

(** The length of a source's entry. *)
Lemma length_sourceItems obfu format src : wireSource src →
  Z.of_nat (length (encItems (sourceItems obfu format src))) =
    globSourceCost format src +
    (if obfu then if negb (Z.land (obfuByte src) 0x80 =? 0) then 17 else 1 else 0).
Proof.
  intros Hs. pose proof (sourceItems_inRange obfu format src Hs) as Hr. revert Hr.
  unfold sourceItems, globSourceCost. rewrite !Forall_app, !encItems_app, !length_app.
  intros (_&Ho&Hi).
  destruct obfu, (negb (Z.land (obfuByte src) 0x80 =? 0)), (is_sentinel format && sentinelForSource src);
    repeat match goal with H : Forall itemInRange (_ :: _) |- _ => inversion_clear H end;
    rewrite ?encItems_cons, ?length_app;
    repeat match goal with
           | H : itemInRange (hash_item ?h) |- context [length (encItem (hash_item ?h))] =>
               change (encItem (hash_item h)) with h; rewrite (proj2 H); clear H
           end; simpl; lia.
Qed.

Lemma sendSources_opens opcode fileHash obfu format sources :
  fits 8 opcode → length fileHash = 16%nat → Forall wireSource sources → length sources < 2 ^ 8 →
  opens (sendPacket ([u8_item opcode; hash_item fileHash; u8_item (u8 (length sources))] ++
           flat_map (sourceItems obfu format) sources))
    opcode (sourcesPayload fileHash obfu format sources).
Proof.
  intros Hop Hh Hs Hn.
  replace (u8 (length sources)) with (Z.of_nat (length sources)) by solve_range. cbn [app].
  assert (sourcesPayload fileHash obfu format sources =
    encItems (hash_item fileHash :: u8_item (length sources) :: flat_map (sourceItems obfu format) sources)) as ->.
  { by rewrite !encItems_cons, encItems_flat_map. }
  apply sendPacket_opens; [done| |].
  - constructor; [done|]. constructor; [split; [done|solve_range]|]. apply Forall_flat_map.
    eapply Forall_impl; [done|]. apply sourceItems_inRange.
  - rewrite !encItems_cons, encItems_flat_map, !length_app.
    change (encItem (hash_item fileHash)) with fileHash. rewrite Hh.
    assert (length (concat (map (λ s, encItems (sourceItems obfu format s)) sources)) <= 39 * length sources);
      [|simpl; unfold MaxTCPPacketSize; lia].
    clear Hn. induction Hs as [|src sources Hsrc _ IH]; [done|]. cbn [map concat length].
    rewrite length_app. pose proof (length_sourceItems obfu format src Hsrc) as El.
    unfold globSourceCost in El. repeat case_match; lia.
Qed.

(** Source lists arrive whole. A found-sources packet, in any of its forms, is opened
    by its receiver and read back record by record to its last byte: the file's hash, a count
    of at most 255 that is the number of records, and for each of the first 255 sources its
    port, its ID (or the sentinel, when only its verified IPv6 address is routable), and in
    the forms that carry them its obfuscation bits, its user hash and its IPv6 address. *)
Lemma found_sources_delivered opcode fileHash sources obfu format :
  fits 8 opcode → length fileHash = 16%nat → Forall wireSource sources →
  ∃ payload,
    opens (buildFoundSourcesPacketWithOpcode opcode fileHash sources obfu format) opcode payload ∧
    readSources obfu (is_sentinel format) (NewBufferFromBytes payload) =
      (mkBuffer payload (length payload),
       Ok (fileHash, map (sentSource obfu format) (take 255 sources))).
Proof.
  intros Hop Hh Hs. exists (sourcesPayload fileHash obfu format (take 255 sources)).
  unfold buildFoundSourcesPacketWithOpcode. rewrite capWireSources_take.
  assert (Forall wireSource (take 255 sources)) by by apply Forall_take.
  assert (length (take 255 sources) < 2 ^ 8) by (rewrite length_take; lia).
  split; [by apply sendSources_opens|]. by apply reads_all, reads_readSources.
Qed.
End Wire.

(** *** Datagrams within the budget *)

Definition totalCost (cost : Source → Z) (sources : list Source) : Z :=
  fold_right (λ s n, cost s + n) 0 sources.

(** The loop keeps the longest prefix that fits. *)
Lemma cutAtBudget_spec cost size sources :
  size <= udpSourceDatagramBudget →
  ∃ k, cutAtBudget cost size sources = take k sources ∧ (k <= length sources)%nat ∧
    size + totalCost cost (take k sources) <= udpSourceDatagramBudget ∧
    (k < length sources → udpSourceDatagramBudget < size + totalCost cost (take (S k) sources)).
Proof.
  revert size. induction sources as [|src sources IH]; intros size Hs; cbn [cutAtBudget].
  { exists 0%nat. simpl. split_and!; [done|lia..]. }
  int_test.
  - exists 0%nat. unfold totalCost. simpl. split_and!; [done|lia..].
  - destruct (IH (size + cost src)) as (k&->&Hk&Hfit&Hmax); [done|]. exists (S k).
    cbn [take totalCost fold_right length] in *. unfold totalCost in *. split_and!; [done|lia|lia|].
    intros Hlt. specialize (Hmax ltac:(lia)). simpl in *. lia.
Qed.

Lemma length_encSources obfu format sources :
  Forall wireSource sources → obfu = false →
  Z.of_nat (length (concat (map (λ s, encItems (sourceItems obfu format s)) sources))) =
    totalCost (globSourceCost format) sources.
Proof.
  intros Hs ->. induction Hs as [|src sources Hsrc _ IH]; [done|]. cbn [map concat totalCost fold_right].
  rewrite length_app, Nat2Z.inj_add, IH, (length_sourceItems false format src Hsrc).
  unfold totalCost. lia.
Qed.

(** A UDP source reply always fits the buffer clients read it into. Whatever the list,
    the datagram is at most 4900 bytes; the receiver reads from it, to the last byte, the
    records of the first [k] sources under a count byte that says [k], where [k] is as large
    as 255 and the budget allow. *)
Lemma glob_sources_fit fileHash sources format :
  length fileHash = 16%nat → Forall wireSource sources →
  ∃ k b payload, buildGlobFoundSources fileHash sources format = Ok b ∧
    Bytes b = PrED2K :: OpGlobFoundSources :: payload ∧
    length (Bytes b) <= udpSourceDatagramBudget ∧
    readSources false (is_sentinel format) (NewBufferFromBytes payload) =
      (mkBuffer payload (length payload), Ok (fileHash, map (sentSource false format) (take k sources))) ∧
    (k = length sources ∨ k = 255%nat ∨
     udpSourceDatagramBudget < 19 + totalCost (globSourceCost format) (take (S k) sources)).
Proof.
  intros Hh Hs. unfold buildGlobFoundSources. rewrite capWireSources_take.
  destruct (cutAtBudget_spec (globSourceCost format) (1 + 1 + 16 + 1) (take 255 sources))
    as (k&->&Hk&Hfit&Hmax); [done|].
  rewrite take_take in *. rewrite length_take in Hk. rewrite Nat.min_l in * by lia.
  assert (Forall wireSource (take k sources)) as Hs' by by apply Forall_take.
  assert (length (take k sources) = k) as Hlen by (rewrite length_take; lia).
  replace (u8 (length (take k sources))) with (Z.of_nat (length (take k sources))) by solve_range.
  set (payload := sourcesPayload fileHash false format (take k sources)).
  exists k, (mkBuffer (PrED2K :: OpGlobFoundSources :: payload) 0), payload. split_and!.
  - rewrite MakeUDPPacket_items.
    + do 2 f_equal. cbn [app]. rewrite !encItems_cons, encItems_flat_map.
      rewrite le_split_byte by done. change (encItem (u8_item _)) with (le_split 1 OpGlobFoundSources) at 1.
      by rewrite le_split_byte.
    + repeat (apply Forall_cons; split); [done|done|split; [done|solve_range]|].
      apply Forall_flat_map. eapply Forall_impl; [done|]. apply sourceItems_inRange.
  - done.
  - simpl length. unfold payload, sourcesPayload. rewrite !length_app, length_le_split, Hh.
    pose proof (length_encSources false format (take k sources) Hs' eq_refl). lia.
  - apply reads_all, reads_readSources; [done|done|]. lia.
  - destruct (decide (k = length sources)); [by left|]. destruct (decide (k = 255)%nat); [by right; left|].
    right. right. rewrite length_take in Hmax. specialize (Hmax ltac:(lia)).
    rewrite Nat.min_l in Hmax by lia. done.
Qed.

(** ** Message lines *)

(** The text with every line end a single LF: the lines of a message. *)
Definition toLF (s : bytes) : bytes := replaceByte 13 [10] (replaceCRLF s).
Definition toCRLF (s : bytes) : bytes := replaceByte 10 [13; 10] s.

(** Every CR is followed by an LF and every LF preceded by a CR. *)
Fixpoint crlf_ok (s : bytes) : bool :=
  match s with
  | [] => true
  | c :: s' =>
      if c =? 13 then match s' with d :: s'' => (d =? 10) && crlf_ok s'' | [] => false end
      else negb (c =? 10) && crlf_ok s'
  end.

Definition no_cr (s : bytes) : Prop := Forall (λ c, c ≠ 13) s.

Lemma no_cr_toLF s : no_cr (toLF s).
Proof.
  unfold toLF, replaceByte. generalize (replaceCRLF s). intros t.
  induction t as [|c t IH]; simpl; [constructor|]. apply Forall_app. split; [|done].
  destruct (Z.eqb_spec c 13); by repeat constructor.
Qed.

Lemma toLF_toCRLF t : no_cr t → toLF (toCRLF t) = t.
Proof.
  unfold toLF, toCRLF, replaceByte. induction 1 as [|c t Hc _ IH]; [done|]. cbn [flat_map].
  destruct (Z.eqb_spec c 10) as [->|].
  - cbn [app replaceCRLF]. simpl. by rewrite IH.
  - cbn [app replaceCRLF]. apply Z.eqb_neq in Hc. rewrite Hc. cbn [flat_map]. rewrite Hc. simpl.
    by rewrite IH.
Qed.

Lemma crlf_ok_toCRLF t : no_cr t → crlf_ok (toCRLF t) = true.
Proof.
  unfold toCRLF, replaceByte. induction 1 as [|c t Hc _ IH]; [done|]. cbn [flat_map].
  destruct (Z.eqb_spec c 10) as [->|Hn]; cbn [app crlf_ok]; [done|].
  apply Z.eqb_neq in Hc. rewrite Hc. apply Z.eqb_neq in Hn. by rewrite Hn.
Qed.

Lemma no_ends_id s :
  existsb (λ c, (c =? 13) || (c =? 10)) s = false → toLF s = s ∧ toCRLF s = s.
Proof.
  unfold toLF, toCRLF, replaceByte. induction s as [|c s IH]; [done|]. cbn [existsb].
  intros [Hc Hs]%orb_false_iff. apply orb_false_iff in Hc as [H13 H10]. destruct (IH Hs) as [IH1 IH2].
  split; cbn [replaceCRLF flat_map]; [|by rewrite H10, IH2].
  rewrite H13. cbn [flat_map]. rewrite H13. cbn [app]. by rewrite IH1.
Qed.

Lemma crlfMessageLines_eq s : crlfMessageLines s = toCRLF (toLF s).
Proof.
  unfold crlfMessageLines. destruct (existsb _ s) eqn:E; [done|]. cbn [negb].
  destruct (no_ends_id s E) as [-> ->]. done.
Qed.

(** A server message keeps its lines. Whatever mix of CR, LF and CRLF a message uses,
    what is sent has CRLF line ends only, the same lines as the message, and rewriting it
    again changes nothing. *)
Lemma crlf_lines s :
  crlf_ok (crlfMessageLines s) = true ∧ toLF (crlfMessageLines s) = toLF s ∧
  crlfMessageLines (crlfMessageLines s) = crlfMessageLines s.
Proof.
  rewrite !crlfMessageLines_eq. rewrite toLF_toCRLF by apply no_cr_toLF.
  split; [apply crlf_ok_toCRLF, no_cr_toLF|done].
Qed.

(** ** Witnesses *)

Definition sampleFile : File :=
  mkFile (replicate 16 3) (str "a.mkv") (5 * 2 ^ 32 + 7) (str "Video") 4 2 [] (str "x") [] 0 128 [] 9 4662
    (Some (mkMetaInfo 1 1 0 [] 12 (str "id") 3 4 5 [] 0 [] 0)).

Lemma sampleFile_wire : wireFile sampleFile.
Proof. repeat (split; try done). Qed.

Lemma search_results_delivered_witness : ∃ payload,
  opens (H := rleZlib) (BuildSearchResultPacket (H := rleZlib) [sampleFile; sampleFile] true)
    OpSearchResult payload ∧
  ∃ b r, GetFileList (NewBufferFromBytes payload) = (b, Ok [r; r]) ∧ fr_Size r = 5 * 2 ^ 32 + 7 ∧
    drop (pointer b) payload = [1].
Proof.
  destruct (search_results_delivered (H := rleZlib) (ZLaws := rleZlib_laws) [sampleFile; sampleFile] true)
    as (payload&Ho&b&HG&Hd).
  - repeat constructor; apply sampleFile_wire.
  - by_decision.
  - exists payload. split; [exact Ho|]. exists b, (receivedRecord sampleFile). split; [exact HG|].
    split; [by vm_compute|exact Hd].
Defined.

Definition sampleSources : list Source :=
  [mkSource 0x04030201 4662 (replicate 16 8) 3 [] false;
   mkSource 77 4663 [] 0 (replicate 16 0x20) true].

Lemma sampleSources_wire : Forall wireSource sampleSources.
Proof. repeat constructor; done. Qed.

(** 255 sources that are reachable over IPv6 only: 221 of them fit. *)
