(* ===== verification/Framing.v ===== *)
(** * A TCP session's packet stream: [processPacketData] of [ed2k/server_runtime.go]

    How received chunks become packets, what a session may send before it has logged in,
    and the dispatch of a complete packet. The request handlers behind [handleED2K]'s
    switch are the argument [handler]: a function of the opcode, the payload and the session
    state, which is all they are given. *)

From S2P Require Import Prelude Buffer Types Packet Builders.
Local Open Scope Z_scope.

Definition OpLoginRequest : Z := 0x01.
Definition OpDisconnect : Z := 0x18.
Definition maxPreLoginPacket : Z := 65536.

Definition msgNotLoggedIn : bytes :=
  str "ERROR : You must log in before sending requests to this server.".

Section Framing.
Context `{Zlib}.

(** What the handlers own is [App]. *)
Context {App : Type}.

(** The part of [tcpClient] the framing code and the handlers share: the login state, the
    latch of the login gate, the packets written to the socket, before obfuscation, and the
    close. *)
Record Session := mkSession {
  ss_logged : bool;
  ss_loginGateTripped : bool;
  ss_sent : list bytes;
  ss_closeReason : String.string;
  ss_closed : bool;
  ss_app : App;
}.

Record tcpClient := mkClient {
  c_packet : Packet;
  c_headerBuf : bytes;
  c_session : Session;
}.

Context (handler : Z → bytes → Session → Session).

(** The first reason sticks, [run]'s placeholder aside. *)
Definition setCloseReason (reason : String.string) (s : Session) : Session :=
  if bool_decide (reason = EmptyString) then s
  else if bool_decide (ss_closeReason s = EmptyString ∨ ss_closeReason s = "read-loop-ended"%string)
  then { s with ss_closeReason := reason } else s.

Definition closeWithReason (reason : String.string) (s : Session) : Session :=
  let s := setCloseReason reason s in { s with ss_closed := true }.

(** [false] is an error: the socket is closed already, and a failed write closes it. *)
Definition writePacket (packet : Buffer) (s : Session) : Session * bool :=
  if ss_closed s then (closeWithReason "write-error"%string s, false)
  else ({ s with ss_sent := ss_sent s ++ [Bytes packet] }, true).

(** The senders that drop an error of the builder and of the write. *)
Definition send (packet : result Buffer) (s : Session) : Session :=
  match packet with Ok b => (writePacket b s).1 | _ => s end.

Definition sendServerMessage (message : bytes) (s : Session) : Session :=
  if bool_decide (message = []) then s else send (BuildServerMessagePacket message) s.

Definition requireLogin (opcode : Z) (s : Session) : Session * bool :=
  if ss_logged s then (s, true)
  else if ss_loginGateTripped s then (s, false)
  else
    let s := { s with ss_loginGateTripped := true } in
    let s := sendServerMessage msgNotLoggedIn s in
    (closeWithReason "not-logged-in"%string s, false).

(** [header] has six bytes at least; a shorter one would panic. *)
Definition preLoginHeaderAllowed (header : bytes) (s : Session) : result (Session * bool) :=
  if ss_logged s then Ok (s, true) else
  match header with
  | proto :: b1 :: b2 :: b3 :: b4 :: code :: _ =>
      if maxPreLoginPacket + 1 <? le_combine [b1; b2; b3; b4] then
        Ok (closeWithReason "prelogin-packet-too-large"%string s, false)
      else if negb (proto =? PrEMule) && negb (code =? OpLoginRequest) && negb (code =? OpDisconnect)
      then Ok (requireLogin code s)
      else Ok (s, true)
  | _ => Panic
  end.

Definition handleED2K (opcode : Z) (payload : bytes) (s : Session) : Session :=
  let '(s, ok) :=
    if (opcode =? OpLoginRequest) || (opcode =? OpDisconnect) then (s, true)
    else requireLogin opcode s in
  if negb ok then s
  else if opcode =? OpDisconnect then closeWithReason "client-disconnect"%string s
  else handler opcode payload s.

(** A payload is inflated first under [PR_ZLIB]; [PR_EMULE] packets are ignored. *)
Definition handlePacket (proto code : Z) (payload : bytes) (s : Session) : result Session :=
  if proto =? PrED2K then Ok (handleED2K code payload s)
  else if proto =? PrZlib then
    match InflateZlibPayload payload with
    | Ok out => Ok (handleED2K code out s)
    | Err e => Ok (if errors_Is e ErrInflatedTooLarge
                   then closeWithReason "zlib-bomb"%string s else s)
    | Panic => Panic
    end
  else Ok s.

(** The reason with the error's text; the arguments formatted into a wrapped error are left
    out. *)
Fixpoint error_text (e : error) : String.string :=
  match e with ErrNew msg => msg | ErrWrap _ _ inner => error_text inner end.

Definition badHeader (e : error) : String.string :=
  String.append "bad-packet-header: " (error_text e).

(** The part of [processPacketData] before the packet is dispatched: [false] is an early
    return. *)
Definition receive (data : bytes) (c : tcpClient) : result (tcpClient * bool) :=
  let '(data, c) :=
    if (p_Status (c_packet c) =? PsNew) && negb (bool_decide (c_headerBuf c = []))
    then (c_headerBuf c ++ data, { c with c_headerBuf := [] }) else (data, c) in
  if p_Status (c_packet c) =? PsNew then
    match data with
    | [] => Ok (c, false)
    | proto :: _ =>
        if negb (IsProtocol proto) then
          Ok ({ c with c_session := closeWithReason "unknown-protocol"%string (c_session c) }, false)
        else if length data <? PacketHeaderSize then Ok ({ c with c_headerBuf := data }, false)
        else
          match preLoginHeaderAllowed data (c_session c) with
          | Ok (s, false) => Ok ({ c with c_session := s }, false)
          | Ok (s, true) =>
              match Init (NewBufferFromBytes data) (c_packet c) with
              | (p, Ok _) => Ok ({ c with c_session := s; c_packet := p }, true)
              | (p, Err e) =>
                  let reason := if errors_Is e ErrPacketTooLarge then "packet-too-large"%string
                                else badHeader e in
                  Ok ({ c with c_session := closeWithReason reason s; c_packet := p }, false)
              | (_, Panic) => Panic
              end
          | Err e => Err e
          | Panic => Panic
          end
    end
  else if p_Status (c_packet c) =? PsWaitingData then
    match Append data (c_packet c) with
    | Ok p => Ok ({ c with c_packet := p }, true)
    | Err e => Err e
    | Panic => Panic
    end
  else Ok (c, false).

(** [fuel] bounds the recursion into the bytes after a packet: each call gets fewer. *)
Fixpoint processPacketData (fuel : nat) (data : bytes) (c : tcpClient) : result tcpClient :=
  match fuel with
  | O => Panic
  | S fuel =>
      match receive data c with
      | Ok (c, true) =>
          if negb (p_Status (c_packet c) =? PsReady) then Ok c else
          let p := c_packet c in
          match handlePacket (p_Protocol p) (p_Code p) (Bytes (p_Data p)) (c_session c) with
          | Ok s =>
              let p := release { p with p_Status := PsNew } in
              if p_HasExcess p && negb (bool_decide (p_Excess p = [])) then
                let excess := p_Excess p in
                processPacketData fuel excess
                  { c with c_session := s; c_packet := { p with p_HasExcess := false; p_Excess := [] } }
              else Ok { c with c_session := s; c_packet := p }
          | Err e => Err e
          | Panic => Panic
          end
      | Ok (c, false) => Ok c
      | Err e => Err e
      | Panic => Panic
      end
  end.

(** One [Read]: more fuel than bytes. *)
Definition process (data : bytes) (c : tcpClient) : result tcpClient :=
  processPacketData (S (length data + length (c_headerBuf c))) data c.

(** The read loop of [run] over the chunks the peer's bytes arrive in, on a session without
    obfuscation: it ends when the socket is closed, and on a read of nothing. Deadlines and
    the parking of a session for a handover are left out. *)
Fixpoint run (chunks : list bytes) (c : tcpClient) : result tcpClient :=
  match chunks with
  | [] => Ok c
  | chunk :: chunks =>
      if ss_closed (c_session c) then Ok c
      else if bool_decide (chunk = []) then
        Ok { c with c_session := closeWithReason "read-zero"%string (c_session c) }
      else match process chunk c with Ok c' => run chunks c' | r => r end
  end.

End Framing.

Arguments Session : clear implicits.
Arguments tcpClient : clear implicits.

(** ** The stream as a specification

    [deliver] is what the framing code is meant to do, on the bytes not yet consumed: take
    one whole packet off the front, hand it over, and go on; wait when a packet is
    incomplete; drop what is left and close when the stream is refused. *)

Section Spec.
Context `{ZL : Zlib} {App : Type}.
Context (handler : Z → bytes → Session App → Session App).
Implicit Types (s : Session App) (c : tcpClient App).

Fixpoint deliver (fuel : nat) (pend : bytes) (s : Session App) : bytes * Session App :=
  match fuel with
  | O => (pend, s)
  | S fuel =>
      match pend with
      | [] => ([], s)
      | proto :: tl =>
          if negb (IsProtocol proto) then ([], closeWithReason "unknown-protocol"%string s) else
          match tl with
          | b1 :: b2 :: b3 :: b4 :: code :: rest =>
              match preLoginHeaderAllowed pend s with
              | Ok (s, true) =>
                  let size := le_combine [b1; b2; b3; b4] in
                  if size =? 0 then ([], closeWithReason (badHeader ErrOutOfBounds) s)
                  else if MaxTCPPacketSize <? size - 1 then ([], closeWithReason "packet-too-large"%string s)
                  else if length rest <? size - 1 then (pend, s)
                  else
                    let n := Z.to_nat (size - 1) in
                    match handlePacket handler proto code (take n rest) s with
                    | Ok s => deliver fuel (drop n rest) s
                    | _ => (pend, s)
                    end
              | Ok (s, false) => ([], s)
              | _ => (pend, s)
              end
          | _ => (pend, s)
          end
      end
  end.

Definition deliverAll (pend : bytes) (s : Session App) : bytes * Session App :=
  deliver (length pend) pend s.

(** The bytes a client holds that no handler has seen. *)
Definition pending (c : tcpClient App) : bytes :=
  let p := c_packet c in
  if p_Status p =? PsWaitingData
  then p_Protocol p :: le_split 4 (p_Size p + 1) ++ p_Code p :: p_recv p
  else c_headerBuf c.

(** The states a client is in between two reads. *)
Definition wf_client (c : tcpClient App) : Prop :=
  let p := c_packet c in
  (p_Status p = PsNew ∧ length (c_headerBuf c) < PacketHeaderSize ∧
   wf_bytes (c_headerBuf c) ∧
   match c_headerBuf c with [] => True | proto :: _ => IsProtocol proto = true end) ∨
  (p_Status p = PsWaitingData ∧ c_headerBuf c = [] ∧ IsProtocol (p_Protocol p) = true ∧
   length (p_recv p) < p_Size p ∧ p_Size p <= MaxTCPPacketSize ∧
   preLoginHeaderAllowed (pending c) (c_session c) = Ok (c_session c, true)).

(** The gate reads six bytes, and passing it changes nothing. *)
Lemma preLoginHeaderAllowed_six proto b1 b2 b3 b4 code rest rest' s :
  preLoginHeaderAllowed (proto :: b1 :: b2 :: b3 :: b4 :: code :: rest) s =
  preLoginHeaderAllowed (proto :: b1 :: b2 :: b3 :: b4 :: code :: rest') s.
Proof. done. Qed.

Lemma preLoginHeaderAllowed_total proto b1 b2 b3 b4 code rest s :
  ∃ s' ok, preLoginHeaderAllowed (proto :: b1 :: b2 :: b3 :: b4 :: code :: rest) s = Ok (s', ok) ∧
    (ok = true → s' = s) ∧ (ok = false → ss_closed s' = true ∨ ss_loginGateTripped s = true).
Proof.
  unfold preLoginHeaderAllowed, requireLogin.
  destruct (ss_logged s); [by eexists _, _|].
  case_match; [eexists _, _; split_and!; [done|done|by left]|].
  case_match; [|by eexists _, _].
  destruct (ss_loginGateTripped s); eexists _, _; (split_and!; [done|done|auto]).
Qed.

(** Four received bytes are the size written back from the number. *)
Lemma size_bytes b1 b2 b3 b4 :
  wf_bytes [b1; b2; b3; b4] → le_split 4 (le_combine [b1; b2; b3; b4]) = [b1; b2; b3; b4].
Proof. intros Hw. by rewrite <- (le_split_combine _ Hw) at 2. Qed.

Lemma handlePacket_total `{ZLaws : !ZlibLaws} proto code payload s :
  ∃ s', handlePacket handler proto code payload s = Ok s'.
Proof.
  unfold handlePacket, InflateZlibPayload. pose proof (zlib_total (MaxTCPPacketSize + 1) payload).
  repeat case_match; naive_solver.
Qed.
(** *** The refinement *)

(** [deliver] past an accepted header. *)
Lemma deliver_header fuel proto b1 b2 b3 b4 code rest s :
  let pend := proto :: b1 :: b2 :: b3 :: b4 :: code :: rest in
  let size := le_combine [b1; b2; b3; b4] in
  IsProtocol proto = true → preLoginHeaderAllowed pend s = Ok (s, true) →
  size ≠ 0 → size - 1 <= MaxTCPPacketSize →
  deliver (S fuel) pend s =
    if length rest <? size - 1 then (pend, s)
    else match handlePacket handler proto code (take (Z.to_nat (size - 1)) rest) s with
         | Ok s => deliver fuel (drop (Z.to_nat (size - 1)) rest) s
         | _ => (pend, s)
         end.
Proof.
  intros pend size Hp Ha H0 Hm. subst pend. cbn [deliver]. rewrite Hp, Ha. cbn [negb].
  fold size. destruct (Z.eqb_spec size 0); [done|].
  destruct (Z.ltb_spec MaxTCPPacketSize (size - 1)); [lia|]. done.
Qed.

(** A complete packet in hand: [c] is about to dispatch it, [rest] is what follows. *)
Definition ready (c : tcpClient App) (proto code : Z) (payload rest : bytes) : Prop :=
  let p := c_packet c in
  p_Status p = PsReady ∧ p_Protocol p = proto ∧ p_Code p = code ∧
  p_Data p = NewBufferFromBytes payload ∧ c_headerBuf c = [] ∧
  p_HasExcess p = (0 <? length rest) ∧ (rest ≠ [] → p_Excess p = rest).

(** What [Append] makes of an accepted header and the bytes after it. *)
Lemma Append_step c p0 proto size code recv chunk s :
  IsProtocol proto = true → 0 < size → size - 1 <= MaxTCPPacketSize →
  p_Protocol p0 = proto → p_Size p0 = size - 1 → p_Code p0 = code → p_recv p0 = recv →
  length recv <= size - 1 → c_headerBuf c = [] →
  let all := recv ++ chunk in
  let pend := proto :: le_split 4 size ++ code :: all in
  preLoginHeaderAllowed pend s = Ok (s, true) →
  ∃ p, Append chunk p0 = Ok p ∧
    let c' := mkClient p [] s in
    if length all <? size - 1
    then p_Status p = PsWaitingData ∧ wf_client c' ∧ pending c' = pend
    else ready c' proto code (take (Z.to_nat (size - 1)) all) (drop (Z.to_nat (size - 1)) all).
Proof.
  intros Hp Hs Hm E1 E2 E3 E4 Hl Hh all pend Ha. destruct p0 as [pr sz cd st d he ex rc].
  simpl in *. subst. eexists. split; [by apply Append_spec|].
  simpl. fold all. destruct (Z.ltb_spec (length all) (size - 1)) as [Hlt|Hge].
  - unfold wf_client, pending. simpl. rewrite Z.sub_add. split_and!; [done| |done].
    right. split_and!; try done; lia.
  - unfold ready. simpl. rewrite length_drop. split_and!; try done.
    + destruct (Z.ltb_spec (size - 1) (length all)), (Z.ltb_spec 0 (length all - Z.to_nat (size - 1))%nat);
        lia || done.
    + intros Hne. destruct (Z.ltb_spec (size - 1) (length all)); [done|].
      destruct Hne. apply drop_ge. lia.
Qed.
(** What [receive] comes to on the pending bytes [pend]: they are absorbed as [deliver]
    says and there is nothing to dispatch, or the first packet is complete and fewer than
    [bound] bytes follow it. *)
Inductive received (pend : bytes) s (bound : nat) : result (tcpClient App * bool) → Prop :=
| R_stop c' (cont : bool) :
    (cont = true → p_Status (c_packet c') ≠ PsReady) → wf_client c' →
    (∀ fuel, deliver (S fuel) pend s = (pending c', c_session c')) →
    received pend s bound (Ok (c', cont))
| R_ready c' proto code payload rest :
    ready c' proto code payload rest → c_session c' = s →
    wf_bytes rest → (length rest < bound)%nat →
    (∀ fuel, deliver (S fuel) pend s =
       match handlePacket handler proto code payload s with
       | Ok s => deliver fuel rest s
       | _ => (pend, s)
       end) →
    received pend s bound (Ok (c', true)).

(** A client between packets, its buffered header bytes put before the new ones. *)
Lemma receive_new p hb s data :
  p_Status p = PsNew →
  receive data (mkClient p hb s) = receive (hb ++ data) (mkClient p [] s).
Proof.
  intros Hp. unfold receive. simpl. rewrite Hp. simpl.
  destruct hb as [|x hb]; [done|]. by rewrite bool_decide_false.
Qed.

(** A refused stream: everything pending is dropped. *)
Lemma received_refused pend s bound p s' :
  p_Status p = PsNew → (∀ fuel, deliver (S fuel) pend s = ([], s')) →
  received pend s bound (Ok (mkClient p [] s', false)).
Proof.
  intros Hst Hd. apply R_stop; [done| |].
  - left. simpl. split_and!; [done|done|constructor|done].
  - intros fuel. rewrite Hd. unfold pending. simpl. by rewrite Hst.
Qed.

(** After an accepted header, with [recv] of the payload there already. *)
Lemma received_Append c p0 proto b1 b2 b3 b4 code recv chunk s bound :
  let size := le_combine [b1; b2; b3; b4] in
  let pend := proto :: b1 :: b2 :: b3 :: b4 :: code :: recv ++ chunk in
  IsProtocol proto = true → 0 < size → size - 1 <= MaxTCPPacketSize → wf_bytes [b1; b2; b3; b4] →
  p_Protocol p0 = proto → p_Size p0 = size - 1 → p_Code p0 = code → p_recv p0 = recv →
  length recv <= size - 1 → c_headerBuf c = [] → preLoginHeaderAllowed pend s = Ok (s, true) →
  wf_bytes chunk →
  (size - 1 <= length (recv ++ chunk) → (length (recv ++ chunk) - Z.to_nat (size - 1) < bound)%nat) →
  ∃ p, Append chunk p0 = Ok p ∧ received pend s bound (Ok (mkClient p [] s, true)).
Proof.
  intros size pend Hp Hs Hm Hb E1 E2 E3 E4 Hl Hh Ha Hw Hbound.
  assert (pend = proto :: le_split 4 size ++ code :: (recv ++ chunk)) as Hpend
    by (unfold size; by rewrite size_bytes).
  destruct (Append_step c p0 proto size code recv chunk s) as (p&HA&Hcase); try done.
  { by rewrite <- Hpend. }
  exists p. split; [done|].
  pose proof (λ f, deliver_header f proto b1 b2 b3 b4 code (recv ++ chunk) s Hp Ha ltac:(lia) Hm) as Hd.
  cbv zeta in Hd. fold size in Hd. fold pend in Hd.
  destruct (Z.ltb_spec (length (recv ++ chunk)) (size - 1)) as [Hlt|Hge].
  - destruct Hcase as (Hst&Hwf&Hpc). apply R_stop; [intros _; simpl; rewrite Hst; discriminate|done|].
    intros fuel. by rewrite Hd, Hpc, <- Hpend.
  - eapply R_ready; [done|done| | |done].
    + rewrite drop_app_ge by lia. by apply Forall_drop.
    + rewrite length_drop. by apply Hbound.
Qed.

Lemma receive_new_spec p s data :
  p_Status p = PsNew → wf_bytes data → data ≠ [] →
  received data s (length data) (receive data (mkClient p [] s)).
Proof.
  intros Hst Hw Hne. destruct data as [|proto tl]; [done|].
  unfold receive. simpl. rewrite Hst. simpl. rewrite Hst. simpl.
  destruct (IsProtocol proto) eqn:Hp; simpl; cycle 1.
  { apply received_refused; [done|]. intros fuel. simpl. by rewrite Hp. }
  destruct tl as [|b1 [|b2 [|b3 [|b4 [|code rest]]]]].
  1-5: apply R_stop; [done| |]; [left; simpl; split_and!; done|];
    intros fuel; unfold pending; simpl; rewrite Hst, Hp; done.
  replace (_ <? PacketHeaderSize) with false
    by (symmetry; apply Z.ltb_ge; unfold PacketHeaderSize; simpl; lia).
  set (data := proto :: b1 :: b2 :: b3 :: b4 :: code :: rest) in *.
  destruct (preLoginHeaderAllowed_total proto b1 b2 b3 b4 code rest s) as (s'&ok&Ha&Hok&_).
  fold data in Ha. rewrite Ha. destruct ok; cycle 1.
  { apply received_refused; [done|]. intros fuel. unfold data. cbn [deliver]. fold data.
    by rewrite Hp, Ha. }
  rewrite Hok in * by done. clear Hok. unfold data at 2. rewrite Init_header, Hp.
  set (size := le_combine [b1; b2; b3; b4]).
  pose proof (Forall_take is_byte 4%nat _ (Forall_inv_tail Hw)) as Hb. simpl in Hb.
  pose proof (Forall_drop is_byte 6%nat _ Hw) as Hrest. simpl in Hrest.
  pose proof (le_combine_bound _ Hb) as [Hs0 _]. fold size in Hs0.
  destruct (Z.eqb_spec size 0) as [E0|].
  { apply received_refused; [done|]. intros fuel. unfold data. cbn [deliver]. fold data.
    rewrite Hp, Ha. cbn [negb]. fold size. by rewrite E0. }
  destruct (Z.ltb_spec MaxTCPPacketSize (size - 1)) as [Hbig|].
  { apply received_refused; [done|]. intros fuel. unfold data. cbn [deliver]. fold data.
    rewrite Hp, Ha. cbn [negb]. fold size. do 2 int_test. done. }
  destruct (received_Append (mkClient p [] s) (headed p proto size code) proto b1 b2 b3 b4 code [] rest s
    (length data)) as (p'&HA&Hrec); try done;
    [fold size; unfold data; simpl length; lia..|].
  rewrite HA. exact Hrec.
Qed.
Lemma receive_spec c data :
  wf_client c → wf_bytes data → pending c ++ data ≠ [] →
  received (pending c ++ data) (c_session c) (length data + length (c_headerBuf c)) (receive data c).
Proof.
  intros Hc Hd Hne. destruct c as [p hb s].
  destruct Hc as [(Hst&Hhb&Hwhb&Hproto)|(Hst&Hhb&Hproto&Hr&Hm&Ha)]; simpl in *.
  - assert (pending (mkClient p hb s) = hb) as Hpend by (unfold pending; simpl; by rewrite Hst).
    rewrite Hpend in *. rewrite receive_new by done.
    rewrite (Nat.add_comm (length data)), <- length_app.
    apply receive_new_spec; [done| |done]. by apply Forall_app.
  - subst hb. unfold receive. simpl. rewrite Hst. simpl. rewrite Hst. simpl.
    unfold pending in *. cbn in *. rewrite Hst in *. cbn in *.
    set (size := p_Size p + 1) in *.
    assert (∃ b1 b2 b3 b4, le_split 4 size = [b1; b2; b3; b4]) as (b1&b2&b3&b4&Hsz)
      by (by eexists _, _, _, _).
    assert (le_combine [b1; b2; b3; b4] = size) as Hcomb.
    { rewrite <- Hsz. apply le_combine_split. unfold size, MaxTCPPacketSize in *. solve_range. }
    pose proof (wf_le_split 4 size) as Hb. rewrite Hsz in *. cbn [app] in *.
    destruct (received_Append (mkClient p [] s) p (p_Protocol p) b1 b2 b3 b4 (p_Code p) (p_recv p) data s
      (length data + 0)) as (p'&HA&Hrec); try done; try (rewrite Hcomb; unfold size; rewrite ?length_app; lia).
    rewrite HA. done.
Qed.
(** More fuel than bytes changes nothing. *)
Lemma deliver_fuel f1 f2 pend s :
  (length pend <= f1)%nat → (length pend <= f2)%nat → deliver f1 pend s = deliver f2 pend s.
Proof.
  revert f2 pend s. induction f1 as [|f1 IH]; intros [|f2] pend s H1 H2;
    try (destruct pend; [done|simpl in *; lia]).
  destruct pend as [|proto [|b1 [|b2 [|b3 [|b4 [|code rest]]]]]]; try done.
  cbn [deliver]. destruct (IsProtocol proto); cbn [negb]; [|done].
  destruct (preLoginHeaderAllowed _ s) as [[s' []]| |]; try done.
  do 3 (case_match; [done|]). case_match; [|done..].
  apply IH; rewrite length_drop; simpl in *; lia.
Qed.

Context `{ZLaws : !ZlibLaws}.

Lemma processPacketData_spec fuel data c :
  wf_client c → wf_bytes data → (length data + length (c_headerBuf c) < fuel)%nat →
  ∃ c', processPacketData handler fuel data c = Ok c' ∧ wf_client c' ∧
    deliverAll (pending c ++ data) (c_session c) = (pending c', c_session c').
Proof.
  revert data c. induction fuel as [|fuel IH]; intros data c Hc Hd Hf; [lia|].
  destruct (decide (pending c ++ data = [])) as [He|Hne].
  { apply app_eq_nil in He as [Hp ->].
    destruct Hc as [(Hst&Hhb&Hwhb&Hproto)|(Hst&?)]; unfold pending in *; rewrite Hst in *; [|done].
    destruct c as [p hb s]. simpl in *. subst hb. exists (mkClient p [] s).
    cbn [processPacketData]. unfold receive. simpl. rewrite !Hst. simpl. rewrite !Hst.
    split_and!; [done|left; done|done]. }
  cbn [processPacketData]. destruct (receive_spec c data Hc Hd Hne) as [c' cont Hnr Hwf Hdel|
    c' proto code payload rest (Hst&Epr&Ecd&Eda&Ehb&Eex&Erest) Es Hwr Hlen Hdel].
  - exists c'. unfold deliverAll. destruct (length (pending c ++ data)) eqn:El.
    { by apply length_zero_iff_nil in El. }
    split_and!; [|done|apply Hdel]. destruct cont; [|done].
    destruct (Z.eqb_spec (p_Status (c_packet c')) PsReady); [by destruct Hnr|done].
  - rewrite Hst. simpl. rewrite Epr, Ecd, Eda, Es. simpl.
    destruct (handlePacket_total proto code payload (c_session c)) as [s' Hh].
    assert (deliverAll (pending c ++ data) (c_session c) = deliverAll rest s') as Hdel'.
    { unfold deliverAll. destruct (length (pending c ++ data)) eqn:El.
      { by apply length_zero_iff_nil in El. }
      rewrite Hdel, Hh. apply deliver_fuel; [|done].
      assert (length (c_headerBuf c) <= length (pending c))%nat; [|rewrite length_app in El; lia].
      destruct Hc as [(Hs&_)|(Hs&->&_)]; [unfold pending; by rewrite Hs|simpl; lia]. }
    rewrite Hh. clear Hdel. destruct c' as [p hb s0]. destruct p as [pr sz cd st d he ex rc].
    simpl in *. subst.
    rewrite Hdel'. destruct rest as [|x rest].
    + eexists. split; [done|]. split; [|done]. left. simpl. split_and!; [done..|constructor|done].
    + rewrite (Erest ltac:(done)). cbn [negb andb].
      rewrite bool_decide_false by done. cbn [negb].
      change (0 <? Z.of_nat (length (x :: rest))) with true. cbn [andb].
      apply (IH (x :: rest) (mkClient (mkPacket proto sz code PsNew (NewBuffer 0) false [] rc) [] s'));
        [left; simpl; split_and!; [done..|constructor|done]|done|].
      simpl in *. lia.
Qed.
(** C23: the framing code implements the stream. From any state between two reads, one
    more chunk of bytes is processed to the end (no panic, and the recursion into the bytes
    after a packet never runs out), the client is again in such a state, and its session and
    the bytes it still holds are exactly what [deliver] gives on the bytes held before
    followed by the chunk. *)
Theorem process_refines data c :
  wf_client c → wf_bytes data →
  ∃ c', process handler data c = Ok c' ∧ wf_client c' ∧
    deliverAll (pending c ++ data) (c_session c) = (pending c', c_session c').
Proof. intros Hc Hd. apply processPacketData_spec; [done|done|lia]. Qed.

(** *** What the handlers are relied on for

    The socket stays closed, and no handler touches the latch of the login gate or takes a
    login back. *)
Class HandlerOk : Prop := {
  handler_closed op payload s : ss_closed s = true → ss_closed (handler op payload s) = true;
  handler_gate op payload s :
    ss_loginGateTripped (handler op payload s) = ss_loginGateTripped s;
  handler_logged op payload s : ss_logged s = true → ss_logged (handler op payload s) = true;
}.
Context `{HOk : !HandlerOk}.

(** The latch is only set together with the close. *)
Definition gate_ok (s : Session App) : Prop := ss_loginGateTripped s = true → ss_closed s = true.

(** How a session moves: never reopened, never logged out, the latch in step. *)
Definition evolves (s s' : Session App) : Prop :=
  (ss_closed s = true → ss_closed s' = true) ∧ (gate_ok s → gate_ok s') ∧
  (ss_logged s = true → ss_logged s' = true).

Lemma evolves_refl s : evolves s s.
Proof. done. Qed.

Lemma evolves_trans s1 s2 s3 : evolves s1 s2 → evolves s2 s3 → evolves s1 s3.
Proof. intros (?&?&?) (?&?&?). split_and!; auto. Qed.

Lemma closeWithReason_fields r s :
  ss_closed (closeWithReason r s) = true ∧ ss_logged (closeWithReason r s) = ss_logged s ∧
  ss_loginGateTripped (closeWithReason r s) = ss_loginGateTripped s ∧
  ss_app (closeWithReason r s) = ss_app s.
Proof. destruct s. unfold closeWithReason, setCloseReason. by repeat case_bool_decide. Qed.

Lemma evolves_close r s : evolves s (closeWithReason r s).
Proof.
  unfold evolves, gate_ok. destruct (closeWithReason_fields r s) as (->&->&->&_). auto.
Qed.

(** A write changes nothing but what was sent, unless the socket is closed. *)
Lemma writePacket_fields b s :
  ss_closed (writePacket b s).1 = ss_closed s ∧ ss_logged (writePacket b s).1 = ss_logged s ∧
  ss_loginGateTripped (writePacket b s).1 = ss_loginGateTripped s ∧
  ss_app (writePacket b s).1 = ss_app s.
Proof.
  unfold writePacket. destruct (ss_closed s) eqn:E; [|by destruct s].
  destruct (closeWithReason_fields "write-error" s) as (?&?&?&?). by split_and!.
Qed.

Lemma send_fields p s :
  ss_closed (send p s) = ss_closed s ∧ ss_logged (send p s) = ss_logged s ∧
  ss_loginGateTripped (send p s) = ss_loginGateTripped s ∧ ss_app (send p s) = ss_app s.
Proof. destruct p; [apply writePacket_fields|done|done]. Qed.

Lemma sendServerMessage_fields m s :
  ss_closed (sendServerMessage m s) = ss_closed s ∧ ss_logged (sendServerMessage m s) = ss_logged s ∧
  ss_loginGateTripped (sendServerMessage m s) = ss_loginGateTripped s ∧
  ss_app (sendServerMessage m s) = ss_app s.
Proof. unfold sendServerMessage. case_bool_decide; [done|]. apply send_fields. Qed.

Lemma requireLogin_fields op s s' ok : requireLogin op s = (s', ok) →
  evolves s s' ∧ (ok = true → s' = s ∧ ss_logged s = true) ∧
  (ok = false → gate_ok s → ss_closed s' = true) ∧ ss_app s' = ss_app s.
Proof.
  unfold requireLogin. destruct (ss_logged s) eqn:El; [by intros [= <- <-]|].
  destruct (ss_loginGateTripped s) eqn:Et; intros [= <- <-]; [by split_and!; auto|].
  match goal with |- context [closeWithReason ?r ?x] =>
    destruct (closeWithReason_fields r x) as (Hc&Hl&Hg&Ha) end.
  match type of Hl with _ = ss_logged (sendServerMessage ?m ?x) =>
    destruct (sendServerMessage_fields m x) as (_&Hl'&_&Ha') end.
  unfold evolves, gate_ok. rewrite Hc, Hl, Ha, Hl', Ha'. clear Hc Hl Hg Ha Hl' Ha'. by split_and!; destruct s.
Qed.

Lemma handleED2K_evolves code payload s : evolves s (handleED2K handler code payload s).
Proof.
  unfold handleED2K.
  destruct (if _ || _ then (s, true) else requireLogin code s) as [s1 ok] eqn:E.
  assert (evolves s s1) as Hs1.
  { destruct (_ || _); [by injection E as <- <-|]. by apply requireLogin_fields in E as (?&_). }
  destruct ok; cbn [negb]; [|done]. eapply evolves_trans; [exact Hs1|].
  clear E. destruct (code =? OpDisconnect); [apply evolves_close|].
  split_and!; [apply handler_closed| |apply handler_logged].
  unfold gate_ok. rewrite handler_gate. intros Hg Ht. by apply handler_closed, Hg.
Qed.

Lemma handlePacket_evolves proto code payload s s' :
  handlePacket handler proto code payload s = Ok s' → evolves s s'.
Proof.
  unfold handlePacket. repeat case_match; intros [= <-];
    auto using handleED2K_evolves, evolves_close, evolves_refl.
Qed.

Lemma preLogin_false header s s' :
  preLoginHeaderAllowed header s = Ok (s', false) → gate_ok s → ss_closed s' = true.
Proof.
  unfold preLoginHeaderAllowed. repeat case_match; intros [= E]; try (subst; done).
  - by apply requireLogin_fields in E as (_&_&?&_); auto.
Qed.

Lemma preLogin_true header s s' : preLoginHeaderAllowed header s = Ok (s', true) → s' = s.
Proof.
  unfold preLoginHeaderAllowed. repeat case_match; intros [= E]; try done.
  by apply requireLogin_fields in E as (_&[-> _]&_).
Qed.
(** *** Chunking *)

Lemma deliver_evolves fuel pend s : evolves s (deliver fuel pend s).2.
Proof.
  revert pend s. induction fuel as [|fuel IH]; intros pend s; [done|].
  destruct pend as [|proto tl]; [done|]. cbn [deliver].
  destruct (IsProtocol proto); cbn [negb]; [|apply evolves_close].
  destruct tl as [|b1 [|b2 [|b3 [|b4 [|code rest]]]]]; try done.
  destruct (preLoginHeaderAllowed _ s) as [[s' []]| |] eqn:Ha; [| |done|done].
  - apply preLogin_true in Ha as ->. do 2 (case_match; [apply evolves_close|]). case_match; [done|].
    case_match; [|done..]. eapply evolves_trans; [by eapply handlePacket_evolves|apply IH].
  - unfold preLoginHeaderAllowed in Ha. repeat case_match; simplify_eq; try apply evolves_close.
    by apply requireLogin_fields in Ha as (?&_).
Qed.

(** Reading [p1] first and [p2] after it: as long as the session is open in between it is
    reading both at once, and once it is closed it is closed either way. *)
Lemma deliver_app f p1 p2 s :
  (length p1 <= f)%nat → gate_ok s →
  let '(rest, s1) := deliver f p1 s in
  if ss_closed s1 then ss_closed (deliverAll (p1 ++ p2) s).2 = true
  else deliverAll (p1 ++ p2) s = deliverAll (rest ++ p2) s1.
Proof.
  revert p1 s. induction f as [|f IH]; intros p1 s Hf Hg.
  { destruct p1; [|simpl in *; lia]. cbn [deliver]. destruct (ss_closed s) eqn:Hc; [|done].
    by apply (proj1 (deliver_evolves _ _ _)). }
  assert (∀ p, ss_closed s = true → ss_closed (deliverAll p s).2 = true) as Hclosed
    by (intros p; apply (proj1 (deliver_evolves _ _ _))).
  destruct p1 as [|proto tl]; [cbn [deliver app]; destruct (ss_closed s) eqn:Hc; auto|].
  cbn [deliver]. destruct (IsProtocol proto) eqn:Hp; cbn [negb]; cycle 1.
  { destruct (closeWithReason_fields "unknown-protocol" s) as (Hc&_). rewrite Hc.
    unfold deliverAll. simpl. by rewrite Hp. }
  destruct tl as [|b1 [|b2 [|b3 [|b4 [|code rest]]]]].
  1-5: destruct (ss_closed s) eqn:Hc; auto.
  set (whole := deliverAll _ s) at 1 2.
  assert (∃ n, (length rest + length p2 <= n)%nat ∧
    whole = deliver (S n) (proto :: b1 :: b2 :: b3 :: b4 :: code :: rest ++ p2) s) as (n&Hn&Hwhole).
  { exists (5 + length (rest ++ p2))%nat. rewrite length_app. split; [lia|]. unfold whole, deliverAll.
    simpl. by rewrite length_app. }
  cbn [deliver] in Hwhole. rewrite Hp in Hwhole. cbn [negb] in Hwhole.
  rewrite (preLoginHeaderAllowed_six _ _ _ _ _ _ (rest ++ p2) rest) in Hwhole.
  destruct (preLoginHeaderAllowed _ s) as [[s' []]| |] eqn:Ha.
  2: { rewrite Hwhole. cbn [snd]. by rewrite !(preLogin_false _ _ _ Ha Hg). }
  2-3: destruct (preLoginHeaderAllowed_total proto b1 b2 b3 b4 code rest s) as (?&?&?&_); congruence.
  apply preLogin_true in Ha as ->. set (size := le_combine [b1; b2; b3; b4]) in *.
  destruct (size =? 0).
  { rewrite Hwhole. cbn [snd]. by rewrite !(proj1 (closeWithReason_fields _ s)). }
  destruct (MaxTCPPacketSize <? size - 1).
  { rewrite Hwhole. cbn [snd]. by rewrite !(proj1 (closeWithReason_fields _ s)). }
  destruct (Z.ltb_spec (length rest) (size - 1)) as [Hlt|Hge].
  { destruct (ss_closed s) eqn:Hc; [by apply Hclosed|done]. }
  rewrite length_app in Hwhole. destruct (Z.ltb_spec (length rest + length p2)%nat (size - 1)); [lia|].
  rewrite take_app_le, drop_app_le in Hwhole by lia.
  destruct (handlePacket_total proto code (take (Z.to_nat (size - 1)) rest) s) as [s' Hh].
  rewrite Hh in *. specialize (IH (drop (Z.to_nat (size - 1)) rest) s').
  rewrite length_drop in IH. specialize (IH ltac:(simpl in Hf; lia)).
  specialize (IH (proj1 (proj2 (handlePacket_evolves _ _ _ _ _ Hh)) Hg)).
  rewrite Hwhole, (deliver_fuel n (length (drop (Z.to_nat (size - 1)) rest ++ p2)))
    by (rewrite ?length_app, ?length_drop; lia).
  exact IH.
Qed.
(** Chunks as [Read] returns them. *)
Definition wf_chunks (chunks : list bytes) : Prop :=
  Forall (λ chunk, chunk ≠ [] ∧ wf_bytes chunk) chunks.

(** A client between two reads has nothing it could deliver. *)
Lemma deliver_pending f c : wf_client c → deliver f (pending c) (c_session c) = (pending c, c_session c).
Proof.
  destruct f as [|f]; [done|]. destruct c as [p hb s].
  intros [(Hst&Hhb&_&Hproto)|(Hst&Hhb&Hproto&Hr&Hm&Ha)]; cbn -[deliver] in *; unfold pending in *;
    cbn -[deliver] in *; rewrite Hst in *; cbn -[deliver] in *.
  - destruct hb as [|proto [|b1 [|b2 [|b3 [|b4 [|code rest]]]]]]; cbn [deliver]; try rewrite Hproto; try done.
    unfold PacketHeaderSize in *. simpl in *. lia.
  - assert (∃ b1 b2 b3 b4, le_split 4 (p_Size p + 1) = [b1; b2; b3; b4]) as (b1&b2&b3&b4&Hsz)
      by (by eexists _, _, _, _).
    assert (le_combine [b1; b2; b3; b4] = p_Size p + 1) as Hcomb.
    { rewrite <- Hsz. apply le_combine_split. unfold MaxTCPPacketSize in *. solve_range. }
    rewrite Hsz in *. cbn [app] in *. rewrite deliver_header, Hcomb by (done || rewrite Hcomb; lia).
    destruct (Z.ltb_spec (length (p_recv p)) (p_Size p + 1 - 1)); [done|lia].
Qed.

Lemma run_closed chunks c : ss_closed (c_session c) = true → run handler chunks c = Ok c.
Proof. intros Hc. destruct chunks; cbn [run]; [done|]. by rewrite Hc. Qed.

Lemma run_spec chunks c :
  wf_client c → wf_chunks chunks → gate_ok (c_session c) →
  ∃ c', run handler chunks c = Ok c' ∧ wf_client c' ∧
    let whole := deliverAll (pending c ++ concat chunks) (c_session c) in
    if ss_closed (c_session c') then ss_closed whole.2 = true
    else whole = (pending c', c_session c').
Proof.
  intros Hc Hchunks. revert c Hc. induction Hchunks as [|chunk chunks [Hne Hw] _ IH]; intros c Hc Hg.
  { exists c. cbn [run concat]. split; [done|]. split; [done|]. rewrite app_nil_r.
    destruct (ss_closed (c_session c)) eqn:Hcl; [by apply (proj1 (deliver_evolves _ _ _))|].
    by apply deliver_pending. }
  cbn [run]. destruct (ss_closed (c_session c)) eqn:Hcl.
  { exists c. split; [done|]. split; [done|]. rewrite Hcl. by apply (proj1 (deliver_evolves _ _ _)). }
  rewrite bool_decide_false by done.
  destruct (processPacketData_spec (S (length chunk + length (c_headerBuf c))) chunk c Hc Hw)
    as (c1&HP&Hwf1&Hd); [lia|]. unfold process. rewrite HP.
  cbn [concat]. rewrite app_assoc.
  pose proof (deliver_app (length (pending c ++ chunk)) (pending c ++ chunk) (concat chunks)
    (c_session c) ltac:(done) Hg) as Happ.
  unfold deliverAll in Hd. rewrite Hd in Happ.
  pose proof (proj1 (proj2 (deliver_evolves (length (pending c ++ chunk)) (pending c ++ chunk)
    (c_session c))) Hg) as Hg1. rewrite Hd in Hg1. simpl in Hg1.
  destruct (IH c1 Hwf1 Hg1) as (c'&HR&Hwf'&Hcase). exists c'. split; [done|]. split; [done|].
  destruct (ss_closed (c_session c1)) eqn:Hc1.
  - rewrite run_closed in HR by done. injection HR as <-. by rewrite Hc1.
  - rewrite Happ. exact Hcase.
Qed.

(** C24: packets do not depend on how TCP cuts the stream. Whatever chunks the bytes arrive
    in, the read loop ends without a panic; the session is closed exactly when reading all
    the bytes at once closes it, and otherwise its state and the bytes still held are those
    of reading everything at once. *)
Theorem run_chunking chunks c :
  wf_client c → wf_chunks chunks → gate_ok (c_session c) →
  ∃ c', run handler chunks c = Ok c' ∧ wf_client c' ∧
    let whole := deliverAll (pending c ++ concat chunks) (c_session c) in
    ss_closed (c_session c') = ss_closed whole.2 ∧
    (ss_closed whole.2 = false → whole = (pending c', c_session c')).
Proof.
  intros Hc Hch Hg. destruct (run_spec chunks c Hc Hch Hg) as (c'&HR&Hwf&Hcase).
  exists c'. split; [done|]. split; [done|]. cbv zeta in *.
  destruct (ss_closed (c_session c')) eqn:Hcl; rewrite Hcase; [done|]. by rewrite <- Hcl.
Qed.
(** *** Packets in, packets out *)

(** A packet as its sender sees it: protocol byte, opcode, payload. *)
Definition wirePacket (pk : Z * Z * bytes) : bytes :=
  let '(proto, code, payload) := pk in encPacket proto (code :: payload).

Definition validPacket (pk : Z * Z * bytes) : Prop :=
  let '(proto, _, payload) := pk in IsProtocol proto = true ∧ length payload <= MaxTCPPacketSize.

Definition dispatch (s : Session App) (pk : Z * Z * bytes) : Session App :=
  let '(proto, code, payload) := pk in
  match handlePacket handler proto code payload s with Ok s' => s' | _ => s end.

Lemma dispatch_handle proto code payload s :
  handlePacket handler proto code payload s = Ok (dispatch s (proto, code, payload)).
Proof. unfold dispatch. by destruct (handlePacket_total proto code payload s) as [s' ->]. Qed.

Lemma deliver_packet fuel pk rest s :
  validPacket pk → ss_logged s = true →
  deliver (S fuel) (wirePacket pk ++ rest) s = deliver fuel rest (dispatch s pk).
Proof.
  destruct pk as [[proto code] payload]. intros [Hp Hl] Hlog. unfold wirePacket, encPacket.
  assert (∃ b1 b2 b3 b4, le_split 4 (length (code :: payload)) = [b1; b2; b3; b4])
    as (b1&b2&b3&b4&Hsz) by (by eexists _, _, _, _).
  assert (le_combine [b1; b2; b3; b4] = length payload + 1) as Hcomb.
  { rewrite <- Hsz, le_combine_split; [simpl; lia|]. unfold MaxTCPPacketSize in *. simpl length. solve_range. }
  assert (le_split 1 proto = [proto]) as ->.
  { unfold IsProtocol, PrED2K, PrEMule, PrZlib in Hp.
    apply le_split_byte. unfold fits. lia. }
  rewrite Hsz. cbn [app]. rewrite deliver_header, Hcomb;
    [|done|unfold preLoginHeaderAllowed; by rewrite Hlog|rewrite Hcomb; lia..].
  rewrite Z.add_simpl_r, Nat2Z.id, length_app, take_app_length, drop_app_length.
  destruct (Z.ltb_spec (length payload + length rest)%nat (length payload)); [lia|].
  by rewrite dispatch_handle.
Qed.

Lemma deliver_packets fuel pkts s :
  Forall validPacket pkts → ss_logged s = true → (length pkts <= fuel)%nat →
  deliver fuel (concat (map wirePacket pkts)) s = ([], foldl dispatch s pkts).
Proof.
  intros Hv. revert fuel s. induction Hv as [|pk pkts Hpk _ IH]; intros fuel s Hlog Hf.
  { by destruct fuel. }
  destruct fuel as [|fuel]; [simpl in *; lia|]. cbn [map concat foldl].
  rewrite deliver_packet by done. apply IH; [|simpl in *; lia].
  destruct pk as [[proto code] payload].
  by apply (handlePacket_evolves _ _ _ _ _ (dispatch_handle proto code payload s)).
Qed.

Lemma length_wirePacket pk : (6 <= length (wirePacket pk))%nat.
Proof. destruct pk as [[proto code] payload]. simpl. lia. Qed.

(** *** Before login *)

(** A packet dispatched before login reaches no handler but the login one. *)
Lemma handlePacket_gated (Q : App → Prop) proto code payload s s' :
  (∀ op pl s, ss_logged s = true ∨ op = OpLoginRequest → Q (ss_app s) → Q (ss_app (handler op pl s))) →
  handlePacket handler proto code payload s = Ok s' → Q (ss_app s) → Q (ss_app s').
Proof.
  intros HQ. assert (∀ pl, Q (ss_app s) → Q (ss_app (handleED2K handler code pl s))) as HED.
  { intros pl Hs. unfold handleED2K.
    destruct ((code =? OpLoginRequest) || (code =? OpDisconnect)) eqn:Ec; cbn [negb].
    - destruct (Z.eqb_spec code OpDisconnect).
      { by rewrite (proj2 (proj2 (proj2 (closeWithReason_fields _ s)))). }
      apply HQ; [right; lia|done].
    - destruct (requireLogin code s) as [s1 ok] eqn:E. apply requireLogin_fields in E as (_&Hok&_&Ha).
      destruct ok; cbn [negb]; [|by rewrite Ha]. destruct (Hok eq_refl) as [-> Hl].
      destruct (Z.eqb_spec code OpDisconnect).
      { by rewrite (proj2 (proj2 (proj2 (closeWithReason_fields _ s)))). }
      apply HQ; [by left|done]. }
  unfold handlePacket. repeat case_match; intros [= <-]; auto.
  by rewrite (proj2 (proj2 (proj2 (closeWithReason_fields _ s)))).
Qed.

Lemma deliver_gated (Q : App → Prop) fuel pend s :
  (∀ op pl s, ss_logged s = true ∨ op = OpLoginRequest → Q (ss_app s) → Q (ss_app (handler op pl s))) →
  Q (ss_app s) → Q (ss_app (deliver fuel pend s).2).
Proof.
  intros HQ. revert pend s. induction fuel as [|fuel IH]; intros pend s Hs; [done|].
  destruct pend as [|proto tl]; [done|]. cbn [deliver].
  assert (∀ r, Q (ss_app (closeWithReason r s))) as Hcl.
  { intros r. by rewrite (proj2 (proj2 (proj2 (closeWithReason_fields r s)))). }
  destruct (IsProtocol proto); cbn [negb]; [|apply Hcl].
  destruct tl as [|b1 [|b2 [|b3 [|b4 [|code rest]]]]]; try done.
  destruct (preLoginHeaderAllowed _ s) as [[s' []]| |] eqn:Ha; [| |done|done].
  - apply preLogin_true in Ha as ->. do 2 (case_match; [apply Hcl|]). case_match; [done|].
    case_match eqn:Hh; [|done..]. apply IH. by eapply handlePacket_gated.
  - unfold preLoginHeaderAllowed in Ha. repeat case_match; simplify_eq; try apply Hcl.
    apply requireLogin_fields in Ha as (_&_&_&E). cbn [snd]. by rewrite E.
Qed.

(** C26: no request is served before login. Whatever bytes a client sends, the only calls
    that reach a request handler are the login request and calls on a session that is
    logged in at that moment: every property of the server state that those calls keep is
    kept by the whole read. *)
Theorem prelogin_gate (Q : App → Prop) data c :
  wf_client c → wf_bytes data →
  (∀ op pl s, ss_logged s = true ∨ op = OpLoginRequest → Q (ss_app s) → Q (ss_app (handler op pl s))) →
  Q (ss_app (c_session c)) →
  ∃ c', process handler data c = Ok c' ∧ Q (ss_app (c_session c')).
Proof.
  intros Hc Hd HQ Hs.
  destruct (processPacketData_spec (S (length data + length (c_headerBuf c))) data c Hc Hd)
    as (c'&HP&_&Hdel); [lia|].
  exists c'. split; [done|]. pose proof (deliver_gated Q (length (pending c ++ data)) (pending c ++ data) _ HQ Hs) as HQ'.
  unfold deliverAll in Hdel. by rewrite Hdel in HQ'.
Qed.

Lemma wf_client_bound c : wf_client c →
  length (pending c) < PacketHeaderSize +
    (if ss_logged (c_session c) then MaxTCPPacketSize else maxPreLoginPacket).
Proof.
  assert (0 < MaxTCPPacketSize ∧ 0 < maxPreLoginPacket ∧ PacketHeaderSize = 6) as (?&?&HP) by done.
  intros [(Hst&Hhb&_)|(Hst&Hhb&Hp&Hr&Hm&Ha)]; unfold pending in *; rewrite Hst in *; cbn -[le_split] in *.
  { destruct (ss_logged _); lia. }
  rewrite HP, length_app, length_le_split. simpl length.
  destruct (ss_logged (c_session c)) eqn:Hl; [lia|].
  unfold preLoginHeaderAllowed in Ha. rewrite Hl in Ha.
  assert (∃ b1 b2 b3 b4, le_split 4 (p_Size (c_packet c) + 1) = [b1; b2; b3; b4])
    as (b1&b2&b3&b4&Hsz) by (by eexists _, _, _, _).
  rewrite Hsz in Ha. cbn [app] in Ha. rewrite <- Hsz in Ha.
  rewrite le_combine_split in Ha by (unfold MaxTCPPacketSize in *; solve_range).
  destruct (Z.ltb_spec (maxPreLoginPacket + 1) (p_Size (c_packet c) + 1)); [done|lia].
Qed.

(** C34: a session's memory is bounded. After any read, the bytes a client makes the server
    hold for an unfinished packet are fewer than a header and 2,000,000 bytes, and fewer
    than a header and 64 KiB while it has not logged in. *)
Theorem pending_bounded data c :
  wf_client c → wf_bytes data →
  ∃ c', process handler data c = Ok c' ∧
    length (pending c') < PacketHeaderSize +
      (if ss_logged (c_session c') then MaxTCPPacketSize else maxPreLoginPacket).
Proof.
  intros Hc Hd.
  destruct (processPacketData_spec (S (length data + length (c_headerBuf c))) data c Hc Hd)
    as (c'&HP&Hwf&_); [lia|].
  exists c'. split; [done|]. by apply wf_client_bound.
Qed.
(** *** Compression *)

(** Compression is transparent. A packet of ours, compressed or not, is a packet the
    receiving side accepts, is dispatched there with the opcode and the payload it was built
    with, and is never longer than it was. *)
Lemma compressed_delivered opcode payload minLen :
  fits 8 opcode → length payload <= MaxTCPPacketSize →
  let packet := mkBuffer (encPacket PrED2K (opcode :: payload)) 0 in
  ∃ proto body, MaybeCompressTCPPacket packet minLen = Ok (mkBuffer (wirePacket (proto, opcode, body)) 0) ∧
    validPacket (proto, opcode, body) ∧
    (length (wirePacket (proto, opcode, body)) <= length (Bytes packet))%nat ∧
    ∀ s, handlePacket handler proto opcode body s = Ok (handleED2K handler opcode payload s).
Proof.
  intros Hop Hl packet.
  destruct (MaybeCompress_open opcode payload minLen Hop Hl) as (proto&body&HM&Hp&Hb&Hle&Ho).
  exists proto, body. split; [done|]. split; [done|]. split.
  - unfold packet, wirePacket, encPacket, Bytes. simpl data.
    rewrite !length_app, !length_le_split. simpl length. lia.
  - intros s. unfold handlePacket, openPayload in *.
    destruct (proto =? PrED2K); [by simplify_eq|]. destruct (proto =? PrZlib); [|done].
    by rewrite Ho.
Qed.
End Spec.

(** ** A session to run

    A handler that records the opcodes it serves, each with the login state it was served
    in, and logs in on a login request. *)

#[local] Existing Instance rleZlib.

Definition demoHandler (op : Z) (payload : bytes) (s : Session (list (Z * bool))) :
    Session (list (Z * bool)) :=
  { s with ss_logged := (if op =? OpLoginRequest then true else ss_logged s);
    ss_app := ss_app s ++ [(op, ss_logged s)] }.

Lemma demoHandler_ok : HandlerOk demoHandler.
Proof. split; intros op payload []; simpl; [done..|]. by destruct (op =? OpLoginRequest). Qed.

Definition demoClient : tcpClient (list (Z * bool)) :=
  mkClient NewPacket [] (mkSession false false [] "read-loop-ended" false []).

Lemma demoClient_wf : wf_client demoClient.
Proof. left. split_and!; [done|done|constructor|done]. Qed.

Definition loggedClient : tcpClient (list (Z * bool)) :=
  mkClient NewPacket [] (mkSession true false [] "read-loop-ended" false []).

(** A login and a search request, the second cut short. *)
Definition demoBytes : bytes :=
  wirePacket (PrED2K, OpLoginRequest, [1; 2]) ++ take 7 (wirePacket (PrED2K, 0x16, [3; 4; 5])).

Lemma process_refines_witness : ∃ c',
  process (H := rleZlib) demoHandler demoBytes demoClient = Ok c' ∧
  deliverAll (ZL := rleZlib) demoHandler demoBytes (c_session demoClient) = (pending c', c_session c') ∧
  ss_app (c_session c') = [(OpLoginRequest, false)] ∧ length (pending c') = 7%nat.
Proof.
  destruct (process_refines (ZL := rleZlib) demoHandler (ZLaws := rleZlib_laws) demoBytes demoClient
    demoClient_wf ltac:(by_decision)) as (c'&HP&_&Hd).
  exists c'. split; [exact HP|]. split; [exact Hd|].
  vm_compute in HP. injection HP as <-. by split.
Defined.

(** Two packets in three chunks, cut inside both headers. *)
Definition demoChunks : list bytes :=
  let all := wirePacket (PrED2K, 0x14, []) ++ wirePacket (PrEMule, 1, [9]) ++
             wirePacket (PrED2K, 0x16, [3; 4; 5]) in
  [take 3 all; take 7 (drop 3 all); drop 10 all].

Lemma demoChunks_wf : wf_chunks demoChunks.
Proof. repeat constructor; try done; by_decision. Qed.

Lemma run_chunking_witness : ∃ c',
  run (H := rleZlib) demoHandler demoChunks demoClient = Ok c' ∧
  ss_closed (c_session c') = true ∧ ss_app (c_session c') = [].
Proof.
  destruct (run_chunking (ZL := rleZlib) demoHandler (ZLaws := rleZlib_laws)
    (HOk := demoHandler_ok) demoChunks demoClient demoClient_wf demoChunks_wf ltac:(done))
    as (c'&HR&_&Hcl&_).
  exists c'. split; [exact HR|]. split; [rewrite Hcl; by vm_compute|].
  vm_compute in HR. by injection HR as <-.
Defined.


(** An offer sent before the login is not served. *)
Lemma prelogin_gate_witness : ∃ c',
  process (H := rleZlib) demoHandler (wirePacket (PrED2K, 0x15, [0; 0; 0; 0])) demoClient = Ok c' ∧
  Forall (λ call, call.2 = true ∨ call.1 = OpLoginRequest) (ss_app (c_session c')).
Proof.
  apply (prelogin_gate (ZL := rleZlib) demoHandler (ZLaws := rleZlib_laws)
    (Forall (λ call, call.2 = true ∨ call.1 = OpLoginRequest)) _ _ demoClient_wf).
  - by_decision.
  - intros op pl s Hcall Hs. apply Forall_app. split; [done|]. by constructor.
  - constructor.
Defined.

Lemma pending_bounded_witness : ∃ c',
  process (H := rleZlib) demoHandler (take 9 (wirePacket (PrED2K, OpLoginRequest, [1; 2; 3; 4]))) demoClient
    = Ok c' ∧ length (pending c') < PacketHeaderSize + maxPreLoginPacket.
Proof.
  destruct (pending_bounded (ZL := rleZlib) demoHandler (ZLaws := rleZlib_laws)
    (take 9 (wirePacket (PrED2K, OpLoginRequest, [1; 2; 3; 4]))) demoClient demoClient_wf
    ltac:(by_decision)) as (c'&HP&Hb).
  exists c'. split; [exact HP|]. vm_compute in HP. injection HP as <-. exact Hb.
Defined.

(** Two hundred equal bytes are sent as six, and arrive. *)
