(* ===== verification/Crypt.v ===== *)
(** * RC4, MD5 and Diffie-Hellman as the server uses them: [ed2k/crypt.go]

    The stream cipher with its key schedule, [crypto/md5] (RFC 1321) and the modular
    exponentiation of [math/big]. Random bytes are arguments of whatever draws them. *)

From Stdlib Require Import Zpow_facts.
From S2P Require Import Prelude.
Local Open Scope Z_scope.

Definition CryptPrimeSize : nat := 96.
Definition CryptDhaSize : nat := 16.
Definition EmObfuscate : Z := 0.
Definition EmPreferred : Z := EmObfuscate.
Definition EmSupported : Z := EmObfuscate.

Definition CryptPrime : bytes := [
  0xF2; 0xBF; 0x52; 0xC5; 0x5F; 0x58; 0x7A; 0xDD; 0x53; 0x71; 0xA9; 0x36;
  0xE8; 0x86; 0xEB; 0x3C; 0x62; 0x17; 0xA3; 0x3E; 0xC3; 0x4C; 0xB4; 0x0D;
  0xC7; 0x3A; 0x41; 0xA6; 0x43; 0xAF; 0xFC; 0xE7; 0x21; 0xFC; 0x28; 0x63;
  0x66; 0x53; 0x5B; 0xDB; 0xCE; 0x25; 0x9F; 0x22; 0x86; 0xDA; 0x4A; 0x91;
  0xB2; 0x07; 0xCB; 0xAA; 0x52; 0x55; 0xD4; 0xF6; 0x1C; 0xCE; 0xAE; 0xD4;
  0x5A; 0xD5; 0xE0; 0x74; 0x7D; 0xF7; 0x78; 0x18; 0x28; 0x10; 0x5F; 0x34;
  0x0F; 0x76; 0x23; 0x87; 0xF8; 0x8B; 0x28; 0x91; 0x42; 0xFB; 0x42; 0x68;
  0x8F; 0x05; 0x15; 0x0F; 0x54; 0x8B; 0x5F; 0x43; 0x6A; 0xF7; 0x0D; 0xF3].

(** ** RC4 *)

Record RC4Key := mkRC4Key { rk_State : list Z; rk_X : Z; rk_Y : Z }.

(** [State[i]] for a byte [i]. *)
Definition at_ (st : list Z) (i : Z) : Z := nth (Z.to_nat i) st 0.

(** [State[i], State[j] = State[j], State[i]]. *)
Definition swap (st : list Z) (i j : Z) : list Z :=
  <[Z.to_nat i := at_ st j]> (<[Z.to_nat j := at_ st i]> st).

Definition identityState : list Z := seqZ 0 256.

(** The key schedule's loop from round [256 - n]. [keyphrase] is not empty. *)
Fixpoint keySchedule (n : nat) (keyphrase : bytes) (i index1 index2 : Z) (st : list Z) : list Z :=
  match n with
  | O => st
  | S n =>
      let index2 := (at_ keyphrase index1 + at_ st i + index2) `mod` 256 in
      keySchedule n keyphrase (i + 1) ((index1 + 1) `mod` length keyphrase) index2 (swap st i index2)
  end.

(** One byte of keystream. *)
Definition rc4Step (key : RC4Key) : RC4Key * Z :=
  let x := (rk_X key + 1) `mod` 256 in
  let y := (at_ (rk_State key) x + rk_Y key) `mod` 256 in
  let st := swap (rk_State key) x y in
  let xorIndex := (at_ st x + at_ st y) `mod` 256 in
  (mkRC4Key st x y, at_ st xorIndex).

Fixpoint rc4Stream (n : nat) (key : RC4Key) : RC4Key * bytes :=
  match n with
  | O => (key, [])
  | S n =>
      let '(key, k) := rc4Step key in
      let '(key, ks) := rc4Stream n key in
      (key, k :: ks)
  end.

(** [RC4Crypt(buffer, len(buffer), key)]: the key is advanced in place. *)
Fixpoint RC4Crypt (buffer : bytes) (key : RC4Key) : RC4Key * bytes :=
  match buffer with
  | [] => (key, [])
  | c :: buffer =>
      let '(key, k) := rc4Step key in
      let '(key, out) := RC4Crypt buffer key in
      (key, Z.lxor c k :: out)
  end.

(** [RC4Crypt(nil, length, key)] only moves the key. *)
Definition rc4Drop (length : nat) (key : RC4Key) : RC4Key := (rc4Stream length key).1.

Definition RC4CreateKey (keyphrase : bytes) (drop : bool) : RC4Key :=
  match keyphrase with
  | [] => mkRC4Key identityState 0 0
  | _ =>
      let k := mkRC4Key (keySchedule 256 keyphrase 0 0 0 identityState) 0 0 in
      if drop then rc4Drop 1024 k else k
  end.

(** ** MD5 *)

Definition md5_K : list Z := [
  0xd76aa478; 0xe8c7b756; 0x242070db; 0xc1bdceee;
  0xf57c0faf; 0x4787c62a; 0xa8304613; 0xfd469501;
  0x698098d8; 0x8b44f7af; 0xffff5bb1; 0x895cd7be;
  0x6b901122; 0xfd987193; 0xa679438e; 0x49b40821;
  0xf61e2562; 0xc040b340; 0x265e5a51; 0xe9b6c7aa;
  0xd62f105d; 0x02441453; 0xd8a1e681; 0xe7d3fbc8;
  0x21e1cde6; 0xc33707d6; 0xf4d50d87; 0x455a14ed;
  0xa9e3e905; 0xfcefa3f8; 0x676f02d9; 0x8d2a4c8a;
  0xfffa3942; 0x8771f681; 0x6d9d6122; 0xfde5380c;
  0xa4beea44; 0x4bdecfa9; 0xf6bb4b60; 0xbebfbc70;
  0x289b7ec6; 0xeaa127fa; 0xd4ef3085; 0x04881d05;
  0xd9d4d039; 0xe6db99e5; 0x1fa27cf8; 0xc4ac5665;
  0xf4292244; 0x432aff97; 0xab9423a7; 0xfc93a039;
  0x655b59c3; 0x8f0ccc92; 0xffeff47d; 0x85845dd1;
  0x6fa87e4f; 0xfe2ce6e0; 0xa3014314; 0x4e0811a1;
  0xf7537e82; 0xbd3af235; 0x2ad7d2bb; 0xeb86d391].

Definition md5_s (i : Z) : Z :=
  nth (Z.to_nat (4 * (i `div` 16) + i `mod` 4))
    [7; 12; 17; 22; 5; 9; 14; 20; 4; 11; 16; 23; 6; 10; 15; 21] 0.

Definition not32 (x : Z) : Z := Z.lxor 0xffffffff x.
Definition rotl32 (x n : Z) : Z := u32 (Z.lor (Z.shiftl x n) (Z.shiftr x (32 - n))).

(** Round [i] on the four words, over the sixteen words [m] of a block. *)
Definition md5_round (m : list Z) (i : Z) (w : Z * Z * Z * Z) : Z * Z * Z * Z :=
  let '(a, b, c, d) := w in
  let '(f, g) :=
    if i <? 16 then (Z.lor (Z.land b c) (Z.land (not32 b) d), i)
    else if i <? 32 then (Z.lor (Z.land d b) (Z.land (not32 d) c), (5 * i + 1) `mod` 16)
    else if i <? 48 then (Z.lxor (Z.lxor b c) d, (3 * i + 5) `mod` 16)
    else (Z.lxor c (Z.lor b (not32 d)), (7 * i) `mod` 16) in
  let f := u32 (f + a + at_ md5_K i + at_ m g) in
  (d, u32 (b + rotl32 f (md5_s i)), b, c).

(** The sixteen little-endian words of a block. *)
Fixpoint md5_words (n : nat) (block : bytes) : list Z :=
  match n with
  | O => []
  | S n => le_combine (take 4 block) :: md5_words n (drop 4 block)
  end.

Definition md5_block (w : Z * Z * Z * Z) (block : bytes) : Z * Z * Z * Z :=
  let m := md5_words 16 block in
  let '(a, b, c, d) := fold_left (λ w i, md5_round m i w) (seqZ 0 64) w in
  let '(a0, b0, c0, d0) := w in
  (u32 (a0 + a), u32 (b0 + b), u32 (c0 + c), u32 (d0 + d)).

Definition md5_pad (msg : bytes) : bytes :=
  let zeros := (55 - Z.of_nat (length msg)) `mod` 64 in
  msg ++ [0x80] ++ replicate (Z.to_nat zeros) 0 ++ le_split 8 (8 * length msg).

Fixpoint md5_blocks (n : nat) (data : bytes) (w : Z * Z * Z * Z) : Z * Z * Z * Z :=
  match n with
  | O => w
  | S n => md5_blocks n (drop 64 data) (md5_block w (take 64 data))
  end.

Definition MD5 (buffer : bytes) : bytes :=
  let data := md5_pad buffer in
  let '(a, b, c, d) :=
    md5_blocks (length data / 64) data (0x67452301, 0xefcdab89, 0x98badcfe, 0x10325476) in
  le_split 4 a ++ le_split 4 b ++ le_split 4 c ++ le_split 4 d.

(** The digest RFC 1321 gives for three of its test strings. *)
Lemma MD5_rfc1321 :
  MD5 [] = [0xd4; 0x1d; 0x8c; 0xd9; 0x8f; 0x00; 0xb2; 0x04; 0xe9; 0x80; 0x09; 0x98; 0xec; 0xf8; 0x42; 0x7e] ∧
  MD5 (str "abc") =
    [0x90; 0x01; 0x50; 0x98; 0x3c; 0xd2; 0x4f; 0xb0; 0xd6; 0x96; 0x3f; 0x7d; 0x28; 0xe1; 0x7f; 0x72] ∧
  MD5 (str "12345678901234567890123456789012345678901234567890123456789012345678901234567890") =
    [0x57; 0xed; 0xf4; 0xa2; 0x2b; 0xe3; 0xc9; 0x55; 0xac; 0x49; 0xda; 0x2e; 0x21; 0x07; 0xb6; 0x7a].
Proof. vm_compute. done. Qed.

Lemma length_MD5 b : length (MD5 b) = 16%nat.
Proof. unfold MD5. by destruct (md5_blocks _ _ _) as [[[? ?] ?] ?]. Qed.

Lemma wf_MD5 b : wf_bytes (MD5 b).
Proof.
  unfold MD5. destruct (md5_blocks _ _ _) as [[[? ?] ?] ?].
  repeat (apply Forall_app; split); apply wf_le_split.
Qed.

(** ** The RC4 state *)

(** The state is a permutation of the bytes and the two indices are bytes: no index of
    [RC4Crypt] is ever out of range. *)
Record wf_key (k : RC4Key) : Prop := {
  wfk_state : rk_State k ≡ₚ identityState;
  wfk_x : is_byte (rk_X k);
  wfk_y : is_byte (rk_Y k);
}.

Lemma state_lookup st i : st ≡ₚ identityState → is_byte i → st !! Z.to_nat i = Some (at_ st i).
Proof.
  intros Hst Hi. unfold at_.
  pose proof (Permutation_length Hst) as Hl.
  change (length identityState) with 256%nat in Hl. unfold is_byte in Hi.
  destruct (lookup_lt_is_Some_2 st (Z.to_nat i)) as [x Hx]; [lia|].
  rewrite Hx. f_equal. by rewrite (nth_lookup_Some _ _ _ _ Hx).
Qed.

Lemma state_byte st i : st ≡ₚ identityState → is_byte i → is_byte (at_ st i).
Proof.
  intros Hst Hi. pose proof (state_lookup st i Hst Hi) as Hl%list_elem_of_lookup_2.
  generalize dependent (at_ st i). intros x Hx. rewrite Hst in Hx.
  apply elem_of_seqZ in Hx. unfold is_byte. lia.
Qed.

Lemma swap_perm st i j : st ≡ₚ identityState → is_byte i → is_byte j → swap st i j ≡ₚ identityState.
Proof.
  intros Hst Hi Hj. unfold swap. etransitivity; [|exact Hst].
  apply Permutation_insert_swap; by apply state_lookup.
Qed.

Lemma is_byte_mod z : is_byte (z `mod` 256).
Proof. unfold is_byte. by apply Z.mod_pos_bound. Qed.
#[export] Hint Resolve is_byte_mod state_byte swap_perm : go.

Lemma rc4Step_wf k : wf_key k → wf_key (rc4Step k).1 ∧ is_byte (rc4Step k).2.
Proof.
  intros []. unfold rc4Step. simpl. split; [split; simpl|]; auto 10 with go.
Qed.

Lemma lxor_byte a b : is_byte a → is_byte b → is_byte (Z.lxor a b).
Proof.
  unfold is_byte. intros Ha Hb. assert (0 <= Z.lxor a b) by (apply Z.lxor_nonneg; lia).
  split; [done|]. destruct (Z.eq_dec (Z.lxor a b) 0) as [->|]; [done|].
  change 256 with (2 ^ 8). apply Z.log2_lt_pow2; [lia|].
  pose proof (Z.log2_lxor a b ltac:(lia) ltac:(lia)).
  pose proof (Z.log2_le_mono a 255 ltac:(lia)). pose proof (Z.log2_le_mono b 255 ltac:(lia)).
  change (Z.log2 255) with 7 in *. lia.
Qed.

Lemma RC4Crypt_wf b k : wf_key k → wf_bytes b →
  wf_key (RC4Crypt b k).1 ∧ wf_bytes (RC4Crypt b k).2.
Proof.
  intros Hk Hb. revert k Hk. induction Hb as [|c b Hc _ IH]; intros k Hk; [done|].
  cbn [RC4Crypt]. pose proof (rc4Step_wf k Hk) as [Hk1 Hb1]. destruct (rc4Step k) as [k1 x].
  specialize (IH k1 Hk1). destruct (RC4Crypt b k1) as [k2 out]. simpl in *.
  split; [apply IH|]. constructor; [by apply lxor_byte|apply IH].
Qed.

Lemma length_RC4Crypt b k : length (RC4Crypt b k).2 = length b.
Proof.
  revert k. induction b as [|c b IH]; intros k; [done|]. cbn [RC4Crypt].
  destruct (rc4Step k) as [k1 x]. specialize (IH k1). destruct (RC4Crypt b k1). simpl in *. by rewrite IH.
Qed.

Lemma rc4Stream_wf n k : wf_key k → wf_key (rc4Stream n k).1.
Proof.
  revert k. induction n as [|n IH]; intros k Hk; [done|]. cbn [rc4Stream].
  pose proof (rc4Step_wf k Hk) as [Hk1 _]. destruct (rc4Step k) as [k1 x].
  specialize (IH k1 Hk1). by destruct (rc4Stream n k1).
Qed.

Lemma keySchedule_perm (n : nat) phrase i i1 i2 st :
  st ≡ₚ identityState → 0 <= i → i + n <= 256 → keySchedule n phrase i i1 i2 st ≡ₚ identityState.
Proof.
  revert i i1 i2 st. induction n as [|n IH]; intros i i1 i2 st Hst Hi Hn; [done|]. cbn [keySchedule].
  apply IH; [|lia..]. apply swap_perm; [done|unfold is_byte; lia|apply is_byte_mod].
Qed.

Lemma RC4CreateKey_wf phrase drop : wf_key (RC4CreateKey phrase drop).
Proof.
  unfold RC4CreateKey. destruct phrase as [|b phrase]; [by split|].
  assert (wf_key (mkRC4Key (keySchedule 256 (b :: phrase) 0 0 0 identityState) 0 0)) as Hk.
  { split; [|done|done]. by apply keySchedule_perm. }
  destruct drop; [by apply rc4Stream_wf|done].
Qed.

(** ** The cipher *)

Lemma RC4Crypt_involutive b k : RC4Crypt (RC4Crypt b k).2 k = ((RC4Crypt b k).1, b).
Proof.
  revert k. induction b as [|c b IH]; intros k; [done|]. cbn [RC4Crypt].
  destruct (rc4Step k) as [k1 x] eqn:E1. specialize (IH k1).
  destruct (RC4Crypt b k1) as [k2 out] eqn:E2. cbn [fst snd RC4Crypt] in *. rewrite E1, IH.
  by rewrite Z.lxor_assoc, Z.lxor_nilpotent, Z.lxor_0_r.
Qed.

Lemma RC4Crypt_app b1 b2 k :
  RC4Crypt (b1 ++ b2) k =
    let '(k1, o1) := RC4Crypt b1 k in let '(k2, o2) := RC4Crypt b2 k1 in (k2, o1 ++ o2).
Proof.
  revert k. induction b1 as [|c b1 IH]; intros k.
  { simpl. by destruct (RC4Crypt b2 k). }
  cbn [RC4Crypt app]. destruct (rc4Step k) as [k1 x]. rewrite IH.
  destruct (RC4Crypt b1 k1) as [k2 o1]. by destruct (RC4Crypt b2 k2).
Qed.

(** A stream sent or received piece by piece through one key. *)
Fixpoint cryptPieces (pieces : list bytes) (key : RC4Key) : RC4Key * list bytes :=
  match pieces with
  | [] => (key, [])
  | b :: pieces =>
      let '(key, out) := RC4Crypt b key in
      let '(key, outs) := cryptPieces pieces key in
      (key, out :: outs)
  end.

Lemma cryptPieces_concat pieces k :
  RC4Crypt (concat pieces) k = ((cryptPieces pieces k).1, concat (cryptPieces pieces k).2).
Proof.
  revert k. induction pieces as [|b pieces IH]; intros k; [done|]. cbn [concat cryptPieces].
  rewrite RC4Crypt_app. destruct (RC4Crypt b k) as [k1 o1]. rewrite IH.
  by destruct (cryptPieces pieces k1).
Qed.

(** Both ends of an obfuscated stream stay in step. Starting from equal keys, what one
    end encrypts in any pieces and the other decrypts in any other pieces comes out as it
    went in, and the two keys are equal again afterwards; the cipher's state is then still a
    permutation of the 256 bytes, so no table index is ever out of range. *)
Lemma rc4_stream_roundtrip phrase drop sent received :
  let key := RC4CreateKey phrase drop in
  concat received = concat (cryptPieces sent key).2 →
  concat (cryptPieces received key).2 = concat sent ∧
  (cryptPieces received key).1 = (cryptPieces sent key).1 ∧
  (wf_bytes (concat sent) → wf_key (cryptPieces sent key).1).
Proof.
  intros key Hr. pose proof (cryptPieces_concat sent key) as Hs.
  pose proof (cryptPieces_concat received key) as Hd. rewrite Hr in Hd.
  pose proof (RC4Crypt_involutive (concat sent) key) as Hi. rewrite Hs in Hi. cbn [fst snd] in Hi.
  rewrite Hi in Hd. injection Hd as Hk Hb. split; [done|]. split; [done|].
  intros Hw. pose proof (RC4Crypt_wf (concat sent) key (RC4CreateKey_wf phrase drop) Hw) as [Hwk _].
  by rewrite Hs in Hwk.
Qed.

(** The classic test vector, cut in two on one side and in three on the other. *)
