(* ===== verification/UDPCrypt.v ===== *)
(** * Obfuscated datagrams: [ed2k/udpcrypt.go]

    The random choices of a sender (the marker byte and the 16-bit key part) are arguments. *)

From S2P Require Import Prelude Buffer Address Packet Crypt.
Local Open Scope Z_scope.

Definition MagicValueUDPServerClient : Z := 0xA5.
Definition MagicValueUDPClientServer : Z := 0x6B.
Definition MagicValueUDPSyncServer : Z := 0x13EF24D5.

Definition CsNone : Z := 0.
Definition CsUnknown : Z := 1.
Definition CsNegotiating : Z := 4.
Definition CsEncrypting : Z := 5.

Definition PrKad : Z := 0xe4.
Definition PrKadZlib : Z := 0xe5.

Record UDPCrypt := mkUDPCrypt { uc_Status : Z; uc_ServerKey : Z }.

Definition NewUDPCrypt (supportCrypt : bool) (serverKey : Z) : UDPCrypt :=
  mkUDPCrypt (if supportCrypt then CsEncrypting else CsNone) serverKey.

Definition rc4Key (u : UDPCrypt) (magic randomKey : Z) : RC4Key :=
  RC4CreateKey (MD5 (le_split 4 (uc_ServerKey u) ++ le_split 1 magic ++ le_split 2 randomKey)) false.

(** The part of [decrypt] after the RC4 pass, on the decrypted bytes. *)
Definition openEnvelope : M Buffer bytes :=
  sync ← GetUInt32LE;
  if negb (sync =? MagicValueUDPSyncServer) then fail ErrOutOfBounds else
  padLength ← GetUInt8;
  let padLength := Z.land padLength 0x0f in
  r ← Remaining;
  if r <=? padLength then fail ErrOutOfBounds else
  Get padLength;;
  GetRest.

(** A packet that is not a well-formed envelope is returned as it came. *)
Definition decrypt (u : UDPCrypt) (buffer : bytes) (direction : Z) : result bytes :=
  if negb (uc_Status u =? CsEncrypting) then Ok buffer else
  match GetUInt8 (NewBufferFromBytes buffer) with
  | (b, Ok protocol) =>
      if protocol =? PrED2K then Ok buffer else
      match GetUInt16LE b with
      | (b, Ok clientKey) =>
          match GetRest b with
          | (_, Ok data) =>
              let '(_, dec) := RC4Crypt data (rc4Key u direction clientKey) in
              match openEnvelope (NewBufferFromBytes dec) with
              | (_, Ok payload) => Ok payload
              | (_, Err _) => Ok buffer
              | (_, Panic) => Panic
              end
          | (_, Err _) => Ok buffer
          | (_, Panic) => Panic
          end
      | (_, Err _) => Ok buffer
      | (_, Panic) => Panic
      end
  | (_, Err _) => Ok buffer
  | (_, Panic) => Panic
  end.

Definition Decrypt (u : UDPCrypt) (buffer : bytes) : result bytes :=
  decrypt u buffer MagicValueUDPClientServer.
Definition DecryptFromServer (u : UDPCrypt) (buffer : bytes) : result bytes :=
  decrypt u buffer MagicValueUDPServerClient.

Definition encrypt (u : UDPCrypt) (buffer : bytes) (direction : Z) (marker randomKey : Z) : bytes :=
  if negb (uc_Status u =? CsEncrypting) then buffer else
  let enc := le_split 4 MagicValueUDPSyncServer ++ le_split 1 0 ++ buffer in
  let '(_, encrypted) := RC4Crypt enc (rc4Key u direction randomKey) in
  le_split 1 marker ++ le_split 2 randomKey ++ encrypted.

Definition Encrypt (u : UDPCrypt) (buffer : bytes) (marker randomKey : Z) : bytes :=
  encrypt u buffer MagicValueUDPServerClient marker randomKey.

Definition EncryptAsClient (u : UDPCrypt) (buffer : bytes) (marker randomKey : Z) : bytes :=
  encrypt u buffer MagicValueUDPClientServer marker randomKey.

(** [csMarker] is what [randClientSocketMarker] draws. *)
Definition EncryptForClientSocket (u : UDPCrypt) (buffer : bytes) (marker randomKey csMarker : Z) : bytes :=
  let out := encrypt u buffer MagicValueUDPServerClient marker randomKey in
  if uc_Status u =? CsEncrypting then
    match out with _ :: rest => csMarker :: rest | [] => [] end
  else out.

(** [RandProtocol] over the values [Rand(0xff)] gives it: five tries at most. *)
Fixpoint RandProtocol (tries : nat) (p : Z) (draws : list Z) : Z :=
  match tries, draws with
  | S tries, d :: draws => if negb (IsProtocol d) then d else RandProtocol tries d draws
  | _, _ => p
  end.

(** [randClientSocketMarker] over a finite prefix of its draws; [None] when none of them
    will do. *)
Fixpoint randClientSocketMarker (draws : list Z) : option Z :=
  match draws with
  | [] => None
  | p :: draws =>
      if negb (IsProtocol p) && negb (p =? PrKad) && negb (p =? PrKadZlib) then Some p
      else randClientSocketMarker draws
  end.

Definition deriveUDPKey (secret ip : bytes) : Z :=
  let norm := match To4 ip with Some v4 => v4 | None => ip end in
  let key := le_combine (take 4 (MD5 (secret ++ norm))) in
  if key =? 0 then 1 else key.

(** ** Round trip *)

(** The envelope a sender may build: any padding of up to 15 bytes, under a length byte
    whose high half is reserved. *)
Definition envelope (padByte : Z) (pad payload : bytes) : bytes :=
  le_split 4 MagicValueUDPSyncServer ++ le_split 1 padByte ++ pad ++ payload.

Lemma reads_GetRest pre bs :
  GetRest (mkBuffer (pre ++ bs) (length pre)) = (mkBuffer (pre ++ bs) (length (pre ++ bs)), Ok bs).
Proof.
  unfold GetRest, slice_from. simpl. rewrite length_app. int_test. by rewrite drop_app_length.
Qed.

Lemma Remaining_at pre post : Remaining_of (mkBuffer (pre ++ post) (length pre)) = length post.
Proof. unfold Remaining_of. simpl. rewrite length_app. int_test; lia. Qed.

Lemma openEnvelope_spec padByte pad payload :
  fits 8 padByte → Z.land padByte 0x0f = length pad → payload ≠ [] →
  openEnvelope (NewBufferFromBytes (envelope padByte pad payload)) =
    (mkBuffer (envelope padByte pad payload) (length (envelope padByte pad payload)), Ok payload).
Proof.
  intros Hb Hpad Hne. unfold openEnvelope, envelope, NewBufferFromBytes.
  rewrite (reads_start GetUInt32LE _ _ MagicValueUDPSyncServer) by by apply reads_le.
  rewrite Z.eqb_refl. cbn [negb].
  rewrite (reads_then GetUInt8 _ _ padByte _ (pad ++ payload)) by by apply reads_le.
  set (head := le_split 4 _ ++ le_split 1 _). cbv zeta. rewrite Hpad.
  unfold mbind at 1, M_bind at 1, Remaining.
  rewrite Remaining_at, length_app. destruct payload as [|x payload]; [done|].
  replace (_ <=? Z.of_nat (length pad)) with false by (symmetry; apply Z.leb_gt; simpl; lia).
  rewrite (reads_then (Get (length pad)) _ pad pad head (x :: payload)) by apply reads_Get.
  rewrite reads_GetRest. subst head. by rewrite <- !app_assoc.
Qed.

(** C35: an obfuscated datagram is opened by its receiver. For every server key, direction,
    key part, marker byte other than the plaintext protocol byte, padding of up to 15 bytes
    and reserved bits, the datagram a sender builds around a non-empty payload is decrypted
    to exactly that payload; [encrypt] builds such a datagram, without padding. *)
Theorem udp_roundtrip u direction marker randomKey padByte pad payload :
  uc_Status u = CsEncrypting → fits 8 marker → marker ≠ PrED2K → fits 16 randomKey →
  fits 8 padByte → Z.land padByte 0x0f = length pad → payload ≠ [] →
  let '(_, body) := RC4Crypt (envelope padByte pad payload) (rc4Key u direction randomKey) in
  decrypt u (le_split 1 marker ++ le_split 2 randomKey ++ body) direction = Ok payload ∧
  decrypt u (encrypt u payload direction marker randomKey) direction = Ok payload.
Proof.
  intros Hst Hm Hne Hrk Hb Hpad Hp.
  assert (∀ env, openEnvelope (NewBufferFromBytes env) = (mkBuffer env (length env), Ok payload) →
    decrypt u (le_split 1 marker ++ le_split 2 randomKey ++ (RC4Crypt env (rc4Key u direction randomKey)).2)
      direction = Ok payload) as Hdec.
  { intros env Henv. unfold decrypt. rewrite Hst. cbn [Z.eqb negb].
    set (enc := (RC4Crypt env _).2).
    assert (GetUInt8 (NewBufferFromBytes (le_split 1 marker ++ le_split 2 randomKey ++ enc)) =
      (mkBuffer (le_split 1 marker ++ le_split 2 randomKey ++ enc) 1, Ok marker)) as ->
      by (apply (reads_le 1 marker Hm [])).
    apply Z.eqb_neq in Hne. rewrite Hne.
    pose proof (reads_le 2 randomKey Hrk (le_split 1 marker) enc) as HR.
    change (require 2 ≫= _) with GetUInt16LE in HR. rewrite length_le_split in HR. rewrite HR.
    pose proof (reads_GetRest (le_split 1 marker ++ le_split 2 randomKey) enc) as HG.
    rewrite <- app_assoc, length_app, !length_le_split in HG. rewrite length_le_split, HG.
    unfold enc. rewrite RC4Crypt_involutive. by rewrite Henv. }
  destruct (RC4Crypt (envelope padByte pad payload) (rc4Key u direction randomKey)) as [k body] eqn:E.
  split.
  - replace body with (RC4Crypt (envelope padByte pad payload) (rc4Key u direction randomKey)).2 by by rewrite E.
    by apply Hdec, openEnvelope_spec.
  - unfold encrypt. rewrite Hst. cbn [Z.eqb negb].
    specialize (Hdec (envelope 0 [] payload)).
    destruct (RC4Crypt (le_split 4 _ ++ _) _) as [k' body'] eqn:E'.
    replace body' with (RC4Crypt (envelope 0 [] payload) (rc4Key u direction randomKey)).2
      by (unfold envelope; cbn [app]; by rewrite E').
    by apply Hdec, openEnvelope_spec.
Qed.

Lemma udp_roundtrip_witness :
  let u := NewUDPCrypt true 0xdeadbeef in
  let payload := [PrED2K; 0x96; 1; 2; 3; 4] in
  decrypt u (encrypt u payload MagicValueUDPClientServer 0x77 0x1234) MagicValueUDPClientServer = Ok payload.
Proof.
  pose proof (udp_roundtrip (NewUDPCrypt true 0xdeadbeef) MagicValueUDPClientServer 0x77 0x1234 0xf3 [9; 9; 9]
    [PrED2K; 0x96; 1; 2; 3; 4] eq_refl ltac:(done) ltac:(done) ltac:(done) ltac:(done) eq_refl ltac:(done)) as H.
  destruct (RC4Crypt _ _). exact (proj2 H).
Defined.

(** *** Decrypting anything *)

Lemma wf_NewBufferFromBytes bs : wf_bytes bs → wf_buf (NewBufferFromBytes bs).
Proof. intros Hw. split; [simpl; lia|done]. Qed.

Lemma decodes_GetRest : decodes wf_bytes GetRest.
Proof.
  intros b [Hp Hw]. unfold GetRest, slice_from. int_test.
  split; [solve_advances|by apply Forall_drop].
Qed.

Lemma decodes_openEnvelope : decodes wf_bytes openEnvelope.
Proof.
  unfold openEnvelope. eapply decodes_bind; [apply decodes_GetUInt32LE|]. intros sync _.
  apply decodes_if; intros _; [apply decodes_fail|].
  eapply decodes_bind; [apply decodes_GetUInt8|]. intros p _.
  eapply decodes_bind; [apply decodes_Remaining|]. intros r _.
  apply decodes_if; intros _; [apply decodes_fail|].
  eapply decodes_bind; [apply decodes_Get|].
  { apply Z.land_nonneg. by right. }
  intros s _. apply decodes_GetRest.
Qed.

(** Opening a datagram is total and harmless. Whatever bytes arrive, decryption does
    not panic and returns bytes; what is not obfuscated (a
    server without obfuscation, or a first byte that is the plaintext protocol byte) is
    returned unchanged. *)
Lemma udp_decrypt_total u buffer direction : wf_bytes buffer →
  ∃ out, decrypt u buffer direction = Ok out ∧ wf_bytes out ∧
    (uc_Status u ≠ CsEncrypting ∨ head buffer = Some PrED2K → out = buffer).
Proof.
  intros Hw. unfold decrypt. destruct (Z.eqb_spec (uc_Status u) CsEncrypting) as [Hst|]; cbn [negb];
    [|by exists buffer].
  pose proof (decodes_GetUInt8 (NewBufferFromBytes buffer) (wf_NewBufferFromBytes _ Hw)) as H1.
  destruct (GetUInt8 _) as [b1 [proto|e|]] eqn:E1; [|by exists buffer|done].
  destruct H1 as [Ha1 _]. pose proof (advances_wf _ _ (wf_NewBufferFromBytes _ Hw) Ha1) as Hb1.
  destruct (Z.eqb_spec proto PrED2K) as [|Hp]; [by exists buffer|].
  pose proof (decodes_GetUInt16LE b1 Hb1) as H2.
  destruct (GetUInt16LE b1) as [b2 [ck|e|]]; [|by exists buffer|done]. destruct H2 as [Ha2 _].
  pose proof (decodes_GetRest b2 (advances_wf _ _ Hb1 Ha2)) as H3.
  destruct (GetRest b2) as [b3 [data|e|]]; [|by exists buffer|done]. destruct H3 as [_ Hdata].
  pose proof (RC4Crypt_wf data (rc4Key u direction ck) (RC4CreateKey_wf _ _) Hdata) as [_ Hdec].
  destruct (RC4Crypt data _) as [k dec]. simpl in Hdec.
  pose proof (decodes_openEnvelope (NewBufferFromBytes dec) (wf_NewBufferFromBytes _ Hdec)) as H4.
  destruct (openEnvelope _) as [b4 [out|e|]]; [|by exists buffer|done]. destruct H4 as [_ Hout].
  exists out. split; [done|]. split; [done|]. intros [|Hh]; [done|].
  destruct buffer as [|c buffer]; [done|]. simpl in Hh. injection Hh as ->.
  exfalso. apply Hp. vm_compute in E1. by injection E1.
Qed.

(** *** The key handed to a client *)

(** The key derived for a client is a nonzero 32-bit value (zero would tell an eMule
    client that there is no key), and it depends only on the address: an IPv4 address in its
    4-byte form and in its IPv6-mapped 16-byte form give the same key. *)
Lemma deriveUDPKey_stable secret ip :
  0 < deriveUDPKey secret ip < 2 ^ 32 ∧
  (length ip = 4%nat → deriveUDPKey secret (v4InV6Prefix ++ ip) = deriveUDPKey secret ip).
Proof.
  split.
  - unfold deriveUDPKey. assert (length (MD5 (secret ++ match To4 ip with Some v4 => v4 | None => ip end)) = 16%nat) as Hd
      by apply length_MD5. set (d := MD5 _) in *.
    pose proof (le_combine_bound (take 4 d) (Forall_take _ _ _ (wf_MD5 _))) as Hb.
    rewrite length_take in Hb. rewrite Hd in Hb. change (8 * (4 `min` 16)%nat) with 32 in Hb.
    clearbody d. int_test; lia.
  - intros Hl. unfold deriveUDPKey, To4. rewrite (bool_decide_eq_true_2 _ Hl).
    rewrite bool_decide_eq_false_2 by (rewrite length_app, Hl; done).
    rewrite bool_decide_eq_true_2 by (by rewrite length_app, Hl, take_app_length').
    by change (drop 12 (v4InV6Prefix ++ ip)) with ip.
Qed.

