(* ===== verification/TCPCrypt.v ===== *)
(** * TCP obfuscation: [ed2k/tcpcrypt.go], and [handleBytes] of [ed2k/server_runtime.go]

    The Diffie-Hellman exchange a client opens with, the encrypted reply that completes it,
    and the session on top: what is received is decrypted and goes to the packet framing of
    [Framing]. What the code draws at random is an argument ([Draws]). *)

From Stdlib Require Import Zpow_facts.
From S2P Require Import Prelude Buffer Types Packet Framing Crypt UDPCrypt.
Local Open Scope Z_scope.

Definition MagicValueServer : Z := 203.
Definition MagicValueRequester : Z := 34.
Definition MagicValueSync : Z := 0x835E6FC4.
Definition PsCryptNegotiating : Z := 4.
Definition cryptRequestFixed : nat := 1 + CryptPrimeSize + 1.
Definition cryptHandshakeFixed : nat := 4 + 1 + 1.

(** [big.Int]: big-endian bytes, and [Exp] modulo a number. *)
Definition SetBytes (b : bytes) : Z := le_combine (rev b).
Definition Exp (x y m : Z) : Z := Zpow_mod x y m.

(** A number right-aligned in a zeroed array: the [copy] of its [Bytes]. *)
Definition alignRight (size : nat) (z : Z) : bytes := rev (le_split size z).

(** [RandBuf(CryptDhaSize)], then [RandBuf(Rand(16))]. *)
Record Draws := mkDraws { dr_b : result bytes; dr_pad : result bytes }.

Record TCPCrypt := mkTCPCrypt {
  t_state : Z;
  t_sendKey : option RC4Key;
  t_recvKey : option RC4Key;
  t_pending : bytes;
}.

Definition NewTCPCrypt (supportCrypt : bool) : TCPCrypt :=
  mkTCPCrypt (if supportCrypt then CsUnknown else CsNone) None None [].

(** [RC4Crypt] on a key that may be nil: nil gives nil. *)
Definition RC4CryptPtr (data : bytes) (key : option RC4Key) : option RC4Key * bytes :=
  match key with
  | Some k => let '(k, out) := RC4Crypt data k in (Some k, out)
  | None => (None, [])
  end.

(** The two keys of a shared secret: only the byte behind it differs. *)
Definition sharedKey (K magic : Z) : RC4Key :=
  RC4CreateKey (MD5 (alignRight CryptPrimeSize K ++ [magic])) true.

Definition syncBlock (pad : bytes) : bytes :=
  le_split 4 MagicValueSync ++ le_split 1 EmSupported ++ le_split 1 EmPreferred ++
  le_split 1 (length pad) ++ pad.

Definition negotiate (draws : Draws) (aBytes : bytes) (t : TCPCrypt) : TCPCrypt * result bytes :=
  let p := SetBytes CryptPrime in
  let A := SetBytes aBytes in
  match dr_b draws with
  | Err e => (t, Err e)
  | Panic => (t, Panic)
  | Ok bRaw =>
      let b := SetBytes bRaw in
      let B := Exp 2 b p in
      let K := Exp A b p in
      let t := { t with t_sendKey := Some (sharedKey K MagicValueServer);
                        t_recvKey := Some (sharedKey K MagicValueRequester) } in
      match dr_pad draws with
      | Err e => (t, Err e)
      | Panic => (t, Panic)
      | Ok pad =>
          let '(sendKey, enc) := RC4CryptPtr (syncBlock pad) (t_sendKey t) in
          ({ t with t_sendKey := sendKey }, Ok (alignRight CryptPrimeSize B ++ enc))
      end
  end.

(** [Some rest] is [done]. *)
Definition handshake (pending : bytes) : result (option bytes) :=
  if (length pending <? 4)%nat then Ok None
  else if negb (le_combine (take 4 pending) =? MagicValueSync) then
    Err (ErrNew "wrong MAGICVALUE_SYNC")
  else if (length pending <? cryptHandshakeFixed)%nat then Ok None
  else if negb (nth 4 pending 0 =? EmObfuscate) then
    Err (ErrNew "encryption method not supported")
  else
    let need := (cryptHandshakeFixed + Z.to_nat (nth (cryptHandshakeFixed - 1) pending 0%Z))%nat in
    if (length pending <? need)%nat then Ok None else Ok (Some (drop need pending)).

(** [ProcessData] on the unread bytes of its buffer. It writes the status of the session's
    packet too. *)
Definition ProcessData (draws : Draws) (data : bytes) (t : TCPCrypt) (p : Packet) :
    TCPCrypt * Packet * result bytes :=
  if t_state t =? CsNone then (t, p, Ok [])
  else if t_state t =? CsUnknown then
    let t := { t with t_pending := t_pending t ++ data } in
    let need := cryptRequestFixed in
    let need := if (need <=? length (t_pending t))%nat
                then (need + Z.to_nat (nth (need - 1) (t_pending t) 0%Z))%nat else need in
    if (length (t_pending t) <? need)%nat then (t, p, Ok [])
    else if (need <? length (t_pending t))%nat then
      (t, p, Err (ErrNew "data before the key exchange completed"))
    else
      match negotiate draws (take CryptPrimeSize (drop 1 (t_pending t))) t with
      | (t, Ok resp) =>
          ({ t with t_pending := []; t_state := CsNegotiating },
           { p with p_Status := PsCryptNegotiating }, Ok resp)
      | (t, r) => (t, p, r)
      end
  else if t_state t =? CsNegotiating then
    let '(recvKey, plain) := RC4CryptPtr data (t_recvKey t) in
    let t := { t with t_recvKey := recvKey; t_pending := t_pending t ++ plain } in
    match handshake (t_pending t) with
    | Err e => (t, p, Err e)
    | Panic => (t, p, Panic)
    | Ok None => (t, p, Ok [])
    | Ok (Some rest) =>
        ({ t with t_pending := []; t_state := CsEncrypting }, { p with p_Status := PsNew }, Ok rest)
    end
  else (t, p, Err (ErrNew "unexpected crypt status")).

Definition SendCipher (t : TCPCrypt) : option RC4Key * bool := (t_sendKey t, t_state t =? CsEncrypting).
Definition RecvCipher (t : TCPCrypt) : option RC4Key * bool := (t_recvKey t, t_state t =? CsEncrypting).

Definition TCPDecrypt (buffer : bytes) (t : TCPCrypt) : TCPCrypt * bytes :=
  let '(key, encrypting) := RecvCipher t in
  if encrypting then
    let '(key, out) := RC4CryptPtr buffer key in ({ t with t_recvKey := key }, out)
  else (t, buffer).

(** ** The session *)

Section Session.
Context `{ZL : Zlib} {App : Type}.
Context (handler : Z → bytes → Session App → Session App).

(** A session with its crypt state and the bytes written to the socket outside a handler. *)
Record conn := mkConn {
  cn_client : tcpClient App;
  cn_crypt : option TCPCrypt;
  cn_sent : bytes;
}.

(** [writeRaw], on a socket that takes the bytes. *)
Definition writeRaw (data : bytes) (cn : conn) : conn :=
  match cn_crypt cn with
  | Some t =>
      let '(key, encrypting) := SendCipher t in
      if encrypting then
        let '(key, data) := RC4CryptPtr data key in
        { cn with cn_crypt := Some { t with t_sendKey := key }; cn_sent := cn_sent cn ++ data }
      else { cn with cn_sent := cn_sent cn ++ data }
  | None => { cn with cn_sent := cn_sent cn ++ data }
  end.

(** [processPacketData] on the session of a connection. *)
Definition processConn (data : bytes) (cn : conn) : result conn :=
  match process handler data (cn_client cn) with
  | Ok c => Ok { cn with cn_client := c }
  | Err e => Err e
  | Panic => Panic
  end.

Definition plaintextFirst (data : bytes) (t : TCPCrypt) : bool :=
  (t_state t =? CsUnknown) &&
  match data with b :: _ => IsProtocol b | [] => false end && bool_decide (t_pending t = []).

Definition handshakeFailed (e : error) : String.string :=
  String.append "crypt-handshake-failed: " (error_text e).

Definition handleBytes (draws : Draws) (data : bytes) (cn : conn) : result conn :=
  match cn_crypt cn with
  | None => processConn data cn
  | Some t =>
      let state := t_state t in
      if (state =? CsUnknown) || (state =? CsNegotiating) then
        if plaintextFirst data t then
          processConn data { cn with cn_crypt := Some { t with t_state := CsNone } }
        else
          let c := cn_client cn in
          let '(t, p, r) := ProcessData draws data t (c_packet c) in
          let c := { c with c_packet := p } in
          let cn := { cn with cn_client := c; cn_crypt := Some t } in
          match r with
          | Err e =>
              Ok { cn with cn_client :=
                { c with c_session := closeWithReason (handshakeFailed e) (c_session c) } }
          | Panic => Panic
          | Ok rest =>
              if state =? CsUnknown then
                Ok (if bool_decide (rest = []) then cn else writeRaw rest cn)
              else if bool_decide (rest = []) then Ok cn
              else processConn rest cn
          end
      else if state =? CsEncrypting then
        let '(t, data) := TCPDecrypt data t in
        processConn data { cn with cn_crypt := Some t }
      else processConn data cn
  end.

(** [run]'s read loop with [handleBytes]. *)
Fixpoint runBytes (draws : Draws) (chunks : list bytes) (cn : conn) : result conn :=
  match chunks with
  | [] => Ok cn
  | chunk :: chunks =>
      let c := cn_client cn in
      if ss_closed (c_session c) then Ok cn
      else if bool_decide (chunk = []) then
        Ok { cn with cn_client := { c with c_session := closeWithReason "read-zero"%string (c_session c) } }
      else match handleBytes draws chunk cn with Ok cn' => runBytes draws chunks cn' | r => r end
  end.

End Session.

Arguments conn : clear implicits.

(** ** The other end

    What an eMule client does: it opens with its public key, takes the shared secret from the
    server's key, and answers under its own send key. *)

Definition dhPrime : Z := SetBytes CryptPrime.

Definition clientRequest (marker a : Z) (pad : bytes) : bytes :=
  marker :: alignRight CryptPrimeSize (Exp 2 a dhPrime) ++ Z.of_nat (length pad) :: pad.

Definition clientSecret (a : Z) (answer : bytes) : Z :=
  Exp (SetBytes (take CryptPrimeSize answer)) a dhPrime.

Definition clientReply (pad : bytes) : bytes :=
  le_split 4 MagicValueSync ++ EmObfuscate :: Z.of_nat (length pad) :: pad.

(** What the server answers, and the secret it derives, for a private exponent [b]. *)
Definition serverAnswer (a b : Z) (pad : bytes) : bytes :=
  let K := Exp (Exp 2 a dhPrime) b dhPrime in
  alignRight CryptPrimeSize (Exp 2 b dhPrime) ++ (RC4Crypt (syncBlock pad) (sharedKey K MagicValueServer)).2.

Lemma dhPrime_pos : 0 < dhPrime < 2 ^ (8 * CryptPrimeSize).
Proof. by_decision. Qed.

Lemma Exp_correct x y : Exp x y dhPrime = x ^ y mod dhPrime.
Proof. apply Zpow_mod_correct. pose proof dhPrime_pos. lia. Qed.

Lemma Exp_fits x y : fits (8 * CryptPrimeSize) (Exp x y dhPrime).
Proof.
  rewrite Exp_correct. pose proof dhPrime_pos.
  pose proof (Z.mod_pos_bound (x ^ y) dhPrime ltac:(lia)). unfold fits. lia.
Qed.

(** The two ends raise to both exponents, in either order. *)
Lemma Exp_comm a b : 0 <= a → 0 <= b →
  Exp (Exp 2 a dhPrime) b dhPrime = Exp (Exp 2 b dhPrime) a dhPrime.
Proof.
  intros Ha Hb. rewrite !Exp_correct. pose proof dhPrime_pos.
  rewrite <- !Zpower_mod by lia. rewrite <- !Z.pow_mul_r by done. by rewrite Z.mul_comm.
Qed.

Lemma length_alignRight n z : length (alignRight n z) = n.
Proof. unfold alignRight. by rewrite length_rev, length_le_split. Qed.

Lemma SetBytes_alignRight (n : nat) z : fits (8 * n) z → SetBytes (alignRight n z) = z.
Proof. intros Hz. unfold SetBytes, alignRight. rewrite rev_involutive. by apply le_combine_split. Qed.

Lemma SetBytes_nonneg b : wf_bytes b → 0 <= SetBytes b.
Proof.
  intros Hb. unfold SetBytes. apply (le_combine_bound (rev b)). by apply Forall_rev.
Qed.

Lemma sharedKey_wf K magic : wf_key (sharedKey K magic).
Proof. apply RC4CreateKey_wf. Qed.

#[global] Opaque alignRight Exp sharedKey dhPrime.

(** The decision once the six fixed bytes are in, under the right magic. *)
Lemma handshake_fixed len tl : 0 <= len →
  handshake (0xC4 :: 0x6F :: 0x5E :: 0x83 :: EmObfuscate :: len :: tl) =
    Ok (if (length tl <? Z.to_nat len)%nat then None else Some (drop (Z.to_nat len) tl)).
Proof.
  intros Hl. change (handshake _) with
    (if (length tl <? Z.to_nat len)%nat then Ok (A := option bytes) None
     else Ok (Some (drop (Z.to_nat len) tl))).
  by int_test.
Qed.

Lemma clientReply_eq pad :
  clientReply pad = 0xC4 :: 0x6F :: 0x5E :: 0x83 :: EmObfuscate :: Z.of_nat (length pad) :: pad.
Proof. done. Qed.

(** Nothing is decided before the reply and its padding are in. *)
Lemma handshake_partial pad n :
  (n < length (clientReply pad))%nat → handshake (take n (clientReply pad)) = Ok None.
Proof.
  rewrite clientReply_eq. cbn [length]. intros Hn.
  do 6 (destruct n as [|n]; [reflexivity|]). cbn [take]. rewrite handshake_fixed by lia.
  rewrite Nat2Z.id, length_take_le by lia. by int_test.
Qed.

Lemma handshake_complete pad rest : handshake (clientReply pad ++ rest) = Ok (Some rest).
Proof.
  rewrite clientReply_eq. cbn [app]. rewrite handshake_fixed by lia.
  rewrite Nat2Z.id, length_app. int_test. by rewrite drop_app_length.
Qed.

(** The server's crypt state once it has answered. *)
Definition negotiated (a b : Z) (pad : bytes) : TCPCrypt :=
  let K := Exp (Exp 2 a dhPrime) b dhPrime in
  mkTCPCrypt CsNegotiating (Some (RC4Crypt (syncBlock pad) (sharedKey K MagicValueServer)).1)
    (Some (sharedKey K MagicValueRequester)) [].

Lemma length_clientRequest marker a pad :
  length (clientRequest marker a pad) = (cryptRequestFixed + length pad)%nat.
Proof.
  unfold clientRequest. cbn [length]. rewrite length_app, length_alignRight. cbn [length].
  unfold cryptRequestFixed. lia.
Qed.

(** The padding length sits right behind the public key. *)
Lemma clientRequest_padLength marker a pad n :
  (cryptRequestFixed <= n)%nat → nth (cryptRequestFixed - 1) (take n (clientRequest marker a pad)) 0 = length pad.
Proof.
  intros Hn. unfold cryptRequestFixed in *.
  destruct n as [|n]; [lia|]. unfold clientRequest. cbn [take].
  change (1 + CryptPrimeSize + 1 - 1)%nat with (S CryptPrimeSize). cbn [nth].
  rewrite take_app_ge, length_alignRight by (rewrite length_alignRight; lia).
  rewrite app_nth2, length_alignRight, Nat.sub_diag by (rewrite length_alignRight; lia).
  by destruct (n - CryptPrimeSize)%nat eqn:E; [lia|].
Qed.

Lemma ProcessData_request_partial draws marker a pad n pre data p :
  (n < length (clientRequest marker a pad))%nat →
  pre ++ data = take n (clientRequest marker a pad) →
  ProcessData draws data (mkTCPCrypt CsUnknown None None pre) p =
    (mkTCPCrypt CsUnknown None None (pre ++ data), p, Ok []).
Proof.
  intros Hn E. unfold ProcessData. cbn -[cryptRequestFixed nth Nat.leb Nat.ltb]. rewrite E.
  rewrite length_take_le by lia. rewrite length_clientRequest in Hn.
  destruct (Nat.leb_spec cryptRequestFixed n) as [Hf|].
  - rewrite clientRequest_padLength, Nat2Z.id by done. by int_test.
  - by int_test.
Qed.

Lemma ProcessData_request draws marker a pad bRaw spad pre data p :
  0 <= a → dr_b draws = Ok bRaw → dr_pad draws = Ok spad →
  pre ++ data = clientRequest marker a pad →
  ProcessData draws data (mkTCPCrypt CsUnknown None None pre) p =
    (negotiated a (SetBytes bRaw) spad, { p with p_Status := PsCryptNegotiating },
     Ok (serverAnswer a (SetBytes bRaw) spad)).
Proof.
  intros Ha Eb Ep E. unfold ProcessData. cbn -[cryptRequestFixed nth Nat.leb Nat.ltb negotiate take drop]. rewrite E.
  rewrite length_clientRequest.
  pose proof (clientRequest_padLength marker a pad (length (clientRequest marker a pad))) as Hpad.
  rewrite take_ge, length_clientRequest in Hpad by done. rewrite Hpad, Nat2Z.id by lia.
  rewrite (proj2 (Nat.leb_le cryptRequestFixed (cryptRequestFixed + length pad)) ltac:(lia)), Nat.ltb_irrefl.
  unfold negotiate. rewrite Eb, Ep. unfold clientRequest. cbn [drop].
  rewrite drop_0, take_app_exact by (by rewrite length_alignRight).
  rewrite SetBytes_alignRight by apply Exp_fits. change (SetBytes CryptPrime) with dhPrime.
  cbn -[RC4Crypt syncBlock]. unfold negotiated, serverAnswer.
  by destruct (RC4Crypt _ _).
Qed.

(** Both ends hold the same secret. *)
Lemma clientSecret_agrees a b pad : 0 <= a → 0 <= b →
  clientSecret a (serverAnswer a b pad) = Exp (Exp 2 a dhPrime) b dhPrime.
Proof.
  intros Ha Hb. unfold clientSecret, serverAnswer.
  rewrite take_app_exact by (by rewrite length_alignRight).
  rewrite SetBytes_alignRight by apply Exp_fits. symmetry. by apply Exp_comm.
Qed.

Lemma serverAnswer_nonempty a b pad : serverAnswer a b pad ≠ [].
Proof.
  intros E%(f_equal length). unfold serverAnswer in E. rewrite length_app, length_alignRight in E.
  discriminate E.
Qed.

(** A prefix of a list that has got too long for one piece of it. *)
Lemma app_cut {A} (l1 l2 r1 r2 : list A) :
  l1 ++ l2 = r1 ++ r2 → (length r1 <= length l1)%nat → ∃ m, l1 = r1 ++ m ∧ m ++ l2 = r2.
Proof.
  intros E Hl. destruct (app_eq_app _ _ _ _ E) as [m [[-> ->]|[-> ->]]]; [by exists m|].
  rewrite length_app in Hl. destruct m; [|simpl in Hl; lia].
  exists []. by rewrite !app_nil_r.
Qed.

Lemma app_prefix {A} (l1 l2 r1 r2 : list A) :
  l1 ++ l2 = r1 ++ r2 → (length l1 < length r1)%nat → l1 = take (length l1) r1.
Proof.
  intros E Hl. pose proof (f_equal (take (length l1)) E) as E1.
  by rewrite take_app_length, take_app_le in E1 by lia.
Qed.

Section SessionTheory.
Context `{ZL : Zlib} {App : Type}.
Context (handler : Z → bytes → Session App → Session App).
Context (draws : Draws).
Implicit Types (cn : conn App) (c : tcpClient App).

#[local] Arguments process : simpl never.
#[local] Arguments RC4Crypt : simpl never.

Abbreviation nonempty_chunks := (Forall (λ chunk : bytes, chunk ≠ [])).

Lemma cryptPieces_nonempty chunks k : nonempty_chunks chunks → nonempty_chunks (cryptPieces chunks k).2.
Proof.
  intros Hc. revert k. induction Hc as [|chunk chunks Hne _ IH]; intros k; [constructor|].
  cbn [cryptPieces]. pose proof (length_RC4Crypt chunk k) as Hl.
  destruct (RC4Crypt chunk k) as [k1 o]. specialize (IH k1).
  destruct (cryptPieces chunks k1) as [k2 os]. constructor; [|done].
  intros ->. by destruct chunk.
Qed.

(** Past the handshake, a session runs on the decrypted chunks. *)
Lemma runBytes_encrypting chunks cn sk k pend c' :
  cn_crypt cn = Some (mkTCPCrypt CsEncrypting sk (Some k) pend) → nonempty_chunks chunks →
  run handler (cryptPieces chunks k).2 (cn_client cn) = Ok c' →
  ∃ cn', runBytes handler draws chunks cn = Ok cn' ∧ cn_client cn' = c' ∧ cn_sent cn' = cn_sent cn.
Proof.
  intros Ht Hc. revert cn k Ht. induction Hc as [|chunk chunks Hne Hc IH]; intros [c cr sent] k Ht HR.
  { injection HR as <-. by eexists. }
  pose proof (cryptPieces_nonempty (chunk :: chunks) k ltac:(by constructor)) as Hpne.
  cbn in Ht, HR |- *. cbn in Hpne. subst cr.
  destruct (RC4Crypt chunk k) as [k1 o] eqn:Eo.
  destruct (cryptPieces chunks k1) as [k2 os] eqn:Eos. cbn [run snd] in *.
  destruct (ss_closed _) eqn:Hcl; [injection HR as <-; by eexists|].
  apply Forall_cons in Hpne as [Hone _].
  rewrite bool_decide_false by done. rewrite bool_decide_false in HR by done.
  unfold handleBytes. cbn. rewrite Eo. cbn. unfold processConn. cbn.
  destruct (process handler o c) as [c1|e|]; [|done..].
  apply (IH (mkConn c1 (Some (mkTCPCrypt CsEncrypting sk (Some k1) pend)) sent) k1 eq_refl). by rewrite Eos.
Qed.

(** During the reply, nothing reaches the framing; what follows the reply does. *)
Lemma runBytes_reply pad text chunks n c sk k sent :
  (n < length (clientReply pad))%nat → nonempty_chunks chunks →
  ss_closed (c_session c) = false →
  take n (clientReply pad) ++ (RC4Crypt (concat chunks) k).2 = clientReply pad ++ text →
  let cn := mkConn c (Some (mkTCPCrypt CsNegotiating sk (Some k) (take n (clientReply pad)))) sent in
  let c0 := { c with c_packet := { c_packet c with p_Status := PsNew } } in
  ∃ pieces, concat pieces = text ∧ nonempty_chunks pieces ∧
    ∀ c', run handler pieces c0 = Ok c' →
      ∃ cn', runBytes handler draws chunks cn = Ok cn' ∧ cn_client cn' = c' ∧ cn_sent cn' = sent.
Proof.
  destruct c as [[] hb s]. cbn -[clientReply]. intros Hn Hc Hcl. revert n k Hn.
  induction Hc as [|chunk chunks Hne Hc IH]; intros n k Hn E.
  { exfalso. apply (f_equal length) in E. change (RC4Crypt (concat []) k) with (k, @nil Z) in E.
    rewrite !length_app, length_take in E. cbn [snd length] in E. lia. }
  cbn [concat] in E. rewrite RC4Crypt_app in E.
  destruct (RC4Crypt chunk k) as [k1 o] eqn:Eo. destruct (RC4Crypt (concat chunks) k1) as [k2 os] eqn:Eos.
  cbn [snd] in E. rewrite app_assoc in E. cbn -[clientReply handleBytes]. rewrite Hcl.
  rewrite bool_decide_false by done. unfold handleBytes. cbn -[clientReply]. unfold ProcessData.
  cbn -[clientReply handshake]. rewrite Eo. cbn -[clientReply handshake].
  destruct (le_lt_dec (length (clientReply pad)) (length (take n (clientReply pad) ++ o))) as [Hge|Hlt].
  - destruct (app_cut _ _ _ _ E Hge) as (rest&->&Hrest). rewrite handshake_complete.
    cbn -[clientReply]. pose proof (cryptPieces_concat chunks k1) as HP. rewrite Eos in HP.
    apply (f_equal snd) in HP. cbn [snd] in HP.
    case_bool_decide as Hr.
    + subst rest. exists (cryptPieces chunks k1).2. split; [by rewrite <- HP|].
      split; [by apply cryptPieces_nonempty|]. intros c' HR.
      by eapply runBytes_encrypting.
    + exists (rest :: (cryptPieces chunks k1).2). split; [cbn [concat]; by rewrite <- HP|].
      split; [constructor; [done|by apply cryptPieces_nonempty]|]. intros c' HR.
      cbn in HR. rewrite Hcl, bool_decide_false in HR by done.
      unfold processConn. cbn. destruct (process handler rest _) as [c1|e|]; [|done..].
      by eapply (runBytes_encrypting chunks (mkConn c1 _ sent)).
  - rewrite (app_prefix _ _ _ _ E Hlt), handshake_partial by done. cbn -[clientReply].
    rewrite (app_prefix _ _ _ _ E Hlt) in E.
    pose proof (IH _ k1 Hlt) as IH'. rewrite Eos in IH'. specialize (IH' E) as (pieces&?&?&HR).
    exists pieces. split; [done|]. split; [done|]. exact HR.
Qed.

(** The opening exchange, in any chunks: the server answers once, when it is complete. *)
Lemma runBytes_request marker a pad bRaw spad chunks more n c sent :
  0 <= a → dr_b draws = Ok bRaw → dr_pad draws = Ok spad → IsProtocol marker = false →
  (n < length (clientRequest marker a pad))%nat → nonempty_chunks chunks →
  ss_closed (c_session c) = false →
  take n (clientRequest marker a pad) ++ concat chunks = clientRequest marker a pad →
  runBytes handler draws (chunks ++ more)
    (mkConn c (Some (mkTCPCrypt CsUnknown None None (take n (clientRequest marker a pad)))) sent) =
  runBytes handler draws more
    (mkConn { c with c_packet := { c_packet c with p_Status := PsCryptNegotiating } }
       (Some (negotiated a (SetBytes bRaw) spad)) (sent ++ serverAnswer a (SetBytes bRaw) spad)).
Proof.
  intros Ha Eb Ep Hm Hn Hc Hcl. revert n Hn. induction Hc as [|chunk chunks Hne Hc IH]; intros n Hn E.
  { exfalso. apply (f_equal length) in E. rewrite length_app, length_take in E. cbn [concat length] in E. lia. }
  cbn [concat app runBytes cn_client] in *. rewrite Hcl, bool_decide_false by done.
  unfold handleBytes. cbn [cn_crypt cn_client t_state].
  change (CsUnknown =? CsUnknown) with true. cbn [orb].
  assert (plaintextFirst chunk (mkTCPCrypt CsUnknown None None (take n (clientRequest marker a pad))) = false) as ->.
  { unfold plaintextFirst. cbn [t_state t_pending].
    destruct n as [|n]; [|by rewrite bool_decide_false, andb_false_r].
    cbn [take app] in E. destruct chunk as [|b chunk]; [done|]. injection E as -> _. by rewrite Hm. }
  rewrite app_assoc in E.
  destruct (le_lt_dec (length (clientRequest marker a pad))
    (length (take n (clientRequest marker a pad) ++ chunk))) as [Hge|Hlt].
  - assert (take n (clientRequest marker a pad) ++ chunk = clientRequest marker a pad ∧ concat chunks = [])
      as [E1 E2].
    { rewrite <- (app_nil_r (clientRequest marker a pad)) in E at 2.
      destruct (app_cut _ _ _ _ E Hge) as (m&Em&[-> ->]%app_eq_nil). by rewrite app_nil_r in Em. }
    assert (chunks = []) as -> by (destruct Hc as [|? ? ?]; [done|by apply app_eq_nil in E2 as [? _]]).
    rewrite (ProcessData_request _ _ _ _ _ _ _ _ _ Ha Eb Ep E1).
    rewrite bool_decide_false by apply serverAnswer_nonempty. destruct c as [[] ? ?]. done.
  - pose proof E as E'. rewrite <- (app_nil_r (clientRequest marker a pad)) in E' at 2.
    pose proof (app_prefix _ _ _ _ E' Hlt) as Epre.
    rewrite (ProcessData_request_partial _ _ _ _ _ _ _ _ Hlt Epre).
    rewrite bool_decide_true by done. rewrite <- (IH _ Hlt) by (by rewrite <- Epre).
    rewrite <- Epre. destruct c as [[] ? ?]. done.
Qed.

Context `{ZLaws : !ZlibLaws} `{HOk : !HandlerOk handler}.

(** C17: an obfuscated session is the plaintext session. A client opens with its public key
    and padding, takes the shared secret from the server's answer, and sends its reply and
    then [text], all encrypted under the key it derived. However TCP cuts the opening and
    the stream behind it, the server answers the key exchange once, does not panic, and its
    session ends where reading [text] in the clear ends (closed exactly when that closes,
    otherwise in the same state with the same bytes pending). *)
Theorem obfuscated_session c marker a pad bRaw spad rpad text opening stream :
  wf_client c → p_Status (c_packet c) = PsNew → gate_ok (c_session c) →
  ss_closed (c_session c) = false → IsProtocol marker = false →
  0 <= a → dr_b draws = Ok bRaw → wf_bytes bRaw → dr_pad draws = Ok spad → wf_bytes text →
  nonempty_chunks opening → nonempty_chunks stream →
  let answer := serverAnswer a (SetBytes bRaw) spad in
  concat opening = clientRequest marker a pad →
  concat stream =
    (RC4Crypt (clientReply rpad ++ text) (sharedKey (clientSecret a answer) MagicValueRequester)).2 →
  ∃ cn, runBytes handler draws (opening ++ stream) (mkConn c (Some (NewTCPCrypt true)) []) = Ok cn ∧
    cn_sent cn = answer ∧
    let whole := deliverAll handler (pending c ++ text) (c_session c) in
    let c' := cn_client cn in
    ss_closed (c_session c') = ss_closed whole.2 ∧
    (ss_closed whole.2 = false → whole = (pending c', c_session c')).
Proof.
  intros Hwf Hst Hg Hcl Hm Ha Eb Hb Ep Ht Ho Hs answer Eo Es.
  assert (NewTCPCrypt true = mkTCPCrypt CsUnknown None None (take 0 (clientRequest marker a pad))) as ->
    by (by rewrite take_0).
  rewrite (runBytes_request marker a pad bRaw spad opening stream 0 c [] Ha Eb Ep Hm)
    by (first [ assumption | rewrite length_clientRequest; unfold cryptRequestFixed; lia
              | rewrite take_0; exact Eo ]).
  pose proof (SetBytes_nonneg _ Hb) as HB.
  unfold answer in Es. rewrite clientSecret_agrees in Es by done. unfold negotiated.
  set (key := sharedKey _ MagicValueRequester) in *.
  destruct (runBytes_reply rpad text stream 0 { c with c_packet := { c_packet c with p_Status := PsCryptNegotiating } }
    (Some (RC4Crypt (syncBlock spad) (sharedKey (Exp (Exp 2 a dhPrime) (SetBytes bRaw) dhPrime) MagicValueServer)).1)
    key ([] ++ answer)) as (pieces&Ep'&Hne&HR).
  { rewrite clientReply_eq. simpl. lia. }
  { done. }
  { by destruct c. }
  { by rewrite Es, RC4Crypt_involutive. }
  assert ({ { c with c_packet := { c_packet c with p_Status := PsCryptNegotiating } } with
    c_packet := { c_packet { c with c_packet := { c_packet c with p_Status := PsCryptNegotiating } }
                  with p_Status := PsNew } } = c) as Ec.
  { destruct c as [[] ? ?]. cbn in Hst. by rewrite Hst. }
  cbv zeta in HR. rewrite Ec, take_0, app_nil_l in HR. rewrite app_nil_l.
  assert (wf_chunks pieces) as Hwp.
  { subst text. clear -Hne Ht. induction pieces as [|p pieces IH]; [constructor|].
    apply Forall_cons in Hne as [? ?]. apply Forall_app in Ht as [? ?]. constructor; [done|]. by apply IH. }
  destruct (run_spec handler pieces c Hwf Hwp Hg) as (c'&HRun&_&Hcase).
  destruct (HR c' HRun) as (cn&HRB&<-&Hsent). exists cn. split; [exact HRB|]. split; [exact Hsent|].
  rewrite Ep' in Hcase. cbv zeta in *.
  destruct (ss_closed (c_session (cn_client cn))) eqn:Hcl'; rewrite Hcase; [done|]. by rewrite <- Hcl'.
Qed.

End SessionTheory.

(** ** Any bytes at all *)

Lemma nth_byte l i : wf_bytes l → is_byte (nth i l 0).
Proof.
  intros Hl. destruct (le_lt_dec (length l) i); [by rewrite nth_overflow|].
  rewrite Forall_forall in Hl. apply Hl, list_elem_of_In, nth_In. lia.
Qed.

(** The reply is decided, one way or the other, within 261 bytes. *)
Lemma handshake_bounded pend : wf_bytes pend →
  match handshake pend with
  | Ok None => (length pend < 261)%nat
  | Ok (Some rest) => wf_bytes rest
  | Err _ => True
  | Panic => False
  end.
Proof.
  intros Hw. unfold handshake.
  pose proof (nth_byte pend (cryptHandshakeFixed - 1) Hw) as Hn. unfold is_byte in Hn.
  repeat case_match; subst; try done; repeat match goal with
    | H : (_ <? _)%nat = true |- _ => apply Nat.ltb_lt in H
    end; unfold cryptHandshakeFixed in *; simplify_eq; try lia.
  by apply Forall_drop.
Qed.

(** One more piece of the opening: it is short, or the exchange is over. *)
Lemma ProcessData_unknown draws data pre p :
  wf_bytes (pre ++ data) → dr_b draws ≠ Panic → dr_pad draws ≠ Panic →
  match ProcessData draws data (mkTCPCrypt CsUnknown None None pre) p with
  | (t, p', Ok []) => t = mkTCPCrypt CsUnknown None None (pre ++ data) ∧ p' = p ∧ (length (pre ++ data) < 353)%nat
  | (t, p', Ok _) => p' = { p with p_Status := PsCryptNegotiating } ∧
      ∃ sk k, t = mkTCPCrypt CsNegotiating sk (Some k) [] ∧ wf_key k
  | (_, _, Err _) => True
  | (_, _, Panic) => False
  end.
Proof.
  intros Hw Hb Hp. unfold ProcessData. cbn -[cryptRequestFixed nth Nat.leb Nat.ltb negotiate take drop].
  pose proof (nth_byte _ (cryptRequestFixed - 1) Hw) as Hn. unfold is_byte in Hn.
  set (len := nth _ _ _) in *. clearbody len.
  assert (∀ need, (need <= 353)%nat → (length (pre ++ data) <? need)%nat = true →
    (length (pre ++ data) < 353)%nat) as Hlt by (intros need Hneed H%Nat.ltb_lt; lia).
  destruct (_ <? _)%nat eqn:E.
  { split_and!; [done|done|]. eapply Hlt; [|done]. change cryptRequestFixed with 98%nat. destruct (98 <=? _)%nat; lia. }
  clear E. destruct (_ <? _)%nat; [done|]. unfold negotiate.
  destruct (dr_b draws) as [bRaw|e|]; [|exact I|by destruct (Hb eq_refl)].
  destruct (dr_pad draws) as [pad|e|]; [|exact I|by destruct (Hp eq_refl)].
  cbn -[syncBlock RC4Crypt app]. destruct (RC4Crypt _ _) as [sk enc].
  cbn -[app]. destruct (_ ++ enc) as [|x l] eqn:Ex.
  { apply (f_equal length) in Ex. rewrite length_app, length_alignRight in Ex. done. }
  split; [done|]. eexists _, _. split; [done|]. apply sharedKey_wf.
Qed.

Section SafetyTheory.
Context `{ZL : Zlib} {ZLaws : ZlibLaws} {App : Type}.
Context (handler : Z → bytes → Session App → Session App).
Context (draws : Draws).
Implicit Types (cn : conn App) (c : tcpClient App).

(** [RandBuf] gives bytes or an error. *)
Context (Hdraws : dr_b draws ≠ Panic ∧ dr_pad draws ≠ Panic).

#[local] Arguments process : simpl never.
#[local] Arguments RC4Crypt : simpl never.

(** The states of a connection between two reads, by the stage of its crypt. *)
Definition wf_conn cn : Prop :=
  let c := cn_client cn in
  match cn_crypt cn with
  | None => wf_client c
  | Some t =>
      (t_state t = CsNone ∧ wf_client c) ∨
      (∃ pend, t = mkTCPCrypt CsUnknown None None pend ∧ wf_bytes pend ∧ (length pend < 353)%nat ∧
         wf_client c ∧ p_Status (c_packet c) = PsNew) ∨
      (∃ sk k pend, t = mkTCPCrypt CsNegotiating sk (Some k) pend ∧ wf_key k ∧ wf_bytes pend ∧
         (length pend < 261)%nat ∧ wf_client { c with c_packet := { c_packet c with p_Status := PsNew } }) ∨
      (∃ sk k, t = mkTCPCrypt CsEncrypting sk (Some k) [] ∧ wf_key k ∧ wf_client c)
  end.

Abbreviation settled cn := (ss_closed (c_session (cn_client cn)) = true ∨ wf_conn cn).

Lemma processConn_ok data cn : wf_client (cn_client cn) → wf_bytes data →
  ∃ c', processConn handler data cn = Ok (mkConn c' (cn_crypt cn) (cn_sent cn)) ∧ wf_client c'.
Proof.
  intros Hc Hd. destruct (processPacketData_spec handler (S (length data + length (c_headerBuf (cn_client cn))))
    data (cn_client cn) Hc Hd ltac:(lia)) as (c'&HP&Hc'&_).
  exists c'. unfold processConn, process. rewrite HP. by destruct cn.
Qed.

Lemma handleBytes_unknown data cn pend :
  cn_crypt cn = Some (mkTCPCrypt CsUnknown None None pend) → wf_bytes pend → wf_bytes data →
  wf_client (cn_client cn) → p_Status (c_packet (cn_client cn)) = PsNew →
  ∃ cn', handleBytes handler draws data cn = Ok cn' ∧ settled cn'.
Proof.
  destruct cn as [c cr sent]. cbn. intros -> Hp Hd Hc Hst. unfold handleBytes. cbn -[ProcessData plaintextFirst].
  destruct (plaintextFirst _ _).
  { destruct (processConn_ok data (mkConn c (Some (mkTCPCrypt CsNone None None pend)) sent) Hc Hd) as (c'&->&Hc').
    eexists. split; [done|]. right. by left. }
  pose proof (ProcessData_unknown draws data pend (c_packet c) ltac:(by apply Forall_app)
    (proj1 Hdraws) (proj2 Hdraws)) as H.
  destruct (ProcessData _ _ _ _) as [[t p] [[|x rest]|e|]]; [| |eexists; split; [done|by left]|done].
  - destruct H as (->&->&Hl). eexists. split; [done|]. right. right. left. exists (pend ++ data).
    split; [done|]. split; [by apply Forall_app|]. split; [done|]. by destruct c.
  - destruct H as (->&sk&k&->&Hk). eexists. split; [done|]. right. right. right. left.
    exists sk, k, []. split; [done|]. split; [done|]. split; [constructor|]. split; [simpl; lia|].
    destruct c as [[] ? ?]. cbn in Hst |- *. by rewrite <- Hst.
Qed.

Lemma handleBytes_negotiating data cn sk k pend :
  cn_crypt cn = Some (mkTCPCrypt CsNegotiating sk (Some k) pend) → wf_key k → wf_bytes pend → wf_bytes data →
  wf_client { cn_client cn with c_packet := { c_packet (cn_client cn) with p_Status := PsNew } } →
  ∃ cn', handleBytes handler draws data cn = Ok cn' ∧ settled cn'.
Proof.
  destruct cn as [c cr sent]. cbn [cn_crypt cn_client]. intros -> Hk Hp Hd Hc. unfold handleBytes, ProcessData.
  cbn -[handshake wf_client]. pose proof (RC4Crypt_wf data k Hk Hd) as [Hk' Ho].
  destruct (RC4Crypt data k) as [k' o]. cbn -[handshake wf_client] in *.
  pose proof (handshake_bounded (pend ++ o) ltac:(by apply Forall_app)) as H.
  destruct (handshake _) as [[rest|]|e|]; cbn -[wf_client];
    [| |eexists; split; [done|by left]|done].
  - case_bool_decide.
    + eexists. split; [done|]. right. right. right. right. exists sk, k'. split; [done|]. by destruct c as [[] ? ?].
    + destruct (processConn_ok rest (mkConn { c with c_packet := { c_packet c with p_Status := PsNew } }
        (Some (mkTCPCrypt CsEncrypting sk (Some k') [])) sent) Hc H) as (c'&E&Hc').
      eexists. split; [by destruct c as [[] ? ?]|]. right. right. right. right. by exists sk, k'.
  - eexists. split; [done|]. right. right. right. left. exists sk, k', (pend ++ o).
    split; [done|]. split; [done|]. split; [by apply Forall_app|]. split; [done|]. by destruct c as [[] ? ?].
Qed.

Lemma handleBytes_ok data cn : wf_conn cn → wf_bytes data →
  ∃ cn', handleBytes handler draws data cn = Ok cn' ∧ settled cn'.
Proof.
  intros Hcn Hd. unfold wf_conn in Hcn. destruct (cn_crypt cn) as [t|] eqn:Et.
  2: { destruct (processConn_ok data cn Hcn Hd) as (c'&E&Hc'). unfold handleBytes. rewrite Et, E.
       eexists. split; [done|]. right. unfold wf_conn. cbn [cn_crypt]. by rewrite Et. }
  destruct Hcn as [[Hst Hc]|[(pend&->&Hw&_&Hc&Hp)|[(sk&k&pend&->&Hk&Hw&_&Hc)|(sk&k&->&Hk&Hc)]]].
  - destruct (processConn_ok data cn Hc Hd) as (c'&E&Hc'). unfold handleBytes. rewrite Et, Hst. cbn.
    rewrite E. eexists. split; [done|]. right. unfold wf_conn. cbn [cn_crypt]. rewrite Et. by left.
  - by eapply handleBytes_unknown.
  - by eapply handleBytes_negotiating.
  - unfold handleBytes. rewrite Et. cbn. pose proof (RC4Crypt_wf data k Hk Hd) as [Hk' Ho].
    destruct (RC4Crypt data k) as [k' o]. cbn in *. destruct cn as [c cr sent]. cbn in *.
    destruct (processConn_ok o (mkConn c (Some (mkTCPCrypt CsEncrypting sk (Some k') [])) sent) Hc Ho)
      as (c'&E&Hc').
    rewrite E. eexists. split; [done|]. do 4 right. by exists sk, k'.
Qed.

(** C29: the obfuscation layer is safe against any peer. Whatever bytes arrive in whatever
    chunks, and whether the random source works or fails, a connection never panics: it is
    closed, or it is again between two reads in a known stage, where an unfinished key
    exchange holds fewer than 353 bytes, an unfinished reply fewer than 261, and the packet
    framing is well formed. *)
Theorem runBytes_safe chunks cn :
  wf_conn cn → wf_chunks chunks →
  ∃ cn', runBytes handler draws chunks cn = Ok cn' ∧
    (ss_closed (c_session (cn_client cn')) = true ∨ wf_conn cn').
Proof.
  intros Hcn Hch. revert cn Hcn. induction Hch as [|chunk chunks [Hne Hw] _ IH]; intros cn Hcn.
  { exists cn. split; [done|by right]. }
  cbn [runBytes]. destruct (ss_closed _) eqn:Hcl; [by exists cn; split; [|left]|].
  rewrite bool_decide_false by done.
  destruct (handleBytes_ok chunk cn Hcn Hw) as (cn1&->&[Hcl1|Hcn1]); [|by apply IH].
  exists cn1. split; [|by left]. destruct chunks; cbn [runBytes]; [done|]. by rewrite Hcl1.
Qed.

(** A plaintext client is served on the obfuscated port. When the first byte received
    is a protocol byte, the connection leaves the crypt out and its session is exactly the
    one of a port without obfuscation. *)
Lemma plaintext_on_obfuscated_port b chunk chunks c :
  IsProtocol b = true →
  runBytes handler draws ((b :: chunk) :: chunks) (mkConn c (Some (NewTCPCrypt true)) []) =
    match run handler ((b :: chunk) :: chunks) c with
    | Ok c' => Ok (mkConn c' (Some (if ss_closed (c_session c) then NewTCPCrypt true else NewTCPCrypt false)) [])
    | Err e => Err e
    | Panic => Panic
    end.
Proof.
  intros Hb.
  assert (∀ chunks c, runBytes handler draws chunks (mkConn c (Some (NewTCPCrypt false)) []) =
    match run handler chunks c with
    | Ok c' => Ok (mkConn c' (Some (NewTCPCrypt false)) []) | Err e => Err e | Panic => Panic end) as Hrest.
  { clear. intros chunks. induction chunks as [|chunk chunks IH]; intros c; [done|]. cbn.
    destruct (ss_closed _); [done|]. case_bool_decide; [by destruct c as [[] ? []]|].
    unfold handleBytes, processConn. cbn. destruct (process handler chunk c); [apply IH|done..]. }
  cbn [runBytes run cn_client]. destruct (ss_closed _); [done|].
  rewrite !bool_decide_false by done. unfold handleBytes. cbn. unfold plaintextFirst. cbn. rewrite Hb. cbn.
  unfold processConn. cbn. destruct (process handler _ c); [apply Hrest|done..].
Qed.

End SafetyTheory.


(** ** A session at work *)

Definition demoDraws : Draws := mkDraws (Ok (replicate 15 0 ++ [9])) (Ok [1; 2]).
Definition demoText : bytes := wirePacket (PrED2K, 0x14, []) ++ wirePacket (PrED2K, 0x16, [3; 4; 5]).
Definition demoOpening : list bytes :=
  let req := clientRequest 0x55 7 [8; 8; 8] in [take 1 req; take 60 (drop 1 req); drop 61 req].
Definition demoStream : list bytes :=
  let secret := clientSecret 7 (serverAnswer 7 9 [1; 2]) in
  let enc := (RC4Crypt (clientReply [6] ++ demoText) (sharedKey secret MagicValueRequester)).2 in
  [take 3 enc; take 7 (drop 3 enc); drop 10 enc].

Lemma obfuscated_session_witness : ∃ cn,
  runBytes (ZL := rleZlib) demoHandler demoDraws (demoOpening ++ demoStream)
    (mkConn loggedClient (Some (NewTCPCrypt true)) []) = Ok cn ∧
  ss_app (c_session (cn_client cn)) = [(0x14, true); (0x16, true)].
Proof.
  destruct (obfuscated_session (ZL := rleZlib) demoHandler demoDraws (ZLaws := rleZlib_laws)
    (HOk := demoHandler_ok) loggedClient 0x55 7 [8; 8; 8] (replicate 15 0 ++ [9]) [1; 2] [6] demoText
    demoOpening demoStream) as (cn&HR&_&Hcase).
  - left. split_and!; [done|done|constructor|done].
  - done.
  - done.
  - done.
  - done.
  - done.
  - done.
  - by_decision.
  - done.
  - by_decision.
  - by_decision.
  - by_decision.
  - vm_compute. reflexivity.
  - vm_compute. reflexivity.
  - exists cn. split; [exact HR|]. destruct Hcase as [_ Hcase].
    assert (ss_closed (deliverAll (ZL := rleZlib) demoHandler (pending loggedClient ++ demoText)
      (c_session loggedClient)).2 = false) as Hop by (vm_compute; reflexivity).
    apply Hcase, (f_equal (ss_app ∘ snd)) in Hop. cbn [compose snd] in Hop. rewrite <- Hop.
    vm_compute. reflexivity.
Defined.

Lemma runBytes_safe_witness : ∃ cn,
  runBytes (ZL := rleZlib) demoHandler demoDraws [[0x55]; replicate 400 0x55]
    (mkConn demoClient (Some (NewTCPCrypt true)) []) = Ok cn ∧
  (ss_closed (c_session (cn_client cn)) = true ∨ wf_conn (ZL := rleZlib) cn).
Proof.
  apply (runBytes_safe (ZL := rleZlib) (ZLaws := rleZlib_laws) demoHandler demoDraws ltac:(done)
    [[0x55]; replicate 400 0x55] (mkConn demoClient (Some (NewTCPCrypt true)) [])).
  - right. left. exists []. split_and!; [done|constructor|simpl; lia|apply demoClient_wf|done].
  - by_decision.
Defined.

