(* ===== verification/LowID.v ===== *)
(** * LowIDs: [ed2k/lowidclients.go]

    The allocator that gives a firewalled client an identifier below 2^24. The clients it
    holds are a finite map, as in the code; the two counters next to it are machine
    integers. *)

From S2P Require Import Prelude Address.
Local Open Scope Z_scope.

Definition LowIDAnyParity : Z := -1.
Definition LowIDEvenParity : Z := 0.
Definition LowIDOddParity : Z := 1.
Definition lowIDCeiling : Z := 0xffffff.

(** [hash/fnv], 32-bit FNV-1a. *)
Definition fnv32a (b : bytes) : Z :=
  fold_left (λ h c, u32 (Z.lxor h c * 16777619)) b 2166136261.

Definition hashLowIDSeed (key : bytes) (nonce : Z) : Z :=
  Z.land (fnv32a (key ++ le_split 4 nonce)) 0x00ffffff.

Definition endpointKey (ipv4 port : Z) : bytes := le_split 4 ipv4 ++ le_split 2 port.

Section LowID.
Context {A : Type}.

Record LowIDClients := mkLowID {
  l_min : Z;
  l_max : Z;
  l_count : Z;
  l_oddCount : Z;
  l_allowLowIDs : bool;
  l_clients : gmap Z A;
}.

Definition NewLowIDClients (allowLowIDs : bool) (min max : Z) : LowIDClients :=
  let min := if min =? 0 then 1 else min in
  let max := if (max =? 0) || (lowIDCeiling <? max) then lowIDCeiling else max in
  let '(min, max) := if max <? min then (1, lowIDCeiling) else (min, max) in
  mkLowID min max 0 0 allowLowIDs ∅.

Definition rangeSizeLocked (l : LowIDClients) : Z := u32 (l_max l - l_min l + 1).

Definition putLocked (id : Z) (client : A) (l : LowIDClients) : LowIDClients :=
  let l := { l with l_clients := <[id := client]> (l_clients l); l_count := u32 (l_count l + 1) } in
  if Z.land id 1 =? 1 then { l with l_oddCount := u32 (l_oddCount l + 1) } else l.

Definition paritySpanLocked (parity : Z) (l : LowIDClients) : Z * Z :=
  if parity =? LowIDAnyParity then (l_min l, rangeSizeLocked l)
  else
    let first := if negb (Z.land (l_min l) 1 =? parity) then u32 (l_min l + 1) else l_min l in
    if l_max l <? first then (first, 0) else (first, u32 ((l_max l - first) `div` 2 + 1)).

Definition usedLocked (parity : Z) (l : LowIDClients) : Z :=
  if parity =? LowIDOddParity then l_oddCount l
  else if parity =? LowIDEvenParity then u32 (l_count l - l_oddCount l)
  else l_count l.

Definition probeID (key : bytes) (first step span nonce : Z) : Z :=
  u32 (first + u32 (step * (hashLowIDSeed key nonce `mod` span))).

(** The loop of [addByKeyLocked]: the first of [n] probes whose ID is free. *)
Fixpoint firstFree (n : nat) (nonce : Z) (probe : Z → Z) (clients : gmap Z A) : option Z :=
  match n with
  | O => None
  | S n =>
      let id := probe nonce in
      match clients !! id with
      | Some _ => firstFree n (nonce + 1) probe clients
      | None => Some id
      end
  end.

Definition addByKeyLocked (key : bytes) (client : A) (parity : Z) (l : LowIDClients) :
    LowIDClients * option Z :=
  if negb (l_allowLowIDs l) then (l, None) else
  let '(first, span) := paritySpanLocked parity l in
  if (span =? 0) || (span <=? usedLocked parity l) then (l, None) else
  let step := if negb (parity =? LowIDAnyParity) then 2 else 1 in
  match firstFree (Z.to_nat span) 0 (probeID key first step span) (l_clients l) with
  | Some id => (putLocked id client l, Some id)
  | None => (l, None)
  end.

Definition Add (client : A) (l : LowIDClients) : LowIDClients * option Z :=
  addByKeyLocked (str "lowid-default-seed") client LowIDAnyParity l.

Definition AddByEndpoint (ipv4 port : Z) (client : A) (l : LowIDClients) : LowIDClients * option Z :=
  addByKeyLocked (endpointKey ipv4 port) client LowIDAnyParity l.

Definition AddByAddress (ip : bytes) (ipv4 port : Z) (client : A) (parity : Z) (l : LowIDClients) :
    LowIDClients * option Z :=
  match IPv6Bytes ip with
  | Some b => addByKeyLocked (b ++ le_split 2 port) client parity l
  | None => addByKeyLocked (endpointKey ipv4 port) client parity l
  end.

Definition GetClient (id : Z) (l : LowIDClients) : option A := l_clients l !! id.

Definition Restore (id : Z) (client : A) (l : LowIDClients) : LowIDClients * bool :=
  if (id =? 0) || (lowIDCeiling <? id) then (l, false) else
  match l_clients l !! id with
  | Some _ => (l, false)
  | None => (putLocked id client l, true)
  end.

Definition Remove (id : Z) (l : LowIDClients) : LowIDClients :=
  match l_clients l !! id with
  | Some _ =>
      let l := { l with l_clients := delete id (l_clients l); l_count := u32 (l_count l - 1) } in
      if Z.land id 1 =? 1 then { l with l_oddCount := u32 (l_oddCount l - 1) } else l
  | None => l
  end.

(** A history of the allocator: the calls the server makes, in any order. *)
Inductive op :=
| OpAdd (key : bytes) (client : A) (parity : Z)
| OpRestore (id : Z) (client : A)
| OpRemove (id : Z).

Definition apply_op (l : LowIDClients) (o : op) : LowIDClients :=
  match o with
  | OpAdd key client parity => (addByKeyLocked key client parity l).1
  | OpRestore id client => (Restore id client l).1
  | OpRemove id => Remove id l
  end.

Definition history (allow : bool) (min max : Z) (ops : list op) : LowIDClients :=
  fold_left apply_op ops (NewLowIDClients allow min max).

End LowID.

Arguments LowIDClients : clear implicits.
Arguments op : clear implicits.

(** ** The invariant *)

Section Theory.
Context {A : Type}.
Implicit Types (l : LowIDClients A) (m : gmap Z A).

Definition odds m : gmap Z A := filter (λ kv, Z.land kv.1 1 = 1) m.

(** Identifiers stay below 2^24 and the counters count them. *)
Record wf_lowid l : Prop := {
  wl_range : 1 <= l_min l ∧ l_min l <= l_max l ∧ l_max l <= lowIDCeiling;
  wl_ids : map_Forall (λ id _, 1 <= id <= lowIDCeiling) (l_clients l);
  wl_count : l_count l = size (l_clients l);
  wl_odd : l_oddCount l = size (odds (l_clients l));
}.

(** No more clients than identifiers: the counters are far from their width. *)
Lemma size_bound m : map_Forall (λ id _, 1 <= id <= lowIDCeiling) m → size m <= lowIDCeiling.
Proof.
  intros Hm. rewrite <- (size_dom (D := gset Z)).
  assert (dom m ⊆ (list_to_set (seqZ 1 lowIDCeiling) : gset Z)) as Hsub.
  { intros id [c Hc]%elem_of_dom. apply elem_of_list_to_set, elem_of_seqZ. specialize (Hm id c Hc). simpl in Hm. lia. }
  apply subseteq_size in Hsub. rewrite size_list_to_set in Hsub by apply NoDup_seqZ.
  rewrite length_seqZ in Hsub. unfold lowIDCeiling in *. lia.
Qed.

Lemma odds_bound m : (size (odds m) <= size m)%nat.
Proof. apply map_subseteq_size, map_filter_subseteq. Qed.

(** Adding a free identifier moves both counters by the right amount. *)
Lemma odds_insert m id c : m !! id = None →
  size (odds (<[id := c]> m)) = ((if (Z.land id 1 =? 1)%Z then 1 else 0) + size (odds m))%nat.
Proof.
  intros Hid. unfold odds. destruct (Z.eqb_spec (Z.land id 1) 1) as [Ho|Ho].
  - rewrite map_filter_insert_True by done. rewrite map_size_insert_None; [done|].
    by rewrite map_lookup_filter, Hid.
  - rewrite map_filter_insert_False by done. by rewrite delete_id.
Qed.

Lemma putLocked_wf id c l :
  wf_lowid l → l_clients l !! id = None → 1 <= id <= lowIDCeiling → wf_lowid (putLocked id c l).
Proof.
  intros [Hr Hi Hc Ho] Hid Hb. destruct l as [mn mx cnt odd al m]. unfold putLocked. simpl in *.
  assert (map_Forall (λ id _, 1 <= id <= lowIDCeiling) (<[id := c]> m)) as Hi'.
  { by apply map_Forall_insert_2. }
  pose proof (size_bound _ Hi') as Hs. rewrite map_size_insert_None in Hs by done.
  pose proof (odds_bound m) as Hle. pose proof (odds_insert m id c Hid) as Hodd.
  destruct (_ =? 1); (split; simpl; unfold lowIDCeiling in *; [lia|done| |]);
    rewrite ?map_size_insert_None, ?Hodd by done; unfold u32; try rewrite Z.mod_small; lia.
Qed.

Lemma Remove_put id c l :
  wf_lowid l → l_clients l !! id = None → Remove id (putLocked id c l) = l.
Proof.
  intros [Hr Hi Hc Ho] Hid. pose proof (size_bound _ Hi) as Hs. pose proof (odds_bound (l_clients l)) as Hle.
  destruct l as [mn mx cnt odd al m]. unfold Remove, putLocked, lowIDCeiling in *. simpl in *.
  destruct (Z.land id 1 =? 1) eqn:E; simpl; rewrite lookup_insert_eq; simpl; rewrite ?E;
    rewrite delete_insert_id by done; unfold u32; f_equal;
    rewrite Zminus_mod_idemp_l, Z.add_simpl_r, Z.mod_small; lia.
Qed.

Lemma Remove_wf id l : wf_lowid l → wf_lowid (Remove id l).
Proof.
  intros Hl. destruct (l_clients l !! id) as [c|] eqn:Hid; [|by unfold Remove; rewrite Hid].
  pose proof Hl as [Hr Hi Hc Ho].
  assert (size (l_clients l) = S (size (delete id (l_clients l)))) as Hsz.
  { rewrite map_size_delete_Some by done.
    assert (size (l_clients l) ≠ 0%nat); [|lia]. intros H0. apply map_size_empty_inv in H0. by rewrite H0 in Hid. }
  pose proof (odds_insert (delete id (l_clients l)) id c (lookup_delete_eq _ _)) as Hodd.
  rewrite insert_delete_id in Hodd by done.
  pose proof (size_bound _ Hi) as Hs. pose proof (odds_bound (l_clients l)) as Hle.
  assert (map_Forall (λ id _, 1 <= id <= lowIDCeiling) (delete id (l_clients l))) as Hi'
    by (by apply map_Forall_delete).
  destruct l as [mn mx cnt odd al m]. unfold Remove. simpl in *. rewrite Hid.
  destruct (Z.land id 1 =? 1); (split; simpl; unfold lowIDCeiling in *; [lia|done| |]); unfold u32; try rewrite Z.mod_small; lia.
Qed.

(** ** Allocation *)

Lemma land_1 z : Z.land z 1 = z `mod` 2.
Proof. exact (Z.land_ones z 1 ltac:(lia)). Qed.

(** Every probe is an identifier of the range, of the parity asked for. *)
Lemma probeID_range l parity first span key nonce :
  wf_lowid l → paritySpanLocked parity l = (first, span) → 0 < span →
  let id := probeID key first (if negb (parity =? LowIDAnyParity) then 2 else 1) span nonce in
  l_min l <= id <= l_max l ∧ (parity = LowIDEvenParity ∨ parity = LowIDOddParity → id `mod` 2 = parity).
Proof.
  intros [(H1&H2&H3) _ _ _] E Hs. unfold paritySpanLocked, rangeSizeLocked, lowIDCeiling in *.
  unfold probeID. set (h := hashLowIDSeed key nonce `mod` span).
  assert (0 <= h < span) as Hh by (by apply Z.mod_pos_bound). clearbody h.
  unfold LowIDEvenParity, LowIDOddParity. destruct (Z.eqb_spec parity LowIDAnyParity) as [->|Hp]; cbn [negb].
  - injection E as <- E. unfold u32 in *. rewrite Z.mod_small in E by lia.
    rewrite !(Z.mod_small (1 * h)), !Z.mod_small by lia. unfold LowIDAnyParity. lia.
  - rewrite land_1 in E. assert (u32 (l_min l + 1) = l_min l + 1) as Hm by (unfold u32; rewrite Z.mod_small; lia).
    rewrite Hm in E. destruct (Z.eqb_spec (l_min l `mod` 2) parity) as [Hpar|Hpar]; cbn [negb] in E;
      revert E; int_test; intros [= <- <-]; try lia;
      unfold u32 in *; rewrite Z.mod_small in Hh by (Z.to_euclidean_division_equations; lia);
      rewrite !(Z.mod_small (2 * h)) by (Z.to_euclidean_division_equations; lia);
      rewrite !Z.mod_small by (Z.to_euclidean_division_equations; lia);
      Z.to_euclidean_division_equations; lia.
Qed.

Lemma firstFree_Some n nonce probe m id :
  firstFree n nonce probe m = Some id → m !! id = None ∧ ∃ k, id = probe k.
Proof.
  revert nonce. induction n as [|n IH]; intros nonce; [done|]. cbn [firstFree].
  destruct (m !! probe nonce) eqn:E; [apply IH|]. intros [= <-]. by split; [|exists nonce].
Qed.

Lemma firstFree_None (n : nat) nonce probe m :
  firstFree n nonce probe m = None → ∀ k, nonce <= k < nonce + n → is_Some (m !! probe k).
Proof.
  revert nonce. induction n as [|n IH]; intros nonce; [lia|]. cbn [firstFree].
  destruct (m !! probe nonce) as [c|] eqn:E; [|done]. intros Hn k Hk.
  destruct (Z.eq_dec k nonce) as [->|]; [by rewrite E; exists c|]. apply (IH _ Hn). lia.
Qed.

(** What an allocation does, on either outcome. *)
Definition alloc_spec (key : bytes) (client : A) (parity : Z) l (r : LowIDClients A * option Z) : Prop :=
  match r with
  | (l', Some id) =>
      l_clients l !! id = None ∧ l_clients l' = <[id := client]> (l_clients l) ∧
      l_min l <= id <= l_max l ∧ isLowID id = true ∧
      (parity = LowIDEvenParity ∨ parity = LowIDOddParity → id `mod` 2 = parity) ∧
      Remove id l' = l
  | (l', None) =>
      l' = l ∧
      (l_allowLowIDs l = true →
       let '(first, span) := paritySpanLocked parity l in
       span <= usedLocked parity l ∨
       ∀ nonce, 0 <= nonce < span → is_Some (l_clients l !!
         probeID key first (if negb (parity =? LowIDAnyParity) then 2 else 1) span nonce))
  end.

Lemma addByKeyLocked_spec key client parity l :
  wf_lowid l → wf_lowid (addByKeyLocked key client parity l).1 ∧
  alloc_spec key client parity l (addByKeyLocked key client parity l).
Proof.
  intros Hl. unfold addByKeyLocked, alloc_spec.
  destruct (l_allowLowIDs l) eqn:Hal; cbn [negb]; [|done].
  destruct (paritySpanLocked parity l) as [first span] eqn:Hsp.
  destruct ((span =? 0) || (span <=? usedLocked parity l)) eqn:Hfull.
  { split; [done|]. split; [done|]. intros _.
    apply orb_true_iff in Hfull as [->%Z.eqb_eq|?%Z.leb_le]; [right; lia|by left]. }
  apply orb_false_iff in Hfull as [Hs0%Z.eqb_neq Hu%Z.leb_gt].
  destruct (firstFree _ _ _ _) as [id|] eqn:Hf.
  - assert (0 < span) as Hspan.
    { destruct (Z_lt_le_dec 0 span) as [|Hneg]; [done|]. by replace (Z.to_nat span) with 0%nat in Hf by lia. }
    apply firstFree_Some in Hf as [Hfree [k ->]].
    pose proof (probeID_range l parity first span key k Hl Hsp Hspan) as [Hr Hpar]. cbv zeta in *.
    set (id := probeID _ _ _ _ _) in *. clearbody id. pose proof (wl_range l Hl) as (?&?&?).
    split; [apply putLocked_wf; [done|done|lia]|]. split; [done|].
    split; [by destruct l; unfold putLocked; simpl; case_match|]. split; [done|].
    split; [unfold isLowID, lowIDCeiling in *; apply andb_true_iff; lia|]. split; [done|]. by apply Remove_put.
  - split; [done|]. split; [done|]. intros _. right. intros nonce Hn.
    apply (firstFree_None _ _ _ _ Hf). lia.
Qed.

(** The identifiers of a history's restored sessions are 32-bit values. *)
Definition wf_op (o : op A) : Prop :=
  match o with OpRestore id _ => fits 32 id | _ => True end.

Lemma New_wf allow mn mx : fits 32 mn → fits 32 mx → wf_lowid (NewLowIDClients (A := A) allow mn mx).
Proof.
  unfold fits. intros Hmn Hmx. unfold NewLowIDClients, lowIDCeiling.
  destruct (Z.eqb_spec mn 0), (Z.eqb_spec mx 0); cbn [orb]; repeat (int_test; simpl);
    (split; simpl; [unfold lowIDCeiling; lia|apply map_Forall_empty|by rewrite map_size_empty|]);
    by unfold odds; rewrite map_filter_empty, map_size_empty.
Qed.

Lemma apply_op_wf l o : wf_lowid l → wf_op o → wf_lowid (apply_op l o).
Proof.
  intros Hl Ho. destruct o as [key c parity|id c|id]; simpl in *; [by apply addByKeyLocked_spec| |by apply Remove_wf].
  unfold Restore. destruct ((id =? 0) || (lowIDCeiling <? id)) eqn:E; [done|].
  destruct (l_clients l !! id) eqn:Hid; [done|]. apply putLocked_wf; [done|done|].
  apply orb_false_iff in E as [?%Z.eqb_neq ?%Z.ltb_ge]. unfold fits in Ho. lia.
Qed.

Lemma history_wf allow mn mx ops :
  fits 32 mn → fits 32 mx → Forall wf_op ops → wf_lowid (history allow mn mx ops).
Proof.
  intros Hmn Hmx Hops. unfold history. pose proof (New_wf allow mn mx Hmn Hmx) as Hl.
  revert Hl. generalize (NewLowIDClients (A := A) allow mn mx). induction Hops as [|o ops Ho _ IH]; intros l Hl; [done|].
  simpl. by apply IH, apply_op_wf.
Qed.

(** The counters never drift. After any history of allocations, restorations and
    removals, in any order and from any configured range, [count] is the number of clients
    held, [oddCount] the number with an odd identifier, and every identifier in use is
    between 1 and 0xffffff; so none of the unsigned counter updates ever wrapped. *)
Lemma lowid_counters allow mn mx (ops : list (op A)) :
  fits 32 mn → fits 32 mx → Forall wf_op ops →
  let l := history allow mn mx ops in
  l_count l = size (l_clients l) ∧ l_oddCount l = size (odds (l_clients l)) ∧
  usedLocked LowIDEvenParity l = size (l_clients l) - size (odds (l_clients l)) ∧
  map_Forall (λ id _, 1 <= id <= lowIDCeiling) (l_clients l).
Proof.
  intros Hmn Hmx Hops l. pose proof (history_wf allow mn mx ops Hmn Hmx Hops) as [Hr Hi Hc Ho].
  fold l in Hr, Hi, Hc, Ho. split; [done|]. split; [done|]. split; [|done].
  change (usedLocked LowIDEvenParity l) with (u32 (l_count l - l_oddCount l)).
  pose proof (size_bound _ Hi). pose proof (odds_bound (l_clients l)). unfold lowIDCeiling in *.
  rewrite Hc, Ho. unfold u32. rewrite Z.mod_small; lia.
Qed.

(** An allocation is right on both outcomes, after any history. An identifier that is
    given out was free, lies in the configured range, has the parity asked for, is a LowID
    on the wire, is registered for the client and for nobody else's, and removing it
    restores the allocator exactly. A refusal changes nothing and means that LowIDs are
    off, that the counters show the requested half full, or that every probe hit an
    identifier in use. *)
Lemma lowid_alloc allow mn mx (ops : list (op A)) key client parity :
  fits 32 mn → fits 32 mx → Forall wf_op ops →
  let l := history allow mn mx ops in
  alloc_spec key client parity l (addByKeyLocked key client parity l).
Proof. intros Hmn Hmx Hops l. by apply addByKeyLocked_spec, history_wf. Qed.

End Theory.

Definition demoOps : list (op nat) :=
  [OpAdd (endpointKey 1 4662) 11%nat LowIDOddParity; OpAdd (endpointKey 9 4662) 12%nat LowIDAnyParity;
   OpRestore 7 13%nat; OpRemove 7; OpAdd (endpointKey 2 4662) 14%nat LowIDOddParity].

Lemma demoOps_wf : Forall wf_op demoOps.
Proof. repeat (constructor; [done|]). constructor. Qed.

