(* ===== verification/Text.v ===== *)
(** * Text as the storage code sees it: the parts of Go's [strings], [unicode] and
    [unicode/utf8] that [storage/search.go] and [storage/memory_index.go] use

    A Go string is a byte sequence; ranging over it decodes UTF-8, an undecodable byte
    giving U+FFFD. Decoding and encoding are written out. The Unicode character tables are
    the class [Unicode]: nothing below depends on what they hold. *)

From S2P Require Import Prelude.
Local Open Scope Z_scope.

Class Unicode := {
  IsLetter : Z → bool;
  IsDigit : Z → bool;
  IsSpace : Z → bool;
  LowerRune : Z → Z;
  FoldEqual : Z → Z → bool;
}.

Definition RuneError : Z := 0xFFFD.

Definition is_cont (b : Z) : bool := (0x80 <=? b) && (b <=? 0xBF).

(** The range of the byte after a lead byte of [n] bytes (the accept ranges of
    [unicode/utf8]), [None] when no valid sequence starts with [b]. *)
Definition lead (b : Z) : option (nat * Z * Z) :=
  if (0xC2 <=? b) && (b <=? 0xDF) then Some (2%nat, 0x80, 0xBF)
  else if b =? 0xE0 then Some (3%nat, 0xA0, 0xBF)
  else if b =? 0xED then Some (3%nat, 0x80, 0x9F)
  else if (0xE1 <=? b) && (b <=? 0xEF) then Some (3%nat, 0x80, 0xBF)
  else if b =? 0xF0 then Some (4%nat, 0x90, 0xBF)
  else if (0xF1 <=? b) && (b <=? 0xF3) then Some (4%nat, 0x80, 0xBF)
  else if b =? 0xF4 then Some (4%nat, 0x80, 0x8F)
  else None.

Definition within (lo hi b : Z) : bool := (lo <=? b) && (b <=? hi).

(** [for _, r := range s], with the bytes each rune was read from. *)
Fixpoint decode (s : bytes) : list (Z * bytes) :=
  match s with
  | [] => []
  | b0 :: s1 =>
      let bad (_ : ()) := (RuneError, [b0]) :: decode s1 in
      if b0 <? 0x80 then (b0, [b0]) :: decode s1 else
      match lead b0, s1 with
      | Some (2%nat, lo, hi), b1 :: s2 =>
          if within lo hi b1 then ((b0 - 0xC0) * 64 + (b1 - 0x80), [b0; b1]) :: decode s2 else bad tt
      | Some (3%nat, lo, hi), b1 :: b2 :: s3 =>
          if within lo hi b1 && is_cont b2 then
            ((b0 - 0xE0) * 4096 + (b1 - 0x80) * 64 + (b2 - 0x80), [b0; b1; b2]) :: decode s3
          else bad tt
      | Some (4%nat, lo, hi), b1 :: b2 :: b3 :: s4 =>
          if within lo hi b1 && is_cont b2 && is_cont b3 then
            ((b0 - 0xF0) * 262144 + (b1 - 0x80) * 4096 + (b2 - 0x80) * 64 + (b3 - 0x80), [b0; b1; b2; b3])
              :: decode s4
          else bad tt
      | _, _ => bad tt
      end
  end.

Definition runes (s : bytes) : list Z := map fst (decode s).

(** A Unicode scalar value. *)
Definition valid_rune (r : Z) : bool :=
  (0 <=? r) && (r <=? 0x10FFFF) && negb (within 0xD800 0xDFFF r).

(** [utf8.AppendRune] on a valid rune. *)
Definition encode_valid (r : Z) : bytes :=
  if r <? 0x80 then [r]
  else if r <? 0x800 then [0xC0 + r `div` 64; 0x80 + r `mod` 64]
  else if r <? 0x10000 then [0xE0 + r `div` 4096; 0x80 + (r `div` 64) `mod` 64; 0x80 + r `mod` 64]
  else [0xF0 + r `div` 262144; 0x80 + (r `div` 4096) `mod` 64; 0x80 + (r `div` 64) `mod` 64; 0x80 + r `mod` 64].

Definition norm_rune (r : Z) : Z := if valid_rune r then r else RuneError.

(** [WriteRune]: what is not a rune is written as U+FFFD. *)
Definition encode_rune (r : Z) : bytes := encode_valid (norm_rune r).

Definition encode (rs : list Z) : bytes := concat (map encode_rune rs).

(** [strings.Contains], [strings.HasPrefix]. *)
Fixpoint HasPrefix (s prefix : bytes) : bool :=
  match prefix, s with
  | [], _ => true
  | p :: prefix, c :: s => (p =? c) && HasPrefix s prefix
  | _ :: _, [] => false
  end.

Fixpoint Contains (s sub : bytes) : bool :=
  HasPrefix s sub || match s with [] => false | _ :: s => Contains s sub end.

(** [strings.IndexByte]. *)
Fixpoint IndexByte (s : bytes) (c : Z) : option nat :=
  match s with
  | [] => None
  | b :: s => if b =? c then Some O else (S <$> IndexByte s c)
  end.

Section Text.
Context `{Unicode}.

(** [strings.ToLower]: the runes one by one. *)
Definition ToLower (s : bytes) : bytes := encode (map LowerRune (runes s)).

(** [strings.FieldsFunc] on decoded text: the maximal runs of runes for which [keep] holds,
    each as what [emit] makes of it. *)
Fixpoint split_runs {A} (keep : Z → bool) (emit : Z * bytes → list A) (acc : list A)
    (ps : list (Z * bytes)) : list (list A) :=
  let flush := match acc with [] => [] | _ => [acc] end in
  match ps with
  | [] => flush
  | p :: ps =>
      if keep p.1 then split_runs keep emit (acc ++ emit p) ps
      else flush ++ split_runs keep emit [] ps
  end.

(** [strings.Fields]: fields keep the bytes of the string. *)
Definition Fields (s : bytes) : list bytes :=
  split_runs (λ r, negb (IsSpace r)) snd [] (decode s).

Fixpoint drop_spaces (ps : list (Z * bytes)) : list (Z * bytes) :=
  match ps with
  | p :: ps' => if IsSpace p.1 then drop_spaces ps' else ps
  | [] => []
  end.

Definition TrimSpace (s : bytes) : bytes :=
  concat (map snd (rev (drop_spaces (rev (drop_spaces (decode s)))))).

(** [strings.EqualFold]. *)
Definition EqualFold (s t : bytes) : bool :=
  let rs := runes s in
  let rt := runes t in
  bool_decide (length rs = length rt) && forallb (λ '(a, b), FoldEqual a b) (combine rs rt).

Definition alnum (r : Z) : bool := IsLetter r || IsDigit r.

End Text.

(** ** UTF-8 *)

Definition valid (r : Z) : Prop := valid_rune r = true.

Lemma valid_iff r : valid r ↔ 0 <= r <= 0x10FFFF ∧ (r < 0xD800 ∨ 0xDFFF < r).
Proof.
  unfold valid, valid_rune, within. rewrite !andb_true_iff, negb_true_iff, andb_false_iff. lia.
Qed.

Lemma norm_valid r : valid (norm_rune r).
Proof. unfold norm_rune. by destruct (valid_rune r) eqn:E. Qed.

Lemma norm_id r : valid r → norm_rune r = r.
Proof. intros Hr. unfold norm_rune. by rewrite Hr. Qed.

(** Shifts by 12 and 18 bits, six at a time. *)
Lemma div_4096 r : r `div` 4096 = (r `div` 64) `div` 64.
Proof. by rewrite Z.div_div by lia. Qed.

Lemma div_262144 r : r `div` 262144 = ((r `div` 64) `div` 64) `div` 64.
Proof. by rewrite !Z.div_div by lia. Qed.

(** The bytes of a rune: a first byte that continues nothing, then continuations. *)
Lemma encode_valid_shape r : valid r →
  ∃ h t, encode_valid r = h :: t ∧ is_cont h = false ∧ Forall (λ b, is_cont b = true) t.
Proof.
  intros Hr%valid_iff. unfold encode_valid. rewrite div_262144, !div_4096.
  repeat int_test; eexists _, _; (split; [reflexivity|]); unfold is_cont;
    (split; [apply andb_false_iff; Z.to_euclidean_division_equations; lia|]);
    repeat (apply Forall_cons; split); try apply Forall_nil; try done;
    apply andb_true_iff; Z.to_euclidean_division_equations; lia.
Qed.

Lemma is_cont_iff b : is_cont b = true ↔ 0x80 <= b <= 0xBF.
Proof. unfold is_cont. rewrite andb_true_iff. lia. Qed.

Lemma within_iff lo hi b : within lo hi b = true ↔ lo <= b <= hi.
Proof. unfold within. rewrite andb_true_iff. lia. Qed.

(** One step of decoding. *)
Lemma decode_ascii b s : b < 0x80 → decode (b :: s) = (b, [b]) :: decode s.
Proof. intros Hb. cbn [decode]. by int_test. Qed.

Lemma decode_cons b0 s1 :
  decode (b0 :: s1) =
    let bad := (RuneError, [b0]) :: decode s1 in
    if b0 <? 0x80 then (b0, [b0]) :: decode s1 else
    match lead b0, s1 with
    | Some (2%nat, lo, hi), b1 :: s2 =>
        if within lo hi b1 then ((b0 - 0xC0) * 64 + (b1 - 0x80), [b0; b1]) :: decode s2 else bad
    | Some (3%nat, lo, hi), b1 :: b2 :: s3 =>
        if within lo hi b1 && is_cont b2 then
          ((b0 - 0xE0) * 4096 + (b1 - 0x80) * 64 + (b2 - 0x80), [b0; b1; b2]) :: decode s3
        else bad
    | Some (4%nat, lo, hi), b1 :: b2 :: b3 :: s4 =>
        if within lo hi b1 && is_cont b2 && is_cont b3 then
          ((b0 - 0xF0) * 262144 + (b1 - 0x80) * 4096 + (b2 - 0x80) * 64 + (b3 - 0x80), [b0; b1; b2; b3])
            :: decode s4
        else bad
    | _, _ => bad
    end.
Proof. reflexivity. Qed.

Lemma decode_2 b0 b1 s lo hi : 0x80 <= b0 → lead b0 = Some (2%nat, lo, hi) → within lo hi b1 = true →
  decode (b0 :: b1 :: s) = ((b0 - 0xC0) * 64 + (b1 - 0x80), [b0; b1]) :: decode s.
Proof.
  intros H0 Hl H1. rewrite decode_cons. int_test. rewrite Hl. by rewrite H1.
Qed.

Lemma decode_3 b0 b1 b2 s lo hi :
  0x80 <= b0 → lead b0 = Some (3%nat, lo, hi) → within lo hi b1 = true → is_cont b2 = true →
  decode (b0 :: b1 :: b2 :: s) =
    ((b0 - 0xE0) * 4096 + (b1 - 0x80) * 64 + (b2 - 0x80), [b0; b1; b2]) :: decode s.
Proof.
  intros H0 Hl H1 H2. rewrite decode_cons. int_test. rewrite Hl. by rewrite H1, H2.
Qed.

Lemma decode_4 b0 b1 b2 b3 s lo hi :
  0x80 <= b0 → lead b0 = Some (4%nat, lo, hi) → within lo hi b1 = true → is_cont b2 = true → is_cont b3 = true →
  decode (b0 :: b1 :: b2 :: b3 :: s) =
    ((b0 - 0xF0) * 262144 + (b1 - 0x80) * 4096 + (b2 - 0x80) * 64 + (b3 - 0x80), [b0; b1; b2; b3]) :: decode s.
Proof.
  intros H0 Hl H1 H2 H3. rewrite decode_cons. int_test. rewrite Hl.
  by rewrite H1, H2, H3.
Qed.

(** Decoding starts over behind each encoded rune. *)
Lemma decode_encode_valid r s : valid r → decode (encode_valid r ++ s) = (r, encode_valid r) :: decode s.
Proof.
  intros Hr%valid_iff. unfold encode_valid. rewrite div_262144, !div_4096.
  destruct (Z.ltb_spec r 0x80); [by apply decode_ascii|].
  destruct (Z.ltb_spec r 0x800); [|destruct (Z.ltb_spec r 0x10000)]; cbn [app].
  - set (b0 := 0xC0 + _). set (b1 := 0x80 + _).
    assert (0xC2 <= b0 <= 0xDF ∧ 0x80 <= b1 <= 0xBF ∧ (b0 - 0xC0) * 64 + (b1 - 0x80) = r) as (K0&K1&E)
      by (unfold b0, b1; Z.to_euclidean_division_equations; lia).
    clearbody b0 b1. rewrite (decode_2 _ _ _ 0x80 0xBF); [by rewrite E|lia| |by apply within_iff].
    unfold lead. by rewrite (proj2 (Z.leb_le 0xC2 b0)), (proj2 (Z.leb_le b0 0xDF)) by lia.
  - set (b0 := 0xE0 + _). set (b1 := 0x80 + (_ `div` 64) `mod` _). set (b2 := 0x80 + _).
    assert (0xE0 <= b0 <= 0xEF ∧ 0x80 <= b1 <= 0xBF ∧ 0x80 <= b2 <= 0xBF ∧
      (b0 = 0xE0 → 0xA0 <= b1) ∧ (b0 = 0xED → b1 <= 0x9F) ∧
      (b0 - 0xE0) * 4096 + (b1 - 0x80) * 64 + (b2 - 0x80) = r) as (K0&K1&K2&Ka&Kb&E)
      by (unfold b0, b1, b2; Z.to_euclidean_division_equations; lia).
    clearbody b0 b1 b2.
    assert (∃ lo hi, lead b0 = Some (3%nat, lo, hi) ∧ lo <= b1 <= hi) as (lo&hi&Hl&Hlo).
    { unfold lead. repeat (int_test; cbn [andb]); eexists _, _; (split; [reflexivity|lia]). }
    rewrite (decode_3 _ _ _ _ lo hi); [by rewrite E|lia|done|by apply within_iff|by apply is_cont_iff].
  - set (b0 := 0xF0 + _). set (b1 := 0x80 + ((_ `div` 64) `div` 64) `mod` _).
    set (b2 := 0x80 + (_ `div` 64) `mod` _). set (b3 := 0x80 + _).
    assert (0xF0 <= b0 <= 0xF4 ∧ 0x80 <= b1 <= 0xBF ∧ 0x80 <= b2 <= 0xBF ∧ 0x80 <= b3 <= 0xBF ∧
      (b0 = 0xF0 → 0x90 <= b1) ∧ (b0 = 0xF4 → b1 <= 0x8F) ∧
      (b0 - 0xF0) * 262144 + (b1 - 0x80) * 4096 + (b2 - 0x80) * 64 + (b3 - 0x80) = r)
      as (K0&K1&K2&K3&Ka&Kb&E) by (unfold b0, b1, b2, b3; Z.to_euclidean_division_equations; lia).
    clearbody b0 b1 b2 b3.
    assert (∃ lo hi, lead b0 = Some (4%nat, lo, hi) ∧ lo <= b1 <= hi) as (lo&hi&Hl&Hlo).
    { unfold lead. repeat (int_test; cbn [andb]); eexists _, _; (split; [reflexivity|lia]). }
    rewrite (decode_4 _ _ _ _ _ lo hi);
      [by rewrite E|lia|done|by apply within_iff|by apply is_cont_iff|by apply is_cont_iff].
Qed.

Lemma decode_encode rs : decode (encode rs) = map (λ r, (norm_rune r, encode_rune r)) rs.
Proof.
  induction rs as [|r rs IH]; [done|]. unfold encode in *. cbn [map concat].
  unfold encode_rune at 1. rewrite decode_encode_valid, IH by apply norm_valid. done.
Qed.

Lemma runes_encode rs : runes (encode rs) = map norm_rune rs.
Proof. unfold runes. rewrite decode_encode, map_map. done. Qed.

Lemma encode_norm rs : encode (map norm_rune rs) = encode rs.
Proof.
  unfold encode. f_equal. rewrite map_map. apply map_ext. intros r. unfold encode_rune.
  by rewrite (norm_id (norm_rune r)) by apply norm_valid.
Qed.

Lemma encode_app rs rs' : encode (rs ++ rs') = encode rs ++ encode rs'.
Proof. unfold encode. by rewrite map_app, concat_app. Qed.

Lemma encode_cons r rs : encode (r :: rs) = encode_rune r ++ encode rs.
Proof. done. Qed.

Lemma encode_nonempty rs : rs ≠ [] → encode rs ≠ [].
Proof.
  destruct rs as [|r rs]; [done|]. intros _. rewrite encode_cons.
  destruct (encode_valid_shape (norm_rune r) (norm_valid r)) as (h&t&E&_). unfold encode_rune. by rewrite E.
Qed.

(** Encodings of runes are a prefix code. *)
Lemma encode_prefix cs ds b :
  Forall valid cs → Forall valid ds → encode ds = encode cs ++ b → ∃ ds', ds = cs ++ ds' ∧ b = encode ds'.
Proof.
  intros Hcs. revert ds. induction Hcs as [|c cs Hc _ IH]; intros ds Hds E; [by exists ds|].
  rewrite encode_cons, <- app_assoc in E. destruct Hds as [|d ds Hd Hds].
  { exfalso. symmetry in E. apply app_eq_nil in E as [E _].
    destruct (encode_valid_shape (norm_rune c) (norm_valid c)) as (h&t&E'&_). unfold encode_rune in E. by rewrite E' in E. }
  rewrite encode_cons in E. unfold encode_rune in E. rewrite !norm_id in E by done.
  pose proof (f_equal decode E) as D. rewrite !decode_encode_valid in D by done.
  injection D as <- _ _. apply app_inv_head in E.
  destruct (IH ds Hds E) as (ds'&->&->). by exists ds'.
Qed.

(** They synchronise: encoded text occurs in encoded text only at rune boundaries. *)
Lemma encode_infix cs ds a b :
  cs ≠ [] → Forall valid cs → Forall valid ds → encode ds = a ++ encode cs ++ b →
  ∃ d1 d2, ds = d1 ++ cs ++ d2.
Proof.
  intros Hne Hcs Hds. revert a. induction Hds as [|d ds Hd Hds IH]; intros a E.
  { exfalso. symmetry in E. apply app_eq_nil in E as [_ E]. apply app_eq_nil in E as [E _].
    by apply encode_nonempty in E. }
  destruct (decide (a = [])) as [->|Ha].
  { destruct (encode_prefix cs (d :: ds) b Hcs ltac:(by constructor) E) as (ds'&->&_). by exists [], ds'. }
  rewrite encode_cons in E. unfold encode_rune in E. rewrite norm_id in E by done.
  destruct (encode_valid_shape d Hd) as (h&t&Ed&_&Ht).
  destruct (app_eq_app _ _ _ _ E) as [m [[Em Er]|[Em Er]]].
  - (* the occurrence would start inside the first rune *)
    destruct m as [|x m].
    { cbn [app] in Er. destruct (encode_prefix cs ds b Hcs Hds (eq_sym Er)) as (ds'&->&_). by exists [d], ds'. }
    exfalso. destruct cs as [|c cs]; [done|]. apply Forall_cons in Hcs as [Hc _].
    destruct (encode_valid_shape c Hc) as (hc&tc&Ec&Hhc&_).
    rewrite encode_cons in Er. unfold encode_rune in Er. rewrite norm_id, Ec in Er by done.
    cbn [app] in Er. injection Er as -> _. rewrite Ed in Em. destruct a as [|a0 a]; [done|].
    injection Em as _ ->. apply Forall_app in Ht as [_ Ht]. apply Forall_cons in Ht as [Ht _]. congruence.
  - destruct (IH m) as (d1&d2&->); [done|]. by exists (d :: d1), d2.
Qed.

(** ** Substrings *)

Lemma HasPrefix_iff s p : HasPrefix s p = true ↔ ∃ b, s = p ++ b.
Proof.
  revert s. induction p as [|c p IH]; intros s; cbn [HasPrefix]; [split; [by exists s|by destruct s]|].
  destruct s as [|x s]; cbn [HasPrefix]; [split; [done|by intros [b ?]]|].
  rewrite andb_true_iff, Z.eqb_eq, IH. split.
  - intros [-> [b ->]]. by exists b.
  - intros [b [= -> ->]]. eauto.
Qed.

Lemma Contains_iff s sub : Contains s sub = true ↔ ∃ a b, s = a ++ sub ++ b.
Proof.
  induction s as [|x s IH].
  - cbn [Contains]. rewrite orb_false_r, HasPrefix_iff. split; [intros [b E]; by exists [], b|].
    intros (a&b&E). symmetry in E. apply app_eq_nil in E as [_ E]. by exists b.
  - cbn [Contains]. rewrite orb_true_iff, HasPrefix_iff, IH. split.
    + intros [[b E]|(a&b&->)]; [by exists [], b|by exists (x :: a), b].
    + intros ([|y a]&b&E); [left; by exists b|]. injection E as -> ->. right. by exists a, b.
Qed.

(** ** Maximal runs *)

Section Runs.
Context (keep : Z → bool).

(** The runs of kept runes of a rune list. *)
Definition kept_runs (acc : list Z) (rs : list Z) : list (list Z) :=
  split_runs keep (λ p, [p.1]) acc (map (λ r, (r, [])) rs).

Lemma kept_runs_cons acc r rs :
  kept_runs acc (r :: rs) =
    if keep r then kept_runs (acc ++ [r]) rs
    else match acc with [] => [] | _ => [acc] end ++ kept_runs [] rs.
Proof. done. Qed.

Lemma kept_runs_all acc cs rs :
  Forall (λ r, keep r = true) cs → kept_runs acc (cs ++ rs) = kept_runs (acc ++ cs) rs.
Proof.
  intros Hk. revert acc. induction Hk as [|c cs Hc _ IH]; intros acc; cbn [app]; [by rewrite app_nil_r|].
  by rewrite kept_runs_cons, Hc, IH, <- app_assoc.
Qed.

(** A run begun is finished. *)
Lemma kept_runs_begun acc rs : acc ≠ [] → ∃ w, acc ++ w ∈ kept_runs acc rs.
Proof.
  revert acc. induction rs as [|r rs IH]; intros acc Hne.
  - exists []. rewrite app_nil_r. unfold kept_runs. cbn. destruct acc; [done|by left].
  - rewrite kept_runs_cons. destruct (keep r).
    + destruct (IH (acc ++ [r])) as [w Hw]; [by destruct acc|]. exists (r :: w). by rewrite <- app_assoc in Hw.
    + exists []. rewrite app_nil_r. destruct acc; [done|by left].
Qed.

(** Any kept stretch lies inside one of the runs. *)
Lemma kept_runs_infix acc d1 cs d2 :
  cs ≠ [] → Forall (λ r, keep r = true) cs →
  ∃ w1 w2, w1 ++ cs ++ w2 ∈ kept_runs acc (d1 ++ cs ++ d2).
Proof.
  intros Hne Hk. revert acc. induction d1 as [|d d1 IH]; intros acc; cbn [app].
  - rewrite kept_runs_all by done. destruct (kept_runs_begun (acc ++ cs) d2) as [w Hw]; [by destruct acc, cs|].
    exists acc, w. by rewrite <- app_assoc in Hw.
  - rewrite kept_runs_cons. destruct (keep d); [apply IH|].
    destruct (IH []) as (w1&w2&Hw). exists w1, w2. apply elem_of_app. by right.
Qed.

Lemma kept_runs_nonempty acc rs w : w ∈ kept_runs acc rs → w ≠ [].
Proof.
  revert acc. induction rs as [|r rs IH]; intros acc.
  - unfold kept_runs. cbn. destruct acc; [by intros ?%elem_of_nil|]. by intros ->%list_elem_of_singleton.
  - rewrite kept_runs_cons. destruct (keep r); [apply IH|].
    intros [Hw|Hw]%elem_of_app; [|by eapply IH]. destruct acc; [by apply elem_of_nil in Hw|].
    by apply list_elem_of_singleton in Hw as ->.
Qed.

Lemma kept_runs_kept acc rs w :
  Forall (λ r, keep r = true) acc → w ∈ kept_runs acc rs → Forall (λ r, keep r = true) w.
Proof.
  revert acc. induction rs as [|r rs IH]; intros acc Ha.
  - unfold kept_runs. cbn. destruct acc; [by intros ?%elem_of_nil|]. by intros ->%list_elem_of_singleton.
  - rewrite kept_runs_cons. destruct (keep r) eqn:Hr.
    { apply IH. apply Forall_app. by split; [|constructor]. }
    intros [Hw|Hw]%elem_of_app; [|eapply (IH []); [constructor|done]]. destruct acc; [by apply elem_of_nil in Hw|].
    by apply list_elem_of_singleton in Hw as ->.
Qed.

Lemma kept_runs_Forall (P : Z → Prop) acc rs w :
  Forall P acc → Forall P rs → w ∈ kept_runs acc rs → Forall P w.
Proof.
  intros Ha Hrs. revert acc Ha. induction Hrs as [|r rs Hr _ IH]; intros acc Ha.
  - unfold kept_runs. cbn. destruct acc; [by intros ?%elem_of_nil|]. by intros ->%list_elem_of_singleton.
  - rewrite kept_runs_cons. destruct (keep r); [apply IH, Forall_app; by split; [|constructor]|].
    intros [Hw|Hw]%elem_of_app; [|by apply (IH [])]. destruct acc; [by apply elem_of_nil in Hw|].
    by apply list_elem_of_singleton in Hw as ->.
Qed.

End Runs.

(** Splitting into byte runs is splitting into rune runs, encoded. *)
Lemma split_runs_encode keep emit acc ps :
  Forall (λ p, emit p = encode_rune p.1) ps →
  split_runs keep emit (encode acc) ps = map encode (kept_runs keep acc (map fst ps)).
Proof.
  intros He. revert acc. induction He as [|p ps Hp _ IH]; intros acc.
  - destruct acc as [|r acc]; [done|]. change (kept_runs keep (r :: acc) (map fst [])) with [r :: acc].
    cbn [split_runs map]. by destruct (encode (r :: acc)) eqn:E; [apply encode_nonempty in E|].
  - cbn [map]. rewrite kept_runs_cons. cbn [split_runs]. destruct (keep p.1).
    + rewrite Hp, <- IH. f_equal. rewrite encode_app, encode_cons. by rewrite app_nil_r.
    + rewrite map_app, <- (IH []). f_equal. destruct acc as [|r acc]; [done|]. cbn [map].
      by destruct (encode (r :: acc)) eqn:E; [apply encode_nonempty in E|].
Qed.

(** ** Cutting text at a rune boundary *)

Definition starts_rune (s : bytes) : Prop := match s with b :: _ => is_cont b = false | [] => True end.

Lemma lead_range b n lo hi : lead b = Some (n, lo, hi) → 0x80 <= lo ∧ hi <= 0xBF ∧ (n = 2 ∨ n = 3 ∨ n = 4)%nat.
Proof. unfold lead. intros Hl. repeat case_match; simplify_eq; lia. Qed.

Lemma not_within b n lo hi b1 : lead b = Some (n, lo, hi) → is_cont b1 = false → within lo hi b1 = false.
Proof.
  intros (?&?&_)%lead_range Hc. destruct (within lo hi b1) eqn:E; [|done].
  apply within_iff in E. assert (is_cont b1 = true) by (apply is_cont_iff; lia). congruence.
Qed.

Lemma decode_app s t : starts_rune t → decode (s ++ t) = decode s ++ decode t.
Proof.
  intros Ht. induction s as [s IH] using (induction_ltof1 _ (@length Z)). unfold ltof in IH.
  destruct s as [|b0 s1]; [done|]. cbn [app]. rewrite !decode_cons. cbv zeta.
  rewrite (IH s1) by (simpl; lia). destruct (b0 <? 0x80); [done|].
  destruct (lead b0) as [[[n lo] hi]|] eqn:Hl; [|done].
  pose proof (λ b1, not_within b0 n lo hi b1 Hl) as Hnw.
  assert (∀ c t', t = c :: t' → is_cont c = false ∧ within lo hi c = false) as Hc.
  { intros c t' ->. simpl in Ht. auto. }
  apply lead_range in Hl as (_&_&[->|[->| ->]]).
  - destruct s1 as [|b1 s2]; cbn [app].
    + destruct t as [|c t']; [done|]. by destruct (Hc c t' eq_refl) as [_ ->].
    + destruct (within lo hi b1); [by rewrite IH by (simpl; lia)|done].
  - destruct s1 as [|b1 [|b2 s3]]; cbn [app].
    + destruct t as [|c [|c2 t']]; [done|done|]. by destruct (Hc _ _ eq_refl) as [_ ->].
    + destruct t as [|c t']; [done|]. destruct (Hc _ _ eq_refl) as [-> _]. by rewrite andb_false_r.
    + destruct (within lo hi b1 && is_cont b2); [by rewrite IH by (simpl; lia)|done].
  - destruct s1 as [|b1 [|b2 [|b3 s4]]]; cbn [app].
    + destruct t as [|c [|c2 [|c3 t']]]; [done|done|done|]. by destruct (Hc _ _ eq_refl) as [_ ->].
    + destruct t as [|c [|c2 t']]; [done|done|]. destruct (Hc _ _ eq_refl) as [-> _].
      by rewrite andb_false_r, andb_false_l.
    + destruct t as [|c t']; [done|]. destruct (Hc _ _ eq_refl) as [-> _]. by rewrite andb_false_r.
    + destruct (within lo hi b1 && is_cont b2 && is_cont b3); [by rewrite IH by (simpl; lia)|done].
Qed.

(** Decoding loses no byte. *)
Lemma decode_raw s : concat (map snd (decode s)) = s.
Proof.
  induction s as [s IH] using (induction_ltof1 _ (@length Z)). unfold ltof in IH.
  destruct s as [|b0 s1]; [done|]. rewrite decode_cons. cbv zeta.
  assert (∀ r, concat (map snd ((r, [b0]) :: decode s1)) = b0 :: s1) as Hbad.
  { intros r. cbn. rewrite IH by (simpl; lia). done. }
  destruct (b0 <? 0x80); [apply Hbad|]. destruct (lead b0) as [[[n lo] hi]|] eqn:Hl; [|apply Hbad].
  apply lead_range in Hl as (_&_&[->|[->| ->]]).
  - destruct s1 as [|b1 s2]; [apply Hbad|]. case_match; [|apply Hbad]. cbn. by rewrite IH by (simpl; lia).
  - destruct s1 as [|b1 [|b2 s3]]; [apply Hbad..|]. case_match; [|apply Hbad]. cbn. by rewrite IH by (simpl; lia).
  - destruct s1 as [|b1 [|b2 [|b3 s4]]]; [apply Hbad..|]. case_match; [|apply Hbad].
    cbn. by rewrite IH by (simpl; lia).
Qed.

Definition ascii (s : bytes) : Prop := Forall (λ b, 0 <= b < 0x80) s.

Lemma decode_ascii_app p s : ascii p → decode (p ++ s) = map (λ b, (b, [b])) p ++ decode s.
Proof.
  intros Hp. induction Hp as [|b p Hb _ IH]; [done|]. cbn [app map]. rewrite decode_ascii by lia. by rewrite IH.
Qed.

(** What the Unicode tables hold for ASCII. *)
Class UnicodeAscii `{Unicode} : Prop := {
  lower_ascii r : 0 <= r < 0x80 → LowerRune r = if within 0x41 0x5a r then r + 32 else r;
  space_ascii r : 0 <= r < 0x80 → IsSpace r = (r =? 0x20) || within 0x09 0x0d r;
  fold_ascii r r' : 0 <= r < 0x80 → 0 <= r' < 0x80 → LowerRune r = LowerRune r' → FoldEqual r r' = true;
}.

Section Ascii.
Context `{UnicodeAscii}.

Definition lower_byte (b : Z) : Z := if within 0x41 0x5a b then b + 32 else b.

Lemma encode_rune_ascii r : 0 <= r < 0x80 → encode_rune r = [r].
Proof.
  intros Hr. unfold encode_rune. rewrite norm_id by (apply valid_iff; lia).
  unfold encode_valid. by int_test.
Qed.

Lemma ToLower_prefix p s : ascii p → ToLower (p ++ s) = map lower_byte p ++ ToLower s.
Proof.
  intros Hp. unfold ToLower, runes. rewrite decode_ascii_app, !map_app, encode_app by done. f_equal.
  induction Hp as [|b p Hb _ IH]; [done|]. cbn [map fst]. rewrite encode_cons, IH.
  rewrite lower_ascii by done. fold (lower_byte b). rewrite encode_rune_ascii; [done|].
  unfold lower_byte. destruct (within _ _ b) eqn:E; [apply within_iff in E|]; lia.
Qed.

(** Text that neither begins nor ends with a space. *)
Lemma TrimSpace_id a s z :
  0 <= a < 0x80 → IsSpace a = false → 0 <= z < 0x80 → IsSpace z = false →
  TrimSpace (a :: s ++ [z]) = a :: s ++ [z].
Proof.
  intros Ha Hsa Hz Hsz. unfold TrimSpace.
  assert (decode (a :: s ++ [z]) = (a, [a]) :: decode s ++ [(z, [z])]) as E.
  { rewrite decode_ascii by lia. f_equal. rewrite decode_app; [by rewrite decode_ascii by lia|].
    simpl. unfold is_cont. apply andb_false_iff. lia. }
  rewrite E. cbn [drop_spaces fst]. rewrite Hsa. cbn [rev]. rewrite rev_app_distr. cbn [rev app drop_spaces fst].
  rewrite Hsz. cbn [rev]. rewrite rev_app_distr, rev_involutive. cbn [rev app map snd concat].
  rewrite map_app, concat_app, decode_raw. done.
Qed.

End Ascii.

(** The ASCII part of the tables, for examples. *)
Definition asciiTables : Unicode := {|
  IsLetter r := within 0x41 0x5a r || within 0x61 0x7a r;
  IsDigit r := within 0x30 0x39 r;
  IsSpace r := (r =? 0x20) || within 0x09 0x0d r;
  LowerRune r := if within 0x41 0x5a r then r + 32 else r;
  FoldEqual a b := (if within 0x41 0x5a a then a + 32 else a) =? (if within 0x41 0x5a b then b + 32 else b);
|}.

Lemma asciiTables_laws : UnicodeAscii (H := asciiTables).
Proof. split; simpl; intros; [done|done|by apply Z.eqb_eq]. Qed.
