(* ===== verification/Search.v ===== *)
(** * Search expressions: [storage/search.go] and [storage/search_hash.go]

    The tree a search is parsed into, how the memory engine matches a file against it, how
    the SQL engines render it, and the guard that keeps a search from scanning a table. The
    struct keeps the code's shape: one record with a kind, of which each kind reads its own
    fields. *)

From S2P Require Import Prelude Types Text.
Local Open Scope Z_scope.

#[local] Set Warnings "-register-all".

Inductive SearchKind :=
| SearchText | SearchAnd | SearchOr | SearchAndNot | SearchString | SearchUInt32 | SearchUInt64
| SearchHash | SearchRelated.

#[export] Instance SearchKind_eq_dec : EqDecision SearchKind.
Proof. solve_decision. Defined.

Record FileKey := mkFileKey { fk_Hash : bytes; fk_Size : Z }.

#[export] Instance FileKey_eq_dec : EqDecision FileKey.
Proof. solve_decision. Defined.

Inductive SearchExpr := mkSearchExpr {
  se_Kind : SearchKind;
  se_Text : bytes;
  se_TagType : Z;
  se_ValueString : bytes;
  se_ValueUint : Z;
  se_Left : option SearchExpr;
  se_Right : option SearchExpr;
  se_Related : list FileKey;
}.

(** The literals [&SearchExpr{Kind: ...}] of the code. *)
Definition textExpr (s : bytes) : SearchExpr := mkSearchExpr SearchText s 0 [] 0 None None [].
Definition stringExpr (tag : Z) (s : bytes) : SearchExpr := mkSearchExpr SearchString [] tag s 0 None None [].
Definition numberExpr (kind : SearchKind) (tag v : Z) : SearchExpr := mkSearchExpr kind [] tag [] v None None [].
Definition hashExpr (hash : bytes) (size : Z) : SearchExpr := mkSearchExpr SearchHash [] 0 hash size None None [].
Definition relatedExpr (seeds : list FileKey) : SearchExpr := mkSearchExpr SearchRelated [] 0 [] 0 None None seeds.
Definition boolExpr (kind : SearchKind) (l r : SearchExpr) : SearchExpr :=
  mkSearchExpr kind [] 0 [] 0 (Some l) (Some r) [].

Definition searchTypeText : Z := 0x0000ff.
Definition searchTypeFileType : Z := 0x030001.
Definition searchTypeExt : Z := 0x040001.
Definition searchTypeArtist : Z := 0xd00001.
Definition searchTypeAlbum : Z := 0xd10001.
Definition searchTypeTitle : Z := 0xd20001.
Definition searchTypeCodec : Z := 0xd50001.

Definition SearchOpEqual : Z := 0.
Definition SearchOpGreater : Z := 1.
Definition SearchOpLess : Z := 2.
Definition SearchOpGreaterEqual : Z := 3.
Definition SearchOpLessEqual : Z := 4.
Definition SearchOpNotEqual : Z := 5.

Definition SearchTagSize : Z := 0x02.
Definition SearchTagSources : Z := 0x15.
Definition SearchTagComplete : Z := 0x30.
Definition SearchTagLength : Z := 0xd3.
Definition SearchTagBitrate : Z := 0xd4.

Definition SearchTermTag : Z := searchTypeText.
Definition MaxRelatedSeeds : nat := 32.

Definition is_numeric (k : SearchKind) : bool :=
  bool_decide (k = SearchUInt32 ∨ k = SearchUInt64).

(** The tag and the operator of a numeric leaf. *)
Definition NumericConstraint (expr : SearchExpr) : option (Z * Z) :=
  if negb (is_numeric (se_Kind expr)) then None
  else if negb (Z.land (Z.shiftr (se_TagType expr) 8) 0xffff =? 1) then None
  else
    let op := u8 (se_TagType expr) in
    if SearchOpNotEqual <? op then None else Some (u8 (Z.shiftr (se_TagType expr) 24), op).

Definition CompareSearchValue (op have want : Z) : bool :=
  if op =? SearchOpEqual then have =? want
  else if op =? SearchOpGreater then want <? have
  else if op =? SearchOpLess then have <? want
  else if op =? SearchOpGreaterEqual then want <=? have
  else if op =? SearchOpLessEqual then have <=? want
  else negb (have =? want).

(** [filepath.Ext]: from the last dot, if no separator follows it. *)
Fixpoint extFrom (rev_path acc : bytes) : bytes :=
  match rev_path with
  | [] => []
  | c :: rest =>
      if c =? 0x2f then []
      else if c =? 0x2e then 0x2e :: acc
      else extFrom rest (c :: acc)
  end.
Definition filepath_Ext (path : bytes) : bytes := extFrom (rev path) [].

Section Matching.
Context `{Unicode}.

Definition splitTerms (text : bytes) : list bytes := Fields (TrimSpace text).

(** [b.WriteRune(r)] for the letters and digits, a run ended by anything else. *)
Definition alnumRuns (s : bytes) : list bytes :=
  split_runs alnum (λ p, encode_rune p.1) [] (decode s).

Definition termRuns (term : bytes) : list bytes :=
  match alnumRuns term with [] => [term] | runs => runs end.

Definition textRuns (text : bytes) : list bytes :=
  flat_map (λ t, termRuns (ToLower t)) (splitTerms text).

(** No run at all is a leaf without a term: it matches nothing. *)
Definition matchText (text lowerName : bytes) : bool :=
  match textRuns text with
  | [] => false
  | runs => forallb (Contains lowerName) runs
  end.

Definition containsFold (s needle : bytes) : bool := Contains (ToLower s) (ToLower needle).

(** A lowercased extension, without its dot. *)
Definition fileExt (name : bytes) : bytes :=
  match filepath_Ext name with [] => [] | _ :: ext => ToLower ext end.

Definition ed2kTypeAliases : list (bytes * bytes) := [(str "Arc", str "Pro"); (str "Iso", str "Pro")].

Definition NormalizeSearchFileType (typ : bytes) : bytes :=
  match find (λ '(alias, _), EqualFold typ alias) ed2kTypeAliases with
  | Some (_, mapped) => mapped
  | None => typ
  end.

Definition matchHashLeaf (expr : SearchExpr) (file : File) : bool :=
  if negb (bool_decide (f_Hash file = se_ValueString expr)) then false
  else (se_ValueUint expr =? 0) || (f_Size file =? se_ValueUint expr).

Definition numericField (tag : Z) (file : File) : option Z :=
  if tag =? SearchTagSize then Some (f_Size file)
  else if tag =? SearchTagSources then Some (f_Sources file)
  else if tag =? SearchTagComplete then Some (f_Completed file)
  else if tag =? SearchTagBitrate then Some (f_Bitrate file)
  else if tag =? SearchTagLength then Some (f_Runtime file)
  else None.

(** How the two operands of a boolean node combine; [(matches, prune)]. *)
Definition combineMatch (kind : SearchKind) (l r : bool * bool) : bool * bool :=
  let '(leftMatch, leftPrune) := l in
  let '(rightMatch, rightPrune) := r in
  if bool_decide (kind = SearchAndNot) then
    if rightPrune then (leftMatch, leftPrune)
    else if leftPrune then (false, true)
    else (leftMatch && negb rightMatch, false)
  else if leftPrune then (rightMatch, rightPrune)
  else if rightPrune then (leftMatch, false)
  else if bool_decide (kind = SearchOr) then (leftMatch || rightMatch, false)
  else (leftMatch && rightMatch, false).

Fixpoint matchNode (expr : SearchExpr) (file : File) (lowerName : bytes) : bool * bool :=
  match se_Kind expr with
  | SearchText => (matchText (se_Text expr) lowerName, false)
  | SearchString =>
      let tag := se_TagType expr in
      let value := se_ValueString expr in
      if tag =? searchTypeText then (matchText value lowerName, false)
      else if tag =? searchTypeFileType then
        (EqualFold (NormalizeSearchFileType (f_Type file)) (NormalizeSearchFileType value), false)
      else if tag =? searchTypeExt then (EqualFold (fileExt (f_Name file)) value, false)
      else if tag =? searchTypeCodec then (EqualFold (f_Codec file) value, false)
      else if tag =? searchTypeArtist then (containsFold (f_Artist file) value, false)
      else if tag =? searchTypeAlbum then (containsFold (f_Album file) value, false)
      else if tag =? searchTypeTitle then (containsFold (f_Title file) value, false)
      else (false, true)
  | SearchUInt32 | SearchUInt64 =>
      match NumericConstraint expr with
      | None => (false, true)
      | Some (tag, op) =>
          match numericField tag file with
          | None => (false, true)
          | Some have => (CompareSearchValue op have (se_ValueUint expr), false)
          end
      end
  | SearchHash => (matchHashLeaf expr file, false)
  | SearchAnd | SearchOr | SearchAndNot =>
      match expr with
      | mkSearchExpr kind _ _ _ _ l r _ =>
          combineMatch kind
            (match l with Some l => matchNode l file lowerName | None => (false, true) end)
            (match r with Some r => matchNode r file lowerName | None => (false, true) end)
      end
  | SearchRelated => (false, true)
  end.

(** [matchNode] on a pointer: nil constrains nothing. *)
Definition matchNodePtr (expr : option SearchExpr) (file : File) (lowerName : bytes) : bool * bool :=
  match expr with Some e => matchNode e file lowerName | None => (false, true) end.

Definition match_ (expr : SearchExpr) (file : File) : bool :=
  let '(matches, prune) := matchNode expr file (ToLower (f_Name file)) in
  if prune then false else matches.

Definition MatchSearchExpr (expr : option SearchExpr) (file : File) : bool :=
  match expr with Some e => match_ e file | None => false end.

Definition MatchRelatedFilter (expr : SearchExpr) (file : File) : bool :=
  let '(matches, prune) := matchNode expr file (ToLower (f_Name file)) in prune || matches.

Definition emptyFile : File := mkFile [] [] 0 [] 0 0 [] [] [] 0 0 [] 0 0 None.

Definition searchPrunes (expr : SearchExpr) : bool := (matchNode expr emptyFile []).2.

Fixpoint FindRelated (expr : SearchExpr) : option (list FileKey) :=
  match se_Kind expr with
  | SearchRelated => match se_Related expr with [] => None | seeds => Some seeds end
  | SearchAnd =>
      match expr with
      | mkSearchExpr _ _ _ _ _ l r _ =>
          match (match l with Some l => FindRelated l | None => None end) with
          | Some seeds => Some seeds
          | None => match r with Some r => FindRelated r | None => None end
          end
      end
  | _ => None
  end.

End Matching.

(** ** Hash terms ([storage/search_hash.go]) *)

(** The value saturates at the largest uint64. *)
Fixpoint leadingDigits_from (s : bytes) (v : Z) (n : nat) : Z * nat :=
  match s with
  | c :: s' =>
      if (0x30 <=? c) && (c <=? 0x39) then
        let d := c - 0x30 in
        let v := if (2 ^ 64 - 1 - d) `div` 10 <? v then 2 ^ 64 - 1 else v * 10 + d in
        leadingDigits_from s' v (S n)
      else (v, n)
  | [] => (v, n)
  end.
Definition leadingDigits (s : bytes) : Z * nat := leadingDigits_from s 0 0.

(** [encoding/hex]. *)
Definition fromHexChar (c : Z) : option Z :=
  if within 0x30 0x39 c then Some (c - 0x30)
  else if within 0x61 0x66 c then Some (c - 0x61 + 10)
  else if within 0x41 0x46 c then Some (c - 0x41 + 10)
  else None.

Fixpoint hexDecode (s : bytes) : option bytes :=
  match s with
  | [] => Some []
  | [_] => None
  | a :: b :: s =>
      match fromHexChar a, fromHexChar b, hexDecode s with
      | Some x, Some y, Some r => Some (16 * x + y :: r)
      | _, _, _ => None
      end
  end.

Definition hexHash (s : bytes) : option bytes :=
  if (length s <? 2 * hashLen)%nat then None else hexDecode (take (2 * hashLen) s).

Definition colon : Z := 0x3a.
Definition bar : Z := 0x7c.

(** [SIZE:HASH], where the size may be missing. *)
Definition sizedHash (rest : bytes) : option (bytes * Z * nat) :=
  let '(size, n) := leadingDigits rest in
  match rest !! n with
  | Some c =>
      if negb (c =? colon) then None else
      match hexHash (drop (n + 1) rest) with
      | Some hash => Some (hash, size, n)
      | None => None
      end
  | None => None
  end.

Definition parseLinkTail (s : bytes) : option (bytes * Z) :=
  match IndexByte s bar with
  | None => None
  | Some i =>
      let s := drop (i + 1) s in
      let '(size, n) := leadingDigits s in
      match IndexByte (drop n s) bar with
      | None => None
      | Some j =>
          match hexHash (drop (n + j + 1) s) with
          | Some hash => Some (hash, size)
          | None => None
          end
      end
  end.

Definition hashTermPrefixes : list bytes :=
  [str "magnet:?xt=urn:ed2khash:"; str "magnet:?xt=urn:ed2k:"; str "magnet:?xt=ed2k:"].

Definition anchorPrefix : bytes := str "<a href= ed2k://|file|".
Definition linkPrefix : bytes := str "ed2k://|file|".
Definition ed2kPrefix : bytes := str "ed2k:".
Definition relatedPrefix : bytes := str "related:".

Section HashTerms.
Context `{Unicode}.

Definition ParseHashTerm (text : bytes) : option (bytes * Z) :=
  let t := TrimSpace text in
  let lower := ToLower t in
  if HasPrefix lower anchorPrefix then parseLinkTail (drop (length anchorPrefix) t)
  else if HasPrefix lower linkPrefix then parseLinkTail (drop (length linkPrefix) t)
  else if HasPrefix lower ed2kPrefix then
    match sizedHash (drop (length ed2kPrefix) t) with
    | Some (hash, size, _) => Some (hash, size)
    | None => None
    end
  else
    match find (HasPrefix lower) hashTermPrefixes with
    | Some p => match hexHash (drop (length p) t) with Some hash => Some (hash, 0) | None => None end
    | None => None
    end.

(** The loop of [ParseRelatedTerm], which reads [MaxRelatedSeeds] entries at most. *)
Fixpoint relatedSeeds (n : nat) (rest : bytes) : list FileKey :=
  match n with
  | O => []
  | S n =>
      match sizedHash rest with
      | None => []
      | Some (hash, size, k) =>
          mkFileKey hash size ::
          match drop (k + 1 + 2 * hashLen) rest with
          | c :: rest => if c =? colon then relatedSeeds n rest else []
          | [] => []
          end
      end
  end.

Definition ParseRelatedTerm (text : bytes) : option (list FileKey) :=
  let t := TrimSpace text in
  if (length t <? length relatedPrefix)%nat
     || negb (EqualFold (take (length relatedPrefix) t) relatedPrefix) then None
  else
    match relatedSeeds MaxRelatedSeeds (drop (length relatedPrefix) t) with
    | [] => None
    | seeds => Some seeds
    end.

End HashTerms.

(** ** The SQL engines' WHERE clause *)

Inductive sqlArg := ArgString (s : bytes) | ArgBytes (b : bytes) | ArgUint (n : Z).

#[export] Instance sqlArg_eq_dec : EqDecision sqlArg.
Proof. solve_decision. Defined.

Record whereNode := mkWhere { wn_sql : bytes; wn_args : list sqlArg; wn_prune : bool }.

Definition prunedNode : whereNode := mkWhere [] [] true.
Definition contradictionNode : whereNode := mkWhere [] [] false.

Definition contradiction (n : whereNode) : bool := negb (wn_prune n) && bool_decide (wn_sql n = []).

Inductive Dialect := DialectMariaDB | DialectMySQL.

#[export] Instance Dialect_eq_dec : EqDecision Dialect.
Proof. solve_decision. Defined.

Definition ftMinTokenSize (dialect : Dialect) : nat :=
  match dialect with DialectMySQL => 2 | DialectMariaDB => 3 end.

Definition escapeLikeByte (c : Z) : bytes :=
  if (c =? 0x5c) || (c =? 0x25) || (c =? 0x5f) then [0x5c; c] else [c].
Definition escapeLike (term : bytes) : bytes := flat_map escapeLikeByte term.

Definition ftPhrase (dialect : Dialect) (run : bytes) : bytes :=
  match dialect with
  | DialectMySQL => [0x2b; 0x22] ++ run ++ [0x22]
  | DialectMariaDB => [0x2b] ++ run ++ [0x2a]
  end.

(** [strings.Join]. *)
Fixpoint Join (parts : list bytes) (sep : bytes) : bytes :=
  match parts with
  | [] => []
  | [p] => p
  | p :: parts => p ++ sep ++ Join parts sep
  end.

Definition ftIndexable (minTok : nat) (run : bytes) : bool := (minTok <=? length (runes run))%nat.

Definition sqlOperators : list bytes := [str "="; str ">"; str "<"; str ">="; str "<="; str "<>"].

Definition sqlNumericColumn (tag : Z) : option bytes :=
  if tag =? SearchTagSize then Some (str "f.size")
  else if tag =? SearchTagSources then Some (str "f.sources")
  else if tag =? SearchTagComplete then Some (str "f.completed")
  else if tag =? SearchTagBitrate then Some (str "s.bitrate")
  else if tag =? SearchTagLength then Some (str "s.length")
  else None.

Definition mediaStringField (tagType : Z) : option bytes :=
  if tagType =? searchTypeArtist then Some (str "artist")
  else if tagType =? searchTypeAlbum then Some (str "album")
  else if tagType =? searchTypeTitle then Some (str "title")
  else None.

Definition joinWhereNodes (left right : whereNode) (op : bytes) : whereNode :=
  mkWhere (str "(" ++ wn_sql left ++ op ++ wn_sql right ++ str ")") (wn_args left ++ wn_args right) false.

Definition combineWhereNodes (kind : SearchKind) (left right : whereNode) : whereNode :=
  if bool_decide (kind = SearchAndNot) then
    if wn_prune right || contradiction right then left
    else if wn_prune left then prunedNode
    else if contradiction left then contradictionNode
    else joinWhereNodes left right (str " AND NOT ")
  else if wn_prune left then right
  else if wn_prune right then left
  else if bool_decide (kind = SearchOr) then
    if contradiction left then right
    else if contradiction right then left
    else joinWhereNodes left right (str " OR ")
  else if contradiction left || contradiction right then contradictionNode
  else joinWhereNodes left right (str " AND ").

Section Where.
Context `{Unicode}.

(** The boolean-mode operators of the indexable runs, then a LIKE for every run MATCH does
    not pin down. *)
Definition ftLeaf (terms : list bytes) (dialect : Dialect) : whereNode :=
  let minTok := ftMinTokenSize dialect in
  let phrases := map (ftPhrase dialect) (filter (λ run, ftIndexable minTok run = true) (flat_map alnumRuns terms)) in
  let likes := flat_map (λ t,
    let literal := match alnumRuns t with [] => true | _ => false end in
    filter (λ run, bool_decide (dialect = DialectMySQL) || literal || negb (ftIndexable minTok run) = true)
      (termRuns t)) terms in
  let '(parts, args) :=
    match phrases with
    | [] => ([], [])
    | _ => ([str "MATCH(s.name) AGAINST (? IN BOOLEAN MODE)"], [ArgString (Join phrases (str " "))])
    end in
  mkWhere
    (str "(" ++ Join (parts ++ map (λ _, str "s.name LIKE ?") likes) (str " AND ") ++ str ")")
    (args ++ map (λ run, ArgString (str "%" ++ escapeLike run ++ str "%")) likes) false.

Definition textWhere (text : bytes) (dialect : Dialect) : whereNode :=
  match splitTerms text with
  | [] => contradictionNode
  | terms => ftLeaf terms dialect
  end.

Fixpoint buildSearchNode (expr : SearchExpr) (dialect : Dialect) : whereNode :=
  let value := se_ValueString expr in
  match se_Kind expr with
  | SearchText => textWhere (se_Text expr) dialect
  | SearchString =>
      let tag := se_TagType expr in
      if tag =? searchTypeText then textWhere value dialect
      else if tag =? searchTypeFileType then
        mkWhere (str "(s.type = ?)") [ArgString (NormalizeSearchFileType value)] false
      else if tag =? searchTypeExt then mkWhere (str "(s.ext = ?)") [ArgString value] false
      else if tag =? searchTypeCodec then mkWhere (str "(s.codec = ?)") [ArgString value] false
      else
        match mediaStringField tag with
        | Some col => mkWhere (str "(s." ++ col ++ str " LIKE ?)")
            [ArgString (str "%" ++ escapeLike value ++ str "%")] false
        | None => prunedNode
        end
  | SearchUInt32 | SearchUInt64 =>
      match NumericConstraint expr with
      | None => prunedNode
      | Some (tag, op) =>
          match sqlNumericColumn tag with
          | None => prunedNode
          | Some col =>
              mkWhere (str "(" ++ col ++ str " " ++ nth (Z.to_nat op) sqlOperators [] ++ str " ?)")
                [ArgUint (se_ValueUint expr)] false
          end
      end
  | SearchHash =>
      if se_ValueUint expr =? 0 then mkWhere (str "(f.hash = ?)") [ArgBytes value] false
      else mkWhere (str "(f.hash = ? AND f.size = ?)") [ArgBytes value; ArgUint (se_ValueUint expr)] false
  | SearchAnd | SearchOr | SearchAndNot =>
      match expr with
      | mkSearchExpr kind _ _ _ _ l r _ =>
          combineWhereNodes kind
            (match l with Some l => buildSearchNode l dialect | None => prunedNode end)
            (match r with Some r => buildSearchNode r dialect | None => prunedNode end)
      end
  | SearchRelated => prunedNode
  end.

Definition BuildSearchWhere (expr : option SearchExpr) (dialect : Dialect) : bytes * list sqlArg :=
  let node := match expr with Some e => buildSearchNode e dialect | None => prunedNode end in
  if wn_prune node then ([], []) else (wn_sql node, wn_args node).

(** ** The scan guard *)

Definition hasIndexableRun (terms : list bytes) (minTok : nat) : bool :=
  existsb (λ t, existsb (ftIndexable minTok) (alnumRuns t)) terms.

Record anchor := mkAnchor { an_anchored : bool; an_scan : bool; an_prune : bool }.

Definition textAnchor (text : bytes) (minTok : nat) : anchor :=
  match splitTerms text with
  | [] => mkAnchor true false false
  | terms => if hasIndexableRun terms minTok then mkAnchor true false false else mkAnchor false true false
  end.

Definition combineAnchor (kind : SearchKind) (l r : anchor) : anchor :=
  if bool_decide (kind = SearchAndNot) then
    if an_prune r then l
    else if an_prune l then mkAnchor false false true
    else mkAnchor (an_anchored l) (negb (an_anchored l) && (an_scan l || an_scan r)) false
  else if an_prune l then r
  else if an_prune r then mkAnchor (an_anchored l) (an_scan l) false
  else if bool_decide (kind = SearchOr) then
    mkAnchor (an_anchored l && an_anchored r) (an_scan l || an_scan r) false
  else
    let anchored := an_anchored l || an_anchored r in
    mkAnchor anchored (negb anchored && (an_scan l || an_scan r)) false.

Fixpoint searchAnchor (expr : SearchExpr) (minTok : nat) : anchor :=
  match se_Kind expr with
  | SearchText => textAnchor (se_Text expr) minTok
  | SearchString =>
      let tag := se_TagType expr in
      if tag =? searchTypeText then textAnchor (se_ValueString expr) minTok
      else if (tag =? searchTypeFileType) || (tag =? searchTypeExt) || (tag =? searchTypeCodec) then
        mkAnchor false false false
      else match mediaStringField tag with
           | Some _ => mkAnchor false false false
           | None => mkAnchor false false true
           end
  | SearchUInt32 | SearchUInt64 =>
      match NumericConstraint expr with
      | None => mkAnchor false false true
      | Some (tag, _) =>
          match sqlNumericColumn tag with
          | None => mkAnchor false false true
          | Some _ => mkAnchor false false false
          end
      end
  | SearchHash => mkAnchor true false false
  | SearchAnd | SearchOr | SearchAndNot =>
      match expr with
      | mkSearchExpr kind _ _ _ _ l r _ =>
          combineAnchor kind
            (match l with Some l => searchAnchor l minTok | None => mkAnchor false false true end)
            (match r with Some r => searchAnchor r minTok | None => mkAnchor false false true end)
      end
  | SearchRelated => mkAnchor false false true
  end.

Definition SearchNeedsScan (expr : option SearchExpr) (minTok : nat) : bool :=
  match expr with Some e => an_scan (searchAnchor e minTok) | None => false end.

End Where.

(** ** Induction on trees, and their leaves *)

Lemma SearchExpr_tree_ind (P : SearchExpr → Prop) :
  (∀ kind text tag vs vu l r rel,
     from_option P True l → from_option P True r → P (mkSearchExpr kind text tag vs vu l r rel)) →
  ∀ e, P e.
Proof.
  intros HP. fix IH 1. intros [kind text tag vs vu l r rel].
  apply HP; [destruct l as [l|]|destruct r as [r|]]; simpl; auto.
Qed.

Definition is_bool (k : SearchKind) : bool :=
  bool_decide (k = SearchAnd ∨ k = SearchOr ∨ k = SearchAndNot).

Fixpoint leaves (e : SearchExpr) : list SearchExpr :=
  match e with
  | mkSearchExpr kind _ _ _ _ l r _ =>
      if is_bool kind then
        match l with Some l => leaves l | None => [] end ++
        match r with Some r => leaves r | None => [] end
      else [e]
  end.

Section Theory.
Context `{U : Unicode}.
Implicit Types (e : SearchExpr) (file : File) (d : Dialect).

(** The three walks at a boolean node. *)
Lemma walks_bool kind text tag vs vu l r rel file name d minTok :
  is_bool kind = true →
  let e := mkSearchExpr kind text tag vs vu l r rel in
  matchNode e file name = combineMatch kind (matchNodePtr l file name) (matchNodePtr r file name) ∧
  buildSearchNode e d = combineWhereNodes kind
    (from_option (λ l, buildSearchNode l d) prunedNode l) (from_option (λ r, buildSearchNode r d) prunedNode r) ∧
  searchAnchor e minTok = combineAnchor kind
    (from_option (λ l, searchAnchor l minTok) (mkAnchor false false true) l)
    (from_option (λ r, searchAnchor r minTok) (mkAnchor false false true) r) ∧
  leaves e = from_option leaves [] l ++ from_option leaves [] r.
Proof. intros Hb. destruct kind; try discriminate Hb; by destruct l, r. Qed.

(** A numeric leaf has a column exactly when it has a field. *)
Lemma numeric_fields tag file : is_Some (numericField tag file) ↔ is_Some (sqlNumericColumn tag).
Proof. unfold numericField, sqlNumericColumn. repeat case_match; split; intros [? ?]; simplify_eq; eauto. Qed.

Lemma textWhere_prune text d : wn_prune (textWhere text d) = false.
Proof. unfold textWhere, ftLeaf. repeat case_match; done. Qed.

Lemma textAnchor_prune text minTok : an_prune (textAnchor text minTok) = false.
Proof. unfold textAnchor. repeat case_match; done. Qed.

Lemma prune_leaf e file name d minTok :
  is_bool (se_Kind e) = false →
  (matchNode e file name).2 = wn_prune (buildSearchNode e d) ∧
  (matchNode e file name).2 = an_prune (searchAnchor e minTok).
Proof.
  intros Hb. destruct e as [kind text tag vs vu l r rel]. simpl in Hb.
  destruct kind; try discriminate Hb; cbn [matchNode buildSearchNode searchAnchor se_Kind se_TagType se_ValueString se_Text];
    rewrite ?textWhere_prune, ?textAnchor_prune; [done| | | |by case_match|done].
  - destruct (tag =? searchTypeText); [by rewrite textWhere_prune, textAnchor_prune|].
    destruct (tag =? searchTypeFileType); [done|]. destruct (tag =? searchTypeExt); [done|].
    destruct (tag =? searchTypeCodec); [done|]. cbn [orb]. unfold mediaStringField.
    destruct (tag =? searchTypeArtist); [done|]. destruct (tag =? searchTypeAlbum); [done|].
    by destruct (tag =? searchTypeTitle).
  - destruct (NumericConstraint _) as [[t op]|]; [|done]. pose proof (numeric_fields t file) as [H1 H2].
    destruct (numericField t file), (sqlNumericColumn t); try done;
      [by destruct (H1 ltac:(eauto))|by destruct (H2 ltac:(eauto))].
  - destruct (NumericConstraint _) as [[t op]|]; [|done]. pose proof (numeric_fields t file) as [H1 H2].
    destruct (numericField t file), (sqlNumericColumn t); try done;
      [by destruct (H1 ltac:(eauto))|by destruct (H2 ltac:(eauto))].
Qed.

Lemma prune_agrees e file name d minTok :
  (matchNode e file name).2 = wn_prune (buildSearchNode e d) ∧
  (matchNode e file name).2 = an_prune (searchAnchor e minTok).
Proof.
  induction e as [kind text tag vs vu l r rel IHl IHr] using SearchExpr_tree_ind.
  destruct (is_bool kind) eqn:Hb; [|by apply prune_leaf].
  destruct (walks_bool kind text tag vs vu l r rel file name d minTok Hb) as (->&->&->&_).
  assert ((matchNodePtr l file name).2 = wn_prune (from_option (λ l, buildSearchNode l d) prunedNode l) ∧
          (matchNodePtr l file name).2 = an_prune (from_option (λ l, searchAnchor l minTok) (mkAnchor false false true) l))
    as [Hl1 Hl2] by (by destruct l).
  assert ((matchNodePtr r file name).2 = wn_prune (from_option (λ r, buildSearchNode r d) prunedNode r) ∧
          (matchNodePtr r file name).2 = an_prune (from_option (λ r, searchAnchor r minTok) (mkAnchor false false true) r))
    as [Hr1 Hr2] by (by destruct r).
  generalize dependent (from_option (λ l, buildSearchNode l d) prunedNode l). intros nl Hl1.
  generalize dependent (from_option (λ r, buildSearchNode r d) prunedNode r). intros nr Hr1.
  generalize dependent (from_option (λ l, searchAnchor l minTok) (mkAnchor false false true) l). intros al Hl2.
  generalize dependent (from_option (λ r, searchAnchor r minTok) (mkAnchor false false true) r). intros ar Hr2.
  destruct (matchNodePtr l file name) as [ml pl], (matchNodePtr r file name) as [mr pr]. simpl in *. subst pl pr.
  unfold combineWhereNodes, combineAnchor. rewrite <- Hl2, <- Hr2. unfold contradiction.
  destruct kind; try discriminate Hb; simpl;
    destruct (wn_prune nl) eqn:E1, (wn_prune nr) eqn:E2; simpl; rewrite ?E1, ?E2, <- ?Hl2, <- ?Hr2; try done;
    repeat case_bool_decide; simpl; rewrite ?E1, ?E2; done.
Qed.

(** *** What the SQL engines' clause means

    [cond] is the shape of a clause: leaves joined by the three connectives. Rendering it
    is what [joinWhereNodes] writes; evaluating it is what a server does with the text,
    given what each leaf's text selects. *)

Inductive cond :=
| CLeaf (n : whereNode)
| CAnd (l r : cond)
| COr (l r : cond)
| CAndNot (l r : cond).

Fixpoint render (c : cond) : whereNode :=
  match c with
  | CLeaf n => n
  | CAnd l r => joinWhereNodes (render l) (render r) (str " AND ")
  | COr l r => joinWhereNodes (render l) (render r) (str " OR ")
  | CAndNot l r => joinWhereNodes (render l) (render r) (str " AND NOT ")
  end.

Fixpoint eval (row : whereNode → bool) (c : cond) : bool :=
  match c with
  | CLeaf n => row n
  | CAnd l r => eval row l && eval row r
  | COr l r => eval row l || eval row r
  | CAndNot l r => eval row l && negb (eval row r)
  end.

(** A clause describes a match result: nothing is selected under a contradiction, and a
    clause selects the row when the memory engine's walk accepts the file. *)
Definition describes (row : whereNode → bool) (n : whereNode) (m : bool * bool) : Prop :=
  wn_prune n = m.2 ∧
  (m.2 = false → contradiction n = true → m.1 = false) ∧
  (m.2 = false → contradiction n = false → ∃ c, render c = n ∧ eval row c = m.1).

Lemma join_not_contradiction l r op : contradiction (joinWhereNodes l r op) = false.
Proof. done. Qed.

Lemma describes_combine row kind nl nr ml mr :
  is_bool kind = true → describes row nl ml → describes row nr mr →
  describes row (combineWhereNodes kind nl nr) (combineMatch kind ml mr).
Proof.
  intros Hb (Pl&Cl&El) (Pr&Cr&Er). destruct ml as [ml pl], mr as [mr pr]. simpl in *.
  unfold describes, combineWhereNodes, combineMatch. rewrite Pl, Pr.
  assert (pl = true → contradiction nl = false) as Kl by (intros ->; unfold contradiction; by rewrite Pl).
  assert (pr = true → contradiction nr = false) as Kr by (intros ->; unfold contradiction; by rewrite Pr).
  destruct kind; try discriminate Hb; cbn [bool_decide decide_rel]; simpl;
    destruct pl, pr; simpl; rewrite ?Kl, ?Kr by done; simpl; try (split_and!; [done| |]; by auto); try done;
    destruct (contradiction nl) eqn:EL, (contradiction nr) eqn:ER; simpl;
    rewrite ?Cl, ?Cr by done; simpl; rewrite ?andb_false_r, ?andb_true_r, ?orb_false_r, ?EL, ?ER; simpl;
    try (split_and!; [done|auto; done|by auto]); try done.
  all: destruct El as (cl&<-&<-); [done|done|]; destruct Er as (cr&<-&<-); [done|done|];
    split_and!; [done|done|]; intros _ _.
  - by exists (CAnd cl cr).
  - by exists (COr cl cr).
  - by exists (CAndNot cl cr).
Qed.

(** A text leaf without a term matches nothing on either side. *)
Lemma textWhere_contradiction text d name :
  contradiction (textWhere text d) = true → matchText text name = false.
Proof.
  unfold textWhere, matchText, textRuns. destruct (splitTerms text); [done|].
  unfold ftLeaf. by destruct (map (ftPhrase d) _).
Qed.

Lemma leaf_contradiction e file name d :
  is_bool (se_Kind e) = false → contradiction (buildSearchNode e d) = true → (matchNode e file name).1 = false.
Proof.
  destruct e as [kind text tag vs vu l r rel]. simpl. intros Hb.
  destruct kind; try discriminate Hb; cbn [matchNode buildSearchNode se_Kind se_TagType se_ValueString se_Text se_ValueUint].
  - apply textWhere_contradiction.
  - destruct (tag =? searchTypeText); [apply textWhere_contradiction|].
    repeat (case_match; try done).
  - by repeat case_match.
  - by repeat case_match.
  - by case_match.
  - done.
Qed.

(** C18: the engines agree on every search. Suppose a row's columns satisfy each leaf of the
    WHERE clause exactly when the memory engine's test of that leaf accepts the file. Then
    for every tree, however unsupported tags and empty terms are nested in it, the whole
    clause selects the row exactly when the memory engine matches the file; a tree that
    constrains nothing gives no clause and matches nothing, and a clause that is empty
    because no row can meet it matches nothing either. *)
Theorem engines_agree e file d row :
  Forall (λ leaf, wn_prune (buildSearchNode leaf d) = false → contradiction (buildSearchNode leaf d) = false →
    row (buildSearchNode leaf d) = (matchNode leaf file (ToLower (f_Name file))).1) (leaves e) →
  let node := buildSearchNode e d in
  if wn_prune node || contradiction node then MatchSearchExpr (Some e) file = false
  else ∃ c, render c = node ∧ eval row c = MatchSearchExpr (Some e) file.
Proof.
  intros HL. set (name := ToLower (f_Name file)) in *.
  assert (describes row (buildSearchNode e d) (matchNode e file name)) as (HP&HC&HE).
  { revert HL. induction e as [kind text tag vs vu l r rel IHl IHr] using SearchExpr_tree_ind.
    destruct (is_bool kind) eqn:Hb.
    - destruct (walks_bool kind text tag vs vu l r rel file name d 0 Hb) as (->&->&_&->).
      intros [HL1 HL2]%Forall_app. apply describes_combine; [done| |]; [destruct l|destruct r]; simpl in *;
        auto; by split.
    - intros HL. replace (leaves _) with [mkSearchExpr kind text tag vs vu l r rel] in HL by (simpl; by rewrite Hb).
      apply Forall_cons in HL as [HL _]. split_and!.
      + symmetry. by apply (prune_leaf _ file name d 0).
      + intros _ HC. by eapply leaf_contradiction.
      + intros HP HC. exists (CLeaf (buildSearchNode (mkSearchExpr kind text tag vs vu l r rel) d)). split; [done|].
        simpl eval. apply HL; [|done].
        rewrite <- HP. symmetry. by apply (prune_leaf _ file name d 0). }
  cbv zeta. cbn [MatchSearchExpr]. unfold match_. fold name. rewrite HP.
  destruct (matchNode e file name) as [m [|]]; [done|]. cbn [orb snd fst] in *.
  destruct (contradiction _); [by apply HC|]. by apply HE.
Qed.

(** Pruning depends on the shape of a search alone. Whatever file is looked at, under
    whatever name, the matcher drops a node exactly when the SQL builder of either dialect
    drops it and the scan guard drops it, so [searchPrunes], which asks about an empty file,
    answers for all files. *)
Lemma prune_by_shape e file name d minTok :
  (matchNode e file name).2 = searchPrunes e ∧
  wn_prune (buildSearchNode e d) = searchPrunes e ∧ an_prune (searchAnchor e minTok) = searchPrunes e.
Proof.
  unfold searchPrunes. destruct (prune_agrees e file name d minTok) as [H1 H2].
  destruct (prune_agrees e emptyFile [] d minTok) as [H3 H4]. by rewrite H1, <- H3, <- H4.
Qed.

(** *** The scan guard *)

(** A clause that begins with a full-text lookup. *)
Definition lookup_clause (n : whereNode) : bool := HasPrefix (wn_sql n) (str "(MATCH(s.name) AGAINST").

Lemma HasPrefix_app s p : HasPrefix (p ++ s) p = true.
Proof. apply HasPrefix_iff. by exists s. Qed.

Lemma ftLeaf_lookup terms d :
  hasIndexableRun terms (ftMinTokenSize d) = true → lookup_clause (ftLeaf terms d) = true.
Proof.
  intros (t&Ht&(run&Hr&Hi)%existsb_exists)%existsb_exists. unfold lookup_clause, ftLeaf.
  destruct (map (ftPhrase d) _) as [|ph phs] eqn:E.
  - exfalso. apply map_eq_nil in E.
    assert (run ∈ filter (λ run, ftIndexable (ftMinTokenSize d) run = true) (flat_map alnumRuns terms)) as Hin.
    { apply list_elem_of_filter. split; [done|]. apply list_elem_of_In, in_flat_map. eauto. }
    rewrite E in Hin. by apply elem_of_nil in Hin.
  - clear E. simpl wn_sql. destruct (map _ _); reflexivity.
Qed.

Lemma text_reached text d name :
  an_anchored (textAnchor text (ftMinTokenSize d)) = true → matchText text name = true →
  lookup_clause (textWhere text d) = true.
Proof.
  unfold textAnchor, matchText, textRuns, textWhere. destruct (splitTerms text) as [|t ts]; [done|].
  destruct (hasIndexableRun (t :: ts) _) eqn:E; [|done]. intros _ _. by apply ftLeaf_lookup.
Qed.

(** The scan guard is sound. When it calls a search anchored, every file the search
    matches is reached through an index: some leaf that accepts the file either is a hash
    lookup or renders to a clause that begins with a full-text MATCH. *)
Lemma anchored_is_indexed e file name d :
  an_anchored (searchAnchor e (ftMinTokenSize d)) = true →
  matchNode e file name = (true, false) →
  ∃ leaf, leaf ∈ leaves e ∧ (matchNode leaf file name).1 = true ∧
    (se_Kind leaf = SearchHash ∨ lookup_clause (buildSearchNode leaf d) = true).
Proof.
  induction e as [kind text tag vs vu l r rel IHl IHr] using SearchExpr_tree_ind.
  destruct (is_bool kind) eqn:Hb.
  - destruct (walks_bool kind text tag vs vu l r rel file name d (ftMinTokenSize d) Hb) as (->&_&->&->).
    assert (an_prune (from_option (λ l, searchAnchor l (ftMinTokenSize d)) (mkAnchor false false true) l) =
      (matchNodePtr l file name).2) as Pl by (destruct l; [symmetry; by apply (prune_agrees _ _ _ d)|done]).
    assert (an_prune (from_option (λ r, searchAnchor r (ftMinTokenSize d)) (mkAnchor false false true) r) =
      (matchNodePtr r file name).2) as Pr by (destruct r; [symmetry; by apply (prune_agrees _ _ _ d)|done]).
    assert (∀ o, from_option (λ e, an_anchored (searchAnchor e (ftMinTokenSize d)) = true →
        matchNode e file name = (true, false) → ∃ leaf, leaf ∈ leaves e ∧ (matchNode leaf file name).1 = true ∧
        (se_Kind leaf = SearchHash ∨ lookup_clause (buildSearchNode leaf d) = true)) True o →
      an_anchored (from_option (λ l, searchAnchor l (ftMinTokenSize d)) (mkAnchor false false true) o) = true →
      matchNodePtr o file name = (true, false) → ∃ leaf, leaf ∈ from_option leaves [] o ∧
        (matchNode leaf file name).1 = true ∧
        (se_Kind leaf = SearchHash ∨ lookup_clause (buildSearchNode leaf d) = true)) as HO by (by intros [o|]).
    specialize (HO l IHl) as HL. specialize (HO r IHr) as HR. clear HO IHl IHr.
    assert (∀ P : SearchExpr → Prop, (∃ leaf, leaf ∈ from_option leaves [] l ∧ P leaf) ∨
      (∃ leaf, leaf ∈ from_option leaves [] r ∧ P leaf) →
      ∃ leaf, leaf ∈ from_option leaves [] l ++ from_option leaves [] r ∧ P leaf) as Hside.
    { intros P [(leaf&?&?)|(leaf&?&?)]; exists leaf; (split; [|done]); apply elem_of_app; auto. }
    intros HA HM. apply Hside. clear Hside.
    set (al := from_option _ _ l) in HA, Pl, HL. set (ar := from_option _ _ r) in HA, Pr, HR. clearbody al ar.
    destruct (matchNodePtr l file name) as [ml pl], (matchNodePtr r file name) as [mr pr].
    unfold combineMatch in HM. unfold combineAnchor in HA. cbn [snd] in Pl, Pr. rewrite Pl, Pr in HA.
    destruct kind; try discriminate Hb; cbn [bool_decide decide_rel] in HM, HA; simpl in HM, HA;
      destruct pl, pr, ml, mr; simpl in *; try discriminate HM; auto;
      destruct (an_anchored al) eqn:?, (an_anchored ar) eqn:?; simpl in *; try discriminate HA; auto.
  - intros HA HM. exists (mkSearchExpr kind text tag vs vu l r rel).
    split; [simpl; rewrite Hb; by left|]. rewrite HM. split; [done|].
    destruct kind; try discriminate Hb; try by left.
    all: right; revert HA HM; cbn [matchNode buildSearchNode searchAnchor se_Kind se_TagType se_ValueString se_Text].
    + intros HA [= HM]. by eapply text_reached.
    + destruct (tag =? searchTypeText); [intros HA [= HM]; by eapply text_reached|].
      intros HA. repeat case_match; discriminate HA.
    + intros HA. repeat case_match; discriminate HA.
    + intros HA. repeat case_match; discriminate HA.
Qed.

End Theory.

(** ** Writing hash terms *)

Definition hexChar (n : Z) : Z := if n <? 10 then 0x30 + n else 0x61 + (n - 10).
Definition hexText (hash : bytes) : bytes := flat_map (λ b, [hexChar (b `div` 16); hexChar (b `mod` 16)]) hash.

Definition is_digit_char (c : Z) : Prop := 0x30 <= c <= 0x39.
Definition decimal (ds : bytes) : Z := fold_left (λ v c, v * 10 + (c - 0x30)) ds 0.

(** An ed2k link, and the related-files term of an eMule client. *)
Definition ed2kLink (name ds hash : bytes) : bytes :=
  linkPrefix ++ name ++ bar :: ds ++ bar :: hexText hash ++ [bar; 0x2f].
Definition relatedTerm (hashes : list bytes) : bytes :=
  relatedPrefix ++ Join (map (λ h, colon :: hexText h) hashes) [colon].

Lemma fromHexChar_hexChar n : 0 <= n < 16 → fromHexChar (hexChar n) = Some n.
Proof.
  intros Hn. unfold fromHexChar, hexChar, within. destruct (Z.ltb_spec n 10).
  - rewrite (proj2 (Z.leb_le _ _)), (proj2 (Z.leb_le _ _)) by lia. simpl. f_equal. lia.
  - rewrite (proj2 (Z.leb_gt (0x61 + (n - 10)) 0x39)) by lia. rewrite andb_false_r.
    rewrite (proj2 (Z.leb_le _ _)), (proj2 (Z.leb_le _ _)) by lia. simpl. f_equal. lia.
Qed.

Lemma length_hexText hash : length (hexText hash) = (2 * length hash)%nat.
Proof. induction hash as [|b hash IH]; [done|]. simpl in *. lia. Qed.

Lemma hexDecode_hexText hash : wf_bytes hash → hexDecode (hexText hash) = Some hash.
Proof.
  induction 1 as [|b hash Hb _ IH]; [done|]. unfold is_byte in Hb.
  change (hexText (b :: hash)) with (hexChar (b `div` 16) :: hexChar (b `mod` 16) :: hexText hash).
  cbn [hexDecode]. rewrite !fromHexChar_hexChar, IH by (Z.to_euclidean_division_equations; lia).
  do 2 f_equal. Z.to_euclidean_division_equations. lia.
Qed.

Lemma hexHash_hexText hash rest : wf_bytes hash → length hash = hashLen → hexHash (hexText hash ++ rest) = Some hash.
Proof.
  intros Hw Hl. unfold hexHash. rewrite length_app, length_hexText, Hl. int_test.
  rewrite take_app_exact by (by rewrite length_hexText, Hl). by apply hexDecode_hexText.
Qed.

Lemma hexText_chars hash : wf_bytes hash → Forall (λ c, is_digit_char c ∨ 0x61 <= c <= 0x66) (hexText hash).
Proof.
  induction 1 as [|b hash Hb _ IH]; [constructor|]. unfold is_byte in Hb. unfold hexText, is_digit_char, hexChar in *.
  cbn [flat_map app]. repeat (apply Forall_cons; split); [| |done]; int_test; Z.to_euclidean_division_equations; lia.
Qed.

(** No overflow, so nothing saturates. *)
Lemma leadingDigits_app ds rest :
  Forall is_digit_char ds → match rest with c :: _ => ~ is_digit_char c | [] => True end → decimal ds < 2 ^ 64 →
  leadingDigits (ds ++ rest) = (decimal ds, length ds).
Proof.
  intros Hds Hr. unfold leadingDigits, decimal.
  assert (∀ ds v, 0 <= v → Forall is_digit_char ds → v <= fold_left (λ v c, v * 10 + (c - 0x30)) ds v) as Hmono.
  { clear. intros ds. induction ds as [|c ds IH]; intros v Hv Hds; [simpl; lia|].
    apply Forall_cons in Hds as [Hc Hds]. unfold is_digit_char in Hc. simpl.
    specialize (IH (v * 10 + (c - 0x30)) ltac:(lia) Hds). lia. }
  change (length ds) with (0 + length ds)%nat. generalize 0%nat.
  assert (0 <= 0) as H0 by done. revert H0. generalize 0 at 2 3 4 5.
  induction Hds as [|c ds Hc Hds IH]; intros v Hv n Hlt; cbn [app leadingDigits_from length].
  - rewrite Nat.add_0_r. destruct rest as [|c rest]; [done|]. cbn [leadingDigits_from].
    destruct ((0x30 <=? c) && (c <=? 0x39)) eqn:E; [|done]. apply andb_true_iff in E. unfold is_digit_char in Hr. lia.
  - unfold is_digit_char in Hc. rewrite (proj2 (Z.leb_le 0x30 c)), (proj2 (Z.leb_le c 0x39)) by lia. cbn [andb].
    cbn [fold_left] in Hlt |- *. specialize (Hmono ds (v * 10 + (c - 0x30)) ltac:(lia) Hds).
    destruct (Z.ltb_spec ((2 ^ 64 - 1 - (c - 0x30)) `div` 10) v) as [Hs|Hs].
    { exfalso. Z.to_euclidean_division_equations. lia. }
    rewrite IH by (done || lia). by rewrite Nat.add_succ_r.
Qed.

Lemma IndexByte_app a c rest : c ∉ a → IndexByte (a ++ c :: rest) c = Some (length a).
Proof.
  intros Ha. induction a as [|b a IH]; cbn [app IndexByte length]; [by rewrite Z.eqb_refl|].
  apply not_elem_of_cons in Ha as [Hb Ha]. rewrite (proj2 (Z.eqb_neq b c)) by congruence. by rewrite IH.
Qed.

Lemma parseLinkTail_ok name ds hash :
  bar ∉ name → Forall is_digit_char ds → decimal ds < 2 ^ 64 → wf_bytes hash → length hash = hashLen →
  parseLinkTail (name ++ bar :: ds ++ bar :: hexText hash ++ [bar; 0x2f]) = Some (hash, decimal ds).
Proof.
  intros Hn Hd Hlt Hw Hl. unfold parseLinkTail. rewrite IndexByte_app by done.
  replace (name ++ bar :: ds ++ bar :: hexText hash ++ [bar; 0x2f])
    with ((name ++ [bar]) ++ ds ++ bar :: hexText hash ++ [bar; 0x2f]) by (by rewrite <- app_assoc).
  rewrite drop_app_exact by (rewrite length_app; simpl; lia).
  rewrite leadingDigits_app by (try done; unfold is_digit_char, bar; lia).
  rewrite drop_app_length. change (IndexByte (bar :: _) bar) with (Some 0%nat). cbv iota beta.
  replace (ds ++ bar :: hexText hash ++ [bar; 0x2f]) with ((ds ++ [bar]) ++ hexText hash ++ [bar; 0x2f])
    by (by rewrite <- app_assoc).
  rewrite drop_app_exact by (rewrite length_app; simpl; lia). by rewrite hexHash_hexText.
Qed.

Lemma sizedHash_colon hash rest :
  wf_bytes hash → length hash = hashLen → sizedHash (colon :: hexText hash ++ rest) = Some (hash, 0, 0%nat).
Proof.
  intros Hw Hl. unfold sizedHash. change (leadingDigits (colon :: _)) with (0, 0%nat). cbv iota beta.
  change ((colon :: hexText hash ++ rest) !! 0%nat) with (Some colon). cbv iota beta.
  rewrite Z.eqb_refl. cbn [negb Nat.add drop].
  by rewrite drop_0, hexHash_hexText.
Qed.

Lemma relatedSeeds_ok n hashes :
  Forall (λ h, wf_bytes h ∧ length h = hashLen) hashes → (length hashes <= n)%nat →
  relatedSeeds n (Join (map (λ h, colon :: hexText h) hashes) [colon]) = map (λ h, mkFileKey h 0) hashes.
Proof.
  intros Hh. revert n. induction Hh as [|h hashes [Hw Hl] Hh IH]; intros n Hn; [by destruct n|].
  destruct n as [|n]; [simpl in Hn; lia|]. cbn [relatedSeeds map].
  assert (∃ rest, Join ((colon :: hexText h) :: map (λ h, colon :: hexText h) hashes) [colon] =
    colon :: hexText h ++ rest ∧
    match rest with c :: rest => if c =? colon then relatedSeeds n rest else [] | [] => [] end =
    map (λ h, mkFileKey h 0) hashes) as (rest&->&Hrest).
  { destruct hashes as [|h2 hashes]; [exists []; by rewrite app_nil_r|].
    eexists ([colon] ++ Join (map (λ h, colon :: hexText h) (h2 :: hashes)) [colon]). split; [done|].
    cbn [app]. rewrite Z.eqb_refl. apply IH. simpl in *. lia. }
  rewrite sizedHash_colon by done. f_equal. cbn [Nat.add drop].
  rewrite drop_app_exact by (by rewrite length_hexText, Hl). exact Hrest.
Qed.

Section HashTermTheory.
Context `{UA : UnicodeAscii}.

Lemma char_not_space c : 0x21 <= c <= 0x7e → IsSpace c = false.
Proof.
  intros Hc. rewrite space_ascii by lia. unfold within. rewrite (proj2 (Z.eqb_neq c 0x20)) by lia.
  rewrite (proj2 (Z.leb_gt c 0x0d)) by lia. by rewrite andb_false_r.
Qed.

Lemma EqualFold_refl s : ascii s → EqualFold s s = true.
Proof.
  intros Hs. unfold EqualFold, runes. rewrite <- (app_nil_r s), decode_ascii_app, app_nil_r by done.
  rewrite bool_decide_true by done. induction Hs as [|c s Hc _ IH]; [done|].
  cbn. rewrite fold_ascii by done. exact IH.
Qed.

(** A term that ends in a hexadecimal digit is not trimmed. *)
Lemma TrimSpace_hex a s hash :
  0x21 <= a <= 0x7e → wf_bytes hash → hash ≠ [] → TrimSpace (a :: s ++ hexText hash) = a :: s ++ hexText hash.
Proof.
  intros Ha Hw Hne. destruct (exists_last (l := hexText hash)) as (init&z&E).
  { intros E%(f_equal length). rewrite length_hexText in E. by destruct hash. }
  pose proof (hexText_chars hash Hw) as Hc. rewrite E in *. apply Forall_app in Hc as [_ Hc].
  apply Forall_cons in Hc as [Hz _]. unfold is_digit_char in Hz.
  rewrite app_assoc. apply TrimSpace_id; try lia; apply char_not_space; lia.
Qed.

(** A pasted link is a hash search. For any name without a bar, any size that fits 64
    bits and any hash, the text of an ed2k file link is read back as its hash and size. A
    related search written as eMule writes it, for up to 32 files, is read back as those
    files in order, and [ed2k::] with a hash as that hash at any size. *)
Lemma hash_terms_read_back name ds hash hashes :
  bar ∉ name → Forall is_digit_char ds → decimal ds < 2 ^ 64 →
  wf_bytes hash → length hash = hashLen →
  Forall (λ h, wf_bytes h ∧ length h = hashLen) hashes → hashes ≠ [] → (length hashes <= MaxRelatedSeeds)%nat →
  ParseHashTerm (ed2kLink name ds hash) = Some (hash, decimal ds) ∧
  ParseHashTerm (ed2kPrefix ++ colon :: hexText hash) = Some (hash, 0) ∧
  ParseRelatedTerm (relatedTerm hashes) = Some (map (λ h, mkFileKey h 0) hashes).
Proof.
  intros Hn Hd Hlt Hw Hl Hhs Hne Hlen.
  assert (hash ≠ []) as Hne0 by (by intros ->).
  split; [|split].
  - unfold ParseHashTerm.
    assert (ed2kLink name ds hash =
      0x65 :: (tail linkPrefix ++ name ++ bar :: ds ++ bar :: hexText hash ++ [bar]) ++ [0x2f]) as E.
    { unfold ed2kLink. change linkPrefix with (0x65 :: tail linkPrefix).
      repeat (rewrite <- app_assoc || rewrite <- app_comm_cons). done. }
    rewrite E, TrimSpace_id, <- E by (try lia; apply char_not_space; lia). unfold ed2kLink.
    rewrite ToLower_prefix by by_decision.
    assert (map lower_byte linkPrefix = linkPrefix) as -> by done.
    rewrite HasPrefix_app. change (HasPrefix (linkPrefix ++ _) anchorPrefix) with false. cbv iota.
    rewrite drop_app_length. by apply parseLinkTail_ok.
  - unfold ParseHashTerm.
    change (ed2kPrefix ++ colon :: hexText hash) with (0x65 :: (tail ed2kPrefix ++ [colon]) ++ hexText hash).
    rewrite TrimSpace_hex by (done || lia).
    change (0x65 :: (tail ed2kPrefix ++ [colon]) ++ hexText hash) with ((ed2kPrefix ++ [colon]) ++ hexText hash).
    rewrite ToLower_prefix by by_decision.
    assert (map lower_byte (ed2kPrefix ++ [colon]) = ed2kPrefix ++ [colon]) as -> by done.
    change (HasPrefix ((ed2kPrefix ++ [colon]) ++ _) anchorPrefix) with false.
    change (HasPrefix ((ed2kPrefix ++ [colon]) ++ _) linkPrefix) with false.
    change (HasPrefix ((ed2kPrefix ++ [colon]) ++ _) ed2kPrefix) with true. cbv iota.
    rewrite <- (app_nil_r (hexText hash)).
    change (drop (length ed2kPrefix) ((ed2kPrefix ++ [colon]) ++ hexText hash ++ []))
      with (colon :: hexText hash ++ []).
    by rewrite sizedHash_colon.
  - unfold ParseRelatedTerm, relatedTerm. destruct (exists_last Hne) as (init&h&->).
    assert (∃ mid, Join (map (λ h, colon :: hexText h) (init ++ [h])) [colon] = mid ++ hexText h) as [mid Hmid].
    { clear. induction init as [|h1 init [mid IH]]; [by exists [colon]|]. cbn [app map].
      destruct (map (λ h0, colon :: hexText h0) (init ++ [h])) as [|x l] eqn:E; [by destruct init|].
      exists (colon :: hexText h1 ++ [colon] ++ mid). cbn [Join]. cbn [Join] in IH. rewrite IH.
      cbn [app]. f_equal. by rewrite <- !app_assoc. }
    apply Forall_app in Hhs as Hhs'. destruct Hhs' as [_ Hh]. apply Forall_cons in Hh as [[Hhw Hhl] _].
    assert (TrimSpace (relatedPrefix ++ Join (map (λ h, colon :: hexText h) (init ++ [h])) [colon]) =
      relatedPrefix ++ Join (map (λ h, colon :: hexText h) (init ++ [h])) [colon]) as ->.
    { rewrite Hmid. change (relatedPrefix ++ mid ++ hexText h) with (0x72 :: (tail relatedPrefix ++ mid ++ hexText h)).
      rewrite (app_assoc (tail relatedPrefix)). apply TrimSpace_hex; [lia|done|by intros ->]. }
    rewrite take_app_length, drop_app_length, length_app.
    rewrite EqualFold_refl by by_decision. int_test. cbn [orb negb].
    rewrite relatedSeeds_ok by done. by destruct init.
Qed.

End HashTermTheory.

(** ** Examples *)

Definition demoFile : File :=
  mkFile (replicate 16 0xab) (str "Spider.Man.avi") 700 (str "Video") 3 1 [] [] [] 0 0 [] 0 0 None.
Definition demoSearch : SearchExpr :=
  boolExpr SearchAndNot
    (boolExpr SearchAnd (textExpr (str "spider-man")) (numberExpr SearchUInt32 0x02000101 100))
    (boolExpr SearchOr (stringExpr 0x990001 (str "unknown")) (textExpr (str "batman"))).

(** A row semantics that gives each leaf's clause the memory engine's answer. *)
Definition demoRow (n : whereNode) : bool :=
  existsb (λ leaf, bool_decide (wn_sql (buildSearchNode (H := asciiTables) leaf DialectMySQL) = wn_sql n ∧
    wn_args (buildSearchNode (H := asciiTables) leaf DialectMySQL) = wn_args n) &&
    (matchNode (H := asciiTables) leaf demoFile (ToLower (H := asciiTables) (f_Name demoFile))).1)
    (leaves demoSearch).

Lemma engines_agree_witness : ∃ c,
  render c = buildSearchNode (H := asciiTables) demoSearch DialectMySQL ∧ eval demoRow c = true.
Proof.
  assert (MatchSearchExpr (H := asciiTables) (Some demoSearch) demoFile = true) as <- by (vm_compute; reflexivity).
  refine (engines_agree (U := asciiTables) demoSearch demoFile DialectMySQL demoRow _).
  repeat (apply Forall_cons; split); [by vm_compute..|apply Forall_nil; exact I].
Defined.

