(* ===== verification/SearchParse.v ===== *)
(** * Parsing a search request: [ed2k/search.go]

    A search arrives in prefix form. The depth of the recursion and the number of leaves are
    bounded while it is read. *)

From S2P Require Import Prelude Buffer Types Text Search.
Local Open Scope Z_scope.

Definition MaxSearchExprDepth : nat := 24.
Definition MaxSearchExprLeaves : Z := 64.

Definition ErrSearchTooManyLeaves : error := ErrNew "search expression has more than 64 leaves".
Definition ErrSearchTooDeep : error := ErrNew "search expression nested deeper than 24 levels".
Definition ErrSearchToken : error := ErrNew "unknown search token".

Definition readSearchTagName : M Buffer (Z * Z) :=
  nameLen ← GetUInt16LE;
  name ← GetChecked nameLen;
  if nameLen =? 1 then
    match name with code :: _ => mret (nameLen, code) | [] => panic end
  else mret (nameLen, 0).

Definition readSearchNumericType : M Buffer Z :=
  op ← GetUInt8;
  '(nameLen, code) ← readSearchTagName;
  mret (Z.lor (Z.lor op (u32 (Z.shiftl nameLen 8))) (u32 (Z.shiftl code 24))).

Section Parse.
Context `{Unicode}.

Definition specialKeywordLeaf (s : bytes) : option SearchExpr :=
  match ParseRelatedTerm s with
  | Some seeds => Some (relatedExpr seeds)
  | None =>
      match ParseHashTerm s with
      | Some (hash, size) => Some (hashExpr hash size)
      | None => None
      end
  end.

Definition keywordLeaf (s : bytes) : SearchExpr :=
  match specialKeywordLeaf s with Some leaf => leaf | None => textExpr s end.

(** [rem] is [MaxSearchExprDepth - depth]. The count of leaves is passed in and returned,
    where the code keeps it behind a pointer: an error ends the whole parse. *)
Fixpoint parseSearchExpr (rem : nat) (leaves : Z) : M Buffer (SearchExpr * Z) :=
  match rem with
  | O => fail ErrSearchTooDeep
  | S rem =>
      token ← GetUInt8;
      let leaves := if negb (token =? 0) then leaves + 1 else leaves in
      if MaxSearchExprLeaves <? leaves then fail ErrSearchTooManyLeaves
      else if token =? 0x01 then
        s ← GetString;
        mret (keywordLeaf s, leaves)
      else if token =? TypeString then
        s ← GetString;
        '(nameLen, code) ← readSearchTagName;
        let typ := Z.lor nameLen (u32 (Z.shiftl code 16)) in
        mret (match (if typ =? SearchTermTag then specialKeywordLeaf s else None) with
              | Some leaf => leaf
              | None => stringExpr typ s
              end, leaves)
      else if token =? TypeUint32 then
        v ← GetUInt32LE;
        typ ← readSearchNumericType;
        mret (numberExpr SearchUInt32 typ v, leaves)
      else if token =? 0x08 then
        lo ← GetUInt32LE;
        hi ← GetUInt32LE;
        typ ← readSearchNumericType;
        mret (numberExpr SearchUInt64 typ (u64 (lo + u64 (Z.shiftl hi 32))), leaves)
      else if token =? 0x00 then
        op ← GetUInt8;
        '(l, leaves) ← parseSearchExpr rem leaves;
        '(r, leaves) ← parseSearchExpr rem leaves;
        let kind := if op =? 0x01 then SearchOr else if op =? 0x02 then SearchAndNot else SearchAnd in
        mret (boolExpr kind l r, leaves)
      else fail ErrSearchToken
  end.

Definition ParseSearchExpr : M Buffer SearchExpr :=
  '(e, _) ← parseSearchExpr MaxSearchExprDepth 0; mret e.

End Parse.

(** ** Any bytes *)

(** Levels of boolean nodes above the deepest leaf, and trees without nil. *)
Fixpoint depth (e : SearchExpr) : nat :=
  match e with
  | mkSearchExpr kind _ _ _ _ l r _ =>
      if is_bool kind then
        S (Nat.max (match l with Some l => depth l | None => O end)
             (match r with Some r => depth r | None => O end))
      else O
  end.

Fixpoint full (e : SearchExpr) : bool :=
  match e with
  | mkSearchExpr kind _ _ _ _ l r _ =>
      if is_bool kind then
        match l, r with Some l, Some r => full l && full r | _, _ => false end
      else true
  end.

Section Theory.
Context `{U : Unicode}.

Lemma decodes_readSearchTagName : decodes (λ r, fits 16 r.1 ∧ fits 8 r.2) readSearchTagName.
Proof.
  unfold readSearchTagName. eapply decodes_bind; [apply decodes_GetUInt16LE|]. intros n Hn.
  eapply decodes_bind; [apply decodes_GetChecked; unfold fits in Hn; lia|]. intros name [Hw Hl].
  destruct (Z.eqb_spec n 1) as [->|]; [|by apply decodes_ret].
  destruct name as [|c name]; [done|]. apply decodes_ret. split; [done|].
  apply Forall_cons in Hw as [Hc _]. unfold is_byte in Hc. by unfold fits.
Qed.

Lemma decodes_readSearchNumericType : decodes (λ _, True) readSearchNumericType.
Proof.
  unfold readSearchNumericType. eapply decodes_bind; [apply decodes_GetUInt8|]. intros op _.
  eapply decodes_bind; [apply decodes_readSearchTagName|]. intros [n c] _. by apply decodes_ret.
Qed.

(** What a parse that has counted [before] leaves may still return. *)
Definition parsed (rem : nat) (before : Z) (r : SearchExpr * Z) : Prop :=
  (depth r.1 < rem)%nat ∧ full r.1 = true ∧ r.2 = before + length (leaves r.1) ∧ r.2 <= MaxSearchExprLeaves.

Lemma parsed_leaf rem before e :
  is_bool (se_Kind e) = false → before + 1 <= MaxSearchExprLeaves → parsed (S rem) before (e, before + 1).
Proof. intros Hb Hn. destruct e. unfold parsed. simpl in *. rewrite Hb. simpl. split_and!; [lia|done|lia|done]. Qed.

Lemma keywordLeaf_leaf s : is_bool (se_Kind (keywordLeaf s)) = false.
Proof. unfold keywordLeaf, specialKeywordLeaf. by repeat case_match; simplify_eq. Qed.

Lemma parsed_bool rem n1 n2 n3 l r kind :
  is_bool kind = true → parsed rem n1 (l, n2) → parsed rem n2 (r, n3) → parsed (S rem) n1 (boolExpr kind l r, n3).
Proof.
  intros Hb (Hd1&Hf1&Hn1&Hm1) (Hd2&Hf2&Hn2&Hm2). unfold parsed in *. simpl in *. rewrite Hb, Hf1, Hf2, length_app.
  split_and!; [lia|done|lia|done].
Qed.

Lemma decodes_parseSearchExpr rem before : decodes (parsed rem before) (parseSearchExpr rem before).
Proof.
  revert before. induction rem as [|rem IH]; intros before; [apply decodes_fail|]. cbn [parseSearchExpr].
  eapply decodes_bind; [apply decodes_GetUInt8|]. intros token _.
  apply decodes_if; intros Hmax; [apply decodes_fail|]. apply Z.ltb_ge in Hmax.
  destruct (Z.eqb_spec token 0) as [Ht|Ht]; cbn [negb] in *.
  { rewrite Ht. cbn [Z.eqb TypeString TypeUint32]. eapply decodes_bind; [apply decodes_GetUInt8|]. intros op _.
    eapply decodes_bind; [apply IH|]. intros [l n2] Hl. eapply decodes_bind; [apply IH|]. intros [r n3] Hr.
    apply decodes_ret. eapply parsed_bool; [|done|done]. by repeat case_match. }
  apply decodes_if; intros _.
  { eapply decodes_bind; [apply decodes_GetString|]. intros s _. apply decodes_ret.
    by apply parsed_leaf; [apply keywordLeaf_leaf|]. }
  apply decodes_if; intros _.
  { eapply decodes_bind; [apply decodes_GetString|]. intros s _.
    eapply decodes_bind; [apply decodes_readSearchTagName|]. intros [n c] _. apply decodes_ret.
    apply parsed_leaf; [|done]. unfold specialKeywordLeaf. by repeat case_match; simplify_eq. }
  apply decodes_if; intros _.
  { eapply decodes_bind; [apply decodes_GetUInt32LE|]. intros v _.
    eapply decodes_bind; [apply decodes_readSearchNumericType|]. intros typ _. apply decodes_ret. by apply parsed_leaf. }
  apply decodes_if; intros _.
  { eapply decodes_bind; [apply decodes_GetUInt32LE|]. intros lo _.
    eapply decodes_bind; [apply decodes_GetUInt32LE|]. intros hi _.
    eapply decodes_bind; [apply decodes_readSearchNumericType|]. intros typ _. apply decodes_ret. by apply parsed_leaf. }
  apply decodes_fail.
Qed.

(** C28: a search request is parsed safely from any bytes. The parser never panics and
    never reads outside the buffer; a tree it returns has fewer than 24 levels of boolean
    nodes and at most 64 leaves, and no boolean node of it misses an operand, so neither
    matching nor rendering it can recurse deep or meet a nil. *)
Theorem ParseSearchExpr_safe b : wf_buf b →
  match ParseSearchExpr b with
  | (b', Ok e) => advances b b' ∧ (depth e < MaxSearchExprDepth)%nat ∧
      length (leaves e) <= MaxSearchExprLeaves ∧ full e = true
  | (b', Err _) => advances b b'
  | (_, Panic) => False
  end.
Proof.
  intros Hb. pose proof (decodes_parseSearchExpr MaxSearchExprDepth 0 b Hb) as H.
  unfold ParseSearchExpr, mbind, M_bind. destruct (parseSearchExpr _ _ b) as [b' [[e n]|err|]]; [|done|done].
  destruct H as (Ha&Hd&Hf&Hn&Hm). simpl in *. split_and!; [done|done|lia|done].
Qed.

(** ** What a client writes *)

(** A query as eMule builds it: keywords, constraints on a one-byte tag, connectives. *)
Inductive query :=
| QText (s : bytes)
| QString (code : Z) (s : bytes)
| QNum32 (op code v : Z)
| QNum64 (op code v : Z)
| QAnd (l r : query)
| QOr (l r : query)
| QAndNot (l r : query).

Definition encString (s : bytes) : bytes := le_split 2 (u16 (length s)) ++ s.
Definition encTagName (code : Z) : bytes := le_split 2 1 ++ [code].

Fixpoint encQuery (q : query) : bytes :=
  match q with
  | QText s => 0x01 :: encString s
  | QString code s => TypeString :: encString s ++ encTagName code
  | QNum32 op code v => TypeUint32 :: le_split 4 v ++ op :: encTagName code
  | QNum64 op code v => 0x08 :: le_split 8 v ++ op :: encTagName code
  | QAnd l r => 0x00 :: 0x00 :: encQuery l ++ encQuery r
  | QOr l r => 0x00 :: 0x01 :: encQuery l ++ encQuery r
  | QAndNot l r => 0x00 :: 0x02 :: encQuery l ++ encQuery r
  end.

(** The tree it stands for: the tag type is the wire bytes behind the value. *)
Fixpoint exprOf (q : query) : SearchExpr :=
  match q with
  | QText s => keywordLeaf s
  | QString code s => stringExpr (1 + 2 ^ 16 * code) s
  | QNum32 op code v => numberExpr SearchUInt32 (op + 2 ^ 8 + 2 ^ 24 * code) v
  | QNum64 op code v => numberExpr SearchUInt64 (op + 2 ^ 8 + 2 ^ 24 * code) v
  | QAnd l r => boolExpr SearchAnd (exprOf l) (exprOf r)
  | QOr l r => boolExpr SearchOr (exprOf l) (exprOf r)
  | QAndNot l r => boolExpr SearchAndNot (exprOf l) (exprOf r)
  end.

Fixpoint wireQuery (q : query) : Prop :=
  match q with
  | QText s => length s < 2 ^ 16
  | QString code s => is_byte code ∧ length s < 2 ^ 16
  | QNum32 op code v => is_byte op ∧ is_byte code ∧ fits 32 v
  | QNum64 op code v => is_byte op ∧ is_byte code ∧ fits 64 v
  | QAnd l r | QOr l r | QAndNot l r => wireQuery l ∧ wireQuery r
  end.

Fixpoint queryDepth (q : query) : nat :=
  match q with QAnd l r | QOr l r | QAndNot l r => S (Nat.max (queryDepth l) (queryDepth r)) | _ => 0 end.
Fixpoint queryLeaves (q : query) : nat :=
  match q with QAnd l r | QOr l r | QAndNot l r => queryLeaves l + queryLeaves r | _ => 1 end.

Lemma reads_byte c : is_byte c → reads GetUInt8 [c] c.
Proof.
  unfold is_byte. intros Hc. rewrite <- (le_split_byte c) by (unfold fits; lia). apply (reads_le 1). unfold fits. lia.
Qed.

Lemma le_split_mod (k : nat) z : le_split k (z `mod` 2 ^ (8 * k)) = le_split k z.
Proof.
  rewrite <- le_combine_split_mod. rewrite <- (length_le_split k z) at 1. apply le_split_combine, wf_le_split.
Qed.

Lemma reads_cons {A B} (m : M Buffer A) (f : A → M Buffer B) c bs a x :
  reads m [c] a → reads (f a) bs x → reads (m ≫= f) (c :: bs) x.
Proof. apply (reads_bind m f [c] bs). Qed.

Lemma reads_tagName {A} code (f : Z * Z → M Buffer A) bs x :
  is_byte code → reads (f (1, code)) bs x → reads (readSearchTagName ≫= f) (encTagName code ++ bs) x.
Proof.
  intros Hc Hf. apply (reads_bind _ _ _ _ (1, code)); [|done]. unfold readSearchTagName, encTagName.
  eapply reads_bind; [apply (reads_le 2); by unfold fits|].
  rewrite <- (app_nil_r [code]). eapply reads_bind; [by apply reads_GetChecked|]. apply reads_ret.
Qed.

(** Disjoint bytes: or is plus. *)
Lemma lor_add a b k : 0 <= a < 2 ^ k → 0 <= b → 0 <= k → Z.lor a (Z.shiftl b k) = a + 2 ^ k * b.
Proof.
  intros Ha Hb Hk. rewrite Z.shiftl_mul_pow2 by done.
  assert (Z.land a (b * 2 ^ k) = 0) as Hd.
  { apply Z.bits_inj'. intros i Hi. rewrite Z.land_spec, Z.bits_0. destruct (Z.lt_ge_cases i k).
    - rewrite Z.mul_pow2_bits_low by done. apply andb_false_r.
    - rewrite (Z.testbit_odd a), Z.shiftr_div_pow2, Z.div_small; [done| |done].
      pose proof (Z.pow_le_mono_r 2 k i ltac:(lia) ltac:(lia)). lia. }
  rewrite <- Z.lxor_lor, <- Z.add_nocarry_lxor by done. lia.
Qed.

Lemma reads_numericType op code : is_byte op → is_byte code →
  reads readSearchNumericType (op :: encTagName code) (op + 2 ^ 8 + 2 ^ 24 * code).
Proof.
  intros Ho Hc. unfold is_byte in *. apply (reads_cons _ _ _ _ op); [by apply reads_byte|].
  rewrite <- (app_nil_r (encTagName code)). apply reads_tagName; [done|].
  replace (Z.lor _ _) with (op + 2 ^ 8 + 2 ^ 24 * code); [apply reads_ret|].
  unfold u32. rewrite Z.mod_small by (rewrite Z.shiftl_mul_pow2; lia).
  rewrite Z.mod_small by (rewrite Z.shiftl_mul_pow2; lia).
  rewrite (lor_add op 1 8) by lia. rewrite lor_add; lia.
Qed.

(** A connective over two operands that are read. *)
Lemma reads_bool rem before op bl br l r n2 n3 :
  is_byte op → before <= MaxSearchExprLeaves →
  reads (parseSearchExpr rem before) bl (l, n2) → reads (parseSearchExpr rem n2) br (r, n3) →
  reads (parseSearchExpr (S rem) before) (0x00 :: op :: bl ++ br)
    (boolExpr (if op =? 0x01 then SearchOr else if op =? 0x02 then SearchAndNot else SearchAnd) l r, n3).
Proof.
  intros Ho Hn Hl Hr. cbn [parseSearchExpr]. apply (reads_cons _ _ _ _ 0x00); [by apply reads_byte|].
  cbn [Z.eqb negb TypeString TypeUint32]. int_test. apply (reads_cons _ _ _ _ op); [by apply reads_byte|].
  eapply reads_bind; [exact Hl|]. rewrite <- (app_nil_r br). eapply reads_bind; [exact Hr|]. apply reads_ret.
Qed.

Lemma reads_parseSearchExpr q rem before :
  wireQuery q → (queryDepth q < rem)%nat → before + queryLeaves q <= MaxSearchExprLeaves → 0 <= before →
  reads (parseSearchExpr rem before) (encQuery q) (exprOf q, before + queryLeaves q).
Proof.
  revert rem before. induction q as [s|code s|op code v|op code v|l IHl r IHr|l IHl r IHr|l IHl r IHr];
    intros rem before Hw Hd Hn Hb; (destruct rem as [|rem]; [lia|]); cbn [encQuery exprOf queryLeaves];
    simpl in Hw, Hd, Hn.
  1-4: cbn [parseSearchExpr].
  - apply (reads_cons _ _ _ _ 0x01); [by apply reads_byte|]. cbn [Z.eqb negb]. int_test.
    rewrite <- (app_nil_r (encString s)). eapply reads_bind; [by apply reads_GetString|]. apply reads_ret.
  - destruct Hw as [Hc Hs]. apply (reads_cons _ _ _ _ TypeString); [by apply reads_byte|].
    cbn [Z.eqb negb TypeString Pos.eqb]. int_test. eapply reads_bind; [by apply reads_GetString|].
    rewrite <- (app_nil_r (encTagName code)). apply reads_tagName; [done|]. unfold is_byte in Hc.
    assert (Z.lor 1 (u32 (Z.shiftl code 16)) = 1 + 2 ^ 16 * code) as ->.
    { unfold u32. rewrite Z.mod_small by (rewrite Z.shiftl_mul_pow2; lia). rewrite lor_add; lia. }
    unfold SearchTermTag, searchTypeText. int_test. apply reads_ret.
  - destruct Hw as (Ho&Hc&Hv). apply (reads_cons _ _ _ _ TypeUint32); [by apply reads_byte|].
    cbn [Z.eqb negb TypeString TypeUint32 Pos.eqb]. int_test. eapply reads_bind; [by apply (reads_le 4)|].
    rewrite <- (app_nil_r (op :: _)). eapply reads_bind; [by apply reads_numericType|]. apply reads_ret.
  - destruct Hw as (Ho&Hc&Hv). apply (reads_cons _ _ _ _ 0x08); [by apply reads_byte|].
    cbn [Z.eqb negb TypeString TypeUint32 Pos.eqb]. int_test.
    change 8%nat with (4 + 4)%nat. rewrite le_split_app, <- app_assoc. change (8 * 4%nat) with 32. unfold fits in Hv.
    rewrite <- (le_split_mod 4). change (8 * 4%nat) with 32.
    eapply reads_bind; [apply (reads_le 4); solve_range|]. eapply reads_bind; [apply (reads_le 4); solve_range|].
    rewrite <- (app_nil_r (op :: _)). eapply reads_bind; [by apply reads_numericType|].
    replace (u64 _) with v; [apply reads_ret|]. rewrite Z.shiftl_mul_pow2 by lia. solve_range.
  - destruct Hw. rewrite Nat2Z.inj_add, Z.add_assoc. eapply (reads_bool _ _ 0x00); [done|lia|apply IHl; done || lia|apply IHr; done || lia].
  - destruct Hw. rewrite Nat2Z.inj_add, Z.add_assoc. eapply (reads_bool _ _ 0x01); [done|lia|apply IHl; done || lia|apply IHr; done || lia].
  - destruct Hw. rewrite Nat2Z.inj_add, Z.add_assoc. eapply (reads_bool _ _ 0x02); [done|lia|apply IHl; done || lia|apply IHr; done || lia].
Qed.

(** C27: a search arrives as it was sent. A query of fewer than 24 levels and at most 64
    leaves, written in the wire's prefix form, is parsed to the tree it stands for, to the
    last byte, with keywords that are hash or related terms already turned into such
    leaves. *)
Theorem search_read_back q :
  wireQuery q → (queryDepth q < MaxSearchExprDepth)%nat → queryLeaves q <= MaxSearchExprLeaves →
  ParseSearchExpr (NewBufferFromBytes (encQuery q)) =
    (mkBuffer (encQuery q) (length (encQuery q)), Ok (exprOf q)).
Proof.
  intros Hw Hd Hn. apply reads_all. unfold ParseSearchExpr. rewrite <- (app_nil_r (encQuery q)).
  eapply reads_bind; [by apply reads_parseSearchExpr|]. apply reads_ret.
Qed.

End Theory.

Definition demoQuery : query :=
  QAndNot (QAnd (QText (str "spider-man")) (QNum32 1 0x02 100)) (QOr (QString 0x03 (str "Audio")) (QText (str "batman"))).

Lemma ParseSearchExpr_safe_witness :
  match ParseSearchExpr (H := asciiTables) (NewBufferFromBytes (0x00 :: 0x00 :: [0xff])) with
  | (b', Err _) => advances (NewBufferFromBytes [0x00; 0x00; 0xff]) b'
  | _ => False
  end.
Proof.
  pose proof (ParseSearchExpr_safe (U := asciiTables) (NewBufferFromBytes [0x00; 0x00; 0xff])
    ltac:(split; [simpl; lia|by_decision])) as H.
  revert H. cbv -[advances]. exact id.
Defined.

Lemma search_read_back_witness :
  ParseSearchExpr (H := asciiTables) (NewBufferFromBytes (encQuery demoQuery)) =
    (mkBuffer (encQuery demoQuery) (length (encQuery demoQuery)), Ok (exprOf (U := asciiTables) demoQuery)).
Proof. apply (search_read_back (U := asciiTables) demoQuery); [by vm_compute|vm_compute; lia|done]. Defined.
