(* ===== verification/SortedIDs.v ===== *)
(** * Sorted lists of ids: the list routines of [storage/memory_index.go]

    Posting lists are kept ascending and without duplicates. Intersection and union run over
    two such lists, intersection galloping when one is much longer; both are shown to be the
    set operations. *)

From stdpp Require Export sorting.
From S2P Require Import Prelude.
Local Open Scope Z_scope.
#[local] Set Warnings "-clear-no-such-hyp".

(** ** Go's [slices] on sorted lists *)

(** [slices.BinarySearch]: the first position not below [x]. *)
Fixpoint lowerBound (l : list nat) (x : nat) : nat :=
  match l with
  | y :: l => if (y <? x)%nat then S (lowerBound l x) else 0
  | [] => 0
  end.
Definition BinarySearch (l : list nat) (x : nat) : nat * bool :=
  let pos := lowerBound l x in (pos, bool_decide (l !! pos = Some x)).

(** [slices.Insert] at a position of the list. *)
Definition Insert {A} (l : list A) (pos : nat) (x : A) : list A := take pos l ++ x :: drop pos l.

(** [slices.Compact]: one of each group of equal neighbours. *)
Fixpoint Compact {A} `{EqDecision A} (l : list A) : list A :=
  match l with
  | x :: (y :: _) as l' => if bool_decide (x = y) then Compact l' else x :: Compact l'
  | l => l
  end.

(** [slices.Sort] on ids and on strings, which compare byte by byte. *)
Definition SortIDs (l : list nat) : list nat := merge_sort le l.

Fixpoint string_le (a b : bytes) : bool :=
  match a, b with
  | [], _ => true
  | _ :: _, [] => false
  | x :: a, y :: b => (x <? y) || ((x =? y) && string_le a b)
  end.
Definition stringLe (a b : bytes) : Prop := string_le a b = true.
#[export] Instance stringLe_dec : RelDecision stringLe.
Proof. intros a b. unfold stringLe. apply _. Defined.
Definition SortStrings (l : list bytes) : list bytes := merge_sort stringLe l.

(** [sort.Slice] by a size, which promises the order and not what happens to equal sizes. *)
Class SortSlice := sort_by : ∀ {A}, (A → nat) → list A → list A.
Class SortSliceLaws `{SortSlice} : Prop :=
  sort_by_perm : ∀ {A} (f : A → nat) (l : list A), sort_by f l ≡ₚ l.

(** ** Sorted id lists *)

(** The galloping half of [intersectSorted]. *)
Fixpoint intersectGallop (a b : list nat) : list nat :=
  match a with
  | [] => []
  | v :: a =>
      let '(pos, found) := BinarySearch b v in
      if found then v :: intersectGallop a (drop pos b) else intersectGallop a (drop pos b)
  end.

(** The two cursors [i] and [j] as the rests of the lists. *)
Fixpoint intersectMerge (a : list nat) : list nat → list nat :=
  fix go b :=
    match a, b with
    | x :: a', y :: b' =>
        if (x <? y)%nat then intersectMerge a' b
        else if (y <? x)%nat then go b'
        else x :: intersectMerge a' b'
    | _, _ => []
    end.

Definition intersectSorted (a b : list nat) : list nat :=
  let '(a, b) := if (length b <? length a)%nat then (b, a) else (a, b) in
  if (length a * 32 <? length b)%nat then intersectGallop a b else intersectMerge a b.

Fixpoint unionSorted (a : list nat) : list nat → list nat :=
  fix go b :=
    match a, b with
    | x :: a', y :: b' =>
        if (x <? y)%nat then x :: unionSorted a' b
        else if (y <? x)%nat then y :: go b'
        else x :: unionSorted a' b'
    | [], _ => b
    | _, [] => a
    end.

(** ** Theory *)

Abbreviation ascending := (StronglySorted lt).

Lemma ascending_NoDup l : ascending l → NoDup l.
Proof.
  induction 1 as [|x l _ IH Hx]; constructor; [|done]. intros Hin.
  rewrite Forall_forall in Hx. specialize (Hx x Hin). lia.
Qed.

(** Two ascending lists with the same elements are one list. *)
Lemma ascending_unique l1 l2 : ascending l1 → ascending l2 → (∀ x, x ∈ l1 ↔ x ∈ l2) → l1 = l2.
Proof.
  intros H1 H2 Heq. apply (StronglySorted_unique_strong lt); [intros; lia|done|done|].
  by apply NoDup_Permutation; [apply ascending_NoDup..|].
Qed.

Lemma elem_of_Compact `{EqDecision A} (l : list A) x : x ∈ Compact l ↔ x ∈ l.
Proof.
  induction l as [|y l IH]; [done|]. cbn [Compact]. destruct l as [|z l]; [done|].
  case_bool_decide as E; [subst y; rewrite IH, !elem_of_cons; tauto|].
  by rewrite !(elem_of_cons _ _ y), IH.
Qed.

Lemma Compact_ascending l : StronglySorted le l → ascending (Compact l).
Proof.
  induction 1 as [|x l Hl IH Hx]; [constructor|]. cbn [Compact]. destruct l as [|y l]; [repeat constructor|].
  case_bool_decide as E; [done|]. constructor; [done|]. apply Forall_forall. intros z Hz.
  apply (proj1 (elem_of_Compact (y :: l) z)) in Hz.
  apply Forall_cons in Hx as [Hxy Hx]. apply elem_of_cons in Hz as [->|Hz]; [lia|].
  apply StronglySorted_inv in Hl as [_ Hy]. rewrite Forall_forall in Hy. specialize (Hy z Hz). lia.
Qed.

Lemma elem_of_SortIDs l x : x ∈ SortIDs l ↔ x ∈ l.
Proof. unfold SortIDs. by rewrite merge_sort_Permutation. Qed.

Lemma SortCompact_ascending l : ascending (Compact (SortIDs l)).
Proof. apply Compact_ascending, StronglySorted_merge_sort; [intros ???; lia|intros ??; lia]. Qed.

(** *** Searching *)

Lemma lowerBound_le l x : (lowerBound l x <= length l)%nat.
Proof. induction l as [|y l IH]; simpl; [lia|]. case_match; lia. Qed.

Lemma lowerBound_split l x :
  ascending l → Forall (λ y, y < x)%nat (take (lowerBound l x) l) ∧ Forall (λ y, x <= y)%nat (drop (lowerBound l x) l).
Proof.
  induction 1 as [|y l _ IH Hy]; [by split; constructor|]. cbn [lowerBound].
  destruct (Nat.ltb_spec y x); cbn [take drop].
  - destruct IH. split; [by constructor|done].
  - split; [constructor|]. constructor; [done|]. eapply Forall_impl; [exact Hy|]. simpl. lia.
Qed.

Lemma BinarySearch_found l x : ascending l → (BinarySearch l x).2 = true ↔ x ∈ l.
Proof.
  intros Hl. unfold BinarySearch. cbn [snd]. rewrite bool_decide_eq_true.
  destruct (lowerBound_split l x Hl) as [H1 H2]. split; [apply list_elem_of_lookup_2|].
  intros Hx. rewrite <- (take_drop (lowerBound l x) l) in Hx at 1. apply elem_of_app in Hx as [Hx|Hx].
  - rewrite Forall_forall in H1. specialize (H1 x Hx). simpl in H1. lia.
  - rewrite <- (Nat.add_0_r (lowerBound l x)), <- lookup_drop.
    assert (ascending (drop (lowerBound l x) l)) as Hd.
    { rewrite <- (take_drop (lowerBound l x) l) in Hl. by apply StronglySorted_app_1_r in Hl. }
    destruct (drop _ l) as [|y r]; [by apply elem_of_nil in Hx|]. cbn. f_equal.
    apply Forall_cons in H2 as [Hy _]. apply elem_of_cons in Hx as [->|Hx]; [done|].
    apply StronglySorted_inv in Hd as [_ Hd]. rewrite Forall_forall in Hd. specialize (Hd x Hx). lia.
Qed.

Lemma Insert_ascending l x : ascending l → x ∉ l → ascending (Insert l (lowerBound l x) x).
Proof.
  intros Hl Hx. destruct (lowerBound_split l x Hl) as [H1 H2]. unfold Insert.
  rewrite Forall_forall in H1. rewrite Forall_forall in H2.
  assert (∀ y, y ∈ drop (lowerBound l x) l → (x < y)%nat) as H2'.
  { intros y Hy. specialize (H2 y Hy). simpl in H2. assert (x ≠ y); [|lia]. intros <-. apply Hx.
    rewrite <- (take_drop (lowerBound l x) l). apply elem_of_app. by right. }
  rewrite <- (take_drop (lowerBound l x) l) in Hl. apply StronglySorted_app in Hl as (Hlt&Ht&Hd).
  apply StronglySorted_app_2; [|done|].
  - intros a b Ha Hb. specialize (H1 a Ha). simpl in H1. apply elem_of_cons in Hb as [->|Hb]; [done|].
    by apply Hlt.
  - constructor; [done|]. by apply Forall_forall.
Qed.

Lemma elem_of_Insert {A} (l : list A) pos x y : y ∈ Insert l pos x ↔ y = x ∨ y ∈ l.
Proof.
  unfold Insert. rewrite <- (take_drop pos l) at 3. rewrite !elem_of_app, elem_of_cons. tauto.
Qed.

(** *** Intersection and union *)

(** Putting [x] first: [l] holds what [a] and [b] share, all of it above [x]. *)
Lemma ascending_cons x (l a : list nat) :
  ascending l → (∀ y, y ∈ l → y ∈ a) → Forall (lt x) a → ascending (x :: l).
Proof.
  intros Hl Ha Hx. constructor; [done|]. rewrite Forall_forall in Hx. apply Forall_forall. auto.
Qed.

Lemma ascending_drop l n : ascending l → ascending (drop n l).
Proof. intros Hl. rewrite <- (take_drop n l) in Hl. by apply StronglySorted_app_1_r in Hl. Qed.

(** An id at least [x] is looked for from the position of [x] on. *)
Lemma elem_of_drop_lowerBound l x y :
  ascending l → (x <= y)%nat → y ∈ drop (lowerBound l x) l ↔ y ∈ l.
Proof.
  intros Hl Hxy. destruct (lowerBound_split l x Hl) as [H1 _]. rewrite Forall_forall in H1.
  rewrite <- (take_drop (lowerBound l x) l) at 3. rewrite elem_of_app. split; [by right|].
  intros [Hy|]; [|done]. specialize (H1 y Hy). simpl in H1. lia.
Qed.

Lemma intersectGallop_spec a b :
  ascending a → ascending b →
  ascending (intersectGallop a b) ∧ ∀ y, y ∈ intersectGallop a b ↔ y ∈ a ∧ y ∈ b.
Proof.
  intros Ha. revert b. induction Ha as [|v a Ha IH Hv]; intros b Hb.
  { split; [constructor|]. intros y. cbn. rewrite !elem_of_nil. tauto. }
  pose proof (BinarySearch_found b v Hb) as Hf. unfold BinarySearch in Hf. cbn [snd] in Hf.
  destruct (IH _ (ascending_drop b (lowerBound b v) Hb)) as [Hs Hin].
  assert (∀ y, y ∈ intersectGallop a (drop (lowerBound b v) b) ↔ y ∈ a ∧ y ∈ b) as Hin'.
  { intros y. rewrite Hin. rewrite Forall_forall in Hv. split; intros [Hy1 Hy2];
      (split; [done|]); apply (elem_of_drop_lowerBound b v) in Hy2; auto; specialize (Hv y Hy1); lia. }
  cbn [intersectGallop BinarySearch]. unfold BinarySearch. cbv iota beta.
  destruct (bool_decide _).
  - assert (v ∈ b) as Hvb by by apply Hf. split.
    + apply (ascending_cons v _ a); [done| |done]. intros y Hy. by apply Hin'.
    + intros y. rewrite !elem_of_cons, Hin'. clear - Hvb. naive_solver.
  - assert (v ∉ b) as Hvb by (intros ?%Hf; done). split; [done|].
    intros y. rewrite elem_of_cons, Hin'. clear - Hvb. naive_solver.
Qed.

Lemma ascending_head_notin x y (l : list nat) : (x < y)%nat → Forall (lt y) l → x ∉ y :: l.
Proof.
  intros Hxy Hl [->|Hin]%elem_of_cons; [lia|]. rewrite Forall_forall in Hl. specialize (Hl x Hin). lia.
Qed.

Lemma intersectMerge_spec a b :
  ascending a → ascending b →
  ascending (intersectMerge a b) ∧ ∀ y, y ∈ intersectMerge a b ↔ y ∈ a ∧ y ∈ b.
Proof.
  intros Ha. revert b. induction Ha as [|x a Ha IHa Hx]; intros b Hb.
  { destruct b; (split; [constructor|]); intros y; rewrite !elem_of_nil; tauto. }
  induction Hb as [|y b Hb IHb Hy].
  { split; [constructor|]. intros y. rewrite !elem_of_nil. tauto. }
  cbn [intersectMerge]. destruct (Nat.ltb_spec x y) as [E|E]; [|destruct (Nat.ltb_spec y x) as [E'|E']].
  - destruct (IHa (y :: b)) as [Hs Hin]; [by constructor|]. split; [done|]. intros z. rewrite Hin.
    pose proof (ascending_head_notin x y b E Hy) as Hn. rewrite (elem_of_cons a). clear - Hn. naive_solver.
  - destruct IHb as [Hs Hin]. split; [exact Hs|]. intros z.
    pose proof (ascending_head_notin y x a E' Hx) as Hn. rewrite (elem_of_cons b).
    etransitivity; [apply Hin|]. clear - Hn. naive_solver.
  - assert (x = y) as <- by lia. destruct (IHa b Hb) as [Hs Hin]. split.
    + apply (ascending_cons x _ a); [done| |done]. intros z. rewrite Hin. tauto.
    + intros z. rewrite !elem_of_cons, Hin. clear. naive_solver.
Qed.

Lemma intersect_short_spec a b (l := if (length a * 32 <? length b)%nat then intersectGallop a b else intersectMerge a b) :
  ascending a → ascending b → ascending l ∧ ∀ y, y ∈ l ↔ y ∈ a ∧ y ∈ b.
Proof. intros. subst l. destruct (_ <? _)%nat; auto using intersectGallop_spec, intersectMerge_spec. Qed.

Lemma intersectSorted_spec a b :
  ascending a → ascending b →
  ascending (intersectSorted a b) ∧ ∀ y, y ∈ intersectSorted a b ↔ y ∈ a ∧ y ∈ b.
Proof.
  intros Ha Hb. unfold intersectSorted. destruct (length b <? length a)%nat; [|by apply intersect_short_spec].
  destruct (intersect_short_spec b a) as [? Hin]; [done..|]. split; [done|]. intros y. rewrite Hin. tauto.
Qed.

Lemma unionSorted_spec a b :
  ascending a → ascending b →
  ascending (unionSorted a b) ∧ ∀ y, y ∈ unionSorted a b ↔ y ∈ a ∨ y ∈ b.
Proof.
  intros Ha. revert b. induction Ha as [|x a Ha IHa Hx]; intros b Hb.
  { destruct b; (split; [done|]); intros y; cbn; rewrite !elem_of_nil; tauto. }
  induction Hb as [|y b Hb IHb Hy].
  { split; [by constructor|]. intros y. cbn. rewrite !elem_of_nil. tauto. }
  cbn [unionSorted]. destruct (Nat.ltb_spec x y) as [E|E]; [|destruct (Nat.ltb_spec y x) as [E'|E']].
  - destruct (IHa (y :: b)) as [Hs Hin]; [by constructor|]. split.
    + apply (ascending_cons x _ (a ++ y :: b)); [done|intros z; rewrite elem_of_app; apply Hin|].
      apply Forall_app. split; [done|]. constructor; [done|]. eapply Forall_impl; [exact Hy|]. simpl. lia.
    + intros z. rewrite (elem_of_cons _ z x), Hin, (elem_of_cons a). tauto.
  - destruct IHb as [Hs Hin]. split.
    + apply (ascending_cons y _ ((x :: a) ++ b)); [exact Hs|intros z; rewrite elem_of_app; apply Hin|].
      apply Forall_app. split; [|done]. constructor; [done|]. eapply Forall_impl; [exact Hx|]. simpl. lia.
    + intros z. rewrite (elem_of_cons _ z y). etransitivity; [apply or_iff_compat_l, Hin|].
      rewrite (elem_of_cons b). tauto.
  - assert (x = y) as <- by lia. destruct (IHa b Hb) as [Hs Hin]. split.
    + apply (ascending_cons x _ (a ++ b)); [done|intros z; rewrite elem_of_app; apply Hin|].
      by apply Forall_app.
    + intros z. rewrite !elem_of_cons, Hin. tauto.
Qed.

(** *** Growing a list *)

Lemma ascending_snoc l x : ascending l → (∀ y, last l = Some y → y < x)%nat → ascending (l ++ [x]).
Proof.
  intros Hl Hx. apply StronglySorted_app_2; [|done|repeat constructor].
  intros a b Ha ->%list_elem_of_singleton. destruct (last l) as [y|] eqn:E.
  - specialize (Hx y eq_refl). apply last_Some in E as [l' ->].
    apply StronglySorted_app in Hl as (Hlt&_&_). apply elem_of_app in Ha as [Ha|Ha%list_elem_of_singleton].
    + specialize (Hlt a y Ha ltac:(by left)). lia.
    + by subst.
  - apply last_None in E as ->. by apply elem_of_nil in Ha.
Qed.

Lemma unionSorted_length a b :
  ascending a → ascending b → (∀ x, x ∈ a → x ∉ b) → length (unionSorted a b) = (length a + length b)%nat.
Proof.
  intros Ha Hb Hd. rewrite <- length_app. apply Permutation_length.
  destruct (unionSorted_spec a b Ha Hb) as [Hs Hin]. apply NoDup_Permutation; [by apply ascending_NoDup| |].
  - apply NoDup_app. auto using ascending_NoDup.
  - intros x. by rewrite Hin, elem_of_app.
Qed.

Lemma length_Insert {A} (l : list A) pos x : length (Insert l pos x) = S (length l).
Proof.
  unfold Insert. rewrite length_app. cbn [length]. rewrite Nat.add_succ_r, <- length_app. by rewrite take_drop.
Qed.

(** *** Byte order on strings *)

Lemma stringLe_cons x a y b : stringLe (x :: a) (y :: b) ↔ x < y ∨ x = y ∧ stringLe a b.
Proof. unfold stringLe. cbn. by rewrite orb_true_iff, andb_true_iff, Z.ltb_lt, Z.eqb_eq. Qed.

#[export] Instance stringLe_trans : Transitive stringLe.
Proof.
  intros a. induction a as [|x a IH]; intros [|y b] [|z c]; try done. rewrite !stringLe_cons.
  intros [?|[-> ?]] [?|[-> ?]]; [left; lia|by left..|right]. eauto.
Qed.

#[export] Instance stringLe_total : Total stringLe.
Proof.
  intros a. induction a as [|x a IH]; intros [|y b]; [by left|by left|by right|]. rewrite !stringLe_cons.
  destruct (Z.lt_trichotomy x y) as [|[->|]]; [by left; left| |by right; left].
  destruct (IH b); [left|right]; by right.
Qed.

Lemma stringLe_antisym a b : stringLe a b → stringLe b a → a = b.
Proof.
  revert b. induction a as [|x a IH]; intros [|y b]; try done. rewrite !stringLe_cons.
  intros [?|[-> ?]] [?|[? ?]]; try lia. f_equal. auto.
Qed.
