(* ===== verification/FileMeta.v ===== *)
(** * File metadata as it is stored: [storage/filemeta.go]

    What an offered file becomes before any engine stores it: valid text that fits the
    columns, and a type the schema knows; and the batch the database engines write. *)

From stdpp Require Import sorting.
From S2P Require Import Prelude Types Text Search SortedIDs.
Local Open Scope Z_scope.
#[local] Set Warnings "-clear-no-such-hyp".

Definition maxNameLen : nat := 255.
Definition maxExtLen : nat := 8.
Definition maxTitleLen : nat := 128.
Definition maxArtistLen : nat := 128.
Definition maxAlbumLen : nat := 128.
Definition maxCodecLen : nat := 32.

(** ** Text *)

(** A byte that starts no rune is read as [RuneError], one byte wide. *)
Definition badPiece (p : Z * bytes) : bool := (p.1 =? RuneError) && (length p.2 =? 1)%nat.

(** [utf8.ValidString]. *)
Definition ValidString (s : bytes) : bool := forallb (λ p, negb (badPiece p)) (decode s).

(** [strings.ToValidUTF8]: every run of bad bytes becomes one replacement. *)
Fixpoint replaceBad (ps : list (Z * bytes)) (replacement : bytes) (inRun : bool) : bytes :=
  match ps with
  | [] => []
  | p :: ps =>
      if badPiece p then (if inRun then [] else replacement) ++ replaceBad ps replacement true
      else p.2 ++ replaceBad ps replacement false
  end.
Definition ToValidUTF8 (s replacement : bytes) : bytes := replaceBad (decode s) replacement false.

(** The Windows-1252 decoder of golang.org/x/text, [None] when it reports an error. Its
    output is UTF-8. *)
Class Charmap := windows1252 : bytes → option bytes.
Class CharmapLaws `{Charmap} : Prop :=
  windows1252_valid : ∀ s out, windows1252 s = Some out → ValidString out = true.

Definition truncateRunes (s : bytes) (max : nat) : bytes :=
  let r := runes s in if (length r <=? max)%nat then s else encode (take max r).

(** ** Types *)

Definition enumFileTypes : list bytes := [str "Image"; str "Audio"; str "Video"; str "Pro"; str "Doc"; []].

Definition videoExts : list bytes := map str
  ["3gp"; "aaf"; "asf"; "avchd"; "avi"; "fla"; "flv"; "m1v"; "m2v"; "m4v"; "mp4"; "mpg"; "mpe"; "mpeg";
   "mov"; "mkv"; "ogg"; "rm"; "svi"]%string.
Definition audioExts : list bytes := map str
  ["aiff"; "au"; "wav"; "flac"; "la"; "pac"; "m4a"; "ape"; "rka"; "shn"; "tta"; "wv"; "wma"; "brstm"; "amr";
   "mp2"; "mp3"; "ogg"; "aac"; "mpc"; "ra"; "ots"; "vox"; "voc"; "mid"; "mod"; "s3m"; "xm"; "it"; "asf"]%string.
Definition imageExts : list bytes := map str
  ["cr2"; "pdn"; "pgm"; "pict"; "bmp"; "png"; "dib"; "djvu"; "gif"; "psd"; "pdd"; "icns"; "ico"; "rle"; "tga";
   "jpeg"; "jpg"; "tiff"; "tif"; "jp2"; "jps"; "mng"; "xbm"; "xcf"; "pcx"]%string.
Definition proExts : list bytes := map str
  ["7z"; "ace"; "arc"; "arj"; "bzip2"; "cab"; "gzip"; "rar"; "tar"; "zip"; "iso"; "nrg"; "img"; "adf"; "dmg";
   "cue"; "bin"; "cif"; "ccd"; "sub"; "raw"]%string.

Section Meta.
Context `{Unicode} `{Charmap}.

Definition toUTF8 (s : bytes) : bytes :=
  if ValidString s then s
  else match windows1252 s with Some out => out | None => ToValidUTF8 s (encode_rune RuneError) end.

(** [filepath.Ext] starts with its dot. *)
Definition Ext (name : bytes) : bytes := fileExt name.

Definition NormalizeExt (name : bytes) : bytes :=
  let ext := Ext name in if (maxExtLen <? length (runes ext))%nat then [] else ext.

Definition GetFileType (name : bytes) : bytes :=
  let ext := Ext name in
  if bool_decide (ext = []) then []
  else if bool_decide (ext ∈ videoExts) then str "Video"
  else if bool_decide (ext ∈ audioExts) then str "Audio"
  else if bool_decide (ext ∈ imageExts) then str "Image"
  else if bool_decide (ext ∈ proExts) then str "Pro"
  else [].

Definition normalizeFileType (typ name : bytes) : bytes :=
  if bool_decide (typ ∈ enumFileTypes) then typ
  else match find (λ '(alias, _), bool_decide (alias = typ)) ed2kTypeAliases with
       | Some (_, mapped) => mapped
       | None => GetFileType name
       end.

Definition NormalizeFile (file : File) : File :=
  let name := truncateRunes (toUTF8 (f_Name file)) maxNameLen in
  { file with
    f_Name := name;
    f_Title := truncateRunes (toUTF8 (f_Title file)) maxTitleLen;
    f_Artist := truncateRunes (toUTF8 (f_Artist file)) maxArtistLen;
    f_Album := truncateRunes (toUTF8 (f_Album file)) maxAlbumLen;
    f_Codec := truncateRunes (toUTF8 (f_Codec file)) maxCodecLen;
    f_Type := normalizeFileType (f_Type file) name }.

(** ** Batches *)

Definition offerKey : Type := bytes * Z.
Definition keyOf (f : File) : offerKey := (f_Hash f, f_Size f).

(** A file as a batch stores it. *)
Definition batchFile (file : File) : File :=
  let file := NormalizeFile file in
  if bool_decide (f_Type file = []) then { file with f_Type := GetFileType (f_Name file) } else file.

(** One round of the loop: [index] says where in [out] a key is. *)
Definition batchStep (st : gmap offerKey nat * list File) (file : File) : gmap offerKey nat * list File :=
  let '(index, out) := st in
  let file := batchFile file in
  match index !! keyOf file with
  | Some i => (index, <[i := file]> out)
  | None => (<[keyOf file := length out]> index, out ++ [file])
  end.

(** By hash, then size. *)
Definition keyLe (a b : File) : Prop :=
  if bool_decide (f_Hash a = f_Hash b) then f_Size a <= f_Size b else stringLe (f_Hash a) (f_Hash b).
#[export] Instance keyLe_dec : RelDecision keyLe.
Proof. intros a b. unfold keyLe. case_bool_decide; apply _. Defined.

Definition prepareOfferBatch (files : list File) : list File :=
  merge_sort keyLe (fold_left batchStep files (∅, [])).2.

End Meta.

(** ** Valid text is encoded text *)

Definition goodPiece (p : Z * bytes) : Prop := valid p.1 ∧ p.2 = encode_valid p.1.

Lemma lead_bounds b n lo hi :
  lead b = Some (n, lo, hi) → 0x80 <= lo ∧ hi <= 0xBF ∧
    (n = 2%nat ∧ 0xC2 <= b <= 0xDF ∨
     n = 3%nat ∧ 0xE0 <= b <= 0xEF ∧ (b = 0xE0 → 0xA0 <= lo) ∧ (b = 0xED → hi <= 0x9F) ∨
     n = 4%nat ∧ 0xF0 <= b <= 0xF4 ∧ (b = 0xF0 → 0x90 <= lo) ∧ (b = 0xF4 → hi <= 0x8F)).
Proof. unfold lead. repeat (int_test; cbn [andb]); intros [= <- <- <-] || intros [=]; lia. Qed.

Lemma goodPiece_2 b0 b1 lo hi :
  lead b0 = Some (2%nat, lo, hi) → within lo hi b1 = true → goodPiece ((b0 - 0xC0) * 64 + (b1 - 0x80), [b0; b1]).
Proof.
  intros Hl%lead_bounds Hw%within_iff.
  assert (0xC2 <= b0 <= 0xDF ∧ 0x80 <= b1 <= 0xBF) as (K0&K1) by lia. clear Hl Hw lo hi.
  split; cbn [fst snd]; [apply valid_iff; lia|]. unfold encode_valid. repeat int_test.
  f_equal; [|f_equal]; Z.to_euclidean_division_equations; lia.
Qed.

Lemma goodPiece_3 b0 b1 b2 lo hi :
  lead b0 = Some (3%nat, lo, hi) → within lo hi b1 = true → is_cont b2 = true →
  goodPiece ((b0 - 0xE0) * 4096 + (b1 - 0x80) * 64 + (b2 - 0x80), [b0; b1; b2]).
Proof.
  intros Hl%lead_bounds Hw%within_iff H2%is_cont_iff.
  assert (0xE0 <= b0 <= 0xEF ∧ 0x80 <= b1 <= 0xBF ∧ (b0 = 0xE0 → 0xA0 <= b1) ∧ (b0 = 0xED → b1 <= 0x9F))
    as (K0&K1&Ka&Kb) by lia.
  clear Hl Hw lo hi. split; cbn [fst snd]; [apply valid_iff; lia|].
  unfold encode_valid. rewrite !div_4096. repeat int_test.
  f_equal; [|f_equal; [|f_equal]]; Z.to_euclidean_division_equations; lia.
Qed.

Lemma goodPiece_4 b0 b1 b2 b3 lo hi :
  lead b0 = Some (4%nat, lo, hi) → within lo hi b1 = true → is_cont b2 = true → is_cont b3 = true →
  goodPiece ((b0 - 0xF0) * 262144 + (b1 - 0x80) * 4096 + (b2 - 0x80) * 64 + (b3 - 0x80), [b0; b1; b2; b3]).
Proof.
  intros Hl%lead_bounds Hw%within_iff H2%is_cont_iff H3%is_cont_iff.
  assert (0xF0 <= b0 <= 0xF4 ∧ 0x80 <= b1 <= 0xBF ∧ (b0 = 0xF0 → 0x90 <= b1) ∧ (b0 = 0xF4 → b1 <= 0x8F))
    as (K0&K1&Ka&Kb) by lia.
  clear Hl Hw lo hi. split; cbn [fst snd]; [apply valid_iff; lia|].
  unfold encode_valid. rewrite div_262144, !div_4096. repeat int_test.
  f_equal; [|f_equal; [|f_equal; [|f_equal]]]; Z.to_euclidean_division_equations; lia.
Qed.

Lemma decode_pieces s : wf_bytes s → Forall (λ p, badPiece p = true ∨ goodPiece p) (decode s).
Proof.
  induction s as [s IH] using (induction_ltof1 _ (@length Z)). unfold ltof in IH. intros Hs.
  destruct s as [|b0 s1]; [constructor|]. apply Forall_cons in Hs as [H0 Hs]. rewrite decode_cons. cbv zeta.
  assert (Forall (λ p, badPiece p = true ∨ goodPiece p) ((RuneError, [b0]) :: decode s1)) as Hbad.
  { constructor; [by left|]. apply IH; [simpl; lia|done]. }
  destruct (Z.ltb_spec b0 0x80).
  { constructor; [right|by apply Forall_cons in Hbad as [_ ?]]. unfold is_byte in H0.
    split; [apply valid_iff; cbn; lia|]. unfold encode_valid. cbn. by int_test. }
  destruct (lead b0) as [[[n lo] hi]|] eqn:Hl; [|apply Hbad]. pose proof (lead_range _ _ _ _ Hl) as (_&_&Hn).
  destruct Hn as [->|[->| ->]].
  - destruct s1 as [|b1 s2]; [apply Hbad|]. case_match eqn:E; [|apply Hbad]. apply Forall_cons in Hs as [_ Hs].
    constructor; [right; by eapply goodPiece_2|]. apply IH; [simpl; lia|done].
  - destruct s1 as [|b1 [|b2 s3]]; [apply Hbad..|]. case_match eqn:E; [|apply Hbad].
    apply andb_true_iff in E as [E1 E2]. apply Forall_cons in Hs as [_ [_ Hs]%Forall_cons].
    constructor; [right; by eapply goodPiece_3|]. apply IH; [simpl; lia|done].
  - destruct s1 as [|b1 [|b2 [|b3 s4]]]; [apply Hbad..|]. case_match eqn:E; [|apply Hbad].
    apply andb_true_iff in E as [[E1 E2]%andb_true_iff E3].
    apply Forall_cons in Hs as [_ [_ [_ Hs]%Forall_cons]%Forall_cons].
    constructor; [right; by eapply goodPiece_4|]. apply IH; [simpl; lia|done].
Qed.

Lemma ValidString_encode rs : ValidString (encode rs) = true.
Proof.
  unfold ValidString. rewrite decode_encode. apply forallb_forall. intros p Hp%list_elem_of_In.
  apply list_elem_of_fmap in Hp as (r&->&_). unfold badPiece. cbn [fst snd].
  destruct (Z.eqb_spec (norm_rune r) RuneError) as [E|E]; [|done]. unfold encode_rune. by rewrite E.
Qed.

Lemma ValidString_runes s :
  wf_bytes s → ValidString s = true → s = encode (runes s) ∧ Forall valid (runes s).
Proof.
  intros Hs Hv. assert (Forall goodPiece (decode s)) as Hg.
  { apply Forall_forall. intros p Hp. pose proof (decode_pieces s Hs) as Hd. rewrite Forall_forall in Hd.
    destruct (Hd p Hp) as [Hb|]; [|done]. unfold ValidString in Hv. rewrite forallb_forall in Hv.
    specialize (Hv p). rewrite Hb in Hv. by apply list_elem_of_In, Hv in Hp. }
  split; [|apply Forall_map; eapply Forall_impl; [exact Hg|]; by intros p []].
  rewrite <- (decode_raw s) at 1. unfold encode, runes. rewrite map_map. f_equal. apply map_ext_in.
  intros p Hp%list_elem_of_In. rewrite Forall_forall in Hg. destruct (Hg p Hp) as [Hr ->].
  unfold encode_rune. by rewrite norm_id.
Qed.

Lemma ToValidUTF8_valid s : wf_bytes s → ValidString (ToValidUTF8 s (encode_rune RuneError)) = true.
Proof.
  intros Hs%decode_pieces. unfold ToValidUTF8. generalize false.
  assert (∀ b, ∃ rs, replaceBad (decode s) (encode_rune RuneError) b = encode rs) as Hr.
  2:{ intros b. destruct (Hr b) as [rs ->]. apply ValidString_encode. }
  induction Hs as [|p ps Hp _ IH]; intros b; [by exists []|]. cbn [replaceBad]. destruct (badPiece p) eqn:E.
  - destruct (IH true) as [rs ->]. destruct b; [by exists rs|]. exists (RuneError :: rs). by rewrite encode_cons.
  - destruct Hp as [|[Hv Hp]]; [congruence|]. destruct (IH false) as [rs ->]. exists (p.1 :: rs).
    rewrite encode_cons. unfold encode_rune. by rewrite norm_id, Hp.
Qed.

(** Text that fits a column of [max] characters. *)
Definition column (max : nat) (s : bytes) : Prop := ValidString s = true ∧ (length (runes s) <= max)%nat.

Lemma truncateRunes_column s max : ValidString s = true → column max (truncateRunes s max).
Proof.
  intros Hv. unfold truncateRunes. destruct (Nat.leb_spec (length (runes s)) max); [done|].
  split; [apply ValidString_encode|]. rewrite runes_encode, length_map, length_take. lia.
Qed.

#[local] Arguments column : simpl never.
#[local] Arguments truncateRunes : simpl never.

Section Theory.
Context `{U : Unicode} `{CL : CharmapLaws}.

Lemma toUTF8_valid s : wf_bytes s → ValidString (toUTF8 s) = true.
Proof.
  intros Hs. unfold toUTF8. destruct (ValidString s) eqn:E; [done|]. destruct (windows1252 s) as [out|] eqn:Ew.
  - by eapply windows1252_valid.
  - by apply ToValidUTF8_valid.
Qed.

Lemma column_id max s : column max s → truncateRunes (toUTF8 s) max = s.
Proof.
  intros [Hv L]. unfold toUTF8. rewrite Hv. unfold truncateRunes. by rewrite (proj2 (Nat.leb_le _ _) L).
Qed.

Lemma GetFileType_enum name : GetFileType name ∈ enumFileTypes.
Proof. unfold GetFileType, enumFileTypes. repeat case_bool_decide; repeat constructor. Qed.

Lemma normalizeFileType_enum typ name : normalizeFileType typ name ∈ enumFileTypes.
Proof.
  unfold normalizeFileType. case_bool_decide; [done|]. unfold ed2kTypeAliases. cbn [find].
  repeat case_bool_decide; [repeat constructor..|]. apply GetFileType_enum.
Qed.

Lemma normalizeFileType_id typ name : typ ∈ enumFileTypes → normalizeFileType typ name = typ.
Proof. intros Ht. unfold normalizeFileType. by rewrite bool_decide_eq_true_2. Qed.

Definition textFields (f : File) : list bytes := [f_Name f; f_Title f; f_Artist f; f_Album f; f_Codec f].

(** What every engine stores fits the schema. Whatever a client put into the strings of
    an offer, after [NormalizeFile] each of them is valid UTF-8 and no longer than its
    column, the type is a member of the ENUM, the identity and the numbers are untouched,
    and normalizing again changes nothing. *)
Lemma NormalizeFile_fits f :
  Forall wf_bytes (textFields f) →
  let g := NormalizeFile f in
  column maxNameLen (f_Name g) ∧ column maxTitleLen (f_Title g) ∧ column maxArtistLen (f_Artist g) ∧
  column maxAlbumLen (f_Album g) ∧ column maxCodecLen (f_Codec g) ∧ f_Type g ∈ enumFileTypes ∧
  f_Hash g = f_Hash f ∧ f_Size g = f_Size f ∧ f_Sources g = f_Sources f ∧ f_Completed g = f_Completed f ∧
  NormalizeFile g = g.
Proof.
  intros Hf. assert (∀ s max, s ∈ textFields f → column max (truncateRunes (toUTF8 s) max)) as Hc.
  { intros s max Hs. rewrite Forall_forall in Hf. by apply truncateRunes_column, toUTF8_valid, Hf. }
  destruct f as [h n sz t so co ti ar al ru bi cd si sp m]. unfold textFields, NormalizeFile in *. cbn in *.
  split_and!; try done; try (apply Hc; repeat constructor); [apply normalizeFileType_enum|].
  rewrite normalizeFileType_id by apply normalizeFileType_enum.
  f_equal; apply column_id, Hc; repeat constructor.
Qed.
(** *** Batches *)

Lemma keyOf_batchFile f : keyOf (batchFile f) = keyOf f.
Proof. unfold batchFile. case_bool_decide; by destruct f. Qed.

(** The file a batch holds under a key: the last one offered. *)
Definition lastOffer (files : list File) (k : offerKey) : option File :=
  batchFile <$> last (filter (λ f, keyOf f = k) files).

Lemma lastOffer_snoc files f k :
  lastOffer (files ++ [f]) k = if decide (keyOf f = k) then Some (batchFile f) else lastOffer files k.
Proof.
  unfold lastOffer. rewrite filter_app, filter_cons, filter_nil.
  case_decide; [by rewrite last_snoc|]. by rewrite app_nil_r.
Qed.

(** [index] and [out] name each other, and [out] holds the last offer of every key. *)
Record batched (files : list File) (index : gmap offerKey nat) (out : list File) : Prop := {
  bt_index : ∀ i f, out !! i = Some f ↔ index !! keyOf f = Some i ∧ lastOffer files (keyOf f) = Some f;
  bt_known : ∀ k, is_Some (index !! k) ↔ is_Some (lastOffer files k);
}.

Lemma batched_lookup files index out k i :
  batched files index out → index !! k = Some i → ∃ f, out !! i = Some f ∧ keyOf f = k.
Proof.
  intros [Hi Hk] E. destruct (proj1 (Hk k)) as [f Ef]; [by rewrite E|]. exists f.
  assert (keyOf f = k) as Ek.
  { unfold lastOffer in Ef. apply fmap_Some in Ef as (g&Eg&->). rewrite keyOf_batchFile.
    apply last_Some_elem_of, list_elem_of_filter in Eg. by destruct Eg. }
  split; [|done]. apply Hi. by rewrite Ek.
Qed.

Lemma batchStep_batched files index out f :
  batched files index out →
  let '(index', out') := batchStep (index, out) f in batched (files ++ [f]) index' out'.
Proof.
  intros Hb. pose proof Hb as [Hi Hk]. unfold batchStep. set (g := batchFile f).
  assert (keyOf g = keyOf f) as Eg by apply keyOf_batchFile.
  assert (∀ k, is_Some (lastOffer (files ++ [f]) k) ↔ k = keyOf f ∨ is_Some (lastOffer files k)) as Hs.
  { intros k. rewrite lastOffer_snoc. case_decide as E; [split; [by left|by eexists]|].
    split; [by right|]. by intros [->|]. }
  destruct (index !! keyOf g) as [j|] eqn:Ej.
  - destruct (batched_lookup _ _ _ _ _ Hb Ej) as (f0&Ef0&Ek0). split.
    + intros i h. rewrite lastOffer_snoc. destruct (decide (i = j)) as [->|Hne].
      * rewrite list_lookup_insert_eq by (by eapply lookup_lt_Some). split.
        { intros [= <-]. rewrite Ej, decide_True by done. done. }
        intros [E1 E2]. case_decide as Ekey; [done|]. exfalso.
        destruct (batched_lookup _ _ _ _ _ Hb E1) as (h'&Eh'&Ek'). congruence.
      * rewrite list_lookup_insert_ne by done. case_decide as Ekey; [|apply Hi]. split.
        { intros [E1 _]%Hi. rewrite <- Ekey, <- Eg in E1. congruence. }
        intros [E1 _]. rewrite <- Ekey, <- Eg in E1. congruence.
    + intros k. rewrite Hs, Hk. split; [by right|]. intros [->|]; [|done]. apply Hk. rewrite <- Eg. by eexists.
  - split.
    + intros i h. rewrite lastOffer_snoc, lookup_snoc_Some, lookup_insert_Some. split.
      * intros [[L E]|[-> <-]]; [|rewrite decide_True by done; split; [by left|done]].
        apply Hi in E as [E1 E2]. rewrite decide_False by congruence. split; [right; split; [congruence|done]|done].
      * intros [[[E <-]|[Hne E]] Hl]; [right; split; [done|]; rewrite decide_True in Hl by congruence; by injection Hl|].
        rewrite decide_False in Hl by congruence. pose proof (proj2 (Hi i h) (conj E Hl)) as Eh.
        left. split; [by eapply lookup_lt_Some|done].
    + intros k. rewrite lookup_insert_is_Some, Hs, Hk, Eg. destruct (decide (keyOf f = k)); naive_solver.
Qed.

Lemma batched_all files :
  batched files (fold_left batchStep files (∅, [])).1 (fold_left batchStep files (∅, [])).2.
Proof.
  induction files as [|f files IH] using rev_ind.
  { split; [|intros k; split; intros [? ?]; done]. intros i f. split; [done|intros [? ?]; done]. }
  rewrite fold_left_app. cbn [fold_left]. destruct (fold_left batchStep files (∅, [])) as [index out].
  pose proof (batchStep_batched files index out f IH) as Hb. by destruct (batchStep (index, out) f).
Qed.

#[local] Instance keyLe_trans : Transitive keyLe.
Proof.
  intros a b c. unfold keyLe. destruct (decide (f_Hash a = f_Hash b)) as [E1|E1]; [rewrite <- E1|];
    (destruct (decide (f_Hash b = f_Hash c)) as [E2|E2]; [rewrite <- E2|]);
    repeat case_bool_decide; try congruence; try lia; intros L1 L2.
  - exfalso. apply E1. apply stringLe_antisym; congruence.
  - by etrans.
Qed.
#[local] Instance keyLe_total : Total keyLe.
Proof.
  intros a b. unfold keyLe. repeat case_bool_decide; try congruence; [lia|apply stringLe_total].
Qed.

Lemma batched_keys files index out : batched files index out → NoDup (map keyOf out).
Proof.
  intros [Hi _]. apply NoDup_alt. intros i j k Ei Ej. rewrite list_lookup_fmap in Ei, Ej.
  apply fmap_Some in Ei as (f&Ef&->), Ej as (g&Eg&Ek). apply Hi in Ef as [E1 _], Eg as [E2 _]. congruence.
Qed.

(** The batch the database engines write holds one row per (hash, size), the last offer
    of that key in the packet, normalized as a single offer is, and is sorted by key, so
    that two batches take their row locks in one order. *)
Lemma prepareOfferBatch_spec files :
  let out := prepareOfferBatch files in
  NoDup (map keyOf out) ∧ StronglySorted keyLe out ∧
  ∀ f, f ∈ out ↔ lastOffer files (keyOf f) = Some f.
Proof.
  intros out. pose proof (batched_all files) as Hb. unfold out, prepareOfferBatch.
  set (st := fold_left batchStep files (∅, [])) in *. split_and!.
  - rewrite (Permutation_map keyOf (merge_sort_Permutation keyLe st.2)). by eapply batched_keys.
  - apply StronglySorted_merge_sort; apply _.
  - intros f. rewrite merge_sort_Permutation. destruct Hb as [Hi Hk]. split.
    + intros [i Ei]%list_elem_of_lookup. by apply Hi in Ei as [_ ?].
    + intros El. destruct (proj2 (Hk (keyOf f))) as [i Ei]; [by eexists|].
      apply list_elem_of_lookup. exists i. by apply Hi.
Qed.
End Theory.

(** *** Witness: a name in Latin-1, with a decoder that maps each byte to its rune *)

Definition latin1 : Charmap := λ s, Some (encode s).

Lemma latin1_laws : CharmapLaws (H := latin1).
Proof. intros s out [= <-]. apply ValidString_encode. Qed.

Definition demoOffer : File := { emptyFile with f_Name := str "caf" ++ [0xE9] ++ str ".mkv"; f_Type := str "EmuleCollection" }.

