(* ===== verification/NameIndex.v ===== *)
(** * The name index of the memory engine: [storage/memory_index.go]

    An inverted index over the words of file names, with a trigram index over the words. It
    narrows a search to candidates; the engine re-checks each of them. Maps are finite maps,
    slices lists; file and word ids, uint32 in the code, are natural numbers. *)

From S2P Require Import Prelude Types Text Search SortedIDs.
Local Open Scope Z_scope.
#[local] Set Warnings "-clear-no-such-hyp".

Definition postingInlineMax : nat := 1024.
Definition postingTailMax : nat := 256.
Definition candidateFloor : nat := Z.to_nat 65536.

Record nameIndex := mkIndex {
  x_vocab : gmap bytes nat;
  x_words : list bytes;
  x_post : list (list nat);
  x_tails : gmap nat (list nat);
  x_grams : gmap Z (list nat);
  x_entries : Z;
  x_live : Z;
}.

Definition newNameIndex : nameIndex := mkIndex ∅ [] [] ∅ ∅ 0 0.

(** ** Words *)

Definition trigram (s : bytes) : Z :=
  match s with
  | a :: b :: c :: _ => Z.lor (Z.lor (Z.shiftl a 16) (Z.shiftl b 8)) c
  | _ => 0
  end.

(** The trigrams of [s[i:]] for [i+3 <= len(s)], in order. *)
Fixpoint trigrams (s : bytes) : list Z :=
  match s with
  | _ :: s' => if (3 <=? length s)%nat then trigram s :: trigrams s' else []
  | [] => []
  end.

Section Index.
Context `{Unicode} `{SortSlice}.

(** The runs are substrings of the lowercased name, sorted, each once. *)
Definition nameWords (name : bytes) : list bytes :=
  Compact (SortStrings (split_runs alnum snd [] (decode (ToLower name)))).

Definition addGram (wid : nat) (grams : gmap Z (list nat)) (g : Z) : gmap Z (list nat) :=
  let l := default [] (grams !! g) in
  if bool_decide (last l = Some wid) then grams else <[g := l ++ [wid]]> grams.

Definition wordID (w : bytes) (x : nameIndex) : nameIndex * nat :=
  match x_vocab x !! w with
  | Some wid => (x, wid)
  | None =>
      let wid := length (x_words x) in
      ({ x with x_vocab := <[w := wid]> (x_vocab x);
                x_words := x_words x ++ [w];
                x_post := x_post x ++ [[]];
                x_grams := fold_left (addGram wid) (trigrams w) (x_grams x) }, wid)
  end.

Definition postOf (x : nameIndex) (wid : nat) : list nat := default [] (x_post x !! wid).
Definition tailOf (x : nameIndex) (wid : nat) : list nat := default [] (x_tails x !! wid).

Definition setPost (wid : nat) (ids : list nat) (x : nameIndex) : nameIndex :=
  { x with x_post := <[wid := ids]> (x_post x) }.

(** [wid] is a word of the index. *)
Definition add (wid id : nat) (x : nameIndex) : nameIndex * bool :=
  let ids := postOf x wid in
  let tail := tailOf x wid in
  let '(tpos, inTail) := BinarySearch tail id in
  if inTail then (x, false)
  else if match last ids with None => true | Some y => (y <? id)%nat end then
    (setPost wid (ids ++ [id]) x, true)
  else
    let '(pos, found) := BinarySearch ids id in
    if found then (x, false)
    else if (length ids <=? postingInlineMax)%nat && bool_decide (tail = []) then
      (setPost wid (Insert ids pos id) x, true)
    else
      let tail := Insert tail tpos id in
      if (length tail <? postingTailMax)%nat then
        ({ x with x_tails := <[wid := tail]> (x_tails x) }, true)
      else
        (let x := setPost wid (unionSorted ids tail) x in
         { x with x_tails := delete wid (x_tails x) }, true).

Definition indexWord (id : nat) (x : nameIndex) (w : bytes) : nameIndex :=
  let '(x, wid) := wordID w x in
  let '(x, added) := add wid id x in
  if added then { x with x_entries := x_entries x + 1 } else x.

Definition indexName (id : nat) (name : bytes) (x : nameIndex) : nameIndex :=
  let words := nameWords name in
  fold_left (indexWord id) words { x with x_live := x_live x + length words }.

Definition renameFile (id : nat) (oldName name : bytes) (x : nameIndex) : nameIndex :=
  if bool_decide (oldName = name) then x
  else indexName id name { x with x_live := x_live x - length (nameWords oldName) }.

Definition removeFile (name : bytes) (x : nameIndex) : nameIndex :=
  { x with x_live := x_live x - length (nameWords name) }.

Definition keepLive (dead : nat → bool) (ids : list nat) : list nat := filter (λ id, dead id = false) ids.

Definition dropped (dead : nat → bool) (ids : list nat) : Z := length ids - length (keepLive dead ids).

Definition sumZ (l : list Z) : Z := fold_right Z.add 0 l.

Definition purge (dead : nat → bool) (x : nameIndex) : nameIndex :=
  { x with
    x_post := map (keepLive dead) (x_post x);
    x_tails := omap (λ tail, match keepLive dead tail with [] => None | kept => Some kept end) (x_tails x);
    x_entries := x_entries x - sumZ (map (dropped dead) (x_post x))
                 - sumZ (map (λ p : nat * list nat, dropped dead p.2) (map_to_list (x_tails x))) }.

Definition needsRebuild (x : nameIndex) : bool :=
  let stale := x_entries x - x_live x in
  (1024 <? stale) && (Z.quot (x_entries x) 4 <? stale).

Definition postingLen (x : nameIndex) (wid : nat) : nat := length (postOf x wid) + length (tailOf x wid).

Definition collect (x : nameIndex) (wids : list nat) : list nat :=
  match wids with
  | [wid] =>
      if bool_decide (tailOf x wid = []) then postOf x wid
      else Compact (SortIDs (postOf x wid ++ tailOf x wid))
  | _ => Compact (SortIDs (flat_map (λ wid, postOf x wid ++ tailOf x wid) wids))
  end.

(** The lists intersected until nothing is left. *)
Fixpoint intersectAll (cand : list nat) (lists : list (list nat)) : list nat :=
  match lists with
  | [] => cand
  | l :: lists => match cand with [] => [] | _ => intersectAll (intersectSorted cand l) lists end
  end.

Definition wordsContaining (x : nameIndex) (run : bytes) : list nat :=
  let lists := map (λ g, default [] (x_grams x !! g)) (trigrams run) in
  if existsb (λ l, bool_decide (l = [])) lists then []
  else
    match sort_by length lists with
    | [] => []
    | first :: rest =>
        filter (λ wid, Contains (nth wid (x_words x) []) run = true) (intersectAll first rest)
    end.

Record runSet := mkRunSet { rs_wids : list nat; rs_size : nat }.

Definition runSetOf (x : nameIndex) (run : bytes) : runSet :=
  let wids := wordsContaining x run in mkRunSet wids (sum_list (map (postingLen x) wids)).

Fixpoint narrow (x : nameIndex) (out : list nat) (sets : list runSet) : list nat :=
  match sets with
  | [] => out
  | s :: sets =>
      if bool_decide (out = []) || (16 * length out <? rs_size s)%nat then out
      else narrow x (intersectSorted out (collect x (rs_wids s))) sets
  end.

(** [None] is [all]: the index cannot narrow the leaf. *)
Definition textCandidates (x : nameIndex) (text : bytes) (limit : nat) : option (list nat) :=
  match splitTerms text with
  | [] => Some []
  | terms =>
      let runs := filter (λ run, (3 <=? length run)%nat = true) (flat_map (λ t, alnumRuns (ToLower t)) terms) in
      let sets := map (runSetOf x) runs in
      if existsb (λ s, (rs_size s =? 0)%nat) sets then Some []
      else
        match sort_by rs_size sets with
        | [] => None
        | s :: rest => if (limit <? rs_size s)%nat then None else Some (narrow x (collect x (rs_wids s)) rest)
        end
  end.

(** The boolean nodes: an empty left side ends AND; the right side of AND NOT only takes
    files away. *)
Definition combineCandidates (kind : SearchKind) (l r : option (list nat)) : option (list nat) :=
  match kind with
  | SearchAnd =>
      match l, r with
      | Some [], _ => Some []
      | None, r => r
      | Some l, None => Some l
      | Some l, Some r => Some (intersectSorted l r)
      end
  | SearchOr =>
      match l, r with
      | None, _ | _, None => None
      | Some l, Some r => Some (unionSorted l r)
      end
  | _ => l
  end.

Fixpoint candidates (x : nameIndex) (expr : SearchExpr) (limit : nat)
    (byHash : option (bytes → Z → list nat)) : option (list nat) :=
  match se_Kind expr with
  | SearchHash =>
      match byHash with
      | None => None
      | Some byHash => Some (Compact (SortIDs (byHash (se_ValueString expr) (se_ValueUint expr))))
      end
  | SearchText => textCandidates x (se_Text expr) limit
  | SearchString =>
      if se_TagType expr =? searchTypeText then textCandidates x (se_ValueString expr) limit else None
  | SearchAnd | SearchOr | SearchAndNot =>
      match expr with
      | mkSearchExpr kind _ _ _ _ l r _ =>
          combineCandidates kind
            (match l with Some l => candidates x l limit byHash | None => None end)
            (match r with Some r => candidates x r limit byHash | None => None end)
      end
  | _ => None
  end.

(** [candidates] on a pointer: nil is [all]. *)
Definition candidatesPtr (x : nameIndex) (expr : option SearchExpr) (limit : nat)
    (byHash : option (bytes → Z → list nat)) : option (list nat) :=
  match expr with Some e => candidates x e limit byHash | None => None end.

End Index.

(** ** Theory *)

(** *** Trigrams *)

Lemma trigram_app s t : (3 <= length s)%nat → trigram (s ++ t) = trigram s.
Proof. by destruct s as [|? [|? [|]]]; simpl; intros; try lia. Qed.

Lemma trigrams_prefix s t g : g ∈ trigrams s → g ∈ trigrams (s ++ t).
Proof.
  induction s as [|c s IH]; [by intros ?%elem_of_nil|]. cbn [trigrams app].
  destruct (Nat.leb_spec 3 (length (c :: s))) as [L|L]; [|by intros ?%elem_of_nil].
  destruct (Nat.leb_spec 3 (length (c :: s ++ t))) as [L'|L'];
    [|simpl in L, L'; rewrite length_app in L'; lia].
  rewrite (trigram_app (c :: s) t L : trigram (c :: s ++ t) = _).
  intros [->|Hg]%elem_of_cons; [by left|right; auto].
Qed.

(** The trigrams of a substring are trigrams of the string. *)
Lemma trigrams_infix a s b g : g ∈ trigrams s → g ∈ trigrams (a ++ s ++ b).
Proof.
  intros Hg. induction a as [|c a IH]; [by apply (trigrams_prefix s b)|]. cbn [app trigrams].
  destruct (Nat.leb_spec 3 (length (c :: a ++ s ++ b))) as [L|L]; [by right|].
  destruct (a ++ s ++ b) as [|? [|]]; simpl in L; try lia; try (by apply elem_of_nil in IH).
Qed.

(** *** Well-formed indexes *)

Definition listed (x : nameIndex) (wid id : nat) : Prop := id ∈ postOf x wid ∨ id ∈ tailOf x wid.

(** The view a search has of the index: which ids are listed under a word. *)
Definition lists (x : nameIndex) (w : bytes) (id : nat) : Prop :=
  ∃ wid, x_vocab x !! w = Some wid ∧ listed x wid id.

Definition entriesOf (x : nameIndex) : Z :=
  sumZ (map (λ l, Z.of_nat (length l)) (x_post x)) +
  sumZ (map (λ p : nat * list nat, Z.of_nat (length p.2)) (map_to_list (x_tails x))).

Record wf_index (x : nameIndex) : Prop := {
  wf_vocab : ∀ w wid, x_vocab x !! w = Some wid ↔ x_words x !! wid = Some w;
  wf_post_len : length (x_post x) = length (x_words x);
  wf_grams_asc : ∀ g l, x_grams x !! g = Some l → ascending l ∧ Forall (λ wid, wid < length (x_words x))%nat l;
  wf_grams : ∀ wid w g, x_words x !! wid = Some w → g ∈ trigrams w → ∃ l, x_grams x !! g = Some l ∧ wid ∈ l;
  wf_lists : ∀ wid, ascending (postOf x wid) ∧ ascending (tailOf x wid) ∧
                    ∀ id, id ∈ postOf x wid → id ∉ tailOf x wid;
  wf_tails : ∀ wid l, x_tails x !! wid = Some l → l ≠ [] ∧ (wid < length (x_words x))%nat;
  wf_entries : x_entries x = entriesOf x;
}.

Lemma wf_newNameIndex : wf_index newNameIndex.
Proof.
  split; try done.
  - intros wid. repeat split; try constructor. by intros ? ?%elem_of_nil.
Qed.

(** *** Listing an id under a word *)

Lemma sumZ_perm l k : l ≡ₚ k → sumZ l = sumZ k.
Proof. unfold sumZ. induction 1; simpl; lia. Qed.

Lemma sumZ_insert {A} (f : A → Z) l i x y :
  l !! i = Some x → sumZ (map f (<[i := y]> l)) = sumZ (map f l) - f x + f y.
Proof.
  revert i. induction l as [|z l IH]; intros [|i] E; try done; simpl in *.
  - injection E as ->. lia.
  - rewrite (IH i E). lia.
Qed.

Definition tailSum (m : gmap nat (list nat)) : Z :=
  sumZ (map (λ p : nat * list nat, Z.of_nat (length p.2)) (map_to_list m)).

Lemma tailSum_delete m i : tailSum (delete i m) = tailSum m - length (default [] (m !! i)).
Proof.
  unfold tailSum. destruct (m !! i) as [l|] eqn:E.
  - rewrite <- (sumZ_perm _ _ (Permutation_map _ (map_to_list_delete m i l E))). simpl. lia.
  - rewrite delete_id by done. simpl. lia.
Qed.

Lemma tailSum_insert m i l : tailSum (<[i := l]> m) = tailSum m - length (default [] (m !! i)) + length l.
Proof.
  rewrite <- tailSum_delete, <- insert_delete_eq. unfold tailSum at 1.
  rewrite (sumZ_perm _ _ (Permutation_map _ (map_to_list_insert (delete i m) i l (lookup_delete_eq _ _)))).
  unfold tailSum. simpl. lia.
Qed.

#[local] Arguments sumZ : simpl never.

(** What [add] leaves a word with: its posting list and its tail, absent when empty. *)
Definition setLists (wid : nat) (ids tail : list nat) (x : nameIndex) : nameIndex :=
  { x with x_post := <[wid := ids]> (x_post x);
           x_tails := if bool_decide (tail = []) then delete wid (x_tails x) else <[wid := tail]> (x_tails x) }.

Lemma postOf_setLists x wid ids tail wid' :
  (wid < length (x_post x))%nat →
  postOf (setLists wid ids tail x) wid' = if decide (wid' = wid) then ids else postOf x wid'.
Proof.
  intros L. unfold postOf, setLists. destruct x; cbn in *. case_decide as E; subst.
  - by rewrite list_lookup_insert_eq.
  - by rewrite list_lookup_insert_ne.
Qed.

Lemma tailOf_setLists x wid ids tail wid' :
  tailOf (setLists wid ids tail x) wid' = if decide (wid' = wid) then tail else tailOf x wid'.
Proof.
  unfold tailOf, setLists. destruct x; cbn in *. case_decide as E; subst; case_bool_decide as E'; subst.
  - by rewrite lookup_delete_eq.
  - by rewrite lookup_insert_eq.
  - by rewrite lookup_delete_ne.
  - by rewrite lookup_insert_ne.
Qed.

Lemma entriesOf_setLists x wid ids tail :
  (wid < length (x_post x))%nat →
  entriesOf (setLists wid ids tail x) = entriesOf x - postingLen x wid + length ids + length tail.
Proof.
  intros [old E]%lookup_lt_is_Some. unfold entriesOf, postingLen, postOf, tailOf, setLists. destruct x; cbn in *.
  fold (tailSum x_tails0).
  rewrite (sumZ_insert _ _ wid old) by done. rewrite E. cbn. case_bool_decide as E'.
  - subst tail. fold (tailSum (delete wid x_tails0)). rewrite tailSum_delete. cbn [length]. rewrite Nat2Z.inj_add. lia.
  - fold (tailSum (<[wid:=tail]> x_tails0)). rewrite tailSum_insert, Nat2Z.inj_add. lia.
Qed.

Lemma setPost_setLists x wid :
  wf_index x → ∀ ids, setPost wid ids x = setLists wid ids (tailOf x wid) x.
Proof.
  intros Hwf ids. pose proof (wf_tails x Hwf wid) as Ht. unfold setPost, setLists, tailOf.
  clear Hwf. destruct x; cbn in *. destruct (x_tails0 !! wid) as [l|] eqn:E; cbn.
  - rewrite bool_decide_eq_false_2 by (by apply (Ht l)). by rewrite insert_id.
  - by rewrite delete_id.
Qed.

(** Either the id was listed, or the word ends with lists that hold exactly it besides. *)
Lemma add_shape x wid id :
  wf_index x → (wid < length (x_words x))%nat →
  (listed x wid id ∧ add wid id x = (x, false)) ∨
  ∃ ids tail, add wid id x = (setLists wid ids tail x, true) ∧
    (length ids + length tail = S (postingLen x wid))%nat ∧
    ascending ids ∧ ascending tail ∧ (∀ i, i ∈ ids → i ∉ tail) ∧
    ∀ i, i ∈ ids ∨ i ∈ tail ↔ i = id ∨ listed x wid i.
Proof.
  intros Hwf L. pose proof (setPost_setLists x wid Hwf) as Eset. destruct Hwf as [_ Hlen _ _ Hl Ht _].
  destruct (Hl wid) as (Hp&Hta&Hd). unfold add, listed, postingLen.
  pose proof (BinarySearch_found (tailOf x wid) id Hta) as Hft.
  pose proof (BinarySearch_found (postOf x wid) id Hp) as Hfp.
  unfold BinarySearch in *. cbn [snd] in Hft, Hfp. set (tpos := lowerBound (tailOf x wid) id) in *.
  set (pos := lowerBound (postOf x wid) id) in *.
  destruct (bool_decide (tailOf x wid !! tpos = Some id)); [left; split; [right; by apply Hft|done]|].
  assert (id ∉ tailOf x wid) as Hnt by (intros ?%Hft; done).
  destruct (match last (postOf x wid) with None => true | Some y => (y <? id)%nat end) eqn:Elast.
  { assert (∀ y, last (postOf x wid) = Some y → y < id)%nat as Hy.
    { intros y E. rewrite E in Elast. by apply Nat.ltb_lt. }
    pose proof (ascending_snoc _ id Hp Hy) as Hs. right. exists (postOf x wid ++ [id]), (tailOf x wid).
    rewrite Eset, length_app. cbn [length]. split_and!; [done|lia|done|done| |].
    - intros i [Hi| ->%list_elem_of_singleton]%elem_of_app; auto.
    - intros i. rewrite elem_of_app, list_elem_of_singleton. tauto. }
  destruct (bool_decide (postOf x wid !! pos = Some id)); [left; split; [left; by apply Hfp|done]|].
  assert (id ∉ postOf x wid) as Hnp by (intros ?%Hfp; done). right.
  pose proof (Insert_ascending _ id Hta Hnt) as Hti. fold tpos in Hti.
  assert (∀ i, i ∈ postOf x wid → i ∉ Insert (tailOf x wid) tpos id) as Hdi.
  { intros i Hi [->|Hit]%elem_of_Insert; [done|by eapply Hd]. }
  destruct ((length (postOf x wid) <=? postingInlineMax)%nat && bool_decide (tailOf x wid = [])) eqn:Ei.
  { apply andb_true_iff in Ei as [_ Ei%bool_decide_eq_true]. exists (Insert (postOf x wid) pos id), [].
    rewrite Eset, Ei, length_Insert. cbn [length]. split_and!; [done|lia|by apply Insert_ascending|constructor| |].
    - by intros i _ ?%elem_of_nil.
    - intros i. rewrite elem_of_Insert. tauto. }
  destruct (length (Insert (tailOf x wid) tpos id) <? postingTailMax)%nat.
  - exists (postOf x wid), (Insert (tailOf x wid) tpos id). rewrite length_Insert.
    split_and!; [|lia|done|done|done|intros i; rewrite elem_of_Insert; tauto].
    unfold setLists. rewrite bool_decide_eq_false_2 by (unfold Insert; by destruct (take _ _)).
    destruct (lookup_lt_is_Some_2 (x_post x) wid) as [old E]; [lia|]. unfold postOf. rewrite E. cbn.
    rewrite list_insert_id by done. by destruct x.
  - destruct (unionSorted_spec _ _ Hp Hti) as [Hus Hun]. exists (unionSorted (postOf x wid) (Insert (tailOf x wid) tpos id)), [].
    rewrite unionSorted_length, length_Insert by done. cbn [length].
    split_and!; [by destruct x|lia|done|constructor|by intros i _ ?%elem_of_nil|].
    intros i. rewrite Hun, elem_of_Insert, elem_of_nil. tauto.
Qed.

Lemma wf_setLists x wid ids tail n :
  wf_index x → (wid < length (x_words x))%nat → ascending ids → ascending tail → (∀ i, i ∈ ids → i ∉ tail) →
  n = x_entries x - postingLen x wid + length ids + length tail →
  wf_index { setLists wid ids tail x with x_entries := n }.
Proof.
  intros [Hv Hlen Hga Hg Hl Ht He] L Hi Hta Hd ->.
  assert (wid < length (x_post x))%nat as L' by lia.
  split.
  - by destruct x.
  - destruct x. cbn in *. by rewrite length_insert.
  - by destruct x.
  - by destruct x.
  - intros wid'. change (postOf _ wid') with (postOf (setLists wid ids tail x) wid').
    change (tailOf _ wid') with (tailOf (setLists wid ids tail x) wid').
    rewrite postOf_setLists, tailOf_setLists by done. by case_decide.
  - intros wid' l. destruct x. cbn in *. case_bool_decide as E; [intros [_ E']%lookup_delete_Some; eauto|].
    intros [[<- <-]|[_ E']]%lookup_insert_Some; [done|eauto].
  - transitivity (entriesOf (setLists wid ids tail x)); [|by destruct x].
    rewrite entriesOf_setLists by done. destruct x. cbn in *. lia.
Qed.

Lemma addGram_all wid gs grams g :
  (∀ g, last (default [] (grams !! g)) ≠ Some wid) →
  fold_left (addGram wid) gs grams !! g =
    if decide (g ∈ gs) then Some (default [] (grams !! g) ++ [wid]) else grams !! g.
Proof.
  intros Hl. revert g. induction gs as [|g' gs IH] using rev_ind; intros g; [done|].
  rewrite fold_left_app. cbn [fold_left]. unfold addGram at 1. rewrite (IH g').
  destruct (decide (g' ∈ gs)) as [Hin|Hin]; cbv zeta.
  - rewrite bool_decide_eq_true_2, IH by apply last_snoc.
    apply decide_ext. rewrite elem_of_app, list_elem_of_singleton. naive_solver.
  - rewrite bool_decide_eq_false_2 by apply Hl. destruct (decide (g = g')) as [->|Hne].
    + rewrite lookup_insert_eq, decide_True; [done|]. apply elem_of_app. right. by left.
    + rewrite lookup_insert_ne, IH by done. apply decide_ext. rewrite elem_of_app, list_elem_of_singleton. naive_solver.
Qed.

Lemma wf_tail_nil x wid : wf_index x → (length (x_words x) <= wid)%nat → x_tails x !! wid = None.
Proof.
  intros Hwf L. destruct (x_tails x !! wid) as [l|] eqn:E; [|done].
  destruct (wf_tails x Hwf wid l E). lia.
Qed.

Lemma sumZ_app l k : sumZ (l ++ k) = sumZ l + sumZ k.
Proof. unfold sumZ. induction l as [|z l IH]; simpl; lia. Qed.

Definition withWord (w : bytes) (x : nameIndex) : nameIndex :=
  let wid := length (x_words x) in
  { x with x_vocab := <[w := wid]> (x_vocab x); x_words := x_words x ++ [w]; x_post := x_post x ++ [[]];
           x_grams := fold_left (addGram wid) (trigrams w) (x_grams x) }.

Lemma postOf_withWord w x wid : postOf (withWord w x) wid = postOf x wid.
Proof.
  unfold postOf. cbn. destruct (decide (wid < length (x_post x))%nat) as [L|L].
  - by rewrite lookup_app_l by lia.
  - rewrite lookup_app_r, (lookup_ge_None_2 (x_post x)) by lia. by destruct (wid - length (x_post x))%nat.
Qed.

Lemma listed_withWord w x wid i : listed (withWord w x) wid i ↔ listed x wid i.
Proof. unfold listed. by rewrite postOf_withWord. Qed.

Lemma listed_fresh x wid i : wf_index x → (length (x_words x) <= wid)%nat → ¬ listed x wid i.
Proof.
  intros Hwf L. unfold listed, postOf, tailOf. pose proof (wf_post_len x Hwf).
  rewrite (wf_tail_nil x), (lookup_ge_None_2 (x_post x)) by (done || lia). by intros [?%elem_of_nil|?%elem_of_nil].
Qed.

Lemma wf_withWord w x : wf_index x → x_vocab x !! w = None → wf_index (withWord w x).
Proof.
  intros Hwf Hnone. pose proof Hwf as [Hv Hlen Hga Hg Hl Ht He].
  assert (∀ g, last (default [] (x_grams x !! g)) ≠ Some (length (x_words x))) as Hlast.
  { intros g. destruct (x_grams x !! g) as [l|] eqn:E; [|done]. intros Hl'.
    destruct (Hga g l E) as [_ Hb]. rewrite Forall_forall in Hb. cbn in Hl'. apply last_Some_elem_of in Hl'.
    specialize (Hb _ Hl'). simpl in Hb. lia. }
  split.
  - intros w' wid. cbn. rewrite lookup_insert_Some, lookup_snoc_Some, (Hv w').
    split; [intros [[<- <-]|[Hne E]]; [by right|left; split; [by eapply lookup_lt_Some|done]]|].
    intros [[L E]|[-> <-]]; [right|by left]. split; [|done]. intros ->. apply Hv in E. congruence.
  - cbn. rewrite !length_app. cbn. lia.
  - intros g l. cbn. rewrite addGram_all by done. rewrite length_app. cbn [length]. case_decide as Hg'.
    + intros [= <-]. destruct (x_grams x !! g) as [l|] eqn:E; cbn; [|split; repeat constructor; lia].
      destruct (Hga g l E) as [Ha Hb]. split.
      * apply ascending_snoc; [done|]. intros y Hy%last_Some_elem_of. rewrite Forall_forall in Hb. by apply Hb.
      * apply Forall_app. split; [eapply Forall_impl; [exact Hb|simpl; lia]|repeat constructor; lia].
    + intros E. destruct (Hga g l E) as [Ha Hb]. split; [done|]. eapply Forall_impl; [exact Hb|simpl; lia].
  - intros wid w' g. cbn. rewrite lookup_snoc_Some, addGram_all by done. intros [[L E]|[-> ->]] Hin.
    + destruct (Hg wid w' g E Hin) as (l&El&Hw). rewrite El. case_decide; eexists; (split; [done|]); [|done].
      apply elem_of_app. by left.
    + rewrite decide_True by done. eexists. split; [done|]. apply elem_of_app. right. by left.
  - intros wid. rewrite postOf_withWord. apply Hl.
  - intros wid l E. cbn in *. rewrite length_app. cbn. destruct (Ht wid l E). split; [done|lia].
  - transitivity (x_entries x); [by destruct x|]. rewrite He. unfold entriesOf.
    transitivity (sumZ (map (λ l, Z.of_nat (length l)) (x_post x ++ [[]])) + tailSum (x_tails x)); [|by destruct x].
    rewrite map_app, sumZ_app. change (sumZ (map _ [[]])) with 0. unfold tailSum. lia.
Qed.

(** A word gets an id once; nothing else changes. *)
Lemma wordID_spec x w x' wid :
  wf_index x → wordID w x = (x', wid) →
  wf_index x' ∧ x_vocab x' !! w = Some wid ∧ x_live x' = x_live x ∧ ∀ w' i, lists x' w' i ↔ lists x w' i.
Proof.
  intros Hwf. unfold wordID. destruct (x_vocab x !! w) as [wid'|] eqn:E; intros [= <- <-]; [done|].
  change (mkIndex _ _ _ _ _ _ _) with (withWord w x). split_and!; [by apply wf_withWord|by apply lookup_insert_eq|done|].
  intros w' i. unfold lists. setoid_rewrite listed_withWord. cbn.
  destruct (decide (w' = w)) as [->|Hne]; [|by rewrite lookup_insert_ne]. rewrite lookup_insert_eq, E.
  split; [|by intros (?&?&_)]. intros (?&[= <-]&Hl). by apply listed_fresh in Hl.
Qed.

Lemma listed_setLists x wid ids tail n wid' i :
  (wid < length (x_post x))%nat →
  listed { setLists wid ids tail x with x_entries := n } wid' i ↔
    if decide (wid' = wid) then i ∈ ids ∨ i ∈ tail else listed x wid' i.
Proof.
  intros L. transitivity (listed (setLists wid ids tail x) wid' i); [by destruct x|].
  unfold listed. rewrite postOf_setLists, tailOf_setLists by done. by case_decide.
Qed.

Lemma wf_vocab_inj x w w' wid : wf_index x → x_vocab x !! w = Some wid → x_vocab x !! w' = Some wid → w' = w.
Proof. intros Hwf E%wf_vocab E'%wf_vocab; [congruence|done..]. Qed.

Lemma indexWord_spec id x w :
  wf_index x →
  wf_index (indexWord id x w) ∧ x_live (indexWord id x w) = x_live x ∧
  ∀ w' i, lists (indexWord id x w) w' i ↔ lists x w' i ∨ (w' = w ∧ i = id).
Proof.
  intros Hwf. unfold indexWord. destruct (wordID w x) as [x1 wid] eqn:Ew.
  destruct (wordID_spec x w x1 wid Hwf Ew) as (Hwf1&Hw&Hlive&Heq). setoid_rewrite <- Heq. rewrite <- Hlive.
  assert (wid < length (x_words x1))%nat as L by (eapply lookup_lt_Some, wf_vocab; done).
  clear x Hwf Ew Hlive Heq. rename x1 into x.
  destruct (add_shape x wid id Hwf1 L) as [[Hin ->]|(ids&tail&->&Hlen&Hi&Ht&Hd&Hin)].
  { split_and!; [done|done|]. intros w' i. split; [by left|]. intros [|[-> ->]]; [done|]. by exists wid. }
  split_and!; [|by destruct x|].
  { replace (x_entries (setLists wid ids tail x)) with (x_entries x) by by destruct x.
    apply wf_setLists; try done. lia. }
  intros w' i. unfold lists.
  setoid_rewrite listed_setLists; [|by rewrite (wf_post_len x Hwf1)].
  replace (x_vocab _) with (x_vocab x) by by destruct x.
  split.
  - intros (wid'&E&Hl). case_decide as Ewid; [subst wid'|left; by exists wid'].
    rewrite (wf_vocab_inj x w w' wid Hwf1 Hw E). apply Hin in Hl as [->|Hl]; [by right|left; by exists wid].
  - intros [(wid'&E&Hl)|[-> ->]].
    + exists wid'. split; [done|]. case_decide; [subst wid'; apply Hin; by right|done].
    + exists wid. split; [done|]. rewrite decide_True by done. apply Hin. by left.
Qed.

Lemma indexName_spec `{Unicode} id name x :
  wf_index x →
  wf_index (indexName id name x) ∧ x_live (indexName id name x) = x_live x + length (nameWords name) ∧
  ∀ w i, lists (indexName id name x) w i ↔ lists x w i ∨ (w ∈ nameWords name ∧ i = id).
Proof.
  intros Hwf. unfold indexName. set (y := {x with x_live := _}).
  assert (wf_index y) as Hy by (destruct x, Hwf; by split).
  replace (x_live x + _) with (x_live y) by by destruct x.
  assert (∀ w i, lists x w i ↔ lists y w i) as Hl by by destruct x. setoid_rewrite Hl.
  clearbody y. clear x Hwf Hl. revert y Hy. induction (nameWords name) as [|w ws IH]; intros y Hy; cbn [fold_left].
  { split_and!; [done|done|]. intros w i. split; [by left|]. by intros [|[?%elem_of_nil _]]. }
  destruct (indexWord_spec id y w Hy) as (Hwf&Hlive&Hl). destruct (IH _ Hwf) as (Hwf'&Hlive'&Hl').
  split_and!; [done|congruence|]. intros w' i. rewrite Hl', Hl, elem_of_cons. tauto.
Qed.

(** *** Purging *)

#[local] Arguments keepLive : simpl never.

Lemma elem_of_keepLive dead ids i : i ∈ keepLive dead ids ↔ i ∈ ids ∧ dead i = false.
Proof. unfold keepLive. rewrite list_elem_of_filter. tauto. Qed.

Lemma ascending_keepLive dead ids : ascending ids → ascending (keepLive dead ids).
Proof.
  induction 1 as [|x l _ IH Hx]; [constructor|]. unfold keepLive. rewrite filter_cons.
  case_decide; [|done]. apply (ascending_cons x _ l); [done| |done]. intros y Hy. by apply elem_of_keepLive in Hy as [].
Qed.

Lemma postOf_purge dead x wid : postOf (purge dead x) wid = keepLive dead (postOf x wid).
Proof. unfold postOf, purge. destruct x. cbn. rewrite list_lookup_fmap. by destruct (x_post0 !! wid). Qed.

Definition liveTail (dead : nat → bool) (tail : list nat) : option (list nat) :=
  match keepLive dead tail with [] => None | kept => Some kept end.

Lemma tailOf_purge dead x wid : tailOf (purge dead x) wid = keepLive dead (tailOf x wid).
Proof.
  unfold tailOf, purge. destruct x. cbn. rewrite lookup_omap. destruct (x_tails0 !! wid) as [l|]; [|done]. cbn.
  by destruct (keepLive dead l).
Qed.

Lemma tailSum_purge dead (m : gmap nat (list nat)) :
  tailSum (omap (liveTail dead) m) =
    tailSum m - sumZ (map (λ p : nat * list nat, dropped dead p.2) (map_to_list m)).
Proof.
  induction m as [|i l m Hi IH] using map_ind; [by rewrite omap_empty|].
  rewrite (sumZ_perm _ _ (Permutation_map _ (map_to_list_insert m i l Hi))). cbn [map].
  change (sumZ (?a :: ?k)) with (a + sumZ k). rewrite tailSum_insert, Hi. cbn [default length].
  destruct (liveTail dead l) as [k|] eqn:E.
  - rewrite (omap_insert_Some _ _ _ _ k E), tailSum_insert, lookup_omap, Hi, IH. cbn. unfold dropped, liveTail in *.
    destruct (keepLive dead l) eqn:E'; [done|]. injection E as <-. lia.
  - rewrite (omap_insert_None _ _ _ _ E), delete_id, IH by (by rewrite lookup_omap, Hi).
    unfold dropped, liveTail in *. cbn. destruct (keepLive dead l); [|done]. cbn. lia.
Qed.

Lemma sumZ_keepLive dead (ls : list (list nat)) :
  sumZ (map (λ l, Z.of_nat (length l)) (map (keepLive dead) ls)) =
    sumZ (map (λ l, Z.of_nat (length l)) ls) - sumZ (map (dropped dead) ls).
Proof. induction ls as [|l ls IH]; [done|]. cbn [map]. unfold sumZ in *. simpl. rewrite IH. unfold dropped. lia. Qed.

(** A purge takes out the dead ids and nothing else. *)
Lemma purge_spec dead x :
  wf_index x →
  wf_index (purge dead x) ∧ x_live (purge dead x) = x_live x ∧
  ∀ w i, lists (purge dead x) w i ↔ lists x w i ∧ dead i = false.
Proof.
  intros [Hv Hlen Hga Hg Hl Ht He]. split_and!; [split|by destruct x|].
  - by destruct x.
  - destruct x; cbn in *. by rewrite length_map.
  - by destruct x.
  - by destruct x.
  - intros wid. rewrite postOf_purge, tailOf_purge. destruct (Hl wid) as (Hp&Hta&Hd).
    split_and!; [by apply ascending_keepLive..|].
    intros id [Hi _]%elem_of_keepLive [Hi' _]%elem_of_keepLive. by eapply Hd.
  - intros wid l. destruct x; cbn in *. rewrite lookup_omap_Some. intros (tail&E&E').
    destruct (Ht wid tail E'). split; [|done]. destruct (keepLive dead tail); [done|by injection E as <-].
  - destruct x; cbn in *. rewrite He. unfold entriesOf. cbn. rewrite sumZ_keepLive.
    pose proof (tailSum_purge dead x_tails0) as Hs. unfold tailSum in Hs. unfold liveTail in Hs. rewrite Hs. lia.
  - intros w i. unfold lists, listed. setoid_rewrite postOf_purge. setoid_rewrite tailOf_purge.
    setoid_rewrite elem_of_keepLive. replace (x_vocab (purge dead x)) with (x_vocab x) by by destruct x.
    naive_solver.
Qed.

(** *** Words that contain a run *)

Lemma intersectAll_spec cand ls :
  ascending cand → Forall ascending ls →
  ascending (intersectAll cand ls) ∧ ∀ i, i ∈ intersectAll cand ls ↔ i ∈ cand ∧ Forall (λ l, i ∈ l) ls.
Proof.
  intros Hc Hls. revert cand Hc. induction Hls as [|l ls Hl _ IH]; intros cand Hc.
  { split; [done|]. intros i. cbn. rewrite Forall_nil. tauto. }
  assert (intersectAll cand (l :: ls) = intersectAll (intersectSorted cand l) ls ∨ cand = []) as [->| ->].
  { destruct cand; auto. }
  - destruct (intersectSorted_spec cand l Hc Hl) as [Hs Hin]. destruct (IH _ Hs) as [Hs' Hin'].
    split; [done|]. intros i. rewrite Hin', Hin, Forall_cons. tauto.
  - split; [constructor|]. intros i. cbn. rewrite elem_of_nil. tauto.
Qed.

Section Lookup.
Context `{Unicode} `{SortSliceLaws}.
Implicit Types (x : nameIndex).

Lemma gramLists_ascending x run :
  wf_index x → Forall ascending (map (λ g, default [] (x_grams x !! g)) (trigrams run)).
Proof.
  intros Hwf. apply Forall_map, Forall_forall. intros g _. cbn.
  destruct (x_grams x !! g) as [l|] eqn:E; [|constructor]. by apply (wf_grams_asc x Hwf g).
Qed.

Lemma trigrams_nonempty run : (3 <= length run)%nat → trigrams run ≠ [].
Proof. by destruct run as [|a [|b [|c run]]]; simpl; intros; try lia. Qed.

Lemma wordsContaining_spec x run :
  wf_index x → (3 <= length run)%nat →
  ascending (wordsContaining x run) ∧
  ∀ wid, wid ∈ wordsContaining x run ↔ ∃ w, x_words x !! wid = Some w ∧ Contains w run = true.
Proof.
  intros Hwf L. unfold wordsContaining. set (ls := map _ (trigrams run)).
  pose proof (gramLists_ascending x run Hwf) as Hasc. fold ls in Hasc.
  assert (∀ wid w, x_words x !! wid = Some w → Contains w run = true → Forall (λ l, wid ∈ l) ls) as Hall.
  { intros wid w Ew (a&b&->)%Contains_iff. apply Forall_map, Forall_forall. intros g Hg. cbn.
    destruct (wf_grams x Hwf wid _ g Ew (trigrams_infix a run b g Hg)) as (l&->&Hl). done. }
  destruct (existsb _ ls) eqn:Ee.
  { split; [constructor|]. intros wid. rewrite elem_of_nil. split; [done|]. intros (w&Ew&Hc).
    apply existsb_exists in Ee as (l&Hl%list_elem_of_In&El%bool_decide_eq_true). subst l.
    specialize (Hall wid w Ew Hc). rewrite Forall_forall in Hall. by apply Hall, elem_of_nil in Hl. }
  pose proof (sort_by_perm length ls) as Hp. destruct (sort_by length ls) as [|first rest].
  { apply Permutation_nil in Hp. by apply map_eq_nil, trigrams_nonempty in Hp. }
  assert (Forall ascending (first :: rest)) as [Hf Hr]%Forall_cons by by rewrite Hp.
  destruct (intersectAll_spec first rest Hf Hr) as [Hs Hin]. split.
  { clear -Hs. induction Hs as [|y l _ IH Hy]; [constructor|]. rewrite filter_cons. case_decide; [|done].
    apply (ascending_cons y _ l); [done| |done]. intros z Hz. by apply list_elem_of_filter in Hz as []. }
  intros wid. rewrite list_elem_of_filter, Hin, <- Forall_cons, Hp. split.
  - intros [Hc Hwid]. destruct (lookup_lt_is_Some_2 (x_words x) wid) as [w Ew].
    { destruct (trigrams run) as [|g gs] eqn:Eg; [by apply trigrams_nonempty in L|]. unfold ls in Hwid. cbn in Hwid.
      apply Forall_cons in Hwid as [Hg _]. destruct (x_grams x !! g) as [l|] eqn:E; [|by apply elem_of_nil in Hg].
      destruct (wf_grams_asc x Hwf g l E) as [_ Hb]. rewrite Forall_forall in Hb. by apply Hb. }
    exists w. split; [done|]. by rewrite (nth_lookup_Some _ _ _ _ Ew) in Hc.
  - intros (w&Ew&Hc). split; [by rewrite (nth_lookup_Some _ _ _ _ Ew)|by eapply Hall].
Qed.

(** *** Posting lists of several words *)

Lemma listed_concat x wids i :
  i ∈ flat_map (λ wid, postOf x wid ++ tailOf x wid) wids ↔ ∃ wid, wid ∈ wids ∧ listed x wid i.
Proof.
  rewrite list_elem_of_In, in_flat_map. setoid_rewrite <- list_elem_of_In.
  unfold listed. by setoid_rewrite elem_of_app.
Qed.

Lemma collect_spec x wids :
  wf_index x →
  ascending (collect x wids) ∧ ∀ i, i ∈ collect x wids ↔ ∃ wid, wid ∈ wids ∧ listed x wid i.
Proof.
  intros Hwf. setoid_rewrite <- listed_concat.
  assert (∀ l, ascending (Compact (SortIDs l)) ∧ ∀ i, i ∈ Compact (SortIDs l) ↔ i ∈ l) as Hg.
  { intros l. split; [apply SortCompact_ascending|]. intros i. by rewrite elem_of_Compact, elem_of_SortIDs. }
  destruct wids as [|wid [|]]; [apply Hg| |apply Hg]. cbn [collect flat_map]. rewrite app_nil_r.
  case_bool_decide as E; [|apply Hg]. rewrite E, app_nil_r. split; [by apply wf_lists|done].
Qed.

Lemma rs_size_listed x run i wid :
  wid ∈ wordsContaining x run → listed x wid i → rs_size (runSetOf x run) ≠ 0%nat.
Proof.
  intros Hw Hl. cbn. intros E. assert (postingLen x wid = 0%nat) as Hz.
  { clear Hl. induction (wordsContaining x run) as [|w ws IH]; [by apply elem_of_nil in Hw|]. cbn in E.
    apply elem_of_cons in Hw as [->|Hw]; [lia|]. apply IH; [done|lia]. }
  unfold postingLen in Hz. unfold listed in Hl. destruct (postOf x wid), (tailOf x wid); try (cbn in Hz; lia).
  by destruct Hl as [?%elem_of_nil|?%elem_of_nil].
Qed.
(** *** Names and runs *)

Lemma alnumRuns_kept s : alnumRuns s = map encode (kept_runs alnum [] (runes s)).
Proof.
  unfold alnumRuns, runes. apply (split_runs_encode alnum (λ p, encode_rune p.1) []). by apply Forall_true.
Qed.

Lemma elem_of_nameWords name w :
  w ∈ nameWords name ↔ w ∈ map encode (kept_runs alnum [] (runes (ToLower name))).
Proof.
  unfold nameWords, SortStrings. rewrite elem_of_Compact, merge_sort_Permutation.
  unfold runes. rewrite <- (split_runs_encode alnum snd []); [done|]. unfold ToLower. rewrite decode_encode.
  apply Forall_map, Forall_true. intros r. cbn. unfold encode_rune. by rewrite (norm_id (norm_rune r)) by apply norm_valid.
Qed.

Lemma lowered_runes s : Forall valid (runes (ToLower s)) ∧ encode (runes (ToLower s)) = ToLower s.
Proof.
  unfold ToLower. rewrite runes_encode, encode_norm. split; [|done].
  apply Forall_map, Forall_true. intros r. apply norm_valid.
Qed.

(** A run of letters and digits that occurs in a lowercased name lies inside one word. *)
Lemma run_in_word t name run :
  run ∈ alnumRuns (ToLower t) → Contains (ToLower name) run = true →
  ∃ w, w ∈ nameWords name ∧ Contains w run = true.
Proof.
  rewrite alnumRuns_kept, list_elem_of_fmap. intros (cs&->&Hcs) (a&b&E)%Contains_iff.
  destruct (lowered_runes t) as [Hvt _]. destruct (lowered_runes name) as [Hvn En]. rewrite <- En in E.
  pose proof (kept_runs_nonempty _ _ _ _ Hcs) as Hne.
  destruct (encode_infix cs (runes (ToLower name)) a b Hne) as (d1&d2&Ed); [|done|done|].
  { by eapply (kept_runs_Forall alnum valid [] (runes (ToLower t))). }
  destruct (kept_runs_infix alnum [] d1 cs d2 Hne) as (w1&w2&Hw).
  { by eapply (kept_runs_kept alnum []). }
  exists (encode (w1 ++ cs ++ w2)). split; [apply elem_of_nameWords, list_elem_of_fmap; rewrite Ed; by eexists|].
  apply Contains_iff. exists (encode w1), (encode w2). by rewrite !encode_app.
Qed.

(** [id] is listed under every word of [name]. *)
Definition covers x (id : nat) (name : bytes) : Prop := ∀ w, w ∈ nameWords name → lists x w id.

Lemma covered_run x id name t run :
  wf_index x → covers x id name → run ∈ alnumRuns (ToLower t) → (3 <= length run)%nat →
  Contains (ToLower name) run = true → ∃ wid, wid ∈ wordsContaining x run ∧ listed x wid id.
Proof.
  intros Hwf Hcov Hrun L Hc. destruct (run_in_word t name run Hrun Hc) as (w&Hw&Hwc).
  destruct (Hcov w Hw) as (wid&Ev&Hl). exists wid. split; [|done].
  apply (wordsContaining_spec x run Hwf L). exists w. split; [|done]. by apply (wf_vocab x Hwf).
Qed.

Lemma matchText_runs text name t run :
  matchText text name = true → t ∈ splitTerms text → run ∈ alnumRuns (ToLower t) → Contains name run = true.
Proof.
  intros Hm Ht Hr. assert (run ∈ textRuns text) as Hin.
  { apply list_elem_of_In, in_flat_map. exists t. split; [by apply list_elem_of_In|]. apply list_elem_of_In.
    unfold termRuns. by destruct (alnumRuns (ToLower t)); [apply elem_of_nil in Hr|]. }
  unfold matchText in Hm. destruct (textRuns text) as [|r rs]; [done|].
  rewrite forallb_forall in Hm. by apply Hm, list_elem_of_In.
Qed.

Lemma narrow_spec x out sets :
  wf_index x → ascending out →
  ascending (narrow x out sets) ∧
  ∀ i, i ∈ out → Forall (λ s, i ∈ collect x (rs_wids s)) sets → i ∈ narrow x out sets.
Proof.
  intros Hwf. revert out. induction sets as [|s sets IH]; intros out Ho; [done|]. cbn [narrow].
  destruct (_ || _); [done|]. destruct (collect_spec x (rs_wids s) Hwf) as [Hc _].
  destruct (intersectSorted_spec out _ Ho Hc) as [Hs Hin]. destruct (IH _ Hs) as [Hs' Hin'].
  split; [done|]. intros i Hi [Hs1 Hs2]%Forall_cons. apply Hin'; [by apply Hin|done].
Qed.

Lemma textCandidates_spec x text limit (name : nat → bytes) :
  wf_index x →
  match textCandidates x text limit with
  | Some ids => ascending ids ∧
      ∀ i, covers x i (name i) → matchText text (ToLower (name i)) = true → i ∈ ids
  | None => True
  end.
Proof.
  intros Hwf. unfold textCandidates. destruct (splitTerms text) as [|t0 ts] eqn:Et.
  { split; [constructor|]. intros i _. unfold matchText, textRuns. by rewrite Et. }
  rewrite <- Et. clear t0 ts Et. set (runs := filter _ _). set (sets := map (runSetOf x) runs).
  assert (∀ i, covers x i (name i) → matchText text (ToLower (name i)) = true → ∀ s, s ∈ sets →
    rs_size s ≠ 0%nat ∧ i ∈ collect x (rs_wids s)) as Hmem.
  { intros i Hc Hm s (run&->&Hrun)%list_elem_of_fmap. apply list_elem_of_filter in Hrun as [L%Nat.leb_le Hrun].
    apply list_elem_of_In, in_flat_map in Hrun as (t&Ht%list_elem_of_In&Hrun%list_elem_of_In).
    destruct (covered_run x i (name i) t run) as (wid&Hw&Hl); try done; [by eapply matchText_runs|].
    split; [by eapply rs_size_listed|]. apply collect_spec; [done|]. by exists wid. }
  destruct (existsb _ sets) eqn:Ee.
  { split; [constructor|]. intros i Hc Hm. apply existsb_exists in Ee as (s&Hs%list_elem_of_In&Ez%Nat.eqb_eq).
    by destruct (Hmem i Hc Hm s Hs). }
  pose proof (sort_by_perm rs_size sets) as Hp. destruct (sort_by rs_size sets) as [|s rest]; [done|].
  destruct (limit <? rs_size s)%nat; [done|].
  destruct (collect_spec x (rs_wids s) Hwf) as [Hcs _]. destruct (narrow_spec x _ rest Hwf Hcs) as [Hn Hin].
  split; [done|]. intros i Hc Hm. specialize (Hmem i Hc Hm).
  apply Hin; [|apply Forall_forall; intros s' Hs']; apply Hmem; rewrite <- Hp; [by left|by right].
Qed.

(** *** Candidates of an expression *)

Definition hashComplete (byHash : option (bytes → Z → list nat)) (file : File) (id : nat) : Prop :=
  ∀ lookup e, byHash = Some lookup → matchHashLeaf e file = true → id ∈ lookup (se_ValueString e) (se_ValueUint e).

(** What the index answers for [m]: everything, or an ascending list with every match. *)
Definition narrows (c : option (list nat)) (id : nat) (m : bool * bool) : Prop :=
  match c with Some ids => ascending ids ∧ m.2 = false ∧ (m.1 = true → id ∈ ids) | None => True end.

Lemma narrows_combine kind cl cr id ml mr :
  narrows cl id ml → narrows cr id mr → is_bool kind = true →
  narrows (combineCandidates kind cl cr) id (combineMatch kind ml mr).
Proof.
  intros Hl Hr Hk. destruct ml as [bl pl], mr as [br pr]. destruct kind; try discriminate Hk; unfold combineMatch; cbn.
  - destruct cl as [[|i l]|]; cbn in Hl.
    + destruct Hl as (?&->&Hl). split_and!; [constructor|by destruct pr|]. destruct pr; cbn; [done|].
      intros [? _]%andb_true_iff. auto.
    + destruct Hl as (Ha&->&Hl). destruct cr as [r|]; cbn in Hr |- *.
      * destruct Hr as (Hb&->&Hr). destruct (intersectSorted_spec (i :: l) r Ha Hb) as [Hs Hin].
        split_and!; [done|done|]. cbn. intros [? ?]%andb_true_iff. apply Hin. auto.
      * split_and!; [done|by destruct pr|]. destruct pr; cbn; [done|]. intros [? _]%andb_true_iff. auto.
    + destruct cr as [r|]; [|done]. cbn in Hr |- *. destruct Hr as (Hb&->&Hr). split_and!; [done|by destruct pl|].
      destruct pl; cbn; [done|]. intros [_ ?]%andb_true_iff. auto.
  - destruct cl as [l|]; [|done]. destruct cr as [r|]; [|done]. cbn in *.
    destruct Hl as (Ha&->&Hl), Hr as (Hb&->&Hr). destruct (unionSorted_spec l r Ha Hb) as [Hs Hin].
    split_and!; [done|done|]. cbn. intros [?|?]%orb_true_iff; apply Hin; auto.
  - destruct cl as [l|]; [|done]. cbn in *. destruct Hl as (Ha&->&Hl). split_and!; [done|by destruct pr|].
    destruct pr; cbn; [done|]. intros [? _]%andb_true_iff. auto.
Qed.

Lemma candidates_narrow x e limit byHash file id :
  wf_index x → covers x id (f_Name file) → hashComplete byHash file id →
  narrows (candidates x e limit byHash) id (matchNode e file (ToLower (f_Name file))).
Proof.
  intros Hwf Hcov Hhash.
  assert (∀ text, narrows (textCandidates x text limit) id (matchText text (ToLower (f_Name file)), false)) as Htext.
  { intros text. pose proof (textCandidates_spec x text limit (λ _, f_Name file) Hwf) as Ht. unfold narrows.
    destruct (textCandidates x text limit) as [ids|]; [|done]. destruct Ht as [Ha Hin]. split_and!; [done|done|].
    intros Hm. by apply Hin. }
  induction e as [kind text tag vs vu l r rel IHl IHr] using SearchExpr_tree_ind.
  assert (narrows (candidatesPtr x l limit byHash) id (matchNodePtr l file (ToLower (f_Name file)))) as Hl by by destruct l.
  assert (narrows (candidatesPtr x r limit byHash) id (matchNodePtr r file (ToLower (f_Name file)))) as Hr by by destruct r.
  destruct kind.
  - apply Htext.
  - exact (narrows_combine SearchAnd _ _ id _ _ Hl Hr eq_refl).
  - exact (narrows_combine SearchOr _ _ id _ _ Hl Hr eq_refl).
  - exact (narrows_combine SearchAndNot _ _ id _ _ Hl Hr eq_refl).
  - cbn. destruct (tag =? searchTypeText); [apply Htext|done].
  - done.
  - done.
  - cbn. destruct byHash as [lookup|]; [|done]. split_and!; [apply SortCompact_ascending|done|].
    intros Hm. rewrite elem_of_Compact, elem_of_SortIDs. by apply (Hhash lookup _ eq_refl) in Hm.
  - done.
Qed.

(** A search through the index misses nothing. For any well-formed index that lists a
    file under the words of its name, and any expression the file matches, the index either
    declines to narrow the search or answers an ascending list without duplicates in which
    the file is. *)
Lemma candidates_complete x e limit byHash file id :
  wf_index x → covers x id (f_Name file) → hashComplete byHash file id → match_ e file = true →
  match candidates x e limit byHash with
  | Some ids => ascending ids ∧ id ∈ ids
  | None => True
  end.
Proof.
  intros Hwf Hcov Hhash. pose proof (candidates_narrow x e limit byHash file id Hwf Hcov Hhash) as Hn.
  unfold match_. destruct (matchNode _ _ _) as [m p]. destruct (candidates x e limit byHash); [|done].
  destruct Hn as (Ha&Hp&Hm). cbn in Hp, Hm. subst p. auto.
Qed.

End Lookup.

(** *** The index as a relation between words and ids *)

Inductive indexOp :=
| IndexName (id : nat) (name : bytes)
| RenameFile (id : nat) (oldName name : bytes)
| RemoveFile (name : bytes)
| Purge (dead : nat → bool).

Section Refinement.
Context `{Unicode}.

Definition applyIndexOp (x : nameIndex) (o : indexOp) : nameIndex :=
  match o with
  | IndexName id name => indexName id name x
  | RenameFile id oldName name => renameFile id oldName name x
  | RemoveFile name => removeFile name x
  | Purge dead => purge dead x
  end.

(** What an operation promises: nothing is unlisted but by a purge of its id. *)
Definition promised (R : bytes → nat → Prop) (o : indexOp) : bytes → nat → Prop := λ w i,
  match o with
  | IndexName id name => R w i ∨ (w ∈ nameWords name ∧ i = id)
  | RenameFile id oldName name => R w i ∨ (oldName ≠ name ∧ w ∈ nameWords name ∧ i = id)
  | RemoveFile name => R w i
  | Purge dead => R w i ∧ dead i = false
  end.

Definition wordsHeld (n : Z) (o : indexOp) : Z :=
  match o with
  | IndexName _ name => n + length (nameWords name)
  | RenameFile _ oldName name => n - length (nameWords oldName) + length (nameWords name)
  | RemoveFile name => n - length (nameWords name)
  | Purge _ => n
  end.

Lemma wf_live x n : wf_index x → wf_index { x with x_live := n }.
Proof. destruct x. intros []. by split. Qed.

Lemma applyIndexOp_spec x o :
  wf_index x →
  wf_index (applyIndexOp x o) ∧ x_live (applyIndexOp x o) = wordsHeld (x_live x) o ∧
  ∀ w i, lists (applyIndexOp x o) w i ↔ promised (lists x) o w i.
Proof.
  intros Hwf. destruct o as [id name|id oldName name|name|dead]; cbn [applyIndexOp wordsHeld promised].
  - by apply indexName_spec.
  - unfold renameFile. case_bool_decide as E.
    { subst. split_and!; [done|lia|]. naive_solver. }
    destruct (indexName_spec id name _ (wf_live x (x_live x - length (nameWords oldName)) Hwf)) as (Hw&Hl&Hin).
    split_and!; [done|rewrite Hl; by destruct x|]. intros w i. rewrite Hin.
    replace (lists _ w i) with (lists x w i) by by destruct x. naive_solver.
  - split_and!; [by apply wf_live|by destruct x|by destruct x].
  - by apply purge_spec.
Qed.

Lemma index_history ops :
  let x := fold_left applyIndexOp ops newNameIndex in
  wf_index x ∧ x_live x = fold_left wordsHeld ops 0 ∧
  ∀ w i, lists x w i ↔ fold_left promised ops (λ _ _, False) w i.
Proof.
  cbv zeta. induction ops as [|o ops IH] using rev_ind.
  { split_and!; [apply wf_newNameIndex|done|]. intros w i. split; [|done]. by intros (?&?&_). }
  rewrite !fold_left_app. cbn [fold_left]. destruct IH as (Hwf&Hlive&Hin).
  destruct (applyIndexOp_spec _ o Hwf) as (Hwf'&Hlive'&Hin').
  split_and!; [done|by rewrite Hlive', Hlive|]. intros w i. rewrite Hin'. destruct o; cbn; by rewrite Hin.
Qed.

(** The index is a relation. After any history of publications, renames, removals and
    purges an id is listed under a word exactly when the history says so, the lists and
    trigrams are well formed, [entries] is the number of ids in all posting lists and tails,
    and [live] the number of words of the names held. The splitting of a posting list into
    a sorted part and a tail, and the merging of the two, is not visible. *)
Lemma name_index_refines ops :
  let x := fold_left applyIndexOp ops newNameIndex in
  wf_index x ∧ x_entries x = entriesOf x ∧ x_live x = fold_left wordsHeld ops 0 ∧
  ∀ w i, lists x w i ↔ fold_left promised ops (λ _ _, False) w i.
Proof.
  intros x. destruct (index_history ops) as (Hwf&Hlive&Hin). split_and!; [done|by apply wf_entries|done|done].
Qed.

End Refinement.

(** *** Witness *)

Definition sizeLe {A} (f : A → nat) (a b : A) : Prop := (f a <= f b)%nat.
#[local] Instance sizeLe_dec {A} (f : A → nat) : RelDecision (sizeLe f).
Proof. intros a b. unfold sizeLe. apply _. Defined.

Definition mergeSortSlice : SortSlice := λ A f l, merge_sort (sizeLe f) l.

Lemma mergeSortSlice_laws : SortSliceLaws (H := mergeSortSlice).
Proof. intros A f l. apply merge_sort_Permutation. Qed.

Definition demoOps : list indexOp :=
  [IndexName 0 (str "Cabinet plans.pdf"); IndexName 1 (str "holiday.avi");
   RenameFile 1 (str "holiday.avi") (str "The Cabinet.avi")].
Definition demoIndex : nameIndex := fold_left (applyIndexOp (H := asciiTables)) demoOps newNameIndex.
Definition demoFile : File := { emptyFile with f_Name := str "The Cabinet.avi" }.

Lemma demoIndex_covers : covers (H := asciiTables) demoIndex 1 (f_Name demoFile).
Proof.
  intros w Hw. apply (proj2 (proj2 (index_history (H := asciiTables) demoOps))). right. by split; [by vm_compute|].
Qed.

