(* ===== verification/Rank.v ===== *)
(** * Ranking search answers: [storage/memory_rank.go]

    The answer to a memory-engine search: all matches while they fit, afterwards the best of
    the matches looked at, kept in a binary heap. The arena that hash copies are cut from is
    left out: values here are not shared. *)

From S2P Require Import Prelude Types Text Search SortedIDs.
Local Open Scope Z_scope.
#[local] Set Warnings "-clear-no-such-hyp".

Record rankEntry := mkEntry { re_sources : Z; re_id : nat; re_tie : Z; re_idx : nat }.

Record searchRanker := mkRanker {
  rk_expr : SearchExpr;
  rk_out : list File;
  rk_ids : list nat;
  rk_heap : option (list rankEntry);
  rk_seed : Z;
  rk_matches : Z;
}.

(** [searchRanker{expr: expr}]. *)
Definition newRanker (expr : SearchExpr) : searchRanker := mkRanker expr [] [] None 0 0.

Definition below (a b : rankEntry) : bool :=
  if negb (re_sources a =? re_sources b) then re_sources a <? re_sources b
  else if negb (re_tie a =? re_tie b) then re_tie a <? re_tie b
  else (re_id b <? re_id a)%nat.

(** [copy(h[:], f.Hash)] into eight zero bytes. *)
Definition hashWord (hash : bytes) : Z := le_combine (take 8 hash ++ replicate (8 - length hash) 0).

Definition xorShift (z n : Z) : Z := Z.lxor z (Z.shiftr z n).

Definition rankTie (seed : Z) (f : File) : Z :=
  let z := Z.lxor (Z.lxor seed (hashWord (f_Hash f))) (u64 (f_Size f * 0x9e3779b97f4a7c15)) in
  let z := u64 (xorShift z 30 * 0xbf58476d1ce4e5b9) in
  let z := u64 (xorShift z 27 * 0x94d049bb133111eb) in
  xorShift z 31.

(** [hash/fnv]'s 64-bit FNV-1a. *)
Definition fnv64a_write (h : Z) (b : bytes) : Z :=
  fold_left (λ h c, u64 (Z.lxor h c * 1099511628211)) b h.

Definition kindIndex (k : SearchKind) : Z :=
  match k with
  | SearchText => 0 | SearchAnd => 1 | SearchOr => 2 | SearchAndNot => 3 | SearchString => 4
  | SearchUInt32 => 5 | SearchUInt64 => 6 | SearchHash => 7 | SearchRelated => 8
  end.

Definition seedBytes (e : SearchExpr) : bytes :=
  u8 (kindIndex (se_Kind e) + 1) :: le_split 4 (se_TagType e) ++ le_split 8 (se_ValueUint e) ++
  se_Text e ++ [0] ++ se_ValueString e ++ [0].

Fixpoint seedWalk (h : Z) (e : SearchExpr) : Z :=
  let h := fnv64a_write h (seedBytes e) in
  match e with
  | mkSearchExpr _ _ _ _ _ l r _ =>
      let h := match l with Some l => seedWalk h l | None => fnv64a_write h [0] end in
      match r with Some r => seedWalk h r | None => fnv64a_write h [0] end
  end.

Definition searchSeed (e : SearchExpr) : Z := seedWalk 14695981039346656037 e.

(** The loop over a node's children: the one that ranks lowest, or the node. *)
Definition leastOf (h : list rankEntry) (i : nat) : nat :=
  fold_left (λ least child,
      match h !! child, h !! least with
      | Some c, Some l => if below c l then child else least
      | _, _ => least
      end)
    [2 * i + 1; 2 * i + 2]%nat i.

Definition swap (h : list rankEntry) (i j : nat) : list rankEntry :=
  match h !! i, h !! j with
  | Some a, Some b => <[j := a]> (<[i := b]> h)
  | _, _ => h
  end.

(** The position only moves down, so as many rounds as the heap is long are enough. *)
Fixpoint siftFrom (rounds i : nat) (h : list rankEntry) : list rankEntry :=
  match rounds with
  | O => h
  | S rounds =>
      let least := leastOf h i in
      if (least =? i)%nat then h else siftFrom rounds least (swap h i least)
  end.

Definition siftDown (i : nat) (h : list rankEntry) : list rankEntry := siftFrom (length h) i h.

(** [for i := len(heap)/2 - 1; i >= 0; i--]. *)
Definition heapify (h : list rankEntry) : list rankEntry :=
  fold_left (λ h i, siftDown i h) (rev (seq 0 (length h / 2))) h.

Fixpoint entriesFrom (seed : Z) (i : nat) (out : list File) (ids : list nat) : list rankEntry :=
  match out, ids with
  | f :: out, id :: ids => mkEntry (f_Sources f) id (rankTie seed f) i :: entriesFrom seed (S i) out ids
  | _, _ => []
  end.

(** The heap, built on the first match past the cap. *)
Definition buildHeap (r : searchRanker) : searchRanker :=
  match rk_heap r with
  | Some _ => r
  | None =>
      let seed := searchSeed (rk_expr r) in
      { r with rk_seed := seed; rk_ids := [];
               rk_heap := Some (heapify (entriesFrom seed 0 (rk_out r) (rk_ids r))) }
  end.

(** A match against the worst one kept. The heap holds [MaxSearchResults] entries, so it has
    a top. *)
Definition challenge (id : nat) (f : File) (r : searchRanker) : searchRanker :=
  match rk_heap r with
  | Some ((top :: _) as heap) =>
      let e := mkEntry (f_Sources f) id (rankTie (rk_seed r) f) (re_idx top) in
      if below top e then
        { r with rk_out := <[re_idx e := f]> (rk_out r); rk_heap := Some (siftDown 0 (<[0%nat := e]> heap)) }
      else r
  | _ => r
  end.

Definition add (id : nat) (f : File) (r : searchRanker) : searchRanker * bool :=
  let r := { r with rk_matches := rk_matches r + 1 } in
  if length (rk_out r) <? MaxSearchResults then
    ({ r with rk_out := rk_out r ++ [f]; rk_ids := rk_ids r ++ [id] }, true)
  else
    let r := challenge id f (buildHeap r) in
    (r, rk_matches r <? searchRankScan).

(** Best first: what [slices.SortFunc] does with the comparison of [result]. *)
Definition notBelow (a b : rankEntry) : Prop := below a b = false.
#[export] Instance notBelow_dec : RelDecision notBelow.
Proof. intros a b. unfold notBelow. apply _. Defined.

Definition result_ (r : searchRanker) : list File :=
  match rk_heap r with
  | None => rk_out r
  | Some heap => omap (λ e, rk_out r !! re_idx e) (merge_sort notBelow heap)
  end.

(** The loops of [FindBySearch]: every match is added until the ranker has seen enough. *)
Fixpoint rankAll (ms : list (nat * File)) (r : searchRanker) : searchRanker :=
  match ms with
  | [] => r
  | (id, f) :: ms => let '(r, more) := add id f r in if more then rankAll ms r else r
  end.

(** ** The order *)

Lemma below_iff a b :
  below a b = true ↔
    re_sources a < re_sources b ∨
    re_sources a = re_sources b ∧ (re_tie a < re_tie b ∨ re_tie a = re_tie b ∧ (re_id b < re_id a)%nat).
Proof.
  unfold below. destruct (Z.eqb_spec (re_sources a) (re_sources b)); cbn [negb]; [|lia].
  destruct (Z.eqb_spec (re_tie a) (re_tie b)); cbn [negb]; rewrite ?Nat.ltb_lt, ?Z.ltb_lt; lia.
Qed.

Lemma notBelow_iff a b :
  notBelow a b ↔
    re_sources b < re_sources a ∨
    re_sources a = re_sources b ∧ (re_tie b < re_tie a ∨ re_tie a = re_tie b ∧ (re_id a <= re_id b)%nat).
Proof. unfold notBelow. rewrite <- not_true_iff_false, below_iff. lia. Qed.

#[export] Instance notBelow_trans : Transitive notBelow.
Proof. intros a b c. rewrite !notBelow_iff. lia. Qed.

#[export] Instance notBelow_total : Total notBelow.
Proof. intros a b. rewrite !notBelow_iff. lia. Qed.

Lemma notBelow_refl a : notBelow a a.
Proof. rewrite notBelow_iff. lia. Qed.

(** ** The heap *)

(** The entry at [c], if any, does not rank under the one at [p]: the worst is on top. *)
Definition ord (h : list rankEntry) (p c : nat) : Prop :=
  ∀ a b, h !! p = Some a → h !! c = Some b → notBelow b a.

Definition child (p c : nat) : Prop := c = (2 * p + 1)%nat ∨ c = (2 * p + 2)%nat.

Definition heapFrom (k : nat) (h : list rankEntry) : Prop := ∀ p c, (k <= p)%nat → child p c → ord h p c.

(** Heap order everywhere from [k] on but at [i], whose children its parent covers. *)
Definition heapBut (k i : nat) (h : list rankEntry) : Prop :=
  (∀ p c, (k <= p)%nat → p ≠ i → child p c → ord h p c) ∧
  (∀ p c, (k <= p)%nat → child p i → child i c → ord h p c).

Lemma leastOf_spec h i :
  let l := leastOf h i in
  (l = i ∨ child i l ∧ (∃ a b, h !! i = Some a ∧ h !! l = Some b ∧ below b a = true)) ∧
  (∀ c, child i c → ord h l c).
Proof.
  unfold leastOf. cbn [fold_left]. set (c1 := (2 * i + 1)%nat). set (c2 := (2 * i + 2)%nat).
  destruct (h !! i) as [a|] eqn:Ei.
  2:{ assert (h !! c1 = None) as -> by (apply lookup_ge_None; apply lookup_ge_None in Ei; lia).
      assert (h !! c2 = None) as -> by (apply lookup_ge_None; apply lookup_ge_None in Ei; lia).
      split; [by left|]. intros c _ x y Ex. congruence. }
  assert (∀ l b, h !! l = Some b → (∀ x, h !! c1 = Some x → notBelow x b) → (∀ x, h !! c2 = Some x → notBelow x b) →
    ∀ c, child i c → ord h l c) as Hord.
  { intros l b El H1 H2 c [->| ->] x y Ex Ey; rewrite El in Ex; injection Ex as <-; auto. }
  destruct (h !! c1) as [b1|] eqn:E1.
  2:{ assert (h !! c2 = None) as E2 by (apply lookup_ge_None; apply lookup_ge_None in E1; lia).
      rewrite E2 in *. split; [by left|]. by apply (Hord i a). }
  destruct (below b1 a) eqn:B1.
  - rewrite E1. destruct (h !! c2) as [b2|] eqn:E2.
    2:{ split; [right; split; [by left|]; by exists a, b1|]. apply (Hord c1 b1); [done| |done].
        intros x [= <-]. apply notBelow_refl. }
    destruct (below b2 b1) eqn:B2.
    + split; [right; split; [by right|]; exists a, b2; split_and!; [done|done|]|].
      { apply below_iff in B1. apply below_iff in B2. apply below_iff. lia. }
      apply (Hord c2 b2); [done| |]; intros x [= <-]; [|apply notBelow_refl].
      apply below_iff in B2. apply notBelow_iff. lia.
    + split; [right; split; [by left|]; by exists a, b1|]. apply (Hord c1 b1); [done| |]; intros x [= <-]; [|done].
      apply notBelow_refl.
  - rewrite Ei. destruct (h !! c2) as [b2|] eqn:E2.
    2:{ split; [by left|]. apply (Hord i a); [done| |done]. by intros x [= <-]. }
    destruct (below b2 a) eqn:B2.
    + split; [right; split; [by right|]; by exists a, b2|].
      apply (Hord c2 b2); [done| |]; intros x [= <-]; [|apply notBelow_refl].
      apply below_iff in B2. apply not_true_iff_false in B1. rewrite below_iff in B1. apply notBelow_iff. lia.
    + split; [by left|]. apply (Hord i a); [done| |]; by intros x [= <-].
Qed.

Lemma swap_step k i l h a b :
  (k <= i)%nat → heapBut k i h → child i l → h !! i = Some a → h !! l = Some b → below b a = true →
  (∀ c, child i c → ord h l c) → heapBut k l (swap h i l).
Proof.
  intros Hk [Hb Hg] Hil Ei El Hba Hmin. unfold swap. rewrite Ei, El. set (h' := <[l := a]> _).
  assert (i ≠ l ∧ i < length h ∧ l < length h)%nat as (Hne&Li&Ll).
  { apply lookup_lt_Some in Ei, El. destruct Hil; lia. }
  assert (h' !! i = Some b) as Ei'.
  { unfold h'. rewrite list_lookup_insert_ne by done. by rewrite list_lookup_insert_eq. }
  assert (h' !! l = Some a) as El'.
  { unfold h'. rewrite list_lookup_insert_eq; [done|]. by rewrite length_insert. }
  assert (∀ j, j ≠ i → j ≠ l → h' !! j = h !! j) as Hj.
  { intros j ? ?. unfold h'. by rewrite !list_lookup_insert_ne. }
  split.
  - intros p c Hp Hpl Hpc x y Ex Ey. destruct (decide (p = i)) as [->|Hpi].
    + rewrite Ei' in Ex. injection Ex as <-. destruct (decide (c = l)) as [->|Hcl].
      * rewrite El' in Ey. injection Ey as <-. apply below_iff in Hba. apply notBelow_iff. lia.
      * rewrite Hj in Ey by (destruct Hpc; lia). by apply (Hmin c Hpc).
    + rewrite Hj in Ex by done. destruct (decide (c = i)) as [->|Hci].
      * rewrite Ei' in Ey. injection Ey as <-. by apply (Hg p l Hp Hpc Hil).
      * destruct (decide (c = l)) as [->|Hcl]; [destruct Hpc, Hil; lia|].
        rewrite Hj in Ey by done. by apply (Hb p c).
  - intros p c Hp Hpl Hlc x y Ex Ey. assert (p = i) as -> by (destruct Hpl, Hil; lia).
    rewrite Ei' in Ex. injection Ex as <-. rewrite Hj in Ey by (destruct Hlc, Hil; lia).
    apply (Hb l c); [destruct Hil; lia|done|done|done|done].
Qed.

Lemma siftFrom_spec rounds k i h :
  (length h <= i + rounds)%nat → (k <= i)%nat → heapBut k i h →
  heapFrom k (siftFrom rounds i h) ∧ siftFrom rounds i h ≡ₚ h.
Proof.
  revert i h. induction rounds as [|rounds IH]; intros i h L Hk Hh; cbn [siftFrom].
  { split; [|done]. intros p c Hp Hc. destruct (decide (p = i)) as [->|]; [|by apply (proj1 Hh)].
    intros x y Ex. apply lookup_lt_Some in Ex. lia. }
  destruct (leastOf_spec h i) as [Hl Hmin]. destruct (Nat.eqb_spec (leastOf h i) i) as [E|E].
  { split; [|done]. rewrite E in Hmin. intros p c Hp Hc. destruct (decide (p = i)) as [->|]; [by apply Hmin|by apply (proj1 Hh)]. }
  destruct Hl as [|(Hc&a&b&Ei&El&Hba)]; [done|].
  assert (swap h i (leastOf h i) ≡ₚ h) as Hp.
  { unfold swap. rewrite Ei, El. by apply Permutation_insert_swap. }
  destruct (IH (leastOf h i) (swap h i (leastOf h i))) as [H1 H2].
  - rewrite Hp. destruct Hc; lia.
  - destruct Hc; lia.
  - by eapply swap_step.
  - split; [done|by rewrite H2].
Qed.

Lemma siftDown_spec k h : heapFrom (S k) h → heapFrom k (siftDown k h) ∧ siftDown k h ≡ₚ h.
Proof.
  intros Hh. apply siftFrom_spec; [lia|lia|]. split.
  - intros p c Hp Hne. apply Hh. lia.
  - intros p c Hp [E|E]; lia.
Qed.

Lemma heapify_spec h : heapFrom 0 (heapify h) ∧ heapify h ≡ₚ h.
Proof.
  unfold heapify. assert (heapFrom (length h / 2) h) as Hh.
  { intros p c Hp Hc x y Ex Ey. apply lookup_lt_Some in Ey. pose proof (Nat.div_mod_eq (length h) 2).
    pose proof (Nat.mod_upper_bound (length h) 2). destruct Hc; lia. }
  generalize dependent (length h / 2)%nat. intros n. revert h. induction n as [|n IH]; [done|]. intros h Hh.
  rewrite seq_S, rev_app_distr. cbn [rev app fold_left Nat.add]. destruct (siftDown_spec n h Hh) as [H1 H2].
  destruct (IH _ H1) as [H3 H4]. split; [done|]. by rewrite H4.
Qed.

(** The top ranks lowest. *)
Lemma heap_top h top rest : heapFrom 0 h → h = top :: rest → Forall (λ e, notBelow e top) h.
Proof.
  intros Hh ->. apply Forall_lookup. intros i. induction (lt_wf i) as [i _ IH]. intros e Ee.
  destruct i as [|i]; [injection Ee as <-; apply notBelow_refl|].
  set (p := (i / 2)%nat). assert (child p (S i)) as Hc.
  { unfold child, p. pose proof (Nat.div_mod_eq i 2). pose proof (Nat.mod_upper_bound i 2). lia. }
  destruct (lookup_lt_is_Some_2 (top :: rest) p) as [x Ex].
  { apply lookup_lt_Some in Ee. destruct Hc; lia. }
  transitivity x; [by apply (Hh p (S i) ltac:(lia) Hc)|]. apply (IH p); [destruct Hc; lia|done].
Qed.

(** ** What the ranker keeps *)

#[local] Arguments siftDown : simpl never.
#[local] Arguments Z.to_nat : simpl never.

Section Kept.
Context (seed : Z).

(** The rank of a match, and the order best first. *)
Definition rankOf (p : nat * File) : rankEntry := mkEntry (f_Sources p.2) p.1 (rankTie seed p.2) 0.
Definition better (p q : nat * File) : Prop := notBelow (rankOf p) (rankOf q).
#[export] Instance better_dec : RelDecision better.
Proof. intros p q. unfold better. apply _. Defined.

#[export] Instance better_trans : Transitive better.
Proof. intros p q r. apply notBelow_trans. Qed.
#[export] Instance better_total : Total better.
Proof. intros p q. apply notBelow_total. Qed.

Lemma better_antisym ms p q :
  NoDup ms.*1 → p ∈ ms → q ∈ ms → better p q → better q p → p = q.
Proof.
  intros Hnd Hp Hq. unfold better. rewrite !notBelow_iff. cbn. intros H1 H2.
  assert (p.1 = q.1) as E by lia. apply list_elem_of_lookup in Hp as [i Hi], Hq as [j Hj].
  assert (i = j) as <-; [|congruence].
  eapply (NoDup_lookup ms.*1); [done|..]; rewrite list_lookup_fmap; [by rewrite Hi|rewrite Hj; cbn; congruence].
Qed.

(** Keeping the better half of a list is sorting it and cutting it off. *)
Lemma best_take ms kept rest :
  NoDup ms.*1 → kept ++ rest ≡ₚ ms → StronglySorted better kept →
  (∀ p q, p ∈ kept → q ∈ rest → better p q) → take (length kept) (merge_sort better ms) = kept.
Proof.
  intros Hnd Hp Hs Hpq. assert (merge_sort better ms = kept ++ merge_sort better rest) as ->; [|by apply take_app_length].
  apply (StronglySorted_unique_strong better).
  - intros p q Hp1 Hq1. apply (better_antisym ms); [done| |].
    + by rewrite merge_sort_Permutation in Hp1.
    + by rewrite merge_sort_Permutation, Hp in Hq1.
  - apply StronglySorted_merge_sort; apply _.
  - apply StronglySorted_app_2; [|done|apply StronglySorted_merge_sort; apply _].
    intros p q Hp1 Hq1. rewrite merge_sort_Permutation in Hq1. auto.
  - by rewrite !merge_sort_Permutation, Hp.
Qed.

Definition keptOf (out : list File) (heap : list rankEntry) : list (nat * File) :=
  map (λ e, (re_id e, default emptyFile (out !! re_idx e))) heap.

(** The entry stands for the file its index points at. *)
Definition entryOk (out : list File) (e : rankEntry) : Prop :=
  ∃ f, out !! re_idx e = Some f ∧ e = mkEntry (f_Sources f) (re_id e) (rankTie seed f) (re_idx e).

Record ranked (seen : list (nat * File)) (r : searchRanker) : Prop := {
  rd_seed : rk_seed r = seed;
  rd_out : length (rk_out r) = Z.to_nat MaxSearchResults;
  rd_heap : ∃ heap rest, rk_heap r = Some heap ∧ length heap = Z.to_nat MaxSearchResults ∧ heapFrom 0 heap ∧
    Forall (entryOk (rk_out r)) heap ∧ NoDup (map re_idx heap) ∧
    keptOf (rk_out r) heap ++ rest ≡ₚ seen ∧
    (∀ p q, p ∈ keptOf (rk_out r) heap → q ∈ rest → better p q);
}.

Lemma entryOk_rank out e : entryOk out e → ∀ e', notBelow e e' ↔ notBelow (rankOf (re_id e, default emptyFile (out !! re_idx e))) e'.
Proof. intros (f&E&He) e'. rewrite E, He, !notBelow_iff. done. Qed.

Lemma entryOk_rank_r out e : entryOk out e → ∀ e', notBelow e' e ↔ notBelow e' (rankOf (re_id e, default emptyFile (out !! re_idx e))).
Proof. intros (f&E&He) e'. rewrite E, He, !notBelow_iff. done. Qed.

Lemma challenge_matches id f r : rk_matches (challenge id f r) = rk_matches r.
Proof.
  unfold challenge. destruct r as [? ? ? [[|]|] ? ?]; cbn; try done. cbv zeta. by destruct (below _ _).
Qed.

Lemma keptOf_insert out i f heap :
  Forall (λ e, re_idx e ≠ i) heap → keptOf (<[i := f]> out) heap = keptOf out heap.
Proof.
  intros Hf. apply map_ext_in. intros e He. rewrite Forall_forall in Hf.
  rewrite list_lookup_insert_ne; [done|]. symmetry. apply Hf. by apply list_elem_of_In.
Qed.

(** The top replaced by [(id, f)] and sifted down. *)
Lemma replaceTop out top tl id f
    (e := mkEntry (f_Sources f) id (rankTie seed f) (re_idx top))
    (heap := siftDown 0 (e :: tl)) (out' := <[re_idx top := f]> out) :
  heapFrom 0 (top :: tl) → Forall (entryOk out) (top :: tl) → NoDup (map re_idx (top :: tl)) →
  heapFrom 0 heap ∧ length heap = S (length tl) ∧ Forall (entryOk out') heap ∧ NoDup (map re_idx heap) ∧
  keptOf out' heap ≡ₚ (id, f) :: keptOf out tl.
Proof.
  intros Hheap [(ft&Eft&_) Hok]%Forall_cons Hidx. cbn [map] in Hidx. apply NoDup_cons in Hidx as [Hni Hidx].
  assert (heapFrom 1 (e :: tl)) as Hh1.
  { intros p c Hp Hc x y Ex Ey. destruct p as [|p]; [lia|]. destruct c as [|c]; [destruct Hc; lia|].
    by apply (Hheap (S p) (S c)); [lia|..]. }
  destruct (siftDown_spec 0 (e :: tl) Hh1) as [Hs1 Hs2]. fold heap in Hs1, Hs2.
  assert (Forall (λ t, re_idx t ≠ re_idx top) tl) as Hne.
  { apply Forall_forall. intros t Ht E. apply Hni. apply list_elem_of_fmap. by exists t. }
  pose proof (lookup_lt_Some _ _ _ Eft) as Lt. split_and!.
  - done.
  - by rewrite Hs2.
  - rewrite Hs2. constructor; [exists f; unfold out'; by rewrite list_lookup_insert_eq|].
    eapply Forall_impl; [apply Forall_and; split; [exact Hok|exact Hne]|]. intros t [(g&Eg&Et) Hn]. exists g.
    unfold out'. by rewrite list_lookup_insert_ne.
  - rewrite (Permutation_map re_idx Hs2). cbn. by constructor.
  - transitivity (keptOf out' (e :: tl)); [by apply Permutation_map|]. unfold keptOf at 1. cbn. unfold out'.
    rewrite list_lookup_insert_eq by done. cbn. by rewrite <- (keptOf_insert out (re_idx top) f tl Hne).
Qed.

Lemma challenge_ranked seen r id f : ranked seen r → ranked (seen ++ [(id, f)]) (challenge id f r).
Proof.
  intros [Hseed Hout (heap&rest&Eh&Hlen&Hheap&Hok&Hidx&Hperm&Hbest)]. unfold challenge. rewrite Eh.
  destruct heap as [|top tl]; [done|]. pose proof (heap_top _ _ _ Hheap eq_refl) as [_ Htop]%Forall_cons.
  pose proof Hok as [Hokt Hokl]%Forall_cons.
  set (pt := (re_id top, default emptyFile (rk_out r !! re_idx top))).
  assert (keptOf (rk_out r) (top :: tl) = pt :: keptOf (rk_out r) tl) as Ek by done. rewrite Ek in *.
  rewrite Hseed. set (e := mkEntry _ _ _ _).
  assert (∀ q, q ∈ keptOf (rk_out r) tl → better q pt) as Htl.
  { intros q (t&->&Ht)%list_elem_of_fmap. rewrite Forall_forall in Htop, Hokl.
    apply (entryOk_rank_r _ top Hokt), (entryOk_rank _ t (Hokl t Ht)). auto. }
  destruct (below top e) eqn:Eb.
  - assert (better (id, f) pt) as Hep.
    { apply (entryOk_rank_r _ top Hokt). apply below_iff in Eb. apply notBelow_iff. cbn in *. lia. }
    destruct (replaceTop (rk_out r) top tl id f Hheap Hok Hidx) as (Hh&Hl&Ho&Hi&Hk). fold e in Hh, Hl, Ho, Hi, Hk.
    split; [by destruct r|destruct r; cbn in *; by rewrite length_insert|].
    exists (siftDown 0 (e :: tl)), (pt :: rest). split_and!; try (by destruct r).
    + by rewrite Hl.
    + transitivity (((id, f) :: keptOf (rk_out r) tl) ++ pt :: rest); [by f_equiv|].
      rewrite <- Hperm. cbn. solve_Permutation.
    + intros p q. change (keptOf _ _) with (keptOf (<[re_idx top := f]> (rk_out r)) (siftDown 0 (e :: tl))).
      rewrite Hk, !elem_of_cons. intros [->|Hp] [->|Hq]; [done| |by apply Htl|].
      * transitivity pt; [done|]. apply Hbest; [by left|done].
      * apply Hbest; [by right|done].
  - split; [done|done|]. exists (top :: tl), ((id, f) :: rest). rewrite Ek. split_and!; try done.
    + rewrite <- Hperm. solve_Permutation.
    + assert (better pt (id, f)) as Hpe.
      { apply (entryOk_rank _ top Hokt). revert Eb. fold (notBelow top e). by rewrite !notBelow_iff. }
      intros p q. rewrite !elem_of_cons. intros [->|Hp] [->|Hq]; [done|apply Hbest; [by left|done]| |apply Hbest; [by right|done]].
      transitivity pt; [by apply Htl|done].
Qed.

End Kept.

Lemma entriesFrom_spec seed all i out ids :
  drop i all = out → length ids = length out →
  Forall (entryOk seed all) (entriesFrom seed i out ids) ∧
  map re_idx (entriesFrom seed i out ids) = seq i (length out) ∧
  keptOf all (entriesFrom seed i out ids) = zip ids out.
Proof.
  revert i ids. induction out as [|f out IH]; intros i [|id ids] Ed L; try done.
  assert (all !! i = Some f) as Ef.
  { rewrite <- (Nat.add_0_r i), <- lookup_drop, Ed. done. }
  destruct (IH (S i) ids) as (H1&H2&H3).
  { rewrite <- Nat.add_1_r, <- drop_drop, Ed. done. }
  { cbn in L. lia. }
  cbn [entriesFrom]. split_and!.
  - constructor; [|done]. exists f. done.
  - cbn. by rewrite H2.
  - unfold keptOf in *. cbn. by rewrite Ef, H3.
Qed.

(** The answer while the matches fit. *)
Definition collected (expr : SearchExpr) (seen : list (nat * File)) : searchRanker :=
  mkRanker expr seen.*2 seen.*1 None 0 (length seen).

Lemma buildHeap_ranked expr seen n :
  length seen = Z.to_nat MaxSearchResults →
  ranked (searchSeed expr) seen (buildHeap { collected expr seen with rk_matches := n }).
Proof.
  intros L. set (seed := searchSeed expr).
  destruct (entriesFrom_spec seed seen.*2 0 seen.*2 seen.*1) as (H1&H2&H3); [done|by rewrite !length_fmap|].
  set (es := entriesFrom seed 0 seen.*2 seen.*1) in *.
  destruct (heapify_spec es) as [Hh Hp]. split; [done|cbn; by rewrite length_fmap|].
  exists (heapify es), []. split_and!; try done.
  - rewrite Hp. rewrite <- (length_map re_idx es), H2, length_seq, length_fmap. done.
  - by rewrite Hp.
  - rewrite (Permutation_map re_idx Hp), H2. apply NoDup_seq.
  - rewrite app_nil_r. transitivity (keptOf seen.*2 es); [by apply Permutation_map|]. rewrite H3. clear. induction seen as [|[] ? IH]; cbn; [done|]. by rewrite IH.
  - by intros p q _ ?%elem_of_nil.
Qed.

Lemma caps : 0 < MaxSearchResults ∧ MaxSearchResults + 1 < searchRankScan.
Proof. done. Qed.

Lemma rankAll_ranked seed ms seen r :
  ranked seed seen r → rk_matches r = length seen → length seen < searchRankScan →
  ranked seed (seen ++ take (Z.to_nat (searchRankScan - length seen)) ms) (rankAll ms r).
Proof.
  revert seen r. induction ms as [|[id f] ms IH]; intros seen r Hr Hm L; cbn [rankAll].
  { by rewrite take_nil, app_nil_r. }
  pose proof (rd_out _ _ _ Hr) as Hout. destruct (rd_heap _ _ _ Hr) as (heap&_&Eh&_).
  unfold add. set (r1 := {r with rk_matches := _}). assert (ranked seed seen r1) as Hr1.
  { destruct r, Hr. by split. }
  assert (rk_matches r1 = length seen + 1) as Hm1 by (destruct r; cbn in *; lia).
  assert (rk_out r1 = rk_out r) as -> by by destruct r. assert (rk_heap r1 = Some heap) as Eh1 by by destruct r.
  clearbody r1. pose proof caps. destruct (Z.ltb_spec (length (rk_out r)) MaxSearchResults); [lia|].
  unfold buildHeap. rewrite Eh1. pose proof (challenge_ranked seed seen r1 id f Hr1) as Hc.
  assert (rk_matches (challenge id f r1) = length (seen ++ [(id, f)])) as Hmc.
  { rewrite length_app. rewrite challenge_matches. cbn [length]. lia. }
  rewrite Hmc. replace (Z.to_nat (searchRankScan - length seen)) with
    (S (Z.to_nat (searchRankScan - length (seen ++ [(id, f)])))) by (rewrite length_app; cbn [length]; lia).
  cbn [take]. rewrite cons_middle, app_assoc. destruct (Z.ltb_spec (length (seen ++ [(id, f)])) searchRankScan).
  - by apply IH.
  - replace (Z.to_nat _) with 0%nat by lia. by rewrite take_0, app_nil_r.
Qed.

Lemma result_ranked seed seen r :
  NoDup seen.*1 → ranked seed seen r →
  result_ r = (take (Z.to_nat MaxSearchResults) (merge_sort (better seed) seen)).*2.
Proof.
  intros Hnd [_ _ (heap&rest&Eh&Hlen&_&Hok&_&Hperm&Hbest)]. unfold result_. rewrite Eh.
  set (sorted := merge_sort notBelow heap). assert (sorted ≡ₚ heap) as Hs by apply merge_sort_Permutation.
  assert (Forall (entryOk seed (rk_out r)) sorted) as Hok' by by rewrite Hs.
  assert (keptOf (rk_out r) sorted ≡ₚ keptOf (rk_out r) heap) as Hk by by apply Permutation_map.
  transitivity ((keptOf (rk_out r) sorted).*2).
  { clear -Hok'. induction Hok' as [|e es (f&Ef&_) _ IH]; [done|]. cbn. rewrite Ef. cbn. by f_equal. }
  f_equal. rewrite <- (best_take seed seen (keptOf (rk_out r) sorted) rest Hnd).
  - f_equal. unfold keptOf. rewrite length_map, Hs. done.
  - by rewrite Hk.
  - assert (StronglySorted notBelow sorted) as Hsort by (apply StronglySorted_merge_sort; apply _).
    clear -Hsort Hok'. induction Hsort as [|e es _ IH He]; [constructor|]. apply Forall_cons in Hok' as [Hoke Hok].
    constructor; [by apply IH|]. apply Forall_map. rewrite Forall_forall in He, Hok. apply Forall_forall. intros e' He'.
    apply (entryOk_rank _ _ _ Hoke), (entryOk_rank_r _ _ _ (Hok e' He')). auto.
  - intros p q. rewrite Hk. apply Hbest.
Qed.

Lemma add_collected expr seen id f :
  length seen < MaxSearchResults →
  add id f (collected expr seen) = (collected expr (seen ++ [(id, f)]), true).
Proof.
  intros L. unfold add. change (rk_out _) with seen.*2. rewrite length_fmap.
  destruct (Z.ltb_spec (length seen) MaxSearchResults); [|lia]. f_equal. unfold collected.
  rewrite !fmap_app, length_app. replace (Z.of_nat (length seen + _)) with (length seen + 1) by (cbn; lia). done.
Qed.

Lemma rankAll_collected expr seen ms1 ms2 :
  length (seen ++ ms1) <= MaxSearchResults →
  rankAll (ms1 ++ ms2) (collected expr seen) = rankAll ms2 (collected expr (seen ++ ms1)).
Proof.
  revert seen. induction ms1 as [|[id f] ms1 IH]; intros seen L; cbn [app]; [by rewrite app_nil_r|].
  cbn [rankAll]. rewrite add_collected by (rewrite length_app in L; cbn [length] in L; lia).
  rewrite IH; [by rewrite <- app_assoc|]. rewrite !length_app in *. cbn [length] in *. lia.
Qed.

(** The first match past the cap. *)
Lemma add_overflow expr seen id f :
  length seen = Z.to_nat MaxSearchResults →
  ∃ r, add id f (collected expr seen) = (r, true) ∧ ranked (searchSeed expr) (seen ++ [(id, f)]) r ∧
    rk_matches r = length (seen ++ [(id, f)]).
Proof.
  intros L. pose proof caps. unfold add. change (rk_out _) with seen.*2. rewrite length_fmap.
  destruct (Z.ltb_spec (length seen) MaxSearchResults); [lia|].
  pose proof (challenge_ranked _ _ _ id f (buildHeap_ranked expr seen (length seen + 1) L)) as Hr.
  set (r := challenge id f _) in *. assert (rk_matches r = length (seen ++ [(id, f)])) as Hm.
  { rewrite length_app. transitivity (length seen + 1); [|cbn; lia]. unfold r. by rewrite challenge_matches. }
  exists r. split_and!; [|done|done]. change (challenge id f _) with r. rewrite Hm, length_app. cbn [length].
  destruct (Z.ltb_spec (Z.of_nat (length seen + 1)) searchRankScan); [done|lia].
Qed.

(** A search answer is all matches, or the best of them. Whatever matches a search
    yields, with distinct ids: up to 1000 are answered as they came; of more, the answer is
    the first 1000 of the first 20,000 matches sorted by sources, then the query's tie-break,
    then id, best first. The heap with its sifting is not visible. *)
Lemma rankAll_best expr ms :
  NoDup ms.*1 →
  result_ (rankAll ms (newRanker expr)) =
    if length ms <=? MaxSearchResults then ms.*2
    else (take (Z.to_nat MaxSearchResults)
           (merge_sort (better (searchSeed expr)) (take (Z.to_nat searchRankScan) ms))).*2.
Proof.
  intros Hnd. change (newRanker expr) with (collected expr []). pose proof caps as Hcaps.
  destruct (Z.leb_spec (length ms) MaxSearchResults) as [L|L].
  { rewrite <- (app_nil_r ms) at 1. by rewrite rankAll_collected. }
  set (n := Z.to_nat MaxSearchResults). assert (length (take n ms) = n) as Ln by (rewrite length_take; lia).
  rewrite <- (take_drop n ms) at 1. rewrite rankAll_collected by (cbn [app]; lia). cbn [app].
  destruct (drop n ms) as [|[id f] ms2] eqn:Ed.
  { apply (f_equal length) in Ed. rewrite length_drop in Ed. cbn in Ed. lia. }
  set (seen := take n ms) in *. cbn [rankAll]. destruct (add_overflow expr seen id f Ln) as (r&->&Hr&Hm).
  assert (length (seen ++ [(id, f)]) = S n) as Ls by (rewrite length_app, Ln; cbn; lia).
  pose proof (rankAll_ranked _ ms2 _ r Hr Hm ltac:(lia)) as Hfin.
  assert ((seen ++ [(id, f)]) ++ take (Z.to_nat (searchRankScan - length (seen ++ [(id, f)]))) ms2 =
    take (Z.to_nat searchRankScan) ms) as Et.
  { rewrite <- (take_drop n ms), Ed. fold seen. change (?m :: ms2) with ([m] ++ ms2). rewrite app_assoc, take_app_ge by lia.
    do 2 f_equal. lia. }
  rewrite Et in Hfin. apply result_ranked; [|done]. rewrite <- (take_drop (Z.to_nat searchRankScan) ms), fmap_app in Hnd.
  by apply NoDup_app in Hnd as [Hnd _].
Qed.
