(* ===== verification/Servers.v ===== *)
(** * The peer-server list: [storage/servers.go]

    The entries an engine advertises, one per address and port. *)

From S2P Require Import Prelude Types Address NetIP Text.
Local Open Scope Z_scope.

Section Servers.
Context `{Unicode}.

Definition ServerAddrKey (s : Server) : bytes :=
  let addr := TrimSpace (sv_IP s) in
  let addr := match ParseIP addr with Some ip => IPString ip | None => ToLower addr end in
  JoinHostPort addr (Itoa (sv_Port s)).

Definition appendUniqueServer (servers : list Server) (s : Server) : list Server * bool :=
  if sv_Port s =? 0 then (servers, false)
  else if existsb (λ existing, bool_decide (ServerAddrKey existing = ServerAddrKey s)) servers then (servers, false)
  else (servers ++ [s], true).

Definition removeServer (servers : list Server) (s : Server) : list Server * bool :=
  (filter (λ existing, ServerAddrKey existing ≠ ServerAddrKey s) servers,
   existsb (λ existing, bool_decide (ServerAddrKey existing = ServerAddrKey s)) servers).

End Servers.
