(* ===== verification/MemEngine.v ===== *)
(** * The memory engine: [storage/storage.go]

    The whole index in memory: file records in a slab, the records of one hash chained
    through their ids, the sources of a hash on its first record, the sessions with what
    each has offered, and the name index. One definition per method; the mutex is the
    atomicity of a definition, and [Disconnect], which gives it up between chunks, is a
    sequence of steps.

    A record id and a chain link are natural numbers, a link one more than the id it names,
    as in the code. A loop along a chain visits the ids of [chainFrom], which stops after as
    many steps as there are records; chains have no cycle, so none is cut short. *)

From S2P Require Import Prelude Types Text Search SortedIDs FileMeta NameIndex Rank Servers.
Local Open Scope Z_scope.

Definition fileMapKeyLen : nat := hashLen + 8.
Definition offerBatchSize : nat := 500.
Definition disconnectChunk : nat := 1000.
Definition memTypeOther : nat := 255.
Definition MaxBrowsePage : Z := 2000.
Definition ErrBrowseCursor : error := ErrNew "storage: browse cursor is no longer valid".

(** ** Data *)

(** A session's identity, shared by its sources. It is never written to, so two pointers to
    one differ from two equal values only in [RelatedFiles], see there. *)
Record memPeer := mkPeer { pe_storeID : Z; pe_hash : bytes; pe_ipv6 : bytes }.

Record memSource := mkMemSource {
  ms_peer : memPeer;
  ms_size : Z;
  ms_id : Z;
  ms_port : Z;
  ms_crypt : Z;
  ms_complete : bool;
  ms_reachable : bool;
}.

Record memMedia := mkMedia {
  md_title : bytes;
  md_artist : bytes;
  md_album : bytes;
  md_codec : bytes;
  md_typ : bytes;
  md_runtime : Z;
  md_bitrate : Z;
  md_meta : option MetaInfo;
}.

(** The flag bits, one Boolean each; [first] is [None] when its peer is nil. *)
Record memRec := mkRec {
  r_name : bytes;
  r_media : option memMedia;
  r_first : option memSource;
  r_size : Z;
  r_hash : bytes;
  r_next : nat;
  r_typ : nat;
  r_hashLen : nat;
  r_live : bool;
  r_more : bool;
  r_sibling : bool;
}.

Record memClient := mkMemClient { mc_info : ClientInfo; mc_peer : memPeer; mc_offered : list nat }.

Record MemoryEngine := mkEngine {
  e_nextClientID : Z;
  e_clients : gmap Z memClient;
  e_clientsByHash : gmap bytes Z;
  e_files : gmap bytes nat;
  e_count : Z;
  e_recs : list memRec;
  e_more : gmap nat (list memSource);
  e_dead : list nat;
  e_free : list nat;
  e_names : nameIndex;
  e_layout : Z;
  e_servers : list Server;
}.

#[export] Instance memPeer_eq_dec : EqDecision memPeer.
Proof. solve_decision. Defined.
#[export] Instance memSource_eq_dec : EqDecision memSource.
Proof. solve_decision. Defined.
#[export] Instance memMedia_eq_dec : EqDecision memMedia.
Proof. solve_decision. Defined.

Definition NewMemoryEngine : MemoryEngine := mkEngine 0 ∅ ∅ ∅ 0 [] ∅ [] [] newNameIndex 0 [].

Definition noMedia : memMedia := mkMedia [] [] [] [] [] 0 0 None.

(** The zero values of an array, of a slot of the slab. *)
Definition zeroHash : bytes := replicate hashLen 0.
Definition zeroRec : memRec := mkRec [] None None 0 zeroHash 0 0 0 false false false.

Definition memFileTypes : list bytes := [[]; str "Image"; str "Audio"; str "Video"; str "Pro"; str "Doc"].

(** ** The slab *)

Definition recAt (m : MemoryEngine) (id : nat) : memRec := default zeroRec (e_recs m !! id).
Definition setRec (id : nat) (rec : memRec) (m : MemoryEngine) : MemoryEngine :=
  { m with e_recs := <[id := rec]> (e_recs m) }.

(** ** Sessions *)

(** [hashArray]: the hash in sixteen zeroed bytes. *)
Definition hashArray (hash : bytes) : bytes := take hashLen (hash ++ replicate hashLen 0).

Definition newMemPeer (info : ClientInfo) : memPeer := mkPeer (ci_StoreID info) (ci_Hash info) (ci_IPv6 info).

Definition ClientsCount (m : MemoryEngine) : nat := size (e_clients m).
Definition FilesCount (m : MemoryEngine) : Z := e_count m.

Definition IsConnected (info : ClientInfo) (m : MemoryEngine) : bool :=
  if bool_decide (ci_Hash info ≠ []) then bool_decide (is_Some (e_clientsByHash m !! ci_Hash info))
  else existsb (λ p : Z * memClient, ci_ID (mc_info p.2) =? ci_ID info) (map_to_list (e_clients m)).

Definition Connect (info : ClientInfo) (m : MemoryEngine) : MemoryEngine * Z :=
  let id := u64 (e_nextClientID m + 1) in
  let info := { info with ci_StoreID := id } in
  ({ m with e_nextClientID := id;
            e_clients := <[id := mkMemClient info (newMemPeer info) []]> (e_clients m);
            e_clientsByHash :=
              if bool_decide (ci_Hash info ≠ []) then <[ci_Hash info := id]> (e_clientsByHash m)
              else e_clientsByHash m }, id).

(** The only session with the ed2k ID, in whatever order the map is walked. *)
Fixpoint soleMatch (id : Z) (cs : list (Z * memClient)) (found : Z) : Z :=
  match cs with
  | [] => found
  | (k, c) :: cs =>
      if ci_ID (mc_info c) =? id then (if found =? 0 then soleMatch id cs k else 0)
      else soleMatch id cs found
  end.

Definition resolveStoreIDLocked (info : ClientInfo) (m : MemoryEngine) : Z :=
  if bool_decide (ci_Hash info ≠ []) then default 0 (e_clientsByHash m !! ci_Hash info)
  else soleMatch (ci_ID info) (map_to_list (e_clients m)) 0.

Definition resolved (info : ClientInfo) (m : MemoryEngine) : Z :=
  if ci_StoreID info =? 0 then resolveStoreIDLocked info m else ci_StoreID info.

Definition OfferedCount (info : ClientInfo) (m : MemoryEngine) : nat :=
  match e_clients m !! resolved info m with Some c => length (mc_offered c) | None => 0 end.

(** ** Chains and sources *)

Fixpoint chainFrom (steps : nat) (recs : list memRec) (id : nat) : list nat :=
  match steps with
  | O => []
  | S steps =>
      id :: match r_next (default zeroRec (recs !! id)) with O => [] | S next => chainFrom steps recs next end
  end.

Definition chainOf (m : MemoryEngine) (key : bytes) : list nat :=
  match e_files m !! key with Some head => chainFrom (length (e_recs m)) (e_recs m) head | None => [] end.

Definition findLocked (key : bytes) (size : Z) (m : MemoryEngine) : option nat :=
  find (λ id, r_size (recAt m id) =? size) (chainOf m key).

Definition hashIDsLocked (m : MemoryEngine) (hash : bytes) (size : Z) : list nat :=
  filter (λ id, (size =? 0) || (r_size (recAt m id) =? size) = true) (chainOf m (hashArray hash)).

Definition moreOf (m : MemoryEngine) (head : nat) : list memSource :=
  if r_more (recAt m head) then default [] (e_more m !! head) else [].

(** [eachSourceLocked]: the sources of the hash whose first record is [head]. *)
Definition sourcesOf (m : MemoryEngine) (head : nat) : list memSource :=
  match r_first (recAt m head) with
  | None => []
  | Some s => s :: moreOf m head
  end.

(** The first source and the others, for the lookups that do not stop at a missing first. *)
Definition storedSources (m : MemoryEngine) (head : nat) : list memSource :=
  option_list (r_first (recAt m head)) ++ moreOf m head.

Definition headLocked (m : MemoryEngine) (id : nat) : nat :=
  let rec := recAt m id in if r_sibling rec then default 0%nat (e_files m !! r_hash rec) else id.

Definition HasOffered (info : ClientInfo) (files : list File) (m : MemoryEngine) : list bool :=
  let storeID := resolved info m in
  match e_clients m !! storeID with
  | None => map (λ _, false) files
  | Some _ =>
      map (λ f, match e_files m !! hashArray (f_Hash f) with
                | Some head => existsb (λ s, pe_storeID (ms_peer s) =? storeID) (storedSources m head)
                | None => false
                end) files
  end.

(** [memSource.source]. *)
Definition source (s : memSource) : Source :=
  mkSource (ms_id s) (ms_port s) (pe_hash (ms_peer s)) (ms_crypt s) (pe_ipv6 (ms_peer s)) (ms_reachable s).

(** Newest first, up to the wire limit. *)
Definition capSourcesLocked (head : nat) (size : Z) (m : MemoryEngine) : list Source :=
  let matches s := (size =? 0) || (ms_size s =? 0) || (ms_size s =? size) in
  take (Z.to_nat MaxWireSources) (map source (filter (λ s, matches s = true) (rev (storedSources m head)))).

Definition GetSources (hash : bytes) (size : Z) (m : MemoryEngine) : list Source :=
  let key := hashArray hash in
  match findLocked key size m with
  | None => []
  | Some _ => capSourcesLocked (default 0%nat (e_files m !! key)) size m
  end.

Definition GetSourcesByHash (hash : bytes) (m : MemoryEngine) : list Source :=
  match e_files m !! hashArray hash with Some head => capSourcesLocked head 0 m | None => [] end.

(** ** Files *)

(** One more source of a file: the counters and the source a result names. *)
Definition countSource (size : Z) (f : File) (s : memSource) : File :=
  if negb (size =? 0) && negb (ms_size s =? 0) && negb (ms_size s =? size) then f
  else
    let f := { f with f_Sources := u32 (f_Sources f + 1);
                      f_Completed := if ms_complete s then u32 (f_Completed f + 1) else f_Completed f } in
    if (ms_size s =? 0) || (ms_size s =? size) then { f with f_SourceID := ms_id s; f_SourcePort := ms_port s } else f.

Definition liveFieldsLocked (m : MemoryEngine) (f : File) (head : nat) : File :=
  let f := { f with f_Sources := 0; f_Completed := 0; f_SourceID := 0; f_SourcePort := 0 } in
  fold_left (countSource (f_Size f)) (sourcesOf m head) f.

(** What a record stores of a file. *)
Definition recFile (rec : memRec) : File :=
  let md := default noMedia (r_media rec) in
  let typ :=
    if (r_typ rec =? memTypeOther)%nat then match r_media rec with Some md => md_typ md | None => [] end
    else nth (r_typ rec) memFileTypes [] in
  mkFile (take (r_hashLen rec) (r_hash rec)) (r_name rec) (r_size rec) typ 0 0
    (md_title md) (md_artist md) (md_album md) (md_runtime md) (md_bitrate md) (md_codec md) 0 0 (md_meta md).

Definition fileLocked (m : MemoryEngine) (id : nat) : File :=
  liveFieldsLocked m (recFile (recAt m id)) (headLocked m id).

Fixpoint typeIndex (typ : bytes) (types : list bytes) (i : nat) : nat :=
  match types with
  | [] => memTypeOther
  | t :: types => if bool_decide (t = typ) then i else typeIndex typ types (S i)
  end.

Definition setRecLocked (file : File) (rec : memRec) : memRec :=
  let typ := typeIndex (f_Type file) memFileTypes 0 in
  let md := mkMedia (f_Title file) (f_Artist file) (f_Album file) (f_Codec file)
    (if (typ =? memTypeOther)%nat then f_Type file else []) (f_Runtime file) (f_Bitrate file) (f_Meta file) in
  { rec with
    r_name := f_Name file;
    r_size := f_Size file;
    r_hash := hashArray (f_Hash file);
    r_hashLen := Nat.min (length (f_Hash file)) hashLen;
    r_live := true;
    r_typ := typ;
    r_media := if bool_decide (md = noMedia) then None else Some md }.

Section Engine.
Context `{Unicode} `{Charmap} `{SortSlice}.

(** A slot for a new record: the last freed one, or one more. *)
Definition takeSlot (m : MemoryEngine) : MemoryEngine * nat :=
  match last (e_free m) with
  | Some id => ({ m with e_free := removelast (e_free m) }, id)
  | None => ({ m with e_recs := e_recs m ++ [zeroRec] }, length (e_recs m))
  end.

Definition storeFileLocked (file : File) (m : MemoryEngine) : MemoryEngine * nat :=
  let key := hashArray (f_Hash file) in
  match findLocked key (f_Size file) m with
  | Some id =>
      let rec := recAt m id in
      let m := { m with e_names := renameFile id (r_name rec) (f_Name file) (e_names m) } in
      (setRec id (setRecLocked file rec) m, default 0%nat (e_files m !! key))
  | None =>
      let known := e_files m !! key in
      let tail := last (chainOf m key) in
      let '(m, id) := takeSlot m in
      let m := setRec id (setRecLocked file (recAt m id)) m in
      let m := { m with e_count := e_count m + 1; e_names := indexName id (f_Name file) (e_names m) } in
      match known with
      | None => ({ m with e_files := <[key := id]> (e_files m) }, id)
      | Some head =>
          let prev := default head tail in
          let m := setRec prev { recAt m prev with r_next := S id } m in
          (setRec id { recAt m id with r_sibling := true } m, head)
      end
  end.

(** [slices.Index] and [slices.Delete] of one entry. *)
Fixpoint deleteFirst (head : nat) (l : list nat) : list nat :=
  match l with
  | [] => []
  | x :: l => if (x =? head)%nat then l else x :: deleteFirst head l
  end.

Definition forgetOfferLocked (owner taker : Z) (head : nat) (m : MemoryEngine) : MemoryEngine :=
  if (owner =? 0) || (owner =? taker) then m
  else match e_clients m !! owner with
       | None => m
       | Some c =>
           { m with e_clients := <[owner := { c with mc_offered := deleteFirst head (mc_offered c) }]> (e_clients m) }
       end.

(** The same session re-offering, or an entry left at this address. *)
Definition sameSource (src s : memSource) : bool :=
  (negb (pe_storeID (ms_peer src) =? 0) && (pe_storeID (ms_peer s) =? pe_storeID (ms_peer src))) ||
  ((ms_id s =? ms_id src) && (ms_port s =? ms_port src)).

Definition ownSource (src s : memSource) : bool :=
  negb (pe_storeID (ms_peer src) =? 0) && (pe_storeID (ms_peer s) =? pe_storeID (ms_peer src)).

(** The first entry of [more] that [src] takes over, and the others. *)
Fixpoint takeOver (src : memSource) (more : list memSource) : option (memSource * list memSource) :=
  match more with
  | [] => None
  | s :: more =>
      if sameSource src s then Some (s, more)
      else match takeOver src more with Some (t, more) => Some (t, s :: more) | None => None end
  end.

Definition putSourceLocked (head : nat) (src : memSource) (m : MemoryEngine) : MemoryEngine * bool :=
  let rec := recAt m head in
  let own := pe_storeID (ms_peer src) in
  match r_first rec with
  | None => (setRec head { rec with r_first := Some src } m, false)
  | Some first =>
      if negb (r_more rec) then
        if sameSource src first then
          let m := forgetOfferLocked (pe_storeID (ms_peer first)) own head m in
          (setRec head { rec with r_first := Some src } m, ownSource src first)
        else
          (setRec head { rec with r_more := true } { m with e_more := <[head := [src]]> (e_more m) }, false)
      else
        let more := default [] (e_more m !! head) in
        let had := ownSource src first || existsb (ownSource src) more in
        if sameSource src first then
          let m := forgetOfferLocked (pe_storeID (ms_peer first)) own head m in
          let m := setRec head { rec with r_first := hd_error more } m in
          ({ m with e_more := <[head := tail more ++ [src]]> (e_more m) }, had)
        else
          match takeOver src more with
          | Some (s, more) =>
              let m := forgetOfferLocked (pe_storeID (ms_peer s)) own head m in
              ({ m with e_more := <[head := more ++ [src]]> (e_more m) }, had)
          | None => ({ m with e_more := <[head := more ++ [src]]> (e_more m) }, had)
          end
  end.

Definition addFileLocked (file : File) (info : ClientInfo) (m : MemoryEngine) : MemoryEngine :=
  let storeID := resolved info m in
  let client := e_clients m !! storeID in
  if bool_decide (client = None) && negb (ci_StoreID info =? 0) then m
  else
    let file := NormalizeFile file in
    let '(m, head) := storeFileLocked file m in
    let peer :=
      match client with
      | Some c =>
          if bool_decide (pe_hash (mc_peer c) = ci_Hash info) && bool_decide (pe_ipv6 (mc_peer c) = ci_IPv6 info)
          then mc_peer c else newMemPeer { info with ci_StoreID := storeID }
      | None => newMemPeer { info with ci_StoreID := storeID }
      end in
    let src := mkMemSource peer (f_Size file) (ci_ID info) (ci_Port info) (ci_CryptOptions info)
      (0 <? f_Completed file) (ci_IPv6Reachable info) in
    let '(m, had) := putSourceLocked head src m in
    if had then m
    else match e_clients m !! storeID with
         | Some c => { m with e_clients := <[storeID := { c with mc_offered := mc_offered c ++ [head] }]> (e_clients m) }
         | None => m
         end.

Definition AddFile (file : File) (info : ClientInfo) (m : MemoryEngine) : MemoryEngine := addFileLocked file info m.

(** One lock per [offerBatchSize] files: a sequence of [AddFile]s, see [addFileLocked]. *)
Definition AddFiles (files : list File) (info : ClientInfo) (m : MemoryEngine) : MemoryEngine :=
  fold_left (λ m f, addFileLocked f info m) files m.

(** ** Leaving *)

Definition removeSourcesOfLocked (head : nat) (storeID : Z) (m : MemoryEngine) : MemoryEngine :=
  let rec := recAt m head in
  match r_first rec with
  | None => m
  | Some first =>
      let more := filter (λ s, pe_storeID (ms_peer s) ≠ storeID) (moreOf m head) in
      let '(first, more) :=
        if pe_storeID (ms_peer first) =? storeID then (hd_error more, tail more) else (Some first, more) in
      let m := setRec head { rec with r_first := first } m in
      if negb (r_more rec) then m
      else if bool_decide (more = []) then
        setRec head { recAt m head with r_more := false } { m with e_more := delete head (e_more m) }
      else { m with e_more := <[head := more]> (e_more m) }
  end.

Definition removeAllSourcesOfLocked (storeID : Z) (m : MemoryEngine) : MemoryEngine :=
  fold_left (λ m id, removeSourcesOfLocked id storeID m) (seq 0 (length (e_recs m))) m.

(** A session on its way out: what is left of its offered list, and the layout its ids are in. *)
Record departure := mkDeparture { dp_storeID : Z; dp_left : list nat; dp_layout : Z }.

(** [Disconnect] up to its loop. *)
Definition detach (info : ClientInfo) (m : MemoryEngine) : MemoryEngine * option departure :=
  let storeID := resolved info m in
  if storeID =? 0 then (m, None)
  else match e_clients m !! storeID with
       | None => (m, None)
       | Some c =>
           let hash := ci_Hash (mc_info c) in
           let byHash :=
             if bool_decide (hash ≠ []) && bool_decide (e_clientsByHash m !! hash = Some storeID)
             then delete hash (e_clientsByHash m) else e_clientsByHash m in
           ({ m with e_clientsByHash := byHash; e_clients := delete storeID (e_clients m) },
            Some (mkDeparture storeID (mc_offered c) (e_layout m)))
       end.

(** The loop while the lock is held once: up to [disconnectChunk] files, or every record when
    the ids were renumbered since. *)
Definition release (d : departure) (m : MemoryEngine) : MemoryEngine * option departure :=
  if bool_decide (dp_left d = []) then (m, None)
  else if negb (e_layout m =? dp_layout d) then (removeAllSourcesOfLocked (dp_storeID d) m, None)
  else
    let m := fold_left (λ m head, removeSourcesOfLocked head (dp_storeID d) m) (take disconnectChunk (dp_left d)) m in
    match drop disconnectChunk (dp_left d) with
    | [] => (m, None)
    | rest => (m, Some { d with dp_left := rest })
    end.

Fixpoint releaseAll (steps : nat) (d : departure) (m : MemoryEngine) : MemoryEngine :=
  match steps with
  | O => m
  | S steps => match release d m with (m, None) => m | (m, Some d) => releaseAll steps d m end
  end.

(** [Disconnect] when nothing comes between: the list gets shorter with every chunk. *)
Definition Disconnect (info : ClientInfo) (m : MemoryEngine) : MemoryEngine :=
  match detach info m with
  | (m, None) => m
  | (m, Some d) => releaseAll (S (length (dp_left d))) d m
  end.

Definition ReleaseOrphans (held : bytes → bool) (m : MemoryEngine) : MemoryEngine * list bytes :=
  let online := map (λ p : Z * memClient, mc_info p.2) (map_to_list (e_clients m)) in
  let orphans := filter (λ c, held (ci_Hash c) = false) online in
  (fold_left (λ m c, Disconnect c m) orphans m, map ci_Hash orphans).

(** ** Cleaning up *)

Definition removeRecLocked (id : nat) (m : MemoryEngine) : MemoryEngine :=
  let rec := recAt m id in
  let m :=
    if bool_decide (default 0%nat (e_files m !! r_hash rec) = id) then
      match r_next rec with
      | S next =>
          setRec next { recAt m next with r_sibling := false } { m with e_files := <[r_hash rec := next]> (e_files m) }
      | O => { m with e_files := delete (r_hash rec) (e_files m) }
      end
    else
      match find (λ p, r_next (recAt m p) =? S id)%nat (chainOf m (r_hash rec)) with
      | Some prev => setRec prev { recAt m prev with r_next := r_next rec } m
      | None => m
      end in
  let m := setRec id zeroRec { m with e_names := removeFile (r_name rec) (e_names m) } in
  { m with e_dead := e_dead m ++ [id]; e_count := e_count m - 1 }.

(** The new id of a record plus one, 0 for a slot that holds no file. *)
Definition renumber (recs : list memRec) (id : nat) : nat :=
  match recs !! id with
  | Some rec => if r_live rec then S (length (filter (λ r, r_live r = true) (take id recs))) else 0
  | None => 0
  end.

Definition indexAll (recs : list memRec) : nameIndex :=
  fold_left (λ x p, indexName p.1 (r_name p.2) x) (imap pair recs) newNameIndex.

Definition rebuildIndexLocked (m : MemoryEngine) : MemoryEngine :=
  let renum := renumber (e_recs m) in
  let recs :=
    map (λ rec, { rec with r_next := match r_next rec with O => 0%nat | S next => renum next end })
      (filter (λ r, r_live r = true) (e_recs m)) in
  { m with
    e_recs := recs;
    e_names := indexAll recs;
    e_files := (λ head, pred (renum head)) <$> e_files m;
    e_more := list_to_map (map (λ p : nat * list memSource, (pred (renum p.1), p.2)) (map_to_list (e_more m)));
    e_clients := (λ c, { c with mc_offered :=
      map pred (filter (λ n, n ≠ 0%nat) (map renum (mc_offered c))) }) <$> e_clients m;
    e_dead := [];
    e_free := [];
    e_layout := u64 (e_layout m + 1) }.

Definition maintainIndexLocked (m : MemoryEngine) : MemoryEngine :=
  let m :=
    if bool_decide (e_dead m = []) then m
    else { m with e_names := purge (λ id, negb (r_live (recAt m id))) (e_names m);
                  e_free := e_free m ++ e_dead m;
                  e_dead := [] } in
  if needsRebuild (e_names m) then rebuildIndexLocked m else m.

(** One turn of the sweep. *)
Definition reap (st : MemoryEngine * Z) (id : nat) : MemoryEngine * Z :=
  let '(m, n) := st in
  if negb (r_live (recAt m id)) then (m, n)
  else match r_first (recAt m (headLocked m id)) with
       | None => (removeRecLocked id m, n + 1)
       | Some _ => (m, n)
       end.

(** [Ok files]: how many files went. *)
Definition CleanupStale (maxAge : Z) (keepZeroSourceFiles : bool) (m : MemoryEngine) : MemoryEngine * result Z :=
  if maxAge <=? 0 then (m, Err (ErrNew "cleanup: maxAge must be positive"))
  else
    let '(m, n) := if keepZeroSourceFiles then (m, 0) else fold_left reap (seq 0 (length (e_recs m))) (m, 0) in
    (maintainIndexLocked m, Ok n).

(** ** Lookups over all files *)

(** The ids of [SharedFiles] in the order of hashes and sources, each once. *)
Definition sharedIDs (m : MemoryEngine) (hashes : list bytes) : list nat :=
  fold_left (λ seen hash,
      match e_files m !! hashArray hash with
      | None => seen
      | Some head =>
          fold_left (λ seen s,
              match findLocked (hashArray hash) (ms_size s) m with
              | None => seen
              | Some id => if bool_decide (id ∈ seen) then seen else seen ++ [id]
              end) (sourcesOf m head) seen
      end) hashes [].

Definition SharedFiles (hashes : list bytes) (m : MemoryEngine) : list File :=
  filter (λ f, 0 < f_Sources f) (map (fileLocked m) (sharedIDs m hashes)).

Definition browseLimit (limit : Z) : Z := Z.min (Z.max limit 1) MaxBrowsePage.

(** [binary.BigEndian]. *)
Definition be_combine (b : bytes) : Z := le_combine (rev b).
Definition be_split (k : nat) (z : Z) : bytes := rev (le_split k z).

(** The walk from [id] on: the files of the page and the id to go on from. *)
Fixpoint browseFrom (m : MemoryEngine) (ids : list nat) (limit : nat) : list File * option nat :=
  match ids with
  | [] => ([], None)
  | id :: ids =>
      if negb (r_live (recAt m id)) then browseFrom m ids limit
      else
        let f := fileLocked m id in
        if f_Sources f =? 0 then browseFrom m ids limit
        else
          let f := { f with f_SourceID := 0; f_SourcePort := 0 } in
          match limit with
          | S O => if bool_decide (ids = []) then ([f], None) else ([f], Some (S id))
          | _ => let '(out, next) := browseFrom m ids (pred limit) in (f :: out, next)
          end
  end.

Definition BrowseFiles (cursor : bytes) (limit : Z) (m : MemoryEngine) : result (list File * bytes) :=
  let n := length (e_recs m) in
  let walk from :=
    let '(out, next) := browseFrom m (seq from (n - from)) (Z.to_nat (browseLimit limit)) in
    Ok (out, match next with Some id => be_split 8 (e_layout m) ++ be_split 4 id | None => [] end) in
  if bool_decide (cursor = []) then walk 0%nat
  else if negb (bool_decide (length cursor = 12%nat)) || negb (be_combine (take 8 cursor) =? e_layout m)
  then Err ErrBrowseCursor
  else walk (Z.to_nat (be_combine (drop 8 cursor))).

Definition FindByNameContains (term : bytes) (m : MemoryEngine) : list File :=
  map (fileLocked m)
    (filter (λ id, r_live (recAt m id) = true ∧ (term = [] ∨ Contains (r_name (recAt m id)) term = true))
      (seq 0 (length (e_recs m)))).

Definition matchLocked (m : MemoryEngine) (expr : SearchExpr) (id : nat) : option (nat * File) :=
  if r_live (recAt m id) then
    let f := fileLocked m id in if match_ expr f then Some (id, f) else None
  else None.

Definition searchLimit (m : MemoryEngine) : nat := Nat.max candidateFloor (Z.to_nat (Z.quot (e_count m) 8)).

Definition FindBySearch (expr : option SearchExpr) (m : MemoryEngine) : list File :=
  match expr with
  | None => []
  | Some expr =>
      if searchPrunes expr then []
      else
        let ids :=
          match candidates (e_names m) expr (searchLimit m) (Some (hashIDsLocked m)) with
          | None => seq 0 (length (e_recs m))
          | Some ids => ids
          end in
        result_ (rankAll (omap (matchLocked m expr) ids) (newRanker expr))
  end.

(** ** The peer-server list *)

Definition ServersCount (m : MemoryEngine) : nat := length (e_servers m).
Definition ServersAll (m : MemoryEngine) : list Server := e_servers m.

Definition AddServer (server : Server) (m : MemoryEngine) : MemoryEngine :=
  { m with e_servers := (appendUniqueServer (e_servers m) server).1 }.

Definition RemoveServer (server : Server) (m : MemoryEngine) : MemoryEngine * bool :=
  let '(servers, removed) := removeServer (e_servers m) server in ({ m with e_servers := servers }, removed).

(** ** Related files ([related.go]) *)

(** The sessions that share a seed, in the order they are met, up to [maxClients]. *)
Definition relatedUsers (seeds : list FileKey) (maxClients : Z) (m : MemoryEngine) : list Z :=
  fold_left (λ users seed,
      match e_files m !! hashArray (fk_Hash seed) with
      | None => users
      | Some head =>
          fold_left (λ users s,
              if (maxClients <=? length users) || (negb (fk_Size seed =? 0) && negb (ms_size s =? fk_Size seed))
              then users
              else if bool_decide (pe_storeID (ms_peer s) ∈ users) then users
              else users ++ [pe_storeID (ms_peer s)]) (sourcesOf m head) users
      end) seeds [].

(** The records one session adds to the weights, one per file it shares. *)
Definition relatedShares (seedHashes : gset bytes) (storeID : Z) (m : MemoryEngine) : list nat :=
  match e_clients m !! storeID with
  | None => []
  | Some c =>
      flat_map (λ head,
          let rec := recAt m head in
          if negb (r_live rec) || bool_decide (r_hash rec ∈ seedHashes) then []
          else if (r_next rec =? 0)%nat then [head]
          else omap (λ s, if bool_decide (ms_peer s = mc_peer c) then findLocked (r_hash rec) (ms_size s) m else None)
                 (sourcesOf m head)) (mc_offered c)
  end.

Definition countShare (weights : gmap nat Z) (id : nat) : gmap nat Z :=
  <[id := default 0 (weights !! id) + 1]> weights.

(** [bytes.Compare(a, b) < 0] is [stringLe] without equality. *)
Definition relatedLe (a b : File * Z) : Prop :=
  b.2 < a.2 ∨ (a.2 = b.2 ∧
  (f_Sources b.1 < f_Sources a.1 ∨ (f_Sources a.1 = f_Sources b.1 ∧
  ((f_Hash a.1 ≠ f_Hash b.1 ∧ stringLe (f_Hash a.1) (f_Hash b.1)) ∨
   (f_Hash a.1 = f_Hash b.1 ∧ f_Size a.1 <= f_Size b.1))))).

#[export] Instance relatedLe_dec a b : Decision (relatedLe a b).
Proof. unfold relatedLe. apply _. Defined.

Definition rankRelated (c : list (File * Z)) : list File :=
  map fst (take (Z.to_nat MaxSearchResults) (merge_sort relatedLe c)).

Definition RelatedFiles (seeds : list FileKey) (minClients maxClients : Z) (m : MemoryEngine) : list File :=
  if bool_decide (seeds = []) then []
  else
    let maxClients := Z.max (Z.max maxClients minClients) 1 in
    let users := relatedUsers seeds maxClients m in
    if length users <? minClients then []
    else
      let seedHashes : gset bytes := list_to_set (map (λ k, hashArray (fk_Hash k)) seeds) in
      let weights := fold_left countShare (flat_map (λ u, relatedShares seedHashes u m) users) ∅ in
      rankRelated (filter (λ p, 0 < f_Sources p.1) (map (λ p, (fileLocked m p.1, p.2)) (map_to_list weights))).

(** ** Installing and looking up whole files *)

(** The files in some order: the code walks a map. *)
Definition installFilesLocked (files : list File) (m : MemoryEngine) : MemoryEngine :=
  let m := { m with e_files := ∅; e_more := ∅; e_recs := []; e_names := newNameIndex; e_dead := []; e_free := [];
                    e_count := 0; e_layout := u64 (e_layout m + 1);
                    e_clients := (λ c, { c with mc_offered := [] }) <$> e_clients m } in
  fold_left (λ m f, (storeFileLocked f m).1) files m.

Definition fileMapKey (hash : bytes) (size : Z) : bytes := hashArray hash ++ be_split 8 size.

Definition fileByKey (key : bytes) (m : MemoryEngine) : option File :=
  if bool_decide (length key = fileMapKeyLen) then
    fileLocked m <$> findLocked (hashArray (take hashLen key)) (be_combine (drop hashLen key)) m
  else None.

End Engine.
