(* ===== verification/MemSources.v ===== *)
(** * The sources of a hash in the memory engine

    The list of sources is kept as a first source on the record and the rest in a map, with
    a flag that says whether there is a rest. Here the operations on that representation are
    shown to be operations on one list in offer order. *)

From S2P Require Import Prelude Types Text Search SortedIDs FileMeta NameIndex Rank MemEngine.
Local Open Scope Z_scope.
#[local] Set Warnings "-clear-no-such-hyp".

(** What a record is apart from its sources. *)
Definition core (r : memRec) : memRec := { r with r_first := None; r_more := false }.

#[global] Arguments core : simpl never.

Definition store (s : memSource) : Z := pe_storeID (ms_peer s).
Definition addr (s : memSource) : Z * Z := (ms_id s, ms_port s).

(** The two places of a list agree with the flag. *)
Record split_ok (m : MemoryEngine) : Prop := {
  so_more : ∀ id l, e_more m !! id = Some l → l ≠ [] ∧ r_more (recAt m id) = true;
  so_flag : ∀ id, r_more (recAt m id) = true → is_Some (e_more m !! id) ∧ is_Some (r_first (recAt m id));
}.

(** Everything but the sources and the offered lists. *)
Definition sameStore (m m' : MemoryEngine) : Prop :=
  map core (e_recs m') = map core (e_recs m) ∧ e_files m' = e_files m ∧ e_count m' = e_count m ∧
  e_dead m' = e_dead m ∧ e_free m' = e_free m ∧ e_names m' = e_names m ∧ e_layout m' = e_layout m ∧
  e_nextClientID m' = e_nextClientID m ∧ e_clientsByHash m' = e_clientsByHash m.

#[export] Instance sameStore_refl : Reflexive sameStore.
Proof. done. Qed.
#[export] Instance sameStore_trans : Transitive sameStore.
Proof. unfold sameStore. intros ??? (?&?&?&?&?&?&?&?&?) (?&?&?&?&?&?&?&?&?). repeat split; congruence. Qed.

Lemma recAt_setRec m id rec id' :
  (id < length (e_recs m))%nat → recAt (setRec id rec m) id' = if decide (id' = id) then rec else recAt m id'.
Proof.
  intros L. unfold recAt, setRec. destruct m; cbn in *. case_decide as E; subst.
  - by rewrite list_lookup_insert_eq.
  - by rewrite list_lookup_insert_ne.
Qed.

Lemma core_insert (recs : list memRec) id rec :
  (∀ old, recs !! id = Some old → core rec = core old) → map core (<[id := rec]> recs) = map core recs.
Proof.
  intros Hc. apply list_eq. intros i. rewrite !list_lookup_fmap. destruct (decide (i = id)) as [->|Hne].
  - destruct (recs !! id) as [old|] eqn:E.
    + rewrite list_lookup_insert_eq by (by eapply lookup_lt_Some). cbn. by rewrite (Hc old).
    + rewrite list_insert_ge by (by apply lookup_ge_None). by rewrite E.
  - by rewrite list_lookup_insert_ne.
Qed.

(** A record written back with other sources. *)
Lemma sameStore_setRec m id rec : core rec = core (recAt m id) → sameStore m (setRec id rec m).
Proof.
  intros Hc. unfold sameStore, setRec, recAt in *. destruct m; cbn in *. split_and!; try done.
  apply core_insert. intros old E. by rewrite E in Hc.
Qed.

(** Both places of a list written. *)
Definition writeLists (head : nat) (l : list memSource) (m : MemoryEngine) : MemoryEngine :=
  setRec head { recAt m head with r_first := hd_error l; r_more := bool_decide (tail l ≠ []) }
    { m with e_more := if bool_decide (tail l = []) then delete head (e_more m) else <[head := tail l]> (e_more m) }.

Lemma recAt_writeLists m head l id :
  (head < length (e_recs m))%nat →
  recAt (writeLists head l m) id =
    if decide (id = head) then { recAt m head with r_first := hd_error l; r_more := bool_decide (tail l ≠ []) }
    else recAt m id.
Proof. intros L. unfold writeLists. rewrite recAt_setRec by (by destruct m). done. Qed.

Lemma e_more_writeLists m head l :
  e_more (writeLists head l m) =
    if bool_decide (tail l = []) then delete head (e_more m) else <[head := tail l]> (e_more m).
Proof. by destruct m. Qed.

Lemma sameStore_writeLists m head l : sameStore m (writeLists head l m).
Proof.
  unfold writeLists. etransitivity; [|apply sameStore_setRec; by destruct m]. by destruct m.
Qed.

Lemma sourcesOf_writeLists m head l id :
  (head < length (e_recs m))%nat →
  sourcesOf (writeLists head l m) id = if decide (id = head) then l else sourcesOf m id.
Proof.
  intros L. unfold sourcesOf, moreOf. rewrite recAt_writeLists, e_more_writeLists by done.
  case_decide as E; subst.
  - cbn. destruct l as [|s l]; cbn; [done|]. destruct l as [|t l]; cbn; [done|]. by rewrite lookup_insert_eq.
  - case_bool_decide; [by rewrite lookup_delete_ne|by rewrite lookup_insert_ne].
Qed.

Lemma split_ok_writeLists m head l :
  (head < length (e_recs m))%nat → split_ok m → split_ok (writeLists head l m).
Proof.
  intros L [Hm Hf]. split.
  - intros id k. rewrite recAt_writeLists, e_more_writeLists by done. case_bool_decide as E.
    + intros [Hne Ek]%lookup_delete_Some. rewrite decide_False by done. eauto.
    + intros [[<- <-]|[Hne Ek]]%lookup_insert_Some; [rewrite decide_True by done|rewrite decide_False by done; eauto].
      split; [done|]. cbn. by apply bool_decide_eq_true.
  - intros id. rewrite recAt_writeLists, e_more_writeLists by done. case_decide as E; [subst id|].
    + cbn. rewrite bool_decide_eq_true. intros Ht. rewrite bool_decide_eq_false_2, lookup_insert_eq by done.
      split; [done|]. by destruct l.
    + intros [H1 H2]%Hf. split; [|done]. case_bool_decide; [by rewrite lookup_delete_ne|by rewrite lookup_insert_ne].
Qed.

Lemma split_ok_none m id : split_ok m → r_more (recAt m id) = false → e_more m !! id = None.
Proof.
  intros Hs Hf. destruct (e_more m !! id) as [l|] eqn:E; [|done]. destruct (so_more m Hs id l E). congruence.
Qed.

Lemma split_ok_first m id : split_ok m → r_first (recAt m id) = None → r_more (recAt m id) = false.
Proof.
  intros Hs Hf. destruct (r_more (recAt m id)) eqn:E; [|done]. destruct (so_flag m Hs id E) as [_ [? ?]]. congruence.
Qed.

Lemma split_ok_more m id :
  split_ok m → r_more (recAt m id) = true → ∃ t l, e_more m !! id = Some (t :: l).
Proof.
  intros Hs Hf. destruct (so_flag m Hs id Hf) as [[l E] _]. destruct (so_more m Hs id l E) as [Hne _].
  destruct l as [|t l]; [done|]. by exists t, l.
Qed.

(** *** Taking sources away *)

Lemma setRec_same m id : setRec id (recAt m id) m = m.
Proof.
  unfold setRec, recAt. destruct m as [? ? ? ? ? recs ? ? ? ? ?]; cbn. f_equal. destruct (recs !! id) as [r|] eqn:E.
  - by apply list_insert_id.
  - apply list_insert_ge. by apply lookup_ge_None.
Qed.

Lemma setRec_twice m id r r' x :
  setRec id r ({ setRec id r' m with e_more := x }) = setRec id r { m with e_more := x }.
Proof. unfold setRec. destruct m; cbn. by rewrite list_insert_insert_eq. Qed.

Lemma setRec_more m id r x : { setRec id r m with e_more := x } = setRec id r { m with e_more := x }.
Proof. by destruct m. Qed.

Lemma first_in_range m id s : r_first (recAt m id) = Some s → (id < length (e_recs m))%nat.
Proof.
  unfold recAt. destruct (e_recs m !! id) as [r|] eqn:E; [|done]. intros _. by eapply lookup_lt_Some.
Qed.

Lemma e_more_id m : { m with e_more := e_more m } = m.
Proof. by destruct m. Qed.

Lemma removeSources_write m head k :
  split_ok m →
  removeSourcesOfLocked head k m = writeLists head (filter (λ s, store s ≠ k) (sourcesOf m head)) m.
Proof.
  intros Hs. unfold removeSourcesOfLocked, sourcesOf, writeLists. destruct (r_first (recAt m head)) as [first|] eqn:Ef.
  2:{ pose proof (split_ok_first m head Hs Ef) as Hf. rewrite filter_nil. cbn [hd_error tail].
      rewrite (bool_decide_eq_true_2 (@nil memSource = [])) by done. rewrite delete_id by by apply split_ok_none.
      rewrite e_more_id. rewrite <- (setRec_same m head) at 1. f_equal. by destruct (recAt m head); cbn in *; subst. }
  rewrite filter_cons. fold (store first). destruct (r_more (recAt m head)) eqn:Em; cbn [negb].
  - set (l := filter _ (moreOf m head)).
    assert (∀ f r x, setRec head { recAt (setRec head { recAt m head with r_first := f } m) head with r_more := false }
      { setRec head r m with e_more := x } =
      setRec head { recAt m head with r_first := f; r_more := false } { m with e_more := x }) as Hw.
    { intros f r x. rewrite setRec_twice, recAt_setRec, decide_True by (done || by eapply first_in_range).
      by destruct (recAt m head). }
    assert (∀ f x, { setRec head { recAt m head with r_first := f } m with e_more := x } =
      setRec head { recAt m head with r_first := f; r_more := true } { m with e_more := x }) as Hw'.
    { intros f x. rewrite setRec_more. f_equal. by destruct (recAt m head); cbn in *; subst. }
    destruct (Z.eqb_spec (store first) k) as [Ek|Ek]; [rewrite decide_False by auto|rewrite decide_True by done].
    + destruct l as [|t [|u l]]; cbn [hd_error tail]; rewrite ?bool_decide_eq_true_2 by done;
        rewrite ?Hw, ?bool_decide_eq_false_2 by (by intros ?); rewrite ?Hw'; done.
    + destruct l as [|t l]; cbn [hd_error tail]; rewrite ?bool_decide_eq_true_2 by done;
        rewrite ?Hw, ?bool_decide_eq_false_2 by (by intros ?); rewrite ?Hw'; done.
  - assert (moreOf m head = []) as -> by (unfold moreOf; by rewrite Em). rewrite filter_nil.
    destruct (Z.eqb_spec (store first) k) as [Ek|Ek]; [rewrite decide_False by auto|rewrite decide_True by done];
      cbn [hd_error tail]; rewrite (bool_decide_eq_true_2 (@nil memSource = [])) by done;
      rewrite delete_id by (by apply split_ok_none); rewrite e_more_id; f_equal;
      by destruct (recAt m head); cbn in *; subst.
Qed.

(** *** Putting a source *)

Definition withClients (cs : gmap Z memClient) (m : MemoryEngine) : MemoryEngine := { m with e_clients := cs }.

Lemma forgetOffer_clients owner taker head m :
  forgetOfferLocked owner taker head m = withClients (e_clients (forgetOfferLocked owner taker head m)) m.
Proof. unfold forgetOfferLocked, withClients. destruct (_ || _); [by destruct m|]. destruct (e_clients m !! owner); by destruct m. Qed.

Lemma ownSource_same src s : ownSource src s = true → sameSource src s = true.
Proof. unfold ownSource, sameSource. intros ->. done. Qed.

Lemma split_ok_clients cs m : split_ok m → split_ok (withClients cs m).
Proof. intros []. by split; destruct m. Qed.

(** Writing a list of one source, or of more where there was more than one. *)
Lemma writeLists_one m head src :
  split_ok m → r_more (recAt m head) = false →
  writeLists head [src] m = setRec head { recAt m head with r_first := Some src } m.
Proof.
  intros Hs Hf. unfold writeLists. cbn [hd_error tail].
  rewrite (bool_decide_eq_true_2 (@nil memSource = [])), (bool_decide_eq_false_2 ([] ≠ [])) by auto.
  rewrite delete_id by by apply split_ok_none. rewrite e_more_id. f_equal. by destruct (recAt m head); cbn in *; subst.
Qed.

Lemma writeLists_long m head a l :
  l ≠ [] → r_more (recAt m head) = true →
  writeLists head (a :: l) m =
    { setRec head { recAt m head with r_first := Some a } m with e_more := <[head := l]> (e_more m) }.
Proof.
  intros Hl Hf. unfold writeLists. cbn [hd_error tail].
  rewrite (bool_decide_eq_false_2 (l = [])), (bool_decide_eq_true_2 (l ≠ [])) by done.
  rewrite setRec_more. f_equal. by destruct (recAt m head); cbn in *; subst.
Qed.

Lemma setFirst_same m head a : r_first (recAt m head) = Some a → setRec head { recAt m head with r_first := Some a } m = m.
Proof.
  intros E. transitivity (setRec head (recAt m head) m); [|apply setRec_same]. f_equal. by destruct (recAt m head); cbn in *; subst.
Qed.

Lemma putSource_write m head src :
  split_ok m →
  putSourceLocked head src m =
    (match takeOver src (sourcesOf m head) with
     | Some (s, rest) => writeLists head (rest ++ [src]) (forgetOfferLocked (store s) (store src) head m)
     | None => writeLists head (sourcesOf m head ++ [src]) m
     end, existsb (ownSource src) (sourcesOf m head)).
Proof.
  intros Hs. unfold putSourceLocked, sourcesOf. fold (store src).
  destruct (r_first (recAt m head)) as [first|] eqn:Ef.
  2:{ cbn [takeOver app existsb]. f_equal. by rewrite writeLists_one by auto using split_ok_first. }
  fold (store first). cbn [takeOver existsb]. destruct (r_more (recAt m head)) eqn:Em; cbn [negb].
  - destruct (split_ok_more m head Hs Em) as (t&l&El). unfold moreOf. rewrite Em, El.
    change (default [] (Some (t :: l))) with (t :: l). destruct (sameSource src first) eqn:Es.
    + f_equal. rewrite forgetOffer_clients. cbn [app]. by rewrite writeLists_long by (done || by destruct l).
    + destruct (takeOver src (t :: l)) as [[s rest]|]; f_equal; cbn [app].
      * fold (store s). rewrite forgetOffer_clients, writeLists_long by (done || by destruct rest).
        by rewrite setFirst_same.
      * rewrite writeLists_long by done. by rewrite setFirst_same.
  - assert (moreOf m head = []) as -> by (unfold moreOf; by rewrite Em). cbn [existsb takeOver app].
    destruct (sameSource src first) eqn:Es; f_equal.
    + cbn [app]. rewrite forgetOffer_clients. by rewrite writeLists_one by auto using split_ok_clients.
    + by rewrite orb_false_r.
    + unfold writeLists. cbn [app hd_error tail].
      rewrite (bool_decide_eq_false_2 ([src] = [])), (bool_decide_eq_true_2 ([src] ≠ [])) by done.
      f_equal. by destruct (recAt m head); cbn in *; subst.
    + destruct (ownSource src first) eqn:Eo; [|done]. apply ownSource_same in Eo. congruence.
Qed.
