(* ===== verification/MemStore.v ===== *)
(** * The records of the memory engine: chains, slots and the count

    Which records are live, how the records of one hash are chained, and which slots wait
    for reuse. The invariant speaks about records without their sources ([core]), which the
    operations on sources leave alone. *)

From S2P Require Import Prelude Types Text Search SortedIDs FileMeta NameIndex Rank MemEngine MemSources.
Local Open Scope Z_scope.
#[local] Set Warnings "-clear-no-such-hyp".

Definition nextAt (cs : list memRec) (id : nat) : nat := r_next (default zeroRec (cs !! id)).
Definition sizeAt (cs : list memRec) (id : nat) : Z := r_size (default zeroRec (cs !! id)).

(** The ids of a chain, each linked to the next and the last to none. *)
Fixpoint linked (cs : list memRec) (l : list nat) : Prop :=
  match l with
  | [] => True
  | id :: l => nextAt cs id = match l with [] => 0%nat | id' :: _ => S id' end ∧ linked cs l
  end.

(** [C] lists the records of every hash, in the order of its chain. *)
Record chains_ok (C : gmap bytes (list nat)) (files : gmap bytes nat) (cs : list memRec)
    (slots : list nat) (count : Z) : Prop := {
  ck_files : ∀ key, files !! key = C !! key ≫= head;
  ck_chain : ∀ key l, C !! key = Some l → l ≠ [] ∧ NoDup l ∧ NoDup (map (sizeAt cs) l) ∧ linked cs l;
  ck_mem : ∀ key l id, C !! key = Some l → id ∈ l →
    ∃ r, cs !! id = Some r ∧ r_live r = true ∧ r_hash r = key ∧ r_sibling r = bool_decide (head l ≠ Some id);
  ck_live : ∀ id r, cs !! id = Some r → r_live r = true → ∃ l, C !! r_hash r = Some l ∧ id ∈ l;
  ck_zero : ∀ id r, cs !! id = Some r → r_live r = false → r = zeroRec;
  ck_slots : NoDup slots ∧ ∀ id, id ∈ slots ↔ ∃ r, cs !! id = Some r ∧ r_live r = false;
  ck_count : count = length (filter (λ r, r_live r = true) cs);
}.

Definition cores (m : MemoryEngine) : list memRec := map core (e_recs m).

Definition store_ok (C : gmap bytes (list nat)) (m : MemoryEngine) : Prop :=
  chains_ok C (e_files m) (cores m) (e_dead m ++ e_free m) (e_count m).

Lemma store_ok_same C m m' : sameStore m m' → store_ok C m → store_ok C m'.
Proof. unfold store_ok, cores. intros (->&->&->&->&->&_). done. Qed.

Lemma store_ok_new : store_ok ∅ NewMemoryEngine.
Proof.
  split; cbn; try done.
  split; [constructor|]. intros id. split; [by intros ?%elem_of_nil|by intros (?&?&_)].
Qed.

Lemma core_default r : core (default zeroRec r) = default zeroRec (core <$> r).
Proof. by destruct r. Qed.

Lemma cores_lookup m id : cores m !! id = core <$> e_recs m !! id.
Proof. unfold cores. by rewrite list_lookup_fmap. Qed.

Lemma coreAt m id : default zeroRec (cores m !! id) = core (recAt m id).
Proof. unfold recAt. by rewrite core_default, cores_lookup. Qed.

Lemma nextAt_cores m id : nextAt (cores m) id = r_next (recAt m id).
Proof. unfold nextAt. by rewrite coreAt. Qed.

Lemma sizeAt_cores m id : sizeAt (cores m) id = r_size (recAt m id).
Proof. unfold sizeAt. by rewrite coreAt. Qed.

(** ** Walking a chain *)

Lemma chainFrom_linked m l id steps :
  linked (cores m) (id :: l) → (length (id :: l) <= steps)%nat → chainFrom steps (e_recs m) id = id :: l.
Proof.
  revert id steps. induction l as [|id' l IH]; intros id steps [Hn Hl] L; (destruct steps as [|steps]; [cbn in L; lia|]);
    cbn [chainFrom]; fold (recAt m id); rewrite <- nextAt_cores, Hn; [done|]. f_equal. apply IH; [done|cbn in *; lia].
Qed.

Lemma chain_length C files cs slots count key l :
  chains_ok C files cs slots count → C !! key = Some l → (length l <= length cs)%nat.
Proof.
  intros Hok E. destruct (ck_chain _ _ _ _ _ Hok key l E) as (_&Hnd&_).
  transitivity (length (seq 0 (length cs))); [|by rewrite length_seq]. apply submseteq_length, NoDup_submseteq; [done|].
  intros id Hid. destruct (ck_mem _ _ _ _ _ Hok key l id E Hid) as (r&Er&_). apply elem_of_seq.
  apply lookup_lt_Some in Er. lia.
Qed.

Lemma chainOf_ok C m key : store_ok C m → chainOf m key = default [] (C !! key).
Proof.
  intros Hok. unfold chainOf. rewrite (ck_files _ _ _ _ _ Hok). destruct (C !! key) as [l|] eqn:E; [|done]. cbn.
  destruct (ck_chain _ _ _ _ _ Hok key l E) as (Hne&_&_&Hl). pose proof (chain_length _ _ _ _ _ _ _ Hok E) as L.
  unfold cores in L. rewrite length_map in L. destruct l as [|id l]; [done|]. cbn. by apply chainFrom_linked.
Qed.

(** The record of (key, size) is the live one with that hash and size. *)
Definition holds (m : MemoryEngine) (id : nat) (key : bytes) (size : Z) : Prop :=
  (id < length (e_recs m))%nat ∧ r_live (recAt m id) = true ∧ r_hash (recAt m id) = key ∧ r_size (recAt m id) = size.

Lemma cores_at m id r : cores m !! id = Some r → (id < length (e_recs m))%nat ∧ r = core (recAt m id).
Proof.
  intros E. split.
  - apply lookup_lt_Some in E. unfold cores in E. by rewrite length_map in E.
  - by rewrite <- coreAt, E.
Qed.

Lemma cores_in m id : (id < length (e_recs m))%nat → cores m !! id = Some (core (recAt m id)).
Proof.
  intros [r E]%lookup_lt_is_Some. rewrite cores_lookup. unfold recAt. by rewrite E.
Qed.

Lemma chain_holds C m key l id :
  store_ok C m → C !! key = Some l → id ∈ l → holds m id key (r_size (recAt m id)).
Proof.
  intros Hok E Hid. destruct (ck_mem _ _ _ _ _ Hok key l id E Hid) as (r&Er&Hl&Hk&_).
  apply cores_at in Er as [L ->]. done.
Qed.

Lemma holds_chain C m id key size :
  store_ok C m → holds m id key size → ∃ l, C !! key = Some l ∧ id ∈ l.
Proof.
  intros Hok (L&Hl&<-&_). destruct (ck_live _ _ _ _ _ Hok id (core (recAt m id))) as (l&E&Hid).
  - by apply cores_in.
  - done.
  - by exists l.
Qed.

Lemma holds_unique C m id id' key size : store_ok C m → holds m id key size → holds m id' key size → id = id'.
Proof.
  intros Hok H1 H2. destruct (holds_chain C m id key size Hok H1) as (l&E&Hid).
  destruct (holds_chain C m id' key size Hok H2) as (l'&E'&Hid'). assert (l' = l) as -> by congruence.
  destruct (ck_chain _ _ _ _ _ Hok key l E) as (_&_&Hnd&_).
  apply list_elem_of_lookup in Hid as [i Hi], Hid' as [j Hj]. assert (i = j) as <-; [|congruence].
  destruct H1 as (_&_&_&S1), H2 as (_&_&_&S2).
  eapply (NoDup_lookup _ i j size Hnd); rewrite list_lookup_fmap; [rewrite Hi|rewrite Hj]; cbn; rewrite sizeAt_cores; congruence.
Qed.

Lemma findLocked_iff C m key size id :
  store_ok C m → findLocked key size m = Some id ↔ holds m id key size.
Proof.
  intros Hok. unfold findLocked. rewrite (chainOf_ok C) by done. split.
  - intros [Hid%list_elem_of_In Hs%Z.eqb_eq]%find_some. destruct (C !! key) as [l|] eqn:E; [|by apply elem_of_nil in Hid].
    pose proof (chain_holds C m key l id Hok E Hid) as (?&?&?&_). done.
  - intros Hh. destruct (holds_chain C m id key size Hok Hh) as (l&E&Hid). rewrite E. cbn.
    destruct (find _ l) as [id'|] eqn:Ef.
    + apply find_some in Ef as [Hid'%list_elem_of_In Hs%Z.eqb_eq]. f_equal. symmetry.
      eapply holds_unique; [done..|]. pose proof (chain_holds C m key l id' Hok E Hid') as (?&?&?&_). done.
    + eapply find_none in Ef; [|by apply list_elem_of_In]. destruct Hh as (_&_&_&Hs). lia.
Qed.

Lemma findLocked_None C m key size :
  store_ok C m → findLocked key size m = None → ∀ id, ¬ holds m id key size.
Proof. intros Hok E id Hh. apply (findLocked_iff C) in Hh; [congruence|done]. Qed.

(** ** Writing a record over one with the same place *)

Definition samePlace (r r' : memRec) : Prop :=
  r_live r' = r_live r ∧ r_hash r' = r_hash r ∧ r_size r' = r_size r ∧ r_next r' = r_next r ∧
  r_sibling r' = r_sibling r.

Lemma linked_ext cs cs' l : (∀ id, id ∈ l → nextAt cs' id = nextAt cs id) → linked cs l → linked cs' l.
Proof.
  induction l as [|id l IH]; [done|]. intros Hn [H1 H2]. split.
  - rewrite Hn by by left. done.
  - apply IH; [|done]. intros id' Hid. apply Hn. by right.
Qed.

Lemma filter_insert_count {A} (P : A → Prop) `{∀ x, Decision (P x)} l i x y :
  l !! i = Some x →
  (length (filter P (<[i := y]> l)) + (if decide (P x) then 1 else 0) =
   length (filter P l) + (if decide (P y) then 1 else 0))%nat.
Proof.
  intros E. rewrite <- (take_drop_middle l i x E) at 2. rewrite insert_take_drop by (by eapply lookup_lt_Some).
  rewrite !filter_app, !filter_cons, !length_app. repeat case_decide; cbn [length]; lia.
Qed.

Lemma chains_ok_update C files cs slots count id r r' :
  chains_ok C files cs slots count → cs !! id = Some r → r_live r = true → samePlace r r' →
  chains_ok C files (<[id := r']> cs) slots count.
Proof.
  intros Hok Er Hlive (Hl&Hh&Hs&Hn&Hsib). destruct Hok as [Hfiles Hchain Hmem Hliv Hzero Hslots Hcount].
  pose proof (lookup_lt_Some _ _ _ Er) as L.
  assert (∀ i, default zeroRec (<[id := r']> cs !! i) = if decide (i = id) then r' else default zeroRec (cs !! i)) as Hat.
  { intros i. case_decide; [subst; by rewrite list_lookup_insert_eq|by rewrite list_lookup_insert_ne]. }
  split.
  - done.
  - intros key l E. destruct (Hchain key l E) as (H1&H2&H3&H4). split_and!; [done|done| |].
    + erewrite map_ext; [exact H3|]. intros i. unfold sizeAt. rewrite Hat. case_decide; [subst; by rewrite Er|done].
    + eapply linked_ext; [|exact H4]. intros i _. unfold nextAt. rewrite Hat. case_decide; [subst; by rewrite Er|done].
  - intros key l i E Hi. destruct (Hmem key l i E Hi) as (x&Ex&?&?&?). destruct (decide (i = id)) as [->|Hne].
    + exists r'. rewrite list_lookup_insert_eq by done. assert (x = r) as -> by congruence. split_and!; congruence.
    + exists x. by rewrite list_lookup_insert_ne.
  - intros i x. destruct (decide (i = id)) as [->|Hne].
    + rewrite list_lookup_insert_eq by done. intros [= <-] _. rewrite Hh. by apply Hliv.
    + rewrite list_lookup_insert_ne by done. apply Hliv.
  - intros i x. destruct (decide (i = id)) as [->|Hne].
    + rewrite list_lookup_insert_eq by done. intros [= <-]. congruence.
    + rewrite list_lookup_insert_ne by done. apply Hzero.
  - destruct Hslots as [H1 H2]. split; [done|]. intros i. rewrite H2. destruct (decide (i = id)) as [->|Hne].
    + rewrite list_lookup_insert_eq by done. split; intros (x&Ex&Hx); exfalso; congruence.
    + by rewrite list_lookup_insert_ne.
  - pose proof (filter_insert_count (λ r, r_live r = true) cs id r r' Er) as Hc.
    rewrite !decide_True in Hc by congruence. lia.
Qed.

(** ** A new record *)

Lemma chains_ok_perm C files cs slots slots' count :
  slots ≡ₚ slots' → chains_ok C files cs slots count → chains_ok C files cs slots' count.
Proof.
  intros Hp [? ? ? ? ? [Hnd Hs] ?]. split; try done. split; [by rewrite <- Hp|]. intros id. by rewrite <- Hp.
Qed.

Lemma lookup_snoc_old {A} (l : list A) (y : A) (i : nat) x : l !! i = Some x → (l ++ [y]) !! i = Some x.
Proof. intros E. by apply lookup_app_l_Some. Qed.

Lemma chains_ok_push C files cs slots count :
  chains_ok C files cs slots count → chains_ok C files (cs ++ [zeroRec]) (length cs :: slots) count.
Proof.
  intros Hok. pose proof Hok as [Hfiles Hchain Hmem Hliv Hzero [Hnd Hs] Hcount].
  assert (∀ key l i, C !! key = Some l → i ∈ l → default zeroRec ((cs ++ [zeroRec]) !! i) = default zeroRec (cs !! i)) as Hat.
  { intros key l i E Hi. destruct (Hmem key l i E Hi) as (r&Er&_). by rewrite (lookup_snoc_old _ _ _ _ Er), Er. }
  split.
  - done.
  - intros key l E. destruct (Hchain key l E) as (H1&H2&H3&H4). split_and!; [done|done| |].
    + erewrite map_ext_in; [exact H3|]. intros i Hi%list_elem_of_In. unfold sizeAt. by erewrite Hat.
    + eapply linked_ext; [|exact H4]. intros i Hi. unfold nextAt. by erewrite Hat.
  - intros key l i E Hi. destruct (Hmem key l i E Hi) as (r&Er&?). exists r. by rewrite (lookup_snoc_old _ _ _ _ Er).
  - intros i r [[_ E]|[-> <-]]%lookup_snoc_Some; [by apply Hliv|done].
  - intros i r [[_ E]|[-> <-]]%lookup_snoc_Some; [by eapply Hzero|done].
  - split.
    + constructor; [|done]. intros (r&Er&_)%Hs. apply lookup_lt_Some in Er. lia.
    + intros i. rewrite elem_of_cons, Hs. setoid_rewrite lookup_snoc_Some. split.
      * intros [->|(r&Er&Hr)]; [exists zeroRec; by split; [right|]|]. exists r. split; [left|done].
        split; [by eapply lookup_lt_Some|done].
      * intros (r&[[_ Er]|[-> _]]&Hr); [right; by exists r|by left].
  - rewrite filter_app, filter_cons, decide_False by done. by rewrite filter_nil, app_nil_r.
Qed.

Lemma live_count_ext (a b : list memRec) :
  map r_live a = map r_live b →
  length (filter (λ r, r_live r = true) a) = length (filter (λ r, r_live r = true) b).
Proof.
  revert b. induction a as [|x a IH]; intros [|y b]; try done. intros [= E1 E2]. rewrite !filter_cons, E1.
  case_decide; cbn [length]; by rewrite (IH b E2).
Qed.

Lemma linked_snoc cs cs' l id :
  linked cs l → NoDup l → nextAt cs' id = 0%nat →
  (∀ i, i ∈ l → nextAt cs' i = if decide (last l = Some i) then S id else nextAt cs i) → linked cs' (l ++ [id]).
Proof.
  intros Hl Hnd Hid Hn. induction l as [|a l IH]; [by split|]. cbn [app linked].
  apply NoDup_cons in Hnd as [Ha Hnd]. destruct Hl as [H1 H2]. split.
  - rewrite Hn by by left. destruct l as [|b l]; cbn [app]; [by rewrite decide_True|].
    rewrite decide_False; [done|]. rewrite last_cons_cons. intros Hlast%last_Some_elem_of. done.
  - apply IH; [done|done|]. intros i Hi. rewrite Hn by by right. destruct l as [|b l]; [by apply elem_of_nil in Hi|].
    by rewrite last_cons_cons.
Qed.

(** The end of the chain linked to a new record. *)
Definition relinked (cs cs1 : list memRec) (l : list nat) (id : nat) : Prop :=
  length cs1 = length cs ∧
  ∀ i y, cs !! i = Some y →
    cs1 !! i = Some { y with r_next := if decide (last l = Some i) then S id else r_next y }.

Section AddRecord.
Context (C : gmap bytes (list nat)) (files : gmap bytes nat) (cs cs1 : list memRec) (id : nat) (slots : list nat)
  (count : Z) (key : bytes) (rn : memRec) (l : list nat).
Context (Hchain : l = default [] (C !! key)) (Hok : chains_ok C files cs (id :: slots) count) (Hrel : relinked cs cs1 l id)
  (Hlive : r_live rn = true) (Hhash : r_hash rn = key) (Hnext : r_next rn = 0%nat)
  (Hsib : r_sibling rn = bool_decide (l ≠ [])) (Hsize : r_size rn ∉ map (sizeAt cs) l).
Let cs' := <[id := rn]> cs1.

Lemma slot_free : (id < length cs1)%nat ∧ ∀ k lk, C !! k = Some lk → id ∉ lk.
Proof.
  destruct (ck_slots _ _ _ _ _ Hok) as [_ Hs]. destruct (proj1 (Hs id)) as (z&Ez&Hz); [by left|]. split.
  - destruct Hrel as [-> _]. by eapply lookup_lt_Some.
  - intros k lk E Hid. destruct (ck_mem _ _ _ _ _ Hok k lk id E Hid) as (x&Ex&Hx&_). congruence.
Qed.

Lemma new_lookup i : cs' !! i = if decide (i = id) then Some rn else cs1 !! i.
Proof.
  destruct slot_free as [L _]. unfold cs'. case_decide as E; subst.
  - by apply list_lookup_insert_eq.
  - by apply list_lookup_insert_ne.
Qed.

(** The old records keep all but, for the last of the chain, the link. *)
Lemma old_lookup i y : cs !! i = Some y → i ≠ id →
  cs' !! i = Some { y with r_next := if decide (last l = Some i) then S id else r_next y }.
Proof. intros E Hne. rewrite new_lookup, decide_False by done. by apply (proj2 Hrel). Qed.

Lemma old_lookup_inv i x : cs' !! i = Some x → i ≠ id → ∃ y, cs !! i = Some y ∧
  x = { y with r_next := if decide (last l = Some i) then S id else r_next y }.
Proof.
  intros E Hne. destruct (cs !! i) as [y|] eqn:Ey.
  - exists y. rewrite (old_lookup i y Ey Hne) in E. by injection E.
  - exfalso. rewrite new_lookup, decide_False in E by done. apply lookup_lt_Some in E.
    destruct Hrel as [Hl _]. rewrite Hl in E. apply lookup_ge_None in Ey. lia.
Qed.

Lemma old_size i : i ≠ id → sizeAt cs' i = sizeAt cs i.
Proof.
  intros Hne. unfold sizeAt. destruct (cs !! i) as [y|] eqn:Ey; [by rewrite (old_lookup i y Ey Hne)|].
  destruct (cs' !! i) as [x|] eqn:Ex; [|done]. destruct (old_lookup_inv i x Ex Hne) as (?&?&_). congruence.
Qed.

Lemma old_chain k lk :
  C !! k = Some lk → k ≠ key → NoDup (map (sizeAt cs') lk) ∧ linked cs' lk.
Proof.
  intros E Hk. destruct (ck_chain _ _ _ _ _ Hok k lk E) as (_&_&H3&H4). destruct slot_free as [_ Hfree].
  split.
  - erewrite map_ext_in; [exact H3|]. intros i Hi%list_elem_of_In. apply old_size. intros ->. by eapply Hfree.
  - eapply linked_ext; [|exact H4]. intros i Hi. assert (i ≠ id) as Hne by (intros ->; by eapply Hfree).
    destruct (ck_mem _ _ _ _ _ Hok k lk i E Hi) as (y&Ey&_&Hy&_). unfold nextAt. rewrite (old_lookup i y Ey Hne), Ey. cbn.
    rewrite decide_False; [done|]. intros Hlast%last_Some_elem_of. rewrite Hchain in Hlast.
    destruct (C !! key) as [lk'|] eqn:Ek; [|by apply elem_of_nil in Hlast].
    destruct (ck_mem _ _ _ _ _ Hok key lk' i Ek Hlast) as (y'&Ey'&_&Hy'&_). congruence.
Qed.

Lemma chain_of_key : NoDup l ∧ NoDup (map (sizeAt cs) l) ∧ linked cs l ∧ (id ∉ l) ∧
  ∀ i, i ∈ l → ∃ y, cs !! i = Some y ∧ r_live y = true ∧ r_hash y = key ∧ r_sibling y = bool_decide (head l ≠ Some i).
Proof.
  pose proof slot_free as [_ Hfree]. clear -Hok Hfree Hchain. destruct (C !! key) as [lk|] eqn:E; cbn in Hchain; subst l.
  - destruct (ck_chain _ _ _ _ _ Hok key lk E) as (_&?&?&?).
    split_and!; [done..|by eapply Hfree|]. intros i Hi. by apply (ck_mem _ _ _ _ _ Hok key lk).
  - split_and!; try constructor; [by intros ?%elem_of_nil|]. by intros i ?%elem_of_nil.
Qed.

Lemma new_chain : l ++ [id] ≠ [] ∧ NoDup (l ++ [id]) ∧ NoDup (map (sizeAt cs') (l ++ [id])) ∧ linked cs' (l ++ [id]).
Proof.
  destruct chain_of_key as (Hnd&Hsz&Hlk&Hnid&Hmem).
  split_and!; [by destruct l|apply NoDup_app; split_and!; [done| |by apply NoDup_singleton]| |].
  - intros i Hi ->%list_elem_of_singleton. done.
  - rewrite map_app. apply NoDup_app. split_and!; [|intros z Hz|by apply NoDup_singleton].
    { erewrite map_ext_in; [exact Hsz|]. intros i Hi%list_elem_of_In. apply old_size. by intros ->. }
    intros ->%list_elem_of_singleton. apply Hsize. apply list_elem_of_fmap in Hz as (i&Ei&Hi).
    apply list_elem_of_fmap. exists i. split; [|done]. unfold sizeAt in Ei at 1.
    rewrite new_lookup, decide_True in Ei by done. cbn in Ei. rewrite Ei. apply old_size. by intros ->.
  - apply (linked_snoc cs); [done|done|unfold nextAt; by rewrite new_lookup, decide_True|].
    intros i Hi. destruct (Hmem i Hi) as (y&Ey&_). unfold nextAt.
    rewrite (old_lookup i y Ey) by (by intros ->). rewrite Ey. cbn. by case_decide.
Qed.

Lemma new_count : count + 1 = length (filter (λ r, r_live r = true) cs').
Proof.
  rewrite (ck_count _ _ _ _ _ Hok). destruct slot_free as [L _].
  destruct (lookup_lt_is_Some_2 cs1 id L) as [z Ez].
  assert (r_live z = false) as Hz.
  { destruct (ck_slots _ _ _ _ _ Hok) as [_ Hs]. destruct (proj1 (Hs id)) as (y&Ey&Hy); [by left|].
    destruct Hrel as [_ Hr]. rewrite (Hr id y Ey) in Ez. by injection Ez as <-. }
  pose proof (filter_insert_count (λ r, r_live r = true) cs1 id z rn Ez) as Hc.
  rewrite decide_False, decide_True in Hc by congruence. fold cs' in Hc.
  rewrite (live_count_ext cs cs1); [lia|]. apply list_eq. intros i. rewrite !list_lookup_fmap.
  destruct (cs !! i) as [y|] eqn:Ey; [by rewrite (proj2 Hrel i y Ey)|].
  assert (cs1 !! i = None) as ->; [|done]. apply lookup_ge_None. rewrite (proj1 Hrel). by apply lookup_ge_None.
Qed.

Lemma chains_ok_add :
  chains_ok (<[key := l ++ [id]]> C) (if bool_decide (l = []) then <[key := id]> files else files) cs' slots (count + 1).
Proof.
  destruct slot_free as [L Hfree]. destruct chain_of_key as (Hnd&Hsz&Hlk&Hnid&Hmem).
  pose proof Hok as [Hfiles _ Hmem0 Hliv Hzero [Hsnd Hs] Hcount]. apply NoDup_cons in Hsnd as [Hids Hsnd].
  split; [| | | | | |apply new_count].
  - intros k. destruct (decide (k = key)) as [->|Hne].
    + rewrite lookup_insert_eq. change (Some (l ++ [id]) ≫= head) with (head (l ++ [id])).
      destruct (bool_decide_reflect (l = [])) as [El|El]; [by rewrite lookup_insert_eq, El|].
      rewrite Hfiles. rewrite Hchain in El |- *. destruct (C !! key) as [lk|]; [|done]. cbn. by destruct lk.
    + rewrite lookup_insert_ne by done. destruct (bool_decide_reflect (l = [])); [rewrite lookup_insert_ne by done|]; apply Hfiles.
  - intros k lk [[<- <-]|[Hne E]]%lookup_insert_Some; [apply new_chain|].
    destruct (ck_chain _ _ _ _ _ Hok k lk E) as (?&?&_). by destruct (old_chain k lk E).
  - intros k lk i [[<- <-]|[Hne E]]%lookup_insert_Some Hi.
    + apply elem_of_app in Hi as [Hi| ->%list_elem_of_singleton].
      * destruct (Hmem i Hi) as (y&Ey&?&?&Hy). eexists. split; [apply old_lookup; [exact Ey|by intros ->]|].
        destruct y; cbn in *. split_and!; [done|done|]. rewrite Hy. destruct l; [by apply elem_of_nil in Hi|done].
      * exists rn. rewrite new_lookup, decide_True by done. split_and!; [done|done|done|]. rewrite Hsib.
        apply bool_decide_ext. destruct l as [|a l']; cbn; [by split|]. split; [|done]. intros _ [= ->]. apply Hnid. by left.
    + destruct (Hmem0 k lk i E Hi) as (y&Ey&?&?&?). eexists. split; [apply old_lookup; [exact Ey|]|done].
      intros ->. by eapply Hfree.
  - intros i x Ex Hx. destruct (decide (i = id)) as [->|Hne].
    + rewrite new_lookup, decide_True in Ex by done. injection Ex as <-. rewrite Hhash, lookup_insert_eq.
      exists (l ++ [id]). split; [done|]. apply elem_of_app. right. by left.
    + destruct (old_lookup_inv i x Ex Hne) as (y&Ey&Ex').
      assert (r_live x = r_live y ∧ r_hash x = r_hash y) as [Hxl ->] by (by destruct y; subst x).
      rewrite Hxl in Hx. destruct (Hliv i y Ey Hx) as (lk&Elk&Hi). destruct (decide (r_hash y = key)) as [Ek|Hk]; [|exists lk; by rewrite lookup_insert_ne].
      exists (l ++ [id]). rewrite Ek, lookup_insert_eq. split; [done|]. apply elem_of_app. left.
      rewrite Hchain, <- Ek, Elk. done.
  - intros i x Ex Hx. destruct (decide (i = id)) as [->|Hne].
    + rewrite new_lookup, decide_True in Ex by done. congruence.
    + destruct (old_lookup_inv i x Ex Hne) as (y&Ey&Ex'). assert (r_live y = false) as Hy by (by destruct y; subst x).
      subst x. rewrite (Hzero i y Ey Hy). rewrite decide_False; [done|]. intros Hlast%last_Some_elem_of. destruct (Hmem i Hlast) as (y'&Ey'&?&_). congruence.
  - split; [done|]. intros i. destruct (decide (i = id)) as [->|Hne].
    + rewrite new_lookup, decide_True by done. split; [done|]. intros (x&[= <-]&?). congruence.
    + transitivity (i ∈ id :: slots); [rewrite elem_of_cons; tauto|]. rewrite Hs. split.
      * intros (y&Ey&Hy). eexists. split; [by apply old_lookup|done].
      * intros (x&Ex&Hx). destruct (old_lookup_inv i x Ex Hne) as (y&Ey&->). by exists y.
Qed.
End AddRecord.

(** ** [storeFileLocked] *)

(** What the operations on records leave alone. *)
Definition sameSessions (m m' : MemoryEngine) : Prop :=
  e_more m' = e_more m ∧ e_clients m' = e_clients m ∧ e_clientsByHash m' = e_clientsByHash m ∧
  e_nextClientID m' = e_nextClientID m ∧ e_layout m' = e_layout m.

Lemma cores_setRec id rec m : cores (setRec id rec m) = <[id := core rec]> (cores m).
Proof. unfold cores, setRec. destruct m; cbn. apply list_fmap_insert. Qed.

Lemma length_cores m : length (cores m) = length (e_recs m).
Proof. unfold cores. by rewrite length_map. Qed.

Lemma setRecLocked_place file rec : hashArray (f_Hash file) = r_hash rec → f_Size file = r_size rec → r_live rec = true →
  samePlace (core rec) (core (setRecLocked file rec)).
Proof. unfold samePlace, setRecLocked, core. destruct rec; cbn. intros. by split_and!. Qed.

Lemma core_setRecLocked file rec :
  core (setRecLocked file rec) = setRecLocked file (core rec).
Proof. by destruct rec. Qed.

Section Store.
Context `{Unicode} `{Charmap} `{SortSlice}.

(** The record of a known (hash, size) is written over. *)
Lemma storeFile_known C m file id :
  store_ok C m → findLocked (hashArray (f_Hash file)) (f_Size file) m = Some id →
  let '(m', head) := storeFileLocked file m in
  store_ok C m' ∧ sameSessions m m' ∧ e_files m' = e_files m ∧ e_dead m' = e_dead m ∧
  e_files m !! hashArray (f_Hash file) = Some head ∧
  e_names m' = renameFile id (r_name (recAt m id)) (f_Name file) (e_names m) ∧
  ∀ i, recAt m' i = if decide (i = id) then setRecLocked file (recAt m id) else recAt m i.
Proof.
  intros Hok E. pose proof E as (L&Hl&Hh&Hs)%(findLocked_iff C); [|done]. unfold storeFileLocked. rewrite E.
  assert (is_Some (e_files m !! hashArray (f_Hash file))) as [head Eh].
  { unfold findLocked, chainOf in E. by destruct (e_files m !! _). }
  set (m1 := { m with e_names := _ }). assert (cores m1 = cores m ∧ length (e_recs m1) = length (e_recs m) ∧
    recAt m1 = recAt m) as (Ec&El&Er) by by destruct m.
  split_and!.
  - unfold store_ok. rewrite cores_setRec, Ec. replace (e_files _) with (e_files m) by by destruct m.
    replace (e_dead _ ++ e_free _) with (e_dead m ++ e_free m) by by destruct m.
    replace (e_count _) with (e_count m) by by destruct m.
    eapply chains_ok_update; [exact Hok|by apply cores_in|done|by apply setRecLocked_place].
  - by destruct m.
  - by destruct m.
  - by destruct m.
  - replace (e_files m1) with (e_files m) by by destruct m. by rewrite Eh.
  - by destruct m.
  - intros i. by rewrite recAt_setRec, Er by lia.
Qed.

Lemma takeSlot_ok C m :
  store_ok C m →
  let '(m1, id) := takeSlot m in
  chains_ok C (e_files m1) (cores m1) (id :: e_dead m1 ++ e_free m1) (e_count m1) ∧
  sameSessions m m1 ∧ e_files m1 = e_files m ∧ e_dead m1 = e_dead m ∧ e_names m1 = e_names m ∧
  (∀ i, recAt m1 i = recAt m i) ∧ (id < length (e_recs m1))%nat.
Proof.
  intros Hok. unfold takeSlot. destruct (last (e_free m)) as [id|] eqn:El.
  - assert (e_free m = removelast (e_free m) ++ [id]) as Ef.
    { apply last_Some in El as [l ->]. by rewrite removelast_last. }
    assert (chains_ok C (e_files m) (cores m) (id :: e_dead m ++ removelast (e_free m)) (e_count m)) as Hok'.
    { eapply chains_ok_perm; [|exact Hok]. rewrite Ef at 1. rewrite (assoc_L (++)), Permutation_app_comm. done. }
    split_and!; try by destruct m. replace (e_recs _) with (e_recs m) by by destruct m. rewrite <- length_cores.
    destruct (ck_slots _ _ _ _ _ Hok') as [_ Hs]. destruct (proj1 (Hs id)) as (r&Er&_); [by left|].
    by eapply lookup_lt_Some.
  - assert (e_free m = []) as Ef by by apply last_None in El. split_and!; try by destruct m.
    + replace (cores _) with (cores m ++ [zeroRec]) by (unfold cores; destruct m; cbn; by rewrite map_app).
      rewrite <- length_cores. destruct m; cbn. by apply (chains_ok_push _ _ _ _ _ Hok).
    + intros i. unfold recAt. destruct m as [? ? ? ? ? recs ? ? ? ? ?]; cbn.
      destruct (recs !! i) as [r|] eqn:E; [by rewrite (lookup_snoc_old _ _ _ _ E)|].
      destruct ((recs ++ [zeroRec]) !! i) as [r|] eqn:E'; [|done].
      apply lookup_snoc_Some in E' as [[_ ?]|[_ <-]]; [congruence|done].
    + destruct m; cbn. rewrite length_app. cbn. lia.
Qed.

Definition relink (l : list nat) (id : nat) (recs : list memRec) : list memRec :=
  match last l with Some p => alter (λ y, { y with r_next := S id }) p recs | None => recs end.

Lemma relink_ok recs l id : relinked recs (relink l id recs) l id.
Proof.
  unfold relink. split; [destruct (last l); [apply length_alter|done]|]. intros i y E. destruct (last l) as [p|].
  - destruct (decide (p = i)) as [->|Hne].
    + rewrite list_lookup_alter_eq, E. cbn. by rewrite decide_True.
    + rewrite list_lookup_alter_ne, E, decide_False by congruence. by destruct y.
  - rewrite E, decide_False by done. by destruct y.
Qed.

Lemma relink_cores recs l id : map core (relink l id recs) = relink l id (map core recs).
Proof. unfold relink. destruct (last l); [|done]. apply list_fmap_alter. by apply Forall_true. Qed.

(** The engine after a new record was written and linked to the end of its chain. *)
Definition placed (file : File) (l : list nat) (known : option nat) (m : MemoryEngine) (id : nat) : MemoryEngine :=
  { m with e_recs := <[id := { setRecLocked file (recAt m id) with r_sibling := bool_decide (l ≠ []) }]> (relink l id (e_recs m));
           e_count := e_count m + 1;
           e_names := indexName id (f_Name file) (e_names m);
           e_files := if known is Some _ then e_files m else <[hashArray (f_Hash file) := id]> (e_files m) }.

Lemma storeFile_placed m file known l m1 id :
  findLocked (hashArray (f_Hash file)) (f_Size file) m = None → takeSlot m = (m1, id) →
  chainOf m (hashArray (f_Hash file)) = l → e_files m !! hashArray (f_Hash file) = known → (id < length (e_recs m1))%nat →
  (known = None → l = []) → (∀ head, known = Some head → ∃ p, last l = Some p ∧ p ≠ id ∧ (p < length (e_recs m1))%nat) →
  r_sibling (recAt m1 id) = false →
  storeFileLocked file m = (placed file l known m1 id, default id known).
Proof.
  intros Efind Et El Ek L Hnone Hsome Hsib. unfold storeFileLocked, placed. rewrite Efind, El, Ek, Et. destruct known as [head|].
  - destruct (Hsome head eq_refl) as (p&Ep&Hne&Lp). rewrite Ep. change (default head (Some p)) with p. unfold relink. rewrite Ep.
    assert (l ≠ []) as Hl by by destruct l. rewrite bool_decide_eq_true_2 by done.
    set (m2 := { setRec id _ m1 with e_count := _; e_names := _ }).
    assert (e_recs m2 = <[id := setRecLocked file (recAt m1 id)]> (e_recs m1)) as E2 by by destruct m1.
    assert (length (e_recs m2) = length (e_recs m1)) as L2 by by rewrite E2, length_insert.
    assert (recAt m2 p = recAt m1 p) as -> by (unfold recAt; by rewrite E2, list_lookup_insert_ne).
    assert (recAt m2 id = setRecLocked file (recAt m1 id)) as Hid by (unfold recAt at 1; by rewrite E2, list_lookup_insert_eq).
    rewrite recAt_setRec, decide_False, Hid by lia. unfold setRec at 1 2. subst m2. destruct m1 as [? ? ? ? ? recs ? ? ? ? ?]; cbn in *.
    do 2 f_equal. rewrite list_insert_insert_ne by done. rewrite list_insert_insert_eq, list_insert_insert_ne by done. f_equal.
    unfold recAt; cbn. destruct (lookup_lt_is_Some_2 recs p Lp) as [y Ey]. rewrite Ey, list_insert_alter. apply list_alter_ext; [|done]. intros z Ez. by replace z with y by congruence.
  - unfold relink. rewrite (Hnone eq_refl). cbn [last]. rewrite (bool_decide_eq_false_2 ([] ≠ [])) by auto.
    replace { setRecLocked file (recAt m1 id) with r_sibling := false } with (setRecLocked file (recAt m1 id))
      by (destruct (recAt m1 id); cbn in *; by subst).
    by destruct m1.
Qed.

(** The slot is not one of a live record. *)
Lemma storeFile_slot C m file key l :
  store_ok C m → key = hashArray (f_Hash file) → l = default [] (C !! key) → findLocked key (f_Size file) m = None →
  ∃ m1 id, takeSlot m = (m1, id) ∧ storeFileLocked file m = (placed file l (e_files m !! key) m1 id, default id (e_files m !! key)) ∧
    core (recAt m id) = zeroRec ∧ (e_files m !! key = None ↔ l = []) ∧ ∀ i, i ∈ l → i ≠ id ∧ (i < length (e_recs m1))%nat.
Proof.
  intros Hok Hkey Hl Efind. pose proof (takeSlot_ok C m Hok) as Hts. destruct (takeSlot m) as [m1 id] eqn:Et.
  destruct Hts as (Hok1&Hses&Hfiles&Hdead&Hnames&Hrec&L).
  destruct (ck_slots _ _ _ _ _ Hok1) as [Hnd Hs]. destruct (proj1 (Hs id)) as (x&Ex&Hx); [by left|].
  pose proof (ck_zero _ _ _ _ _ Hok1 id x Ex Hx) as ->. apply cores_at in Ex as [_ Ex]. rewrite Hrec in Ex.
  assert (∀ i, i ∈ l → i ≠ id ∧ (i < length (e_recs m1))%nat) as Hmem.
  { intros i Hi. destruct (C !! key) as [lk|] eqn:E; subst l; [|by apply elem_of_nil in Hi]. 
    destruct (ck_mem _ _ _ _ _ Hok1 key lk i E Hi) as (y&Ey&Hy&_). split; [|apply lookup_lt_Some in Ey; by rewrite length_cores in Ey].
    intros ->. apply cores_at in Ey as [_ ->]. rewrite Hrec, <- Ex in Hy. done. }
  assert (e_files m !! key = None ↔ l = []) as Hknown.
  { rewrite (ck_files _ _ _ _ _ Hok). destruct (C !! key) as [[|a lk]|] eqn:E; cbn in *; subst l; [|done|done].
    by destruct (ck_chain _ _ _ _ _ Hok key [] E). }
  exists m1, id. split_and!; try done. rewrite (storeFile_placed m file (e_files m !! key) l m1 id); rewrite <- ?Hkey; try done.
  - by rewrite (chainOf_ok C).
  - by apply Hknown.
  - intros h Eh. destruct (last l) as [p|] eqn:Ep.
    + exists p. split; [done|]. apply Hmem. by apply last_Some_elem_of.
    + apply last_None, Hknown in Ep. congruence.
  - rewrite Hrec. by destruct (recAt m id); injection Ex.
Qed.

Lemma placed_recAt file l known m id i :
  (id < length (e_recs m))%nat → (∀ i, i ∈ l → (i < length (e_recs m))%nat) →
  recAt (placed file l known m id) i =
    if decide (i = id) then { setRecLocked file (recAt m id) with r_sibling := bool_decide (l ≠ []) }
    else { recAt m i with r_next := if decide (last l = Some i) then S id else r_next (recAt m i) }.
Proof.
  intros L Hmem. destruct (relink_ok (e_recs m) l id) as [Hlen Hr].
  unfold recAt at 1. replace (e_recs (placed file l known m id)) with
    (<[id := { setRecLocked file (recAt m id) with r_sibling := bool_decide (l ≠ []) }]> (relink l id (e_recs m))) by by destruct m.
  case_decide as E; [subst i; by rewrite list_lookup_insert_eq by (by rewrite Hlen)|]. rewrite list_lookup_insert_ne by done.
  unfold recAt. destruct (e_recs m !! i) as [y|] eqn:Ey; [by rewrite (Hr i y Ey)|].
  apply lookup_ge_None in Ey. rewrite (proj2 (lookup_ge_None _ _)) by (by rewrite Hlen).
  rewrite decide_False; [done|]. intros Hi%last_Some_elem_of%Hmem. lia.
Qed.

Lemma placed_ok C m file key l known id :
  chains_ok C (e_files m) (cores m) (id :: e_dead m ++ e_free m) (e_count m) →
  key = hashArray (f_Hash file) → l = default [] (C !! key) → (known = None ↔ l = []) → core (recAt m id) = zeroRec →
  f_Size file ∉ map (sizeAt (cores m)) l → store_ok (<[key := l ++ [id]]> C) (placed file l known m id).
Proof.
  intros Hok Hkey Hl Hknown Hzero Hsize.
  set (rn := core { setRecLocked file (recAt m id) with r_sibling := bool_decide (l ≠ []) }).
  assert (chains_ok (<[key := l ++ [id]]> C) (if bool_decide (l = []) then <[key := id]> (e_files m) else e_files m)
    (<[id := rn]> (relink l id (cores m))) (e_dead m ++ e_free m) (e_count m + 1)) as Hnew.
  { assert (r_hash rn = key ∧ r_next rn = 0%nat ∧ r_size rn = f_Size file) as (?&?&?).
    { subst rn key. unfold core in *. destruct (recAt m id). injection Hzero as [=]; subst. done. }
    apply chains_ok_add with (cs := cores m); try done. apply relink_ok. }
  unfold store_ok. replace (cores (placed _ _ _ _ _)) with (<[id := rn]> (relink l id (cores m))).
  2:{ unfold cores, placed, rn. rewrite <- relink_cores, <- list_fmap_insert. by destruct m. }
  replace (e_files (placed _ _ _ _ _)) with (if bool_decide (l = []) then <[key := id]> (e_files m) else e_files m);
    [by destruct m|].
  subst key. destruct known; [rewrite bool_decide_eq_false_2 by naive_solver|rewrite bool_decide_eq_true_2 by naive_solver];
    by destruct m.
Qed.

(** A new record goes to a slot that holds none, at the end of the chain of its hash. *)
Lemma storeFile_new C m file key l :
  store_ok C m → key = hashArray (f_Hash file) → l = default [] (C !! key) → findLocked key (f_Size file) m = None →
  let '(m', head) := storeFileLocked file m in
  ∃ id, store_ok (<[key := l ++ [id]]> C) m' ∧ sameSessions m m' ∧ e_dead m' = e_dead m ∧
    e_files m' !! key = Some head ∧ e_names m' = indexName id (f_Name file) (e_names m) ∧
    core (recAt m id) = zeroRec ∧ (id ∉ e_dead m) ∧
    ∀ i, recAt m' i =
      if decide (i = id) then { setRecLocked file (recAt m id) with r_sibling := bool_decide (l ≠ []) }
      else { recAt m i with r_next := if decide (last l = Some i) then S id else r_next (recAt m i) }.
Proof.
  intros Hok Hkey Hl Efind. destruct (storeFile_slot C m file key l) as (m1&id&Et&->&Hzero&Hknown&Hmem); [done..|].
  pose proof (takeSlot_ok C m Hok) as Hts. rewrite Et in Hts. destruct Hts as (Hok1&Hses&Hfiles&Hdead&Hnames&Hrec&L).
  exists id. split_and!; [|by destruct m1|by destruct m1| |by destruct m1; cbn in *; subst|done| |].
  - apply placed_ok; try done; [by rewrite Hrec|]. intros (i&Ei&Hi)%list_elem_of_fmap. rewrite sizeAt_cores, Hrec in Ei.
    eapply find_none in Efind; [|rewrite (chainOf_ok C m key Hok), <- Hl; by apply list_elem_of_In]. cbn in Efind. lia.
  - replace (e_files _) with (if e_files m !! key is Some _ then e_files m1 else <[key := id]> (e_files m1)) by (subst key; by destruct m1).
    destruct (e_files m !! key) as [h|] eqn:Eh; [by rewrite Hfiles, Eh|by rewrite lookup_insert_eq].
  - rewrite <- Hdead. intros Hid. destruct (ck_slots _ _ _ _ _ Hok1) as [Hnd _]. apply NoDup_cons in Hnd as [Hnd _].
    apply Hnd, elem_of_app. by left.
  - intros i. rewrite placed_recAt, !Hrec; [done|done|]. intros j Hj. by apply Hmem.
Qed.
End Store.

(** ** A record removed *)

Lemma linked_remove cs cs' l1 id l2 :
  linked cs (l1 ++ id :: l2) → NoDup (l1 ++ id :: l2) →
  (∀ i, i ∈ l1 ++ l2 → nextAt cs' i = if decide (last l1 = Some i) then nextAt cs id else nextAt cs i) →
  linked cs' (l1 ++ l2).
Proof.
  intros Hl Hnd Hn. induction l1 as [|a l1 IH]; cbn [app linked] in *.
  - eapply linked_ext; [|apply Hl]. intros i Hi. by rewrite Hn, decide_False.
  - apply NoDup_cons in Hnd as [Ha Hnd]. destruct Hl as [H1 H2]. split.
    + rewrite Hn by by left. destruct l1 as [|b l1]; cbn [app] in *.
      * rewrite decide_True by done. by destruct H2 as [-> _].
      * rewrite decide_False; [done|]. rewrite last_cons_cons. intros Hlast%last_Some_elem_of. apply Ha.
        change (a ∈ (b :: l1) ++ id :: l2). apply elem_of_app. by left.
    + apply IH; [done|done|]. intros i Hi. rewrite Hn by by right. destruct l1 as [|b l1]; cbn [app] in *.
      * rewrite (decide_False (P := last [] = Some i)) by done. rewrite decide_False; [done|]. intros [= ->]. apply Ha. by right.
      * by rewrite last_cons_cons.
Qed.

(** The record's neighbours in the chain closed around it. *)
Definition unlinked (cs cs' : list memRec) (l1 : list nat) (id : nat) (l2 : list nat) : Prop :=
  length cs' = length cs ∧
  ∀ i y, cs !! i = Some y → cs' !! i = Some (if decide (i = id) then zeroRec else
    { y with r_next := if decide (last l1 = Some i) then nextAt cs id else r_next y;
             r_sibling := r_sibling y && negb (bool_decide (l1 = [] ∧ head l2 = Some i)) }).

Section RemoveRecord.
Context (C : gmap bytes (list nat)) (files : gmap bytes nat) (cs cs' : list memRec) (id : nat) (slots : list nat)
  (count : Z) (key : bytes) (l1 l2 : list nat).
Context (Hok : chains_ok C files cs slots count) (Hchain : C !! key = Some (l1 ++ id :: l2))
  (Hun : unlinked cs cs' l1 id l2).

Lemma un_lookup i y : cs !! i = Some y → i ≠ id → cs' !! i = Some
  { y with r_next := if decide (last l1 = Some i) then nextAt cs id else r_next y;
           r_sibling := r_sibling y && negb (bool_decide (l1 = [] ∧ head l2 = Some i)) }.
Proof. intros E Hne. rewrite (proj2 Hun i y E). by rewrite decide_False. Qed.

Lemma un_lookup_inv i x : cs' !! i = Some x → ∃ y, cs !! i = Some y ∧
  (i = id ∧ x = zeroRec ∨ i ≠ id ∧ r_live x = r_live y ∧ r_hash x = r_hash y ∧ r_size x = r_size y ∧ 
   x = { y with r_next := if decide (last l1 = Some i) then nextAt cs id else r_next y;
           r_sibling := r_sibling y && negb (bool_decide (l1 = [] ∧ head l2 = Some i)) }).
Proof.
  intros E. destruct (lookup_lt_is_Some_2 cs i) as [y Ey]; [rewrite <- (proj1 Hun); by eapply lookup_lt_Some|].
  exists y. split; [done|]. rewrite (proj2 Hun i y Ey) in E. injection E as <-. case_decide; [by left|]. right.
  by destruct y.
Qed.

Lemma un_size i : i ≠ id → sizeAt cs' i = sizeAt cs i.
Proof.
  intros Hne. unfold sizeAt. destruct (cs !! i) as [y|] eqn:Ey; [rewrite (un_lookup i y Ey Hne); by destruct y|].
  rewrite (proj2 (lookup_ge_None cs' i)); [done|]. rewrite (proj1 Hun). by apply lookup_ge_None.
Qed.

Lemma un_elem : NoDup (l1 ++ l2) ∧ (id ∉ l1 ++ l2) ∧ ∀ i, i ∈ l1 ++ id :: l2 ↔ i = id ∨ i ∈ l1 ++ l2.
Proof.
  destruct (ck_chain _ _ _ _ _ Hok key _ Hchain) as (_&Hnd&_). rewrite <- Permutation_middle in Hnd.
  apply NoDup_cons in Hnd as [? ?]. split_and!; [done|done|]. intros i. by rewrite <- Permutation_middle, elem_of_cons.
Qed.

(** No other chain holds the record. *)
Lemma un_other k lk : C !! k = Some lk → k ≠ key → ∀ i, i ∈ lk → i ∉ l1 ++ id :: l2.
Proof.
  intros E Hk i Hi Hi'. destruct (ck_mem _ _ _ _ _ Hok k lk i E Hi) as (y&Ey&_&Hy&_).
  destruct (ck_mem _ _ _ _ _ Hok key _ i Hchain Hi') as (y'&Ey'&_&Hy'&_). congruence.
Qed.

Lemma un_next i : i ≠ id → nextAt cs' i = if decide (last l1 = Some i) then nextAt cs id else nextAt cs i.
Proof.
  intros Hne. unfold nextAt. destruct (cs !! i) as [y|] eqn:Ey.
  - rewrite (un_lookup i y Ey Hne). by destruct y.
  - rewrite (proj2 (lookup_ge_None cs' i)); [|rewrite (proj1 Hun); by apply lookup_ge_None].
    rewrite decide_False; [done|]. intros Hi%last_Some_elem_of.
    destruct (ck_mem _ _ _ _ _ Hok key _ i Hchain) as (y'&Ey'&_); [apply elem_of_app; by left|]. congruence.
Qed.

Lemma un_chain k lk : C !! k = Some lk → k ≠ key → NoDup (map (sizeAt cs') lk) ∧ linked cs' lk.
Proof.
  intros E Hk. destruct (ck_chain _ _ _ _ _ Hok k lk E) as (_&_&H3&H4).
  assert (∀ i, i ∈ lk → i ≠ id ∧ last l1 ≠ Some i) as Hi.
  { intros i Hi. pose proof (un_other k lk E Hk i Hi) as Hno. rewrite elem_of_app, elem_of_cons in Hno. split; [naive_solver|].
    intros ?%last_Some_elem_of. naive_solver. }
  split.
  - erewrite map_ext_in; [exact H3|]. intros i [? _]%list_elem_of_In%Hi. by apply un_size.
  - eapply linked_ext; [|exact H4]. intros i [? ?]%Hi. by rewrite un_next, decide_False.
Qed.

Lemma un_own : NoDup (map (sizeAt cs') (l1 ++ l2)) ∧ linked cs' (l1 ++ l2).
Proof.
  destruct (ck_chain _ _ _ _ _ Hok key _ Hchain) as (_&Hnd&H3&H4). destruct un_elem as (_&Hid&_). split.
  - rewrite <- Permutation_middle in H3. apply NoDup_cons in H3 as [_ H3]. erewrite map_ext_in; [exact H3|].
    intros i Hi%list_elem_of_In. apply un_size. by intros ->.
  - eapply linked_remove; [done|done|]. intros i Hi. apply un_next. by intros ->.
Qed.
Lemma un_live : ∃ y, cs !! id = Some y ∧ r_live y = true.
Proof.
  destruct (ck_mem _ _ _ _ _ Hok key _ id Hchain) as (y&?&?&_); [apply elem_of_app; right; by left|]. by exists y.
Qed.

Lemma un_count : count - 1 = length (filter (λ r, r_live r = true) cs').
Proof.
  rewrite (ck_count _ _ _ _ _ Hok). destruct un_live as (y&Ey&Hy).
  pose proof (filter_insert_count (λ r, r_live r = true) cs id y zeroRec Ey) as Hc.
  rewrite decide_True, decide_False in Hc by done. rewrite (live_count_ext cs' (<[id := zeroRec]> cs)); [lia|].
  apply list_eq. intros i. rewrite !list_lookup_fmap. destruct (cs !! i) as [z|] eqn:Ez.
  - rewrite (proj2 Hun i z Ez). destruct (decide (i = id)) as [->|Hne].
    + by rewrite list_lookup_insert_eq by (by eapply lookup_lt_Some).
    + rewrite list_lookup_insert_ne, Ez by done. by destruct z.
  - rewrite (proj2 (lookup_ge_None cs' i)); [|rewrite (proj1 Hun); by apply lookup_ge_None].
    rewrite (proj2 (lookup_ge_None _ i)); [done|]. rewrite length_insert. by apply lookup_ge_None.
Qed.

Definition restChains : gmap bytes (list nat) := if bool_decide (l1 ++ l2 = []) then delete key C else <[key := l1 ++ l2]> C.
Definition restFiles : gmap bytes nat :=
  match l1, l2 with [], [] => delete key files | [], n :: _ => <[key := n]> files | _ :: _, _ => files end.

Lemma restChains_Some k lk :
  restChains !! k = Some lk → (k = key ∧ lk = l1 ++ l2 ∧ lk ≠ []) ∨ (k ≠ key ∧ C !! k = Some lk).
Proof.
  unfold restChains. case_bool_decide.
  - intros [? ?]%lookup_delete_Some. right. by split.
  - intros [[<- <-]|[? ?]]%lookup_insert_Some; [by left|right; by split].
Qed.

Lemma restFiles_ok k : restFiles !! k = restChains !! k ≫= head.
Proof.
  pose proof (ck_files _ _ _ _ _ Hok) as Hf. unfold restChains, restFiles. destruct (decide (k = key)) as [->|Hne].
  - destruct l1 as [|a l1']; [destruct l2 as [|b l2']|]; cbn [app].
    + by rewrite bool_decide_eq_true_2, !lookup_delete_eq.
    + by rewrite bool_decide_eq_false_2, !lookup_insert_eq.
    + rewrite bool_decide_eq_false_2, lookup_insert_eq, Hf by done. by rewrite Hchain.
  - transitivity (files !! k); [destruct l1; [destruct l2|]; by rewrite ?lookup_delete_ne, ?lookup_insert_ne|].
    rewrite Hf. case_bool_decide; [by rewrite lookup_delete_ne|by rewrite lookup_insert_ne].
Qed.

Lemma un_head i : i ∈ l1 ++ l2 →
  bool_decide (head (l1 ++ id :: l2) ≠ Some i) && negb (bool_decide (l1 = [] ∧ head l2 = Some i)) =
  bool_decide (head (l1 ++ l2) ≠ Some i).
Proof.
  intros Hi. destruct un_elem as (_&Hid&_). destruct l1 as [|a l1']; cbn [app head] in *.
  - rewrite bool_decide_eq_true_2 by congruence. cbn. rewrite <- bool_decide_not. apply bool_decide_ext. naive_solver.
  - rewrite (bool_decide_eq_false_2 (_ ∧ _)) by naive_solver. by rewrite andb_true_r.
Qed.

Lemma chains_ok_remove : chains_ok restChains restFiles cs' (id :: slots) (count - 1).
Proof.
  destruct un_elem as (Hnd&Hid&Hel). pose proof Hok as [_ Hchains Hmem Hliv Hzero [Hsnd Hs] _].
  destruct un_live as (yd&Eyd&Hyd). split; [exact restFiles_ok| | | | | |exact un_count].
  - intros k lk [(->&->&Hne)|[Hk E]]%restChains_Some; [destruct un_own; done|].
    destruct (Hchains k lk E) as (?&?&_). by destruct (un_chain k lk E Hk).
  - intros k lk i [(->&->&_)|[Hk E]]%restChains_Some Hi.
    + destruct (Hmem key _ i Hchain) as (y&Ey&?&?&Hy); [apply Hel; by right|]. eexists.
      split; [apply un_lookup; [exact Ey|by intros ->]|]. destruct y; cbn in *. split_and!; [done|done|]. rewrite Hy. by apply un_head.
    + destruct (Hmem k lk i E Hi) as (y&Ey&?&?&Hy). pose proof (un_other k lk E Hk i Hi) as Hno. rewrite Hel in Hno.
      eexists. split; [apply un_lookup; [exact Ey|naive_solver]|]. destruct y; cbn in *. split_and!; [done|done|].
      rewrite <- Hy, bool_decide_eq_false_2; [by rewrite andb_true_r|]. intros [-> Hh%head_Some_elem_of]. naive_solver.
  - intros i x Ex Hx. destruct (un_lookup_inv i x Ex) as (y&Ey&[(_&->)|(Hne&Hl&Hh&_&_)]); [done|]. rewrite Hh.
    destruct (Hliv i y Ey ltac:(congruence)) as (lk&Elk&Hi). unfold restChains. destruct (decide (r_hash y = key)) as [Ek|Hk].
    + rewrite Ek in *. assert (lk = l1 ++ id :: l2) as -> by congruence. apply Hel in Hi as [->|Hi]; [done|].
      rewrite bool_decide_eq_false_2 by (intros E; rewrite E in Hi; by apply elem_of_nil in Hi).
      exists (l1 ++ l2). by rewrite lookup_insert_eq.
    + exists lk. split; [|done]. case_bool_decide; [by rewrite lookup_delete_ne|by rewrite lookup_insert_ne].
  - intros i x Ex Hx. destruct (un_lookup_inv i x Ex) as (y&Ey&[(_&->)|(Hne&Hl&_&_&->)]); [done|].
    rewrite (Hzero i y Ey) by congruence. cbn. rewrite decide_False; [done|]. intros Hi%last_Some_elem_of.
    destruct (Hmem key _ i Hchain) as (z&Ez&?&_); [apply elem_of_app; by left|]. congruence.
  - split.
    + constructor; [|done]. intros (z&Ez&?)%Hs. congruence.
    + intros i. rewrite elem_of_cons, Hs. split.
      * intros [->|(y&Ey&Hy)]; [exists zeroRec; by rewrite (proj2 Hun id yd Eyd), decide_True|].
        eexists. split; [apply un_lookup; [exact Ey|intros ->; congruence]|]. by destruct y.
      * intros (x&Ex&Hx). destruct (un_lookup_inv i x Ex) as (y&Ey&[(->&_)|(Hne&Hl&_)]); [by left|right]. exists y.
        split; [done|congruence].
Qed.
End RemoveRecord.

(** *** [removeRecLocked] *)

Lemma unlinked_cores recs recs' l1 id l2 :
  unlinked recs recs' l1 id l2 → unlinked (map core recs) (map core recs') l1 id l2.
Proof.
  intros [Hlen Hu]. split; [by rewrite !length_map|]. intros i y. rewrite !list_lookup_fmap. intros (z&Ez&->)%fmap_Some.
  rewrite (Hu i z Ez). cbn. f_equal. case_decide; [done|]. unfold nextAt. rewrite list_lookup_fmap.
  destruct (recs !! id); by destruct z.
Qed.

Lemma find_prev cs l1 id l2 :
  linked cs (l1 ++ id :: l2) → NoDup (l1 ++ id :: l2) → find (λ p, nextAt cs p =? S id)%nat (l1 ++ id :: l2) = last l1.
Proof.
  intros Hl Hnd. assert (∀ l, linked cs l → id ∉ tail l → find (λ p, nextAt cs p =? S id)%nat l = None) as Hnone.
  { intros l. induction l as [|a l IH]; [done|]. intros [H1 H2] Hn. cbn. destruct l as [|b l]; [by rewrite H1|].
    cbn [tail] in *. apply not_elem_of_cons in Hn as [Hne Hn]. rewrite H1.
    rewrite (proj2 (Nat.eqb_neq (S b) (S id))) by congruence. by apply IH. }
  induction l1 as [|a l1 IH]; cbn [app] in *.
  - apply NoDup_cons in Hnd as [Hid _]. by apply Hnone.
  - destruct Hl as [H1 H2]. apply NoDup_cons in Hnd as [_ Hnd]. specialize (IH H2 Hnd). cbn [find]. rewrite H1.
    destruct l1 as [|b l1]; cbn [app] in *; [by rewrite Nat.eqb_refl|]. rewrite last_cons_cons, <- IH.
    replace (S b =? S id)%nat with false; [done|]. apply NoDup_cons in Hnd as [Hb _]. rewrite elem_of_app, elem_of_cons in Hb.
    symmetry. apply Nat.eqb_neq. intros [= ->]. naive_solver.
Qed.

Lemma find_ext_in {A} (f g : A → bool) l : (∀ x, f x = g x) → find f l = find g l.
Proof. intros E. induction l as [|x l IH]; [done|]. cbn. by rewrite E, IH. Qed.

(** What the writes to the slab come to. *)
Lemma unlinked_only recs id : unlinked recs (<[id := zeroRec]> recs) [] id [].
Proof.
  split; [apply length_insert|]. intros i y E. case_decide as Ei.
  - subst i. by rewrite list_lookup_insert_eq by (by eapply lookup_lt_Some).
  - rewrite list_lookup_insert_ne, E by done. destruct y; cbn. by rewrite andb_true_r.
Qed.

Lemma unlinked_head recs id n l rec :
  id ≠ n → recs !! n = Some rec → unlinked recs (<[id := zeroRec]> (<[n := { rec with r_sibling := false }]> recs)) [] id (n :: l).
Proof.
  intros Hne En. split; [by rewrite !length_insert|]. intros i y E. case_decide as Ei.
  - subst i. rewrite list_lookup_insert_eq; [done|]. rewrite length_insert. by eapply lookup_lt_Some.
  - rewrite list_lookup_insert_ne by done. cbn [last head]. rewrite decide_False by done. destruct (decide (i = n)) as [->|Hi].
    + rewrite list_lookup_insert_eq by (by eapply lookup_lt_Some). assert (y = rec) as -> by congruence.
      rewrite bool_decide_eq_true_2 by done. rewrite andb_false_r. by destruct rec.
    + rewrite list_lookup_insert_ne, E, bool_decide_eq_false_2 by (done || naive_solver). rewrite andb_true_r. by destruct y.
Qed.

Lemma unlinked_inner recs id p l1 l2 rec :
  last l1 = Some p → id ≠ p → recs !! p = Some rec →
  unlinked recs (<[id := zeroRec]> (<[p := { rec with r_next := nextAt recs id }]> recs)) l1 id l2.
Proof.
  intros El Hne Ep. split; [by rewrite !length_insert|]. intros i y E.
  assert (bool_decide (l1 = [] ∧ head l2 = Some i) = false) as -> by (apply bool_decide_eq_false_2; by intros [-> _]).
  rewrite andb_true_r, El. case_decide as Ei.
  - subst i. rewrite list_lookup_insert_eq; [done|]. rewrite length_insert. by eapply lookup_lt_Some.
  - rewrite list_lookup_insert_ne by done. destruct (decide (p = i)) as [->|Hi].
    + rewrite list_lookup_insert_eq, decide_True by (done || by eapply lookup_lt_Some). assert (y = rec) as -> by congruence. by destruct rec.
    + rewrite list_lookup_insert_ne, E, decide_False by congruence. by destruct y.
Qed.

Section Remove.
Context `{Unicode}.

Lemma removeRec_chain C m id l1 l2 :
  store_ok C m → C !! r_hash (recAt m id) = Some (l1 ++ id :: l2) →
  let m' := removeRecLocked id m in
  unlinked (e_recs m) (e_recs m') l1 id l2 ∧ e_files m' = restFiles (e_files m) (r_hash (recAt m id)) l1 l2.
Proof.
  intros Hok E m'. set (key := r_hash (recAt m id)) in *.
  destruct (ck_chain _ _ _ _ _ Hok key _ E) as (_&Hnd&_&Hlk).
  assert (∀ i, i ∈ l1 ++ id :: l2 → (i < length (e_recs m))%nat) as Hin.
  { intros i Hi. destruct (ck_mem _ _ _ _ _ Hok key _ i E Hi) as (y&Ey&_). apply lookup_lt_Some in Ey. by rewrite length_cores in Ey. }
  assert (e_files m !! key = head (l1 ++ id :: l2)) as Ef by (rewrite (ck_files _ _ _ _ _ Hok), E; done).
  assert (nextAt (cores m) id = match l2 with [] => 0%nat | n :: _ => S n end) as Hnext.
  { clear -Hlk. induction l1; [apply Hlk|]. apply IHl1. by destruct Hlk. }
  rewrite nextAt_cores in Hnext. subst m'. unfold removeRecLocked. fold key.
  destruct l1 as [|a l1].
  - cbn [app head] in *. rewrite Ef, bool_decide_eq_true_2 by done. rewrite Hnext. destruct l2 as [|n l2].
    + split; [|by destruct m]. destruct m. apply unlinked_only.
    + split; [|by destruct m]. pose proof (Hin n) as Ln. destruct (lookup_lt_is_Some_2 (e_recs m) n) as [rec En]; [apply Ln; right; by left|].
      apply NoDup_cons in Hnd as [Hid _]. rewrite not_elem_of_cons in Hid. destruct Hid as [Hid _].
      unfold recAt in *. destruct m; cbn in *. rewrite En. by apply unlinked_head.
  - cbn [app head] in Ef. rewrite Ef, bool_decide_eq_false_2.
    2:{ cbn. intros ->. apply NoDup_cons in Hnd as [Hid _]. apply Hid, elem_of_app. right. by left. }
    rewrite (chainOf_ok C m key Hok), E. change (default [] (Some ?x)) with x.
    destruct (last (a :: l1)) as [p|] eqn:Ep; [|by apply last_None in Ep].
    assert (find (λ p, r_next (recAt m p) =? S id)%nat ((a :: l1) ++ id :: l2) = Some p) as ->.
    { rewrite <- Ep, <- (find_prev (cores m) (a :: l1) id l2 Hlk Hnd). apply find_ext_in. intros q. by rewrite nextAt_cores. }
    assert (p ∈ a :: l1) as Hp by by apply last_Some_elem_of.
    destruct (lookup_lt_is_Some_2 (e_recs m) p) as [rec Erec]; [apply Hin, elem_of_app; by left|].
    split; [|by destruct m].
    assert (id ≠ p) by (apply NoDup_app in Hnd as (_&Hnd&_); intros ->; apply (Hnd p Hp); by left).
    unfold recAt in *. destruct m; cbn in *. rewrite Erec. by apply unlinked_inner.
Qed.

Lemma removeRec_ok C m id l1 l2 :
  store_ok C m → C !! r_hash (recAt m id) = Some (l1 ++ id :: l2) →
  let m' := removeRecLocked id m in
  store_ok (restChains C (r_hash (recAt m id)) l1 l2) m' ∧ sameSessions m m' ∧ e_dead m' = e_dead m ++ [id] ∧
  e_files m' = restFiles (e_files m) (r_hash (recAt m id)) l1 l2 ∧
  e_names m' = removeFile (r_name (recAt m id)) (e_names m) ∧ unlinked (e_recs m) (e_recs m') l1 id l2.
Proof.
  intros Hok E m'. destruct (removeRec_chain C m id l1 l2 Hok E) as [Hun Hf]. fold m' in Hun, Hf.
  assert (e_dead m' = e_dead m ++ [id] ∧ e_free m' = e_free m ∧ e_count m' = e_count m - 1 ∧ sameSessions m m' ∧
    e_names m' = removeFile (r_name (recAt m id)) (e_names m)) as (Hd&Hfr&Hc&Hse&Hn).
  { subst m'. unfold removeRecLocked. set (mm := if bool_decide _ then _ else _).
    assert (e_dead mm = e_dead m ∧ e_free mm = e_free m ∧ e_count mm = e_count m ∧ sameSessions m mm ∧ e_names mm = e_names m) as Hmm.
    { subst mm. case_bool_decide; [destruct (r_next _)|destruct (find _ _)]; by destruct m. }
    destruct Hmm as (?&?&?&?&?). destruct mm; cbn in *. unfold sameSessions in *; cbn. by subst. }
  split_and!; try done. unfold store_ok. rewrite Hd, Hfr, Hf, Hc.
  eapply chains_ok_perm; [|eapply chains_ok_remove; [exact Hok|exact E|by apply unlinked_cores]].
  rewrite <- (assoc_L (++)). by rewrite Permutation_middle.
Qed.
End Remove.

(** ** Renumbering *)

Lemma filter_lookup {A} (P : A → Prop) `{∀ x, Decision (P x)} (l : list A) i x :
  l !! i = Some x → P x → filter P l !! length (filter P (take i l)) = Some x.
Proof.
  intros E Px. replace (filter P l) with (filter P (take i l ++ x :: drop (S i) l)) by (by rewrite take_drop_middle).
  rewrite filter_app, filter_cons_True by done.
  by rewrite lookup_app_r, Nat.sub_diag.
Qed.

Lemma filter_lookup_inv {A} (P : A → Prop) `{∀ x, Decision (P x)} (l : list A) j x :
  filter P l !! j = Some x → ∃ i, l !! i = Some x ∧ P x ∧ j = length (filter P (take i l)).
Proof.
  revert j. induction l as [|a l IH]; intros j; [done|]. rewrite filter_cons. case_decide as Pa.
  - destruct j as [|j]; cbn.
    + intros [= ->]. by exists 0%nat.
    + intros (i&?&?&->)%IH. exists (S i). split_and!; [done|done|]. cbn [take]. by rewrite filter_cons_True.
  - intros (i&?&?&->)%IH. exists (S i). split_and!; [done|done|]. cbn [take]. by rewrite filter_cons_False.
Qed.

Lemma filter_take_lt {A} (P : A → Prop) `{∀ x, Decision (P x)} (l : list A) i j x :
  l !! i = Some x → P x → (i < j)%nat → (length (filter P (take i l)) < length (filter P (take j l)))%nat.
Proof.
  intros E Px L. replace (take j l) with (take i l ++ x :: take (j - S i) (drop (S i) l)).
  - rewrite filter_app, filter_cons_True, length_app by done. cbn. lia.
  - pose proof (lookup_lt_Some _ _ _ E). replace (take j l) with (take j (take i l ++ x :: drop (S i) l)) by (by rewrite take_drop_middle).
    rewrite take_app, take_take, length_take, Nat.min_r, Nat.min_l by lia. by replace (j - i)%nat with (S (j - S i)) by lia.
Qed.

(** The new id of a record that is kept. *)
Definition newID (recs : list memRec) (id : nat) : nat := length (filter (λ r, r_live r = true) (take id recs)).

Lemma renumber_live recs id r : recs !! id = Some r → r_live r = true → renumber recs id = S (newID recs id).
Proof. intros E Hl. unfold renumber, newID. by rewrite E, Hl. Qed.

Lemma newID_inj recs i j r r' :
  recs !! i = Some r → r_live r = true → recs !! j = Some r' → r_live r' = true → newID recs i = newID recs j → i = j.
Proof.
  intros Ei Hi Ej Hj E. destruct (Nat.lt_trichotomy i j) as [L|[L|L]]; [|done|].
  - pose proof (filter_take_lt (λ r, r_live r = true) recs i j r Ei Hi L). unfold newID in E. lia.
  - pose proof (filter_take_lt (λ r, r_live r = true) recs j i r' Ej Hj L). unfold newID in E. lia.
Qed.

Definition renext (recs : list memRec) (r : memRec) : memRec :=
  { r with r_next := match r_next r with O => 0%nat | S next => renumber recs next end }.

Definition renumbered (recs : list memRec) : list memRec := map (renext recs) (filter (λ r, r_live r = true) recs).

Lemma renumbered_at recs id r :
  recs !! id = Some r → r_live r = true → renumbered recs !! newID recs id = Some (renext recs r).
Proof. intros E Hl. unfold renumbered, newID. rewrite list_lookup_fmap. by rewrite (filter_lookup (λ r, r_live r = true) recs id r). Qed.

Lemma renumbered_inv recs j x :
  renumbered recs !! j = Some x → ∃ i r, recs !! i = Some r ∧ r_live r = true ∧ j = newID recs i ∧ x = renext recs r.
Proof.
  unfold renumbered. rewrite list_lookup_fmap. intros (r&E&->)%fmap_Some.
  apply filter_lookup_inv in E as (i&?&?&->). by exists i, r.
Qed.

Lemma linked_renumber cs l :
  linked cs l → (∀ i, i ∈ l → ∃ r, cs !! i = Some r ∧ r_live r = true) → linked (renumbered cs) (map (newID cs) l).
Proof.
  induction l as [|i l IH]; [done|]. intros [H1 H2] Hin. split; [|apply IH; [done|intros j Hj; apply Hin; by right]].
  destruct (Hin i) as (r&Er&Hr); [by left|]. unfold nextAt in *. rewrite (renumbered_at cs i r) by done. rewrite Er in H1.
  change (default zeroRec (Some r)) with r in H1. replace (r_next _) with (match r_next r with O => 0%nat | S next => renumber cs next end) by by destruct r.
  rewrite H1. destruct l as [|j l]; [done|]. cbn. destruct (Hin j) as (r'&Er'&Hr'); [right; by left|]. by rewrite (renumber_live cs j r').
Qed.

(** The chains in new ids, with no slot left over. *)
Lemma chains_ok_renumber C files cs slots count :
  chains_ok C files cs slots count →
  chains_ok ((λ l, map (newID cs) l) <$> C) ((λ head, pred (renumber cs head)) <$> files) (renumbered cs) [] count.
Proof.
  intros Hok. pose proof Hok as [Hfiles Hchain Hmem Hliv Hzero _ Hcount].
  assert (∀ key l i, C !! key = Some l → i ∈ l → ∃ r, cs !! i = Some r ∧ r_live r = true) as Hin.
  { intros key l i E Hi. destruct (Hmem key l i E Hi) as (r&?&?&_). by exists r. }
  assert (∀ key l i j, C !! key = Some l → i ∈ l → j ∈ l → newID cs i = newID cs j → i = j) as Hinj.
  { intros key l i j E Hi Hj. destruct (Hin key l i E Hi) as (?&?&?), (Hin key l j E Hj) as (?&?&?). by eapply newID_inj. }
  split.
  - intros key. rewrite !lookup_fmap, Hfiles. destruct (C !! key) as [[|i l]|] eqn:E; [done| |done]. cbn.
    destruct (Hin key _ i E) as (r&Er&Hr); [by left|]. by rewrite (renumber_live cs i r).
  - intros key l'. rewrite lookup_fmap. intros (l&E&->)%fmap_Some. destruct (Hchain key l E) as (H1&H2&H3&H4).
    assert (∀ i, i ∈ l → sizeAt (renumbered cs) (newID cs i) = sizeAt cs i) as Hsz.
    { intros i Hi. destruct (Hin key l i E Hi) as (r&Er&Hr). unfold sizeAt. rewrite (renumbered_at cs i r), Er by done. by destruct r. }
    split_and!.
    + by destruct l.
    + apply NoDup_fmap_2_strong; [|done]. intros i j Hi Hj. by eapply Hinj.
    + rewrite map_map. erewrite map_ext_in; [exact H3|]. intros i Hi%list_elem_of_In. by apply Hsz.
    + apply linked_renumber; [done|]. intros i Hi. by eapply Hin.
  - intros key l' j. rewrite lookup_fmap. intros (l&E&->)%fmap_Some (i&->&Hi)%list_elem_of_fmap.
    destruct (Hmem key l i E Hi) as (r&Er&Hr&Hk&Hsib). exists (renext cs r). rewrite (renumbered_at cs i r) by done.
    split_and!; [done|by destruct r|by destruct r|]. replace (r_sibling (renext cs r)) with (r_sibling r) by by destruct r. rewrite Hsib.
    apply bool_decide_ext. destruct l as [|a l]; [done|]. cbn. split; intros Hne [= Eq]; apply Hne; [|congruence].
    f_equal. eapply Hinj; [exact E|by left|done|done].
  - intros j x (i&r&Er&Hr&->&->)%renumbered_inv Hx. destruct (Hliv i r Er Hr) as (l&E&Hi). exists (map (newID cs) l).
    replace (r_hash (renext cs r)) with (r_hash r) by by destruct r. rewrite lookup_fmap, E. split; [done|]. apply list_elem_of_fmap. by exists i.
  - intros j x (i&r&Er&Hr&->&->)%renumbered_inv Hx. destruct r; cbn in *; congruence.
  - split; [constructor|]. intros j. split; [by intros ?%elem_of_nil|].
    intros (x&(i&r&Er&Hr&->&->)%renumbered_inv&Hx). destruct r; cbn in *; congruence.
  - rewrite Hcount. f_equal. unfold renumbered. rewrite (live_count_ext (map _ _) (filter (λ r, r_live r = true) cs)).
    + rewrite list_filter_filter. f_equal. apply list_filter_iff. tauto.
    + rewrite map_map. apply map_ext. by intros [].
Qed.

Lemma live_cores recs : filter (λ r, r_live r = true) (map core recs) = map core (filter (λ r, r_live r = true) recs).
Proof.
  induction recs as [|r recs IH]; [done|]. cbn [map]. rewrite !filter_cons, IH. change (r_live (core r)) with (r_live r).
  by case_decide.
Qed.

Lemma newID_cores recs id : newID (map core recs) id = newID recs id.
Proof. unfold newID. by rewrite firstn_map, live_cores, length_map. Qed.

Lemma renumber_cores recs id : renumber (map core recs) id = renumber recs id.
Proof.
  unfold renumber. rewrite list_lookup_fmap. destruct (recs !! id) as [r|]; [|done]. cbn. change (r_live (core r)) with (r_live r).
  destruct (r_live r); [|done]. f_equal. apply newID_cores.
Qed.

Lemma renumbered_cores recs : renumbered (map core recs) = map core (renumbered recs).
Proof.
  unfold renumbered. rewrite live_cores, !map_map. apply map_ext. intros r. unfold renext. destruct r as [? ? ? ? ? next ? ? ? ? ?].
  unfold core; cbn. f_equal. destruct next; [done|]. apply renumber_cores.
Qed.

Section Rebuild.
Context `{Unicode}.

Lemma rebuild_recs m : e_recs (rebuildIndexLocked m) = renumbered (e_recs m).
Proof. by destruct m. Qed.

Lemma rebuild_ok C m :
  store_ok C m → store_ok ((λ l, map (newID (e_recs m)) l) <$> C) (rebuildIndexLocked m).
Proof.
  intros Hok%chains_ok_renumber. unfold store_ok, cores in *. rewrite rebuild_recs, <- renumbered_cores.
  replace (e_files (rebuildIndexLocked m)) with ((λ head, pred (renumber (map core (e_recs m)) head)) <$> e_files m).
  2:{ destruct m; cbn. apply map_fmap_ext. intros. by rewrite renumber_cores. }
  replace ((λ l, map (newID (e_recs m)) l) <$> C) with ((λ l, map (newID (map core (e_recs m))) l) <$> C).
  2:{ apply map_fmap_ext. intros. apply map_ext. intros. apply newID_cores. }
  by destruct m.
Qed.

Definition purged (m : MemoryEngine) : MemoryEngine :=
  if bool_decide (e_dead m = []) then m
  else { m with e_names := purge (λ id, negb (r_live (recAt m id))) (e_names m);
                e_free := e_free m ++ e_dead m;
                e_dead := [] }.

Lemma maintain_purged m :
  maintainIndexLocked m = if needsRebuild (e_names (purged m)) then rebuildIndexLocked (purged m) else purged m.
Proof. done. Qed.

Lemma purged_ok C m : store_ok C m → store_ok C (purged m) ∧ e_dead (purged m) = [] ∧ e_recs (purged m) = e_recs m ∧
  e_files (purged m) = e_files m ∧ sameSessions m (purged m).
Proof.
  intros Hok. unfold purged. case_bool_decide; [done|]. split_and!; try by destruct m.
  eapply chains_ok_perm in Hok; [by destruct m|]. destruct m; cbn. apply Permutation_app_comm.
Qed.
End Rebuild.
