(* ===== verification/MemInv.v ===== *)
(** * What holds of the memory engine between two operations

    Three invariants: of the sources and the sessions that own them ([owned]), of the name
    index ([named]), and of the records ([MemStore.store_ok]). Sessions that have logged out
    but whose sources are still being taken down are part of the state, as [departure]s. *)

From S2P Require Import Prelude Types Text Search SortedIDs FileMeta NameIndex Rank MemEngine MemSources MemStore.
Local Open Scope Z_scope.
#[local] Set Warnings "-clear-no-such-hyp".

(** ** The catalogue as a client sees it *)

(** The stored file of a (hash, size), without the fields computed from its sources. *)
Definition fileAt (m : MemoryEngine) (key : bytes) (size : Z) : option File :=
  (λ id, recFile (recAt m id)) <$> findLocked key size m.

(** The sources of a hash in the order they were offered. *)
Definition sourcesAt (m : MemoryEngine) (key : bytes) : list memSource :=
  match e_files m !! key with Some head => sourcesOf m head | None => [] end.

Definition sessions (m : MemoryEngine) : gmap Z ClientInfo := mc_info <$> e_clients m.

(** ** Invariants *)

Definition address (info : ClientInfo) : Z * Z := (ci_ID info, ci_Port info).

(** Session [k] is on its way out and still has to take its sources off record [id]. *)
Definition leaving (D : list departure) (layout : Z) (k : Z) (id : nat) : Prop :=
  ∃ d, d ∈ D ∧ dp_storeID d = k ∧ dp_left d ≠ [] ∧ (dp_layout d = layout → id ∈ dp_left d).

Record owned (m : MemoryEngine) (D : list departure) : Prop := {
  ow_split : split_ok m;
  ow_head : ∀ id, r_first (recAt m id) ≠ None → ∃ key, e_files m !! key = Some id;
  ow_addr : ∀ id, NoDup (map addr (sourcesOf m id));
  ow_owner : ∀ id s, s ∈ sourcesOf m id →
    match e_clients m !! store s with
    | Some c => id ∈ mc_offered c ∧ addr s = address (mc_info c)
    | None => leaving D (e_layout m) (store s) id
    end;
  ow_offered : ∀ k c, e_clients m !! k = Some c →
    NoDup (mc_offered c) ∧ ∀ id, id ∈ mc_offered c → ∃ s, s ∈ sourcesOf m id ∧ store s = k;
  ow_client : ∀ k c, e_clients m !! k = Some c →
    0 < k <= e_nextClientID m ∧ ci_StoreID (mc_info c) = k ∧ mc_peer c = newMemPeer (mc_info c);
  ow_hash : ∀ hash k, e_clientsByHash m !! hash = Some k →
    hash ≠ [] ∧ ∃ c, e_clients m !! k = Some c ∧ ci_Hash (mc_info c) = hash;
  ow_gone : NoDup (map dp_storeID D) ∧ ∀ d, d ∈ D →
    0 < dp_storeID d <= e_nextClientID m ∧ e_clients m !! dp_storeID d = None ∧ dp_layout d <= e_layout m;
  ow_range : 0 <= e_nextClientID m < 2 ^ 64 ∧ 0 <= e_layout m < 2 ^ 64;
}.

Section Named.
Context `{Unicode}.

(** Every file is listed under the words of its name, and what else is listed waits for the
    next purge: a slot is not reused before. *)
Record named (m : MemoryEngine) : Prop := {
  nm_wf : wf_index (e_names m);
  nm_live : ∀ id, r_live (recAt m id) = true → covers (e_names m) id (r_name (recAt m id));
  nm_only : ∀ w id, lists (e_names m) w id → r_live (recAt m id) = true ∨ id ∈ e_dead m;
}.
End Named.

Definition wf `{Unicode} (m : MemoryEngine) (D : list departure) : Prop :=
  (∃ C, store_ok C m) ∧ owned m D ∧ named m.

Section Views.
Context (C : gmap bytes (list nat)) (m : MemoryEngine) (Hok : store_ok C m).

(** A head is a live record of its hash. *)
Lemma head_holds key id : e_files m !! key = Some id → holds m id key (r_size (recAt m id)) ∧ headLocked m id = id.
Proof.
  intros E. rewrite (ck_files _ _ _ _ _ Hok) in E. destruct (C !! key) as [l|] eqn:El; [|done]. cbn in E.
  assert (id ∈ l) as Hid by by apply head_Some_elem_of. split; [by eapply chain_holds|].
  destruct (ck_mem _ _ _ _ _ Hok key l id El Hid) as (r&Er&_&_&Hs). apply cores_at in Er as [_ ->].
  rewrite bool_decide_eq_false_2 in Hs by auto. change (r_sibling (recAt m id) = false) in Hs. unfold headLocked. by rewrite Hs.
Qed.

Lemma head_unique key key' id : e_files m !! key = Some id → e_files m !! key' = Some id → key = key'.
Proof. intros [(_&_&<-&_) _]%head_holds [(_&_&->&_) _]%head_holds. done. Qed.

(** From any record of a hash, [headLocked] finds the first. *)
Lemma holds_head id key size : holds m id key size → e_files m !! key = Some (headLocked m id).
Proof.
  intros Hh. destruct (holds_chain C m id key size Hok Hh) as (l&El&Hid).
  destruct (ck_mem _ _ _ _ _ Hok key l id El Hid) as (r&Er&_&Hk&Hs). apply cores_at in Er as [_ ->].
  change (r_hash (recAt m id) = key) in Hk. change (r_sibling (recAt m id) = bool_decide (head l ≠ Some id)) in Hs.
  destruct (ck_chain _ _ _ _ _ Hok key l El) as (Hne&_). assert (e_files m !! key = head l) as Ef by by rewrite (ck_files _ _ _ _ _ Hok), El.
  unfold headLocked. rewrite Hs, Hk. case_bool_decide as Eh; [|by rewrite Ef].
  rewrite Ef. by destruct l.
Qed.

Lemma fileAt_Some key size f : fileAt m key size = Some f ↔ ∃ id, holds m id key size ∧ f = recFile (recAt m id).
Proof.
  unfold fileAt. rewrite fmap_Some. split.
  - intros (id&E&->). exists id. by rewrite (findLocked_iff C) in E.
  - intros (id&E&->). exists id. by rewrite (findLocked_iff C).
Qed.

Lemma holds_known id key size : holds m id key size → is_Some (e_files m !! key).
Proof. intros ->%holds_head. done. Qed.
End Views.

Lemma owned_source_store m D id s : owned m D → s ∈ sourcesOf m id → 0 < store s.
Proof.
  intros Ho Hs. pose proof (ow_owner m D Ho id s Hs) as Hw. destruct (e_clients m !! store s) as [c|] eqn:E.
  - destruct (ow_client m D Ho _ c E). lia.
  - destruct Hw as (d&Hd&<-&_). destruct (ow_gone m D Ho) as [_ Hg]. destruct (Hg d Hd). lia.
Qed.

Lemma sourcesOf_nil m id : r_first (recAt m id) = None ↔ sourcesOf m id = [].
Proof. unfold sourcesOf. by destruct (r_first _). Qed.

Lemma sourcesOf_head m D id s : owned m D → s ∈ sourcesOf m id → ∃ key, e_files m !! key = Some id ∧ s ∈ sourcesAt m key.
Proof.
  intros Ho Hs. destruct (ow_head m D Ho id) as [key E].
  { intros E. rewrite (proj1 (sourcesOf_nil m id)) in Hs by done. by apply elem_of_nil in Hs. }
  exists key. unfold sourcesAt. by rewrite E.
Qed.

(** ** Nothing known yet *)

Lemma wf_new `{Unicode} : wf NewMemoryEngine [].
Proof.
  split_and!.
  - exists ∅. apply store_ok_new.
  - split; cbn; try done.
    + intros id. unfold sourcesOf, recAt; cbn. constructor.
    + by intros id s ?%elem_of_nil.
    + split; [constructor|]. by intros d ?%elem_of_nil.
  - split; [apply wf_newNameIndex|done|]. by intros w id (?&?&_).
Qed.
