(* ===== verification/MemOffer.v ===== *)
(** * Offering a file to the memory engine

    [storeFileLocked] and [addFileLocked] on the invariants, and what they do to the
    catalogue: the file is stored as offered and the offer becomes the newest source of its
    hash, in place of what was known at the same address. *)

From S2P Require Import Prelude Types Text Search SortedIDs FileMeta NameIndex Rank MemEngine MemSources MemStore MemInv.
Local Open Scope Z_scope.
#[local] Set Warnings "-clear-no-such-hyp".

(** ** A record reads back as the file written *)

(** What is stored of a file: all but the fields computed from its sources. *)
Definition stored (f : File) : File :=
  { f with f_Hash := take hashLen (f_Hash f); f_Sources := 0; f_Completed := 0; f_SourceID := 0; f_SourcePort := 0 }.

Lemma typeIndex_nth typ types i :
  (i + length types <= memTypeOther)%nat →
  let t := typeIndex typ types i in
  (t = memTypeOther ∧ typ ∉ types) ∨ (i <= t < i + length types)%nat ∧ nth (t - i) types [] = typ.
Proof.
  revert i. induction types as [|x types IH]; intros i L; cbn [typeIndex]; [left; split; [done|apply not_elem_of_nil]|].
  cbn [length] in *. case_bool_decide as E.
  - right. rewrite Nat.sub_diag. split; [lia|done].
  - destruct (IH (S i)) as [[-> Hn]|[Hr Hn]]; [lia|left; split; [done|apply not_elem_of_cons; auto]|right].
    split; [lia|]. replace (typeIndex typ types (S i) - i)%nat with (S (typeIndex typ types (S i) - S i)) by lia. done.
Qed.

Lemma take_hashArray h : take (Nat.min (length h) hashLen) (hashArray h) = take hashLen h.
Proof.
  unfold hashArray. rewrite take_take. replace (Nat.min _ hashLen) with (Nat.min (length h) hashLen) by lia.
  rewrite take_app. replace (Nat.min (length h) hashLen - length h)%nat with 0%nat by lia. rewrite take_0, app_nil_r.
  destruct (Nat.le_ge_cases (length h) hashLen) as [L|L]; [rewrite Nat.min_l, !take_ge by lia|rewrite Nat.min_r by lia]; done.
Qed.

#[local] Arguments typeIndex : simpl never.
#[local] Arguments memTypeOther : simpl never.
#[local] Arguments memFileTypes : simpl never.

Lemma recFile_setRec f rec : recFile (setRecLocked f rec) = stored f.
Proof.
  unfold recFile, setRecLocked, stored. destruct rec; cbn. set (t := typeIndex (f_Type f) memFileTypes 0).
  destruct (typeIndex_nth (f_Type f) memFileTypes 0) as [[Ht Hn]|[Ht Hn]]; [unfold memTypeOther, memFileTypes; cbn; lia|fold t in Ht..].
  - rewrite Ht, Nat.eqb_refl. rewrite bool_decide_eq_false_2.
    + destruct f; cbn. by rewrite take_hashArray.
    + unfold noMedia. intros [= _ _ _ _ E]. apply Hn. rewrite E. by left.
  - fold t in Hn. rewrite Nat.sub_0_r in Hn. rewrite (proj2 (Nat.eqb_neq t memTypeOther)) by (unfold memTypeOther, memFileTypes in *; cbn in Ht; lia).
    rewrite Hn, take_hashArray. destruct f; cbn. case_bool_decide as E; [|done]. unfold noMedia in E. by injection E as [= -> -> -> -> -> -> ->].
Qed.

(** ** Records written *)

Lemma sourcesOf_ext m m' : e_more m' = e_more m →
  (∀ id, r_first (recAt m' id) = r_first (recAt m id) ∧ r_more (recAt m' id) = r_more (recAt m id)) →
  ∀ id, sourcesOf m' id = sourcesOf m id.
Proof. intros Em Hr id. unfold sourcesOf, moreOf. destruct (Hr id) as [-> ->]. by rewrite Em. Qed.

(** The sources stay where they are, and the records that have some stay heads. *)
Lemma owned_records m m' D :
  sameSessions m m' →
  (∀ id, r_first (recAt m' id) = r_first (recAt m id) ∧ r_more (recAt m' id) = r_more (recAt m id)) →
  (∀ key id, r_first (recAt m id) ≠ None → e_files m !! key = Some id → e_files m' !! key = Some id) →
  owned m D → owned m' D.
Proof.
  intros (Em&Ec&Eh&En&El) Hr Hf [Hsp Hh Ha Ho Hof Hc Hb Hg Hra]. pose proof (sourcesOf_ext m m' Em Hr) as Hs. split.
  - destruct Hsp as [H1 H2]. split; intros id; [intros l|]; destruct (Hr id) as [Hf1 Hm1]; rewrite ?Hf1, ?Hm1, Em; auto.
  - intros id. destruct (Hr id) as [-> _]. intros Hid. destruct (Hh id Hid) as [key E]. exists key. auto.
  - intros id. by rewrite Hs.
  - intros id s. rewrite Hs, Ec, El. apply Ho.
  - intros k c. rewrite Ec. intros E. destruct (Hof k c E) as [? H2]. split; [done|]. intros id Hid. rewrite Hs. auto.
  - intros k c. rewrite Ec, En. apply Hc.
  - intros hash k. rewrite Eh, Ec. apply Hb.
  - rewrite En, Ec, El. done.
  - by rewrite En, El.
Qed.

Section Offer.
Context `{Unicode} `{Charmap} `{SortSlice}.

(** The index after a file got a name. *)
Lemma named_write m m' id name (Q : Prop) :
  named m → e_dead m' = e_dead m → r_live (recAt m' id) = true → r_name (recAt m' id) = name →
  (∀ i, i ≠ id → r_live (recAt m' i) = r_live (recAt m i) ∧ r_name (recAt m' i) = r_name (recAt m i)) →
  wf_index (e_names m') → (∀ w i, lists (e_names m') w i ↔ lists (e_names m) w i ∨ (Q ∧ w ∈ nameWords name ∧ i = id)) →
  (Q ∨ covers (e_names m) id name) → named m'.
Proof.
  intros [Hwf Hl Ho] Ed Hid Hn Hrest Hwf' Hin HQ. split; [done| |].
  - intros i Hi w Hw. apply Hin. destruct (decide (i = id)) as [->|Hne].
    + rewrite Hn in Hw. destruct HQ as [HQ|Hc]; [right; done|left; by apply Hc].
    + destruct (Hrest i Hne) as [E1 E2]. left. apply Hl; [congruence|]. by rewrite <- E2.
  - intros w i. rewrite Hin, Ed. intros [Hi|(_&_&->)]; [|by left]. destruct (decide (i = id)) as [->|Hne]; [by left|].
    destruct (Hrest i Hne) as [-> _]. by eapply Ho.
Qed.

(** What [storeFileLocked] promises. *)
Record stores (file : File) (m m' : MemoryEngine) (head : nat) : Prop := {
  st_same : sameSessions m m';
  st_head : e_files m' !! hashArray (f_Hash file) = Some head;
  st_sources : ∀ id, sourcesOf m' id = sourcesOf m id;
  st_catalogue : ∀ key, sourcesAt m' key = sourcesAt m key;
  st_file : fileAt m' (hashArray (f_Hash file)) (f_Size file) = Some (stored file);
  st_other : ∀ key size, (key, size) ≠ (hashArray (f_Hash file), f_Size file) → fileAt m' key size = fileAt m key size;
}.

Lemma option_eq_iff {A} (a b : option A) : (∀ x, a = Some x ↔ b = Some x) → a = b.
Proof. intros E. destruct a as [x|]; [symmetry; by apply E|]. destruct b as [y|]; [by apply E|done]. Qed.

Lemma holds_live m id key size :
  holds m id key size ↔ r_live (recAt m id) = true ∧ r_hash (recAt m id) = key ∧ r_size (recAt m id) = size.
Proof.
  unfold holds. split; [by intros (_&?)|]. intros (Hl&?). split; [|done]. unfold recAt in Hl.
  destruct (e_recs m !! id) eqn:E; [by eapply lookup_lt_Some|done].
Qed.

(** The catalogue after one record was written. *)
Lemma stores_write C C' file m m' head id :
  store_ok C m → store_ok C' m' → sameSessions m m' → e_files m' !! hashArray (f_Hash file) = Some head →
  (∀ key h, e_files m !! key = Some h → e_files m' !! key = Some h) →
  (∀ i, r_first (recAt m' i) = r_first (recAt m i) ∧ r_more (recAt m' i) = r_more (recAt m i)) →
  (∀ i, r_first (recAt m i) ≠ None → ∃ key, e_files m !! key = Some i) →
  holds m' id (hashArray (f_Hash file)) (f_Size file) → recFile (recAt m' id) = stored file →
  (r_live (recAt m id) = true → holds m id (hashArray (f_Hash file)) (f_Size file)) →
  (∀ i, i ≠ id → r_live (recAt m' i) = r_live (recAt m i) ∧ r_hash (recAt m' i) = r_hash (recAt m i) ∧
    r_size (recAt m' i) = r_size (recAt m i) ∧ recFile (recAt m' i) = recFile (recAt m i)) →
  stores file m m' head.
Proof.
  intros Hok Hok' Hses Hhead Hkeep Hr Hheads Hid Hfile Hold Hrest.
  pose proof (sourcesOf_ext m m' (proj1 Hses) Hr) as Hs. split; [done|done|done| | |].
  - intros key. unfold sourcesAt. destruct (e_files m !! key) as [h|] eqn:E; [by rewrite (Hkeep key h E), Hs|].
    destruct (e_files m' !! key) as [h|] eqn:E'; [|done]. rewrite Hs. apply sourcesOf_nil.
    destruct (r_first (recAt m h)) as [s|] eqn:Ef; [|done]. exfalso. destruct (Hheads h) as [key' E2]; [congruence|].
    pose proof (head_unique C' m' Hok' key key' h E' (Hkeep key' h E2)). congruence.
  - apply (fileAt_Some C' m' Hok'). by exists id.
  - intros key size Hne. apply option_eq_iff. intros f. rewrite (fileAt_Some C' m' Hok'), (fileAt_Some C m Hok).
    split; intros (i&Hi&->); exists i; destruct (decide (i = id)) as [->|Hi'].
    + exfalso. destruct Hi as (_&_&E1&E2), Hid as (_&_&E3&E4). congruence.
    + destruct (Hrest i Hi') as (E1&E2&E3&E4). rewrite E4. split; [|done]. apply holds_live in Hi as (?&?&?). apply holds_live. by rewrite <- E1, <- E2, <- E3.
    + exfalso. pose proof (Hold (proj1 (proj2 Hi))) as (_&_&E3&E4). destruct Hi as (_&_&E1&E2). congruence.
    + destruct (Hrest i Hi') as (E1&E2&E3&E4). rewrite E4. split; [|done]. apply holds_live in Hi as (?&?&?). apply holds_live. by rewrite E1, E2, E3.
Qed.

Lemma storeFile_known_wf C m D file id :
  store_ok C m → owned m D → named m → findLocked (hashArray (f_Hash file)) (f_Size file) m = Some id →
  let '(m', head) := storeFileLocked file m in wf m' D ∧ stores file m m' head.
Proof.
  intros Hok Ho Hn E. pose proof (storeFile_known C m file id Hok E) as Hst. destruct (storeFileLocked file m) as [m' head].
  destruct Hst as (Hok'&Hses&Ef&Ed&Eh&En&Hrec). apply (findLocked_iff C) in E as (L&Hlive&Hk&Hs); [|done].
  assert (∀ i, r_first (recAt m' i) = r_first (recAt m i) ∧ r_more (recAt m' i) = r_more (recAt m i)) as Hsrc.
  { intros i. rewrite Hrec. case_decide; [subst i|done]. by destruct (recAt m id). }
  assert (∀ i, i ≠ id → recAt m' i = recAt m i) as Hrest by (intros i Hi; by rewrite Hrec, decide_False).
  assert (recAt m' id = setRecLocked file (recAt m id)) as Hid by by rewrite Hrec, decide_True.
  split; [split_and!|].
  - by exists C.
  - eapply owned_records; [done|done|by rewrite Ef|done].
  - pose proof (applyIndexOp_spec (e_names m) (RenameFile id (r_name (recAt m id)) (f_Name file)) (nm_wf m Hn)) as (Hwf&_&Hin).
    cbn [applyIndexOp promised] in *. rewrite <- En in *.
    eapply (named_write m m' id (f_Name file)); [done|done|rewrite Hid; by destruct (recAt m id)..| |done|exact Hin|].
    + intros i Hi. by rewrite Hrest.
    + destruct (decide (r_name (recAt m id) = f_Name file)) as [E|?]; [|by left]. right. rewrite <- E. by apply (nm_live m Hn).
  - eapply (stores_write C C file m m' head id); try done.
    + by rewrite Ef.
    + by rewrite Ef.
    + intros i. apply (ow_head m D Ho).
    + apply holds_live. rewrite Hid. by destruct (recAt m id).
    + rewrite Hid. apply recFile_setRec.
    + intros i Hi. by rewrite Hrest.
Qed.

Lemma storeFile_new_wf C m D file :
  store_ok C m → owned m D → named m → findLocked (hashArray (f_Hash file)) (f_Size file) m = None →
  let '(m', head) := storeFileLocked file m in wf m' D ∧ stores file m m' head.
Proof.
  intros Hok Ho Hn E. pose proof (storeFile_new C m file _ _ Hok eq_refl eq_refl E) as Hst.
  remember (default [] (C !! hashArray (f_Hash file))) as l eqn:El. destruct (storeFileLocked file m) as [m' head].
  destruct Hst as (id&Hok'&Hses&Ed&Eh&En&Hzero&Hdead&Hrec).
  assert (∀ i, r_first (recAt m' i) = r_first (recAt m i) ∧ r_more (recAt m' i) = r_more (recAt m i)) as Hsrc.
  { intros i. rewrite Hrec. case_decide; [subst i; by destruct (recAt m id)|by destruct (recAt m i)]. }
  assert (∀ i, i ≠ id → r_live (recAt m' i) = r_live (recAt m i) ∧ r_name (recAt m' i) = r_name (recAt m i) ∧
    r_hash (recAt m' i) = r_hash (recAt m i) ∧
    r_size (recAt m' i) = r_size (recAt m i) ∧ recFile (recAt m' i) = recFile (recAt m i)) as Hrest.
  { intros i Hi. rewrite Hrec, decide_False by done. by destruct (recAt m i). }
  assert (∀ key h, e_files m !! key = Some h → e_files m' !! key = Some h) as Hkeep.
  { intros key h. rewrite (ck_files _ _ _ _ _ Hok), (ck_files _ _ _ _ _ Hok'). destruct (decide (key = hashArray (f_Hash file))) as [->|Hne].
    - rewrite lookup_insert_eq. destruct (C !! _) as [[|a lk]|]; subst l; done.
    - by rewrite lookup_insert_ne. }
  assert (r_live (recAt m id) = false) as Hfree by by destruct (recAt m id); injection Hzero.
  assert (holds m' id (hashArray (f_Hash file)) (f_Size file) ∧ r_name (recAt m' id) = f_Name file ∧ recFile (recAt m' id) = stored file) as (Hh&Hnm&Hfl).
  { rewrite holds_live, Hrec, decide_True by done. rewrite <- (recFile_setRec file (recAt m id)). by destruct (recAt m id). }
  split; [split_and!|].
  - by eexists.
  - eapply owned_records; [done|done|by auto|done].
  - pose proof (applyIndexOp_spec (e_names m) (IndexName id (f_Name file)) (nm_wf m Hn)) as (Hwf&_&Hin).
    cbn [applyIndexOp promised] in *. rewrite <- En in *. apply holds_live in Hh as (?&_).
    apply (named_write m m' id (f_Name file) True); try done; [| |by left].
    + intros i Hi. by destruct (Hrest i Hi) as (?&?&_).
    + intros w i. rewrite Hin. tauto.
  - eapply (stores_write C _ file m m' head id); try done.
    + intros i. apply (ow_head m D Ho).
    + congruence.
    + intros i Hi. by destruct (Hrest i Hi) as (?&_&?).
Qed.

Lemma storeFile_wf m D file :
  wf m D → let '(m', head) := storeFileLocked file m in wf m' D ∧ stores file m m' head.
Proof.
  intros ([C Hok]&Ho&Hn). destruct (findLocked (hashArray (f_Hash file)) (f_Size file) m) as [id|] eqn:E.
  - by eapply storeFile_known_wf.
  - by eapply storeFile_new_wf.
Qed.

(** ** The source of an offer *)

(** With one source to an address, and the session's own source at its address, what is taken
    over is what was at the address. *)
Lemma takeOver_addr src l :
  (∀ s, s ∈ l → sameSource src s = true ↔ addr s = addr src) → NoDup (map addr l) →
  match takeOver src l with
  | Some (s, rest) => s ∈ l ∧ addr s = addr src ∧ rest = filter (λ s, addr s ≠ addr src) l
  | None => filter (λ s, addr s ≠ addr src) l = l ∧ ∀ s, s ∈ l → addr s ≠ addr src
  end.
Proof.
  induction l as [|s l IH]; intros Hs Hnd; cbn [takeOver]; [split; [done|]; by intros ? ?%elem_of_nil|].
  apply NoDup_cons in Hnd as [Hin Hnd]. pose proof (Hs s ltac:(by left)) as Hhd. rewrite filter_cons.
  destruct (sameSource src s).
  - assert (addr s = addr src) as E by by apply Hhd. split_and!; [by left|done|]. rewrite decide_False by auto.
    symmetry. apply filter_all. intros t Ht E'. apply Hin, list_elem_of_fmap. exists t. split; [congruence|done].
  - assert (addr s ≠ addr src) as Hne by (intros E; by apply Hhd in E). rewrite decide_True by done.
    specialize (IH ltac:(intros t Ht; apply Hs; by right) Hnd). destruct (takeOver src l) as [[t rest]|].
    + destruct IH as (?&?&->). split_and!; [by right|done|done].
    + destruct IH as [-> IH]. split; [done|]. intros t [->|Ht]%elem_of_cons; auto.
Qed.

Lemma elem_of_deleteFirst head l id : NoDup l → id ∈ deleteFirst head l ↔ id ∈ l ∧ id ≠ head.
Proof.
  induction l as [|x l IH]; intros Hnd; cbn; [split; [by intros ?%elem_of_nil|by intros [?%elem_of_nil _]]|].
  apply NoDup_cons in Hnd as [Hx Hnd]. destruct (Nat.eqb_spec x head) as [->|Hne]; rewrite ?elem_of_cons, ?IH by done.
  - split; [|naive_solver]. intros Hid. split; [by right|]. by intros ->.
  - naive_solver.
Qed.

Lemma NoDup_deleteFirst head l : NoDup l → NoDup (deleteFirst head l).
Proof.
  induction l as [|x l IH]; intros Hnd; cbn; [done|]. apply NoDup_cons in Hnd as [Hx Hnd]. case_match; [done|].
  constructor; [|by apply IH]. intros [? _]%elem_of_deleteFirst; done.
Qed.

(** The session whose source at the address is displaced. *)
Definition takenBy (src : memSource) (l : list memSource) (j : Z) : bool :=
  existsb (λ s, bool_decide (addr s = addr src) && (store s =? j)) l.

Lemma takenBy_iff src l j : takenBy src l j = true ↔ ∃ s, s ∈ l ∧ addr s = addr src ∧ store s = j.
Proof.
  unfold takenBy. rewrite existsb_exists. setoid_rewrite andb_true_iff. setoid_rewrite bool_decide_eq_true.
  setoid_rewrite Z.eqb_eq. by setoid_rewrite <- list_elem_of_In.
Qed.

Definition dropOffer (head : nat) (c : memClient) : memClient := { c with mc_offered := deleteFirst head (mc_offered c) }.

Lemma forgetOffer_lookup owner taker head m j :
  0 < owner → e_clients (forgetOfferLocked owner taker head m) !! j =
    if decide (j = owner ∧ owner ≠ taker) then dropOffer head <$> e_clients m !! j else e_clients m !! j.
Proof.
  intros L. unfold forgetOfferLocked. destruct (Z.eqb_spec owner 0) as [|_]; [lia|]. cbn [orb].
  destruct (Z.eqb_spec owner taker) as [->|Hne]; [rewrite decide_False by tauto; done|].
  destruct (e_clients m !! owner) as [c|] eqn:E.
  - replace (e_clients _) with (<[owner := dropOffer head c]> (e_clients m)) by by destruct m.
    case_decide as Hj; [destruct Hj as [-> _]; by rewrite lookup_insert_eq, E|].
    rewrite lookup_insert_ne; [done|]. intros ->. by apply Hj.
  - case_decide as Hj; [|done]. destruct Hj as [-> _]. by rewrite E.
Qed.

Lemma NoDup_map_inj {A B} (f : A → B) l x y : NoDup (map f l) → x ∈ l → y ∈ l → f x = f y → x = y.
Proof.
  induction l as [|a l IH]; intros Hnd Hx Hy E; [by apply elem_of_nil in Hx|]. apply NoDup_cons in Hnd as [Ha Hnd].
  apply elem_of_cons in Hx as [->|Hx], Hy as [->|Hy]; [done| | |by apply IH].
  - exfalso. apply Ha, list_elem_of_fmap. by exists y.
  - exfalso. apply Ha, list_elem_of_fmap. by exists x.
Qed.

(** The source an offer of session [c] makes. *)
Definition offerSource (file : File) (info : ClientInfo) (c : memClient) : memSource :=
  mkMemSource
    (if bool_decide (pe_hash (mc_peer c) = ci_Hash info) && bool_decide (pe_ipv6 (mc_peer c) = ci_IPv6 info)
     then mc_peer c else newMemPeer { info with ci_StoreID := ci_StoreID info })
    (f_Size (NormalizeFile file)) (ci_ID info) (ci_Port info) (ci_CryptOptions info)
    (0 <? f_Completed (NormalizeFile file)) (ci_IPv6Reachable info).

Lemma offerSource_store m D file info c :
  owned m D → e_clients m !! ci_StoreID info = Some c → store (offerSource file info c) = ci_StoreID info.
Proof.
  intros Ho E. destruct (ow_client m D Ho _ c E) as (_&Hid&Hp). unfold offerSource, store; cbn. rewrite Hp.
  destruct (_ && _); cbn; [done|]. by destruct info.
Qed.

Lemma writeLists_clients head l cs m : writeLists head l (withClients cs m) = withClients cs (writeLists head l m).
Proof. by destruct m. Qed.

(** The sessions after an offer: the source's own, and the one whose source it displaced. *)
Definition offeredTo (head : nat) (src : memSource) (l : list memSource) (cs : gmap Z memClient) (j : Z) : option memClient :=
  if decide (j = store src) then
    (λ c, { c with mc_offered := if existsb (ownSource src) l then mc_offered c else mc_offered c ++ [head] }) <$> cs !! j
  else if takenBy src l j then dropOffer head <$> cs !! j else cs !! j.

(** What the sources of a record look like to an offer of a connected session. *)
Lemma sameSource_addr m D id src c :
  owned m D → e_clients m !! store src = Some c → addr src = address (mc_info c) →
  ∀ s, s ∈ sourcesOf m id → sameSource src s = true ↔ addr s = addr src.
Proof.
  intros Ho E Ha s Hs. unfold sameSource. rewrite orb_true_iff, !andb_true_iff, negb_true_iff, !Z.eqb_eq, Z.eqb_neq.
  destruct (ow_client m D Ho _ c E) as (?&_&_). pose proof (ow_owner m D Ho id s Hs) as Hw. fold (store src) (store s).
  unfold addr in *. split.
  - intros [[_ Es]|[-> ->]]; [|done]. rewrite Es, E in Hw. destruct Hw as [_ ->]. done.
  - intros [= -> ->]. right. done.
Qed.

(** A source is put on a record, and the offered lists follow. *)
Lemma putSource_shape m D head src c :
  owned m D → e_clients m !! store src = Some c → addr src = address (mc_info c) →
  let l := sourcesOf m head in
  ∃ cs, putSourceLocked head src m =
    (withClients cs (writeLists head (filter (λ s, addr s ≠ addr src) l ++ [src]) m), existsb (ownSource src) l) ∧
  ∀ j, cs !! j = if decide (j ≠ store src) then (if takenBy src l j then dropOffer head <$> e_clients m !! j else e_clients m !! j)
                 else e_clients m !! j.
Proof.
  intros Ho E Ha l. pose proof (takeOver_addr src l (sameSource_addr m D head src c Ho E Ha) (ow_addr m D Ho head)) as Ht.
  rewrite (putSource_write m head src (ow_split m D Ho)). fold l. destruct (takeOver src l) as [[s rest]|].
  - destruct Ht as (Hs&Hsa&->). exists (e_clients (forgetOfferLocked (store s) (store src) head m)). split.
    + by rewrite forgetOffer_clients, writeLists_clients.
    + intros j. rewrite forgetOffer_lookup by (by eapply owned_source_store).
      assert (takenBy src l j = true ↔ j = store s) as Hj.
      { rewrite takenBy_iff. split; [|intros ->; by exists s]. intros (t&Htl&Hta&<-).
        f_equal. eapply (NoDup_map_inj addr l); [apply (ow_addr m D Ho)|done|done|congruence]. }
      destruct (takenBy src l j); [assert (j = store s) as -> by by apply Hj|assert (j ≠ store s) by naive_solver];
        repeat case_decide; naive_solver.
  - destruct Ht as [-> Hne]. exists (e_clients m). split; [by destruct m|]. intros j.
    assert (takenBy src l j = false) as ->; [|by case_decide].
    apply not_true_iff_false. rewrite takenBy_iff. intros (t&Htl&Hta&_). by eapply Hne.
Qed.

Lemma addFile_shape m D file info c :
  wf m D → ci_StoreID info ≠ 0 → e_clients m !! ci_StoreID info = Some c → address info = address (mc_info c) →
  let src := offerSource file info c in
  ∃ m1 head cs, storeFileLocked (NormalizeFile file) m = (m1, head) ∧ wf m1 D ∧ stores (NormalizeFile file) m m1 head ∧
    let l := sourcesOf m1 head in
    addFileLocked file info m = withClients cs (writeLists head (filter (λ s, addr s ≠ addr src) l ++ [src]) m1) ∧
    ∀ j, cs !! j = offeredTo head src l (e_clients m) j.
Proof.
  intros Hwf Hk Ec Ha src. pose proof (storeFile_wf m D (NormalizeFile file) Hwf) as Hst.
  destruct Hwf as (_&Ho&_). pose proof (offerSource_store m D file info c Ho Ec) as Hsk. fold src in Hsk.
  unfold addFileLocked, resolved. rewrite (proj2 (Z.eqb_neq _ _) Hk), Ec. rewrite bool_decide_eq_false_2 by done. cbn [andb].
  destruct (storeFileLocked (NormalizeFile file) m) as [m1 head]. destruct Hst as (Hwf1&Hst). fold src.
  change (mkMemSource _ _ _ _ _ _ _) with src.
  destruct Hwf1 as (Hok1&Ho1&Hn1). pose proof (st_same _ _ _ _ Hst) as (_&Ecs&_).
  destruct (putSource_shape m1 D head src c) as (cs&Ep&Hcs); [done|by rewrite Ecs, Hsk|done|]. rewrite Ep.
  rewrite Ecs in Hcs. set (l := sourcesOf m1 head) in *. set (w := writeLists head _ m1).
  assert (cs !! store src = Some c) as Ek by (rewrite Hcs, decide_False by auto; by rewrite Hsk).
  assert (∀ j, j ≠ store src → cs !! j = offeredTo head src l (e_clients m) j) as Hj.
  { intros j Hj. rewrite Hcs. unfold offeredTo. by rewrite decide_True, decide_False. }
  rewrite <- Hsk in *. destruct (existsb (ownSource src) l) eqn:Eown.
  - exists m1, head, cs. split_and!; try done. intros j. destruct (decide (j = store src)) as [->|Hne]; [|by apply Hj].
    unfold offeredTo. fold l. rewrite decide_True, Ek, Ec, Eown by done. by destruct c.
  - replace (e_clients (withClients cs w)) with cs by by destruct w. rewrite Ek.
    exists m1, head, (<[store src := { c with mc_offered := mc_offered c ++ [head] }]> cs). split_and!; try done.
    intros j. destruct (decide (j = store src)) as [->|Hne]; [|rewrite lookup_insert_ne by done; by apply Hj].
    unfold offeredTo. fold l. by rewrite decide_True, lookup_insert_eq, Ec, Eown.
Qed.

(** ** The invariant after an offer *)

Lemma NoDup_map_filter {A B} (f : A → B) (P : A → Prop) `{∀ x, Decision (P x)} l : NoDup (map f l) → NoDup (map f (filter P l)).
Proof.
  induction l as [|a l IH]; [done|]. intros [Ha Hnd]%NoDup_cons. rewrite filter_cons. case_decide; [|by apply IH].
  constructor; [|by apply IH]. intros (x&E&[_ Hx]%list_elem_of_filter)%list_elem_of_fmap. apply Ha, list_elem_of_fmap. by exists x.
Qed.

Section Put.
Context (m : MemoryEngine) (D : list departure) (head : nat) (src : memSource) (c : memClient) (cs : gmap Z memClient).
Context (Ho : owned m D) (Hhead : ∃ key, e_files m !! key = Some head) (Hlen : (head < length (e_recs m))%nat)
  (Hc : e_clients m !! store src = Some c) (Ha : addr src = address (mc_info c))
  (Hcs : ∀ j, cs !! j = offeredTo head src (sourcesOf m head) (e_clients m) j).
Let l := sourcesOf m head.
Let m' := withClients cs (writeLists head (filter (λ s, addr s ≠ addr src) l ++ [src]) m).

Lemma put_own : existsb (ownSource src) l = true ↔ head ∈ mc_offered c.
Proof.
  destruct (ow_client m D Ho _ c Hc) as (Hpos&_). rewrite existsb_exists. split.
  - intros (s&Hs%list_elem_of_In&Hown). unfold ownSource in Hown. rewrite andb_true_iff, Z.eqb_eq in Hown. destruct Hown as [_ Es].
    pose proof (ow_owner m D Ho head s Hs) as Hw. change (store s = store src) in Es. rewrite Es, Hc in Hw. apply Hw.
  - intros Hin. destruct (ow_offered m D Ho _ c Hc) as [_ Hof]. destruct (Hof head Hin) as (s&Hs&Es).
    exists s. split; [by apply list_elem_of_In|]. unfold ownSource. fold (store s) (store src). rewrite Es, Z.eqb_refl.
    destruct (Z.eqb_spec (store src) 0); [lia|done].
Qed.

(** The offered list of each session, and nothing else of it, follows. *)
Lemma put_client j : match e_clients m !! j with
  | None => cs !! j = None
  | Some c0 => ∃ c', cs !! j = Some c' ∧ mc_info c' = mc_info c0 ∧ mc_peer c' = mc_peer c0 ∧ NoDup (mc_offered c') ∧
      ∀ id, id ∈ mc_offered c' ↔ if decide (id = head) then j = store src ∨ (id ∈ mc_offered c0 ∧ takenBy src l j = false) else id ∈ mc_offered c0
  end.
Proof.
  rewrite Hcs. unfold offeredTo. fold l. destruct (e_clients m !! j) as [c0|] eqn:E.
  2:{ case_decide; [subst j; congruence|]. by destruct (takenBy src l j). }
  destruct (ow_offered m D Ho j c0 E) as [Hnd _]. destruct (decide (j = store src)) as [->|Hj].
  - assert (c0 = c) as -> by congruence. eexists. split; [done|]. pose proof put_own as Hown. destruct c as [ci cp co]; cbn in *.
    destruct (existsb (ownSource src) l); split_and!; try done.
    + intros id. case_decide; [subst id|done]. split; [by left|]. intros _. by apply Hown.
    + apply NoDup_app. split_and!; [done| |apply NoDup_singleton]. intros id Hid ->%list_elem_of_singleton. by apply Hown in Hid.
    + intros id. rewrite elem_of_app, list_elem_of_singleton. case_decide; [subst id; tauto|tauto].
  - destruct (takenBy src l j) eqn:Et.
    + eexists. split; [done|]. destruct c0 as [ci cp co]; cbn in *. split_and!; [done|done|by apply NoDup_deleteFirst|].
      intros id. rewrite elem_of_deleteFirst by done. case_decide; [subst id; naive_solver|tauto].
    + exists c0. split_and!; try done. intros id. case_decide; [subst id; naive_solver|done].
Qed.

Lemma put_sources id : sourcesOf m' id = if decide (id = head) then filter (λ s, addr s ≠ addr src) l ++ [src] else sourcesOf m id.
Proof. unfold m'. rewrite <- (sourcesOf_writeLists m head _ id Hlen). by destruct (writeLists head _ m). Qed.

(** A displaced source belongs to a session for which [takenBy] holds, and its other sources
    are elsewhere. *)
Lemma put_kept s c0 :
  s ∈ l → e_clients m !! store s = Some c0 → addr s ≠ addr src → takenBy src l (store s) = false.
Proof.
  intros Hs E Hne. apply not_true_iff_false. rewrite takenBy_iff. intros (t&Ht&Hta&Et). apply Hne.
  pose proof (ow_owner m D Ho head s Hs) as Hw. pose proof (ow_owner m D Ho head t Ht) as Hw'. rewrite Et, E in Hw'. rewrite E in Hw.
  destruct Hw as [_ ->], Hw' as [_ Hw']. congruence.
Qed.

Lemma put_owner id s : s ∈ sourcesOf m' id →
  match cs !! store s with
  | Some c => id ∈ mc_offered c ∧ addr s = address (mc_info c)
  | None => leaving D (e_layout m) (store s) id
  end.
Proof.
  rewrite put_sources. pose proof (put_client (store s)) as Hp. destruct (decide (id = head)) as [->|Hid].
  - rewrite elem_of_app, list_elem_of_filter, list_elem_of_singleton. intros [[Hne Hs]| ->].
    + pose proof (ow_owner m D Ho head s Hs) as Hw. destruct (e_clients m !! store s) as [c0|] eqn:E; [|by rewrite Hp].
      destruct Hp as (c'&->&->&_&_&Hin). destruct Hw as [Hw1 Hw2]. split; [|done]. apply Hin. rewrite decide_True by done. right.
      split; [done|by eapply put_kept].
    + rewrite Hc in Hp. destruct Hp as (c'&->&->&_&_&Hin). split; [|done]. apply Hin. rewrite decide_True by done. by left.
  - intros Hs. pose proof (ow_owner m D Ho id s Hs) as Hw. destruct (e_clients m !! store s) as [c0|] eqn:E; [|by rewrite Hp].
    destruct Hp as (c'&->&->&_&_&Hin). rewrite Hin, decide_False by done. done.
Qed.

Lemma put_offered k c' : cs !! k = Some c' → NoDup (mc_offered c') ∧ ∀ id, id ∈ mc_offered c' → ∃ s, s ∈ sourcesOf m' id ∧ store s = k.
Proof.
  intros E. pose proof (put_client k) as Hp. destruct (e_clients m !! k) as [c0|] eqn:E0; [|congruence].
  destruct Hp as (c''&E'&_&_&Hnd&Hin). assert (c'' = c') as -> by congruence. split; [done|]. intros id Hid%Hin.
  destruct (ow_offered m D Ho k c0 E0) as [_ Hof]. rewrite put_sources. case_decide; [subst id|by apply Hof].
  destruct Hid as [->|[Hid Ht]]; [exists src; split; [apply elem_of_app; right; by left|done]|].
  destruct (Hof head Hid) as (s&Hs&<-). exists s. split; [|done]. apply elem_of_app. left. apply list_elem_of_filter. split; [|done].
  intros E1. assert (takenBy src l (store s) = true); [|congruence]. apply takenBy_iff. by exists s.
Qed.

Lemma owned_put : owned m' D.
Proof.
  pose proof Ho as [Hsp Hh Had _ _ Hcl Hb [Hg1 Hg2] Hr].
  assert (sameStore m (writeLists head (filter (λ s, addr s ≠ addr src) l ++ [src]) m)) as (_&Hf&_&_&_&_&Hlay&Hnext&Hby) by apply sameStore_writeLists.
  assert (∀ j, cs !! j = None ↔ e_clients m !! j = None) as Hnone.
  { intros j. pose proof (put_client j) as Hp. destruct (e_clients m !! j) as [c0|]; [destruct Hp as (?&->&_)|rewrite Hp]; done. }
  split.
  - apply split_ok_clients. by apply split_ok_writeLists.
  - intros id Hid. change (e_files m') with (e_files (writeLists head (filter (λ s, addr s ≠ addr src) l ++ [src]) m)). rewrite Hf.
    change (recAt m' id) with (recAt (writeLists head (filter (λ s, addr s ≠ addr src) l ++ [src]) m) id) in Hid.
    rewrite recAt_writeLists in Hid by done. destruct (decide (id = head)) as [->|Hne]; [done|by apply Hh].
  - intros id. rewrite put_sources. case_decide; [|done]. rewrite map_app. apply NoDup_app. split_and!; [|intros a|apply NoDup_singleton].
    + apply NoDup_map_filter, Had.
    + intros (s&->&[Hs _]%list_elem_of_filter)%list_elem_of_fmap ?%list_elem_of_singleton. done.
  - exact put_owner.
  - exact put_offered.
  - intros k c' E. change (e_clients m' !! k) with (cs !! k) in E. pose proof (put_client k) as Hp.
    destruct (e_clients m !! k) as [c0|] eqn:E0; [|congruence]. destruct Hp as (c''&E'&Hi&Hpe&_).
    assert (c'' = c') as -> by congruence. rewrite Hi, Hpe. by apply Hcl.
  - intros hash k E. change (e_clientsByHash m') with (e_clientsByHash (writeLists head (filter (λ s, addr s ≠ addr src) l ++ [src]) m)) in E.
    rewrite Hby in E. destruct (Hb hash k E) as (?&c0&E0&?). split; [done|]. change (e_clients m' !! k) with (cs !! k).
    pose proof (put_client k) as Hp. rewrite E0 in Hp. destruct Hp as (c'&->&Hi&_). exists c'. by rewrite Hi.
  - split; [done|]. intros d Hd. destruct (Hg2 d Hd) as (?&?&?). change (e_clients m' !! dp_storeID d) with (cs !! dp_storeID d).
    rewrite Hnone. done.
  - done.
Qed.
End Put.
End Offer.

(** ** Operations on sources leave the files alone *)

Section Same.
Context (m m' : MemoryEngine) (Hs : sameStore m m').

Lemma same_core id : core (recAt m' id) = core (recAt m id).
Proof. destruct Hs as [E _]. rewrite <- !coreAt. unfold cores. by rewrite E. Qed.

Lemma same_holds id key size : holds m' id key size ↔ holds m id key size.
Proof.
  rewrite !holds_live. change (r_live (recAt ?x id)) with (r_live (core (recAt x id))).
  change (r_hash (recAt ?x id)) with (r_hash (core (recAt x id))). change (r_size (recAt ?x id)) with (r_size (core (recAt x id))).
  by rewrite same_core.
Qed.

Lemma same_fileAt C key size : store_ok C m → fileAt m' key size = fileAt m key size.
Proof.
  intros Hok. apply option_eq_iff. intros f. rewrite (fileAt_Some C m Hok), (fileAt_Some C m' (store_ok_same C m m' Hs Hok)).
  setoid_rewrite same_holds. change (recFile (recAt ?x ?id)) with (recFile (core (recAt x id))). by setoid_rewrite same_core.
Qed.

Lemma same_named `{Unicode} : named m → named m'.
Proof.
  pose proof Hs as (_&_&_&Ed&_&En&_). intros [Hwf Hl Ho]. split; rewrite ?En, ?Ed; [done| |].
  - intros id. pose proof (same_core id) as E. change (r_live (recAt m' id)) with (r_live (core (recAt m' id))).
    change (r_name (recAt m' id)) with (r_name (core (recAt m' id))). rewrite E. apply Hl.
  - intros w id Hw. change (r_live (recAt m' id)) with (r_live (core (recAt m' id))). rewrite same_core. by eapply Ho.
Qed.
End Same.

Lemma sameStore_clients cs m : sameStore m (withClients cs m).
Proof. by destruct m. Qed.

(** ** An offer on the catalogue *)

Section Offered.
Context `{Unicode} `{Charmap} `{SortSlice}.

(** The source a session becomes by an offer. *)
Definition offer (file : File) (info : ClientInfo) : memSource :=
  mkMemSource (newMemPeer info) (f_Size (NormalizeFile file)) (ci_ID info) (ci_Port info) (ci_CryptOptions info)
    (0 <? f_Completed (NormalizeFile file)) (ci_IPv6Reachable info).

Lemma offerSource_value m D file info c :
  owned m D → e_clients m !! ci_StoreID info = Some c → offerSource file info c = offer file info.
Proof.
  intros Ho E. destruct (ow_client m D Ho _ c E) as (_&Hid&Hp). unfold offerSource, offer. f_equal. rewrite Hp. unfold newMemPeer; cbn.
  destruct (bool_decide_reflect (ci_Hash (mc_info c) = ci_Hash info)) as [->|]; [|by destruct info].
  destruct (bool_decide_reflect (ci_IPv6 (mc_info c) = ci_IPv6 info)) as [->|]; [|by destruct info]. cbn. by rewrite Hid.
Qed.

(** The file under its key, and the offer the newest source of its hash. *)
Record offers (file : File) (src : memSource) (m m' : MemoryEngine) : Prop := {
  of_sessions : sessions m' = sessions m;
  of_file : fileAt m' (hashArray (f_Hash file)) (f_Size file) = Some (stored file);
  of_other : ∀ key size, (key, size) ≠ (hashArray (f_Hash file), f_Size file) → fileAt m' key size = fileAt m key size;
  of_source : sourcesAt m' (hashArray (f_Hash file)) =
    filter (λ s, addr s ≠ addr src) (sourcesAt m (hashArray (f_Hash file))) ++ [src];
  of_others : ∀ key, key ≠ hashArray (f_Hash file) → sourcesAt m' key = sourcesAt m key;
}.

Lemma offer_known m D file info c :
  wf m D → ci_StoreID info ≠ 0 → e_clients m !! ci_StoreID info = Some c → address info = address (mc_info c) →
  let m' := addFileLocked file info m in wf m' D ∧ offers (NormalizeFile file) (offer file info) m m'.
Proof.
  intros Hwf Hk Ec Ha m'. destruct (addFile_shape m D file info c Hwf Hk Ec Ha) as (m1&head&cs&_&Hwf1&Hst&Hm'&Hcs).
  fold m' in Hm'. destruct Hwf as (_&Ho&_). rewrite (offerSource_value m D) in Hm', Hcs by done.
  pose proof (offerSource_store m D file info c Ho Ec) as Hsk. rewrite (offerSource_value m D) in Hsk by done.
  set (src := offer file info) in *. set (w := writeLists head _ m1) in Hm'.
  destruct Hwf1 as ([C1 Hok1]&Ho1&Hn1). destruct Hst as [(Em&Ecs&_) Eh Hs1 Hs2 Hf Hf'].
  destruct (head_holds C1 m1 Hok1 _ head Eh) as [(L&_) _]. rewrite <- Ecs in Hcs, Ec. rewrite <- Hsk in Ec.
  assert (sameStore m1 w) as Hsw by apply sameStore_writeLists.
  assert (sameStore m1 m') as Hsm by (rewrite Hm'; etransitivity; [exact Hsw|apply sameStore_clients]).
  assert (∀ id, sourcesOf m' id = sourcesOf w id) as Hw by (intros id; rewrite Hm'; by destruct w).
  assert (e_files m' = e_files m1) as Hfiles by apply Hsm.
  split; [split_and!|split].
  - exists C1. by eapply store_ok_same.
  - rewrite Hm'. eapply owned_put; try done. by eexists.
  - by eapply same_named.
  - unfold sessions. rewrite <- Ecs, Hm'. apply map_eq. intros j. rewrite !lookup_fmap. change (e_clients (withClients cs w)) with cs.
    pose proof (put_client m1 D head src c cs Ho1 ltac:(by eexists) L Ec Ha Hcs j) as Hp. destruct (e_clients m1 !! j) as [c0|].
    + destruct Hp as (c'&->&Hi&_). cbn. by rewrite Hi.
    + by rewrite Hp.
  - by rewrite (same_fileAt m1 m' Hsm C1).
  - intros key size Hne. rewrite (same_fileAt m1 m' Hsm C1) by done. by apply Hf'.
  - unfold sourcesAt at 1. rewrite Hfiles, Eh, Hw. unfold w. rewrite sourcesOf_writeLists, decide_True by done.
    do 2 f_equal. rewrite <- Hs2. unfold sourcesAt. by rewrite Eh.
  - intros key Hne. rewrite <- Hs2. unfold sourcesAt. rewrite Hfiles. destruct (e_files m1 !! key) as [h|] eqn:E; [|done].
    rewrite Hw. unfold w. rewrite sourcesOf_writeLists, decide_False; [done| |done]. intros ->.
    by pose proof (head_unique C1 m1 Hok1 _ _ _ E Eh).
Qed.

(** An offer in flight when its session was released changes nothing. *)
Lemma offer_unknown m file info :
  ci_StoreID info ≠ 0 → e_clients m !! ci_StoreID info = None → addFileLocked file info m = m.
Proof.
  intros Hk E. unfold addFileLocked, resolved. rewrite (proj2 (Z.eqb_neq _ _) Hk), E. by rewrite bool_decide_eq_true_2.
Qed.
End Offered.
