(* ===== verification/MemLeave.v ===== *)
(** * Sessions of the memory engine: logging in, leaving, and the sources left behind

    A session that leaves is taken off the table at once and its sources a chunk at a time,
    between which any other operation may run. *)

From S2P Require Import Prelude Types Text Search SortedIDs FileMeta NameIndex Rank MemEngine MemSources MemStore MemInv MemOffer.
Local Open Scope Z_scope.
#[local] Set Warnings "-clear-no-such-hyp".

(** ** Logging in *)

Lemma named_ext `{Unicode} m m' : e_recs m' = e_recs m → e_names m' = e_names m → e_dead m' = e_dead m → named m → named m'.
Proof.
  intros Er En Ed [Hwf Hl Ho]. assert (∀ id, recAt m' id = recAt m id) as Hr by (intros id; unfold recAt; by rewrite Er).
  split; rewrite ?En, ?Ed; [done| |]; intros; rewrite ?Hr in *; eauto.
Qed.

(** Only the tables of sessions differ. *)
Definition sameFiles (m m' : MemoryEngine) : Prop :=
  e_recs m' = e_recs m ∧ e_more m' = e_more m ∧ e_files m' = e_files m ∧ e_count m' = e_count m ∧ e_dead m' = e_dead m ∧
  e_free m' = e_free m ∧ e_names m' = e_names m ∧ e_layout m' = e_layout m.

Lemma sameFiles_views m m' : sameFiles m m' →
  (∀ id, recAt m' id = recAt m id) ∧ (∀ id, sourcesOf m' id = sourcesOf m id) ∧
  (∀ key, sourcesAt m' key = sourcesAt m key) ∧ (∀ key size, fileAt m' key size = fileAt m key size) ∧
  (split_ok m → split_ok m') ∧ ∀ C, store_ok C m → store_ok C m'.
Proof.
  intros (Er&Em&Ef&Ec&Ed&Efr&_). assert (∀ id, recAt m' id = recAt m id) as Hr by (intros id; unfold recAt; by rewrite Er).
  assert (∀ id, sourcesOf m' id = sourcesOf m id) as Hs by (intros id; unfold sourcesOf, moreOf; by rewrite Hr, Em).
  split_and!; try done.
  - intros key. unfold sourcesAt. rewrite Ef. by destruct (e_files m !! key).
  - intros key size. unfold fileAt, findLocked, chainOf. rewrite Ef, Er. destruct (e_files m !! key); [|done].
    rewrite (find_ext_in _ (λ id, r_size (recAt m id) =? size)) by (intros; by rewrite Hr). destruct (find _ _); [|done]. cbn. by rewrite Hr.
  - intros [H1 H2]. split; intros id; [intros l|]; rewrite Em, !Hr; auto.
  - intros C. unfold store_ok, cores. by rewrite Er, Ef, Ec, Ed, Efr.
Qed.

Lemma Connect_same info m : sameFiles m (Connect info m).1.
Proof. by destruct m. Qed.

Lemma connect_owned m D info :
  e_nextClientID m + 1 < 2 ^ 64 → owned m D → owned (Connect info m).1 D.
Proof.
  intros Hn Ho. pose proof Ho as [Hsp Hh Ha How Hof Hc Hb [Hg1 Hg2] [Hr1 Hr2]].
  destruct (sameFiles_views m (Connect info m).1 (Connect_same info m)) as (Hrec&Hs&_&_&Hsplit&_).
  set (k := e_nextClientID m + 1). set (i := { info with ci_StoreID := k }).
  assert (e_clients (Connect info m).1 = <[k := mkMemClient i (newMemPeer i) []]> (e_clients m) ∧
    e_nextClientID (Connect info m).1 = k ∧ e_files (Connect info m).1 = e_files m ∧ e_layout (Connect info m).1 = e_layout m ∧
    e_clientsByHash (Connect info m).1 = if bool_decide (ci_Hash i ≠ []) then <[ci_Hash i := k]> (e_clientsByHash m) else e_clientsByHash m)
    as (Ec&En&Ef&El&Eb).
  { unfold Connect. assert (u64 (e_nextClientID m + 1) = k) as -> by (apply Z.mod_small; lia). by destruct m. }
  split.
  - by apply Hsplit.
  - intros id. rewrite Hrec, Ef. apply Hh.
  - intros id. by rewrite Hs.
  - intros id s Hin. rewrite Hs in Hin. pose proof (How id s Hin) as Hw. rewrite Ec, El, lookup_insert_ne; [done|].
    intros Ek. destruct (e_clients m !! store s) as [c|] eqn:E; [destruct (Hc _ c E); lia|].
    destruct Hw as (d&Hd&Ed&_). destruct (Hg2 d Hd). lia.
  - intros j c. rewrite Ec. intros [[<- <-]|[Hne E]]%lookup_insert_Some; [split; [constructor|by intros id ?%elem_of_nil]|].
    destruct (Hof j c E) as [? H2]. split; [done|]. intros id Hid. rewrite Hs. auto.
  - intros j c. rewrite Ec, En. intros [[<- <-]|[Hne E]]%lookup_insert_Some; [split_and!; [lia..|by destruct info|done]|].
    destruct (Hc j c E) as (?&?&?). split_and!; [lia..|done|done].
  - intros hash j E. rewrite Eb in E. rewrite Ec. destruct (decide (j = k)) as [->|Hne].
    + rewrite lookup_insert_eq. case_bool_decide as Eh.
      * apply lookup_insert_Some in E as [[<- _]|[_ E]]; [split; [done|by eexists]|]. exfalso. destruct (Hb hash k E) as (_&c&E'&_).
        destruct (Hc k c E'). lia.
      * exfalso. destruct (Hb hash k E) as (_&c&E'&_). destruct (Hc k c E'). lia.
    + rewrite lookup_insert_ne by done. case_bool_decide; [apply lookup_insert_Some in E as [[_ E]|[_ E]]; [congruence|]|]; by apply Hb.
  - split; [done|]. intros d Hd. destruct (Hg2 d Hd) as (?&?&?). rewrite En, Ec, El, lookup_insert_ne by lia. split_and!; [lia..|done|done].
  - rewrite En, El. lia.
Qed.

Lemma connect_wf `{Unicode} m D info :
  e_nextClientID m + 1 < 2 ^ 64 → wf m D → wf (Connect info m).1 D.
Proof.
  intros Hn ([C Hok]&Ho&Hnm). pose proof (sameFiles_views _ _ (Connect_same info m)) as (_&_&_&_&_&Hst). split_and!.
  - exists C. by apply Hst.
  - by apply connect_owned.
  - pose proof (Connect_same info m) as (?&_&_&_&?&_&?&_). by eapply named_ext.
Qed.

(** ** Sources taken down *)

Lemma removeSources_at m head k :
  split_ok m →
  let m' := removeSourcesOfLocked head k m in
  split_ok m' ∧ sameStore m m' ∧ e_clients m' = e_clients m ∧
  ∀ id, sourcesOf m' id = if decide (id = head) then filter (λ s, store s ≠ k) (sourcesOf m id) else sourcesOf m id.
Proof.
  intros Hs m'. destruct (decide (head < length (e_recs m))%nat) as [L|L].
  - subst m'. rewrite removeSources_write by done. split_and!; [by apply split_ok_writeLists|apply sameStore_writeLists|by destruct m|].
    intros id. rewrite sourcesOf_writeLists by done. case_decide; [by subst|done].
  - assert (recAt m head = zeroRec) as E by (unfold recAt; rewrite (proj2 (lookup_ge_None _ _)); [done|lia]).
    assert (m' = m) as -> by (subst m'; unfold removeSourcesOfLocked; by rewrite E). split_and!; try done.
    intros id. case_decide; [subst id|done]. unfold sourcesOf. by rewrite E.
Qed.

Lemma strip_fold heads k m :
  split_ok m →
  let m' := fold_left (λ m h, removeSourcesOfLocked h k m) heads m in
  split_ok m' ∧ sameStore m m' ∧ e_clients m' = e_clients m ∧
  ∀ id, sourcesOf m' id = if decide (id ∈ heads) then filter (λ s, store s ≠ k) (sourcesOf m id) else sourcesOf m id.
Proof.
  revert m. induction heads as [|h heads IH]; intros m Hs; cbn [fold_left].
  { by split_and!. }
  destruct (removeSources_at m h k Hs) as (Hs1&Hst1&Hc1&Hat1). destruct (IH _ Hs1) as (Hs2&Hst2&Hc2&Hat2).
  split_and!; [done|by etransitivity|congruence|]. intros id. rewrite Hat2, Hat1.
  destruct (decide (id = h)) as [->|Hne].
  - rewrite (decide_True (P := h ∈ h :: heads)) by by left. case_decide; [|done]. by rewrite list_filter_filter_r.
  - destruct (decide (id ∈ heads)); [rewrite decide_True by (by right)|rewrite decide_False by (by rewrite elem_of_cons; naive_solver)]; done.
Qed.

(** Sources of a session that is off the table go, where they may. *)
Lemma owned_strip m m' D D' k :
  owned m D → split_ok m' → sameStore m m' → e_clients m' = e_clients m → e_clients m !! k = None →
  (∀ id, sourcesOf m' id = sourcesOf m id ∨ sourcesOf m' id = filter (λ s, store s ≠ k) (sourcesOf m id)) →
  (∀ id s, s ∈ sourcesOf m' id → e_clients m !! store s = None → leaving D' (e_layout m) (store s) id) →
  NoDup (map dp_storeID D') → (∀ d, d ∈ D' → ∃ d', d' ∈ D ∧ dp_storeID d = dp_storeID d' ∧ dp_layout d = dp_layout d') →
  owned m' D'.
Proof.
  intros [Hsp Hh Ha How Hof Hc Hb [Hg1 Hg2] Hr] Hsp' (_&Ef&_&_&_&_&El&En&Eb) Ec Hk Hs Hl Hnd HD.
  assert (∀ id s, s ∈ sourcesOf m' id → s ∈ sourcesOf m id) as Hsub.
  { intros id s Hin. destruct (Hs id) as [E|E]; rewrite E in Hin; [done|]. by apply list_elem_of_filter in Hin as [_ Hin]. }
  assert (∀ id s, s ∈ sourcesOf m id → store s ≠ k → s ∈ sourcesOf m' id) as Hkeep.
  { intros id s Hin Hne. destruct (Hs id) as [->| ->]; [done|]. by apply list_elem_of_filter. }
  split; rewrite ?Ec, ?En, ?El, ?Eb, ?Ef; try done.
  - intros id Hid. apply Hh. rewrite sourcesOf_nil in *. intros E. apply Hid. destruct (Hs id) as [->| ->]; by rewrite E.
  - intros id. destruct (Hs id) as [->| ->]; [done|by apply NoDup_map_filter].
  - intros id s Hin. pose proof (How id s (Hsub id s Hin)) as Hw. destruct (e_clients m !! store s) eqn:E; [done|by apply Hl].
  - intros j c E. destruct (Hof j c E) as [? H2]. split; [done|]. intros id Hid. destruct (H2 id Hid) as (s&Hin&<-). exists s.
    split; [|done]. apply Hkeep; [done|]. intros Ek. congruence.
  - split; [done|]. intros d Hd. destruct (HD d Hd) as (d'&Hd'&->&->). by apply Hg2.
Qed.

(** ** Leaving *)

Lemma leaving_weaken D D' layout k id : (∀ d, d ∈ D → d ∈ D') → leaving D layout k id → leaving D' layout k id.
Proof. intros Hin (d&?&?&?&?). exists d. auto. Qed.

(** The session is off the table; its sources are now those of a departure. *)
Lemma detach_owned m D info m' d :
  owned m D → detach info m = (m', Some d) →
  owned m' (d :: D) ∧ sameFiles m m' ∧ e_clients m' = delete (dp_storeID d) (e_clients m) ∧
  is_Some (e_clients m !! dp_storeID d) ∧ dp_storeID d = resolved info m.
Proof.
  intros Ho E. pose proof Ho as [Hsp Hh Ha How Hof Hc Hb [Hg1 Hg2] Hr]. unfold detach in E.
  destruct (Z.eqb_spec (resolved info m) 0) as [|Hk]; [done|]. set (k := resolved info m) in *.
  destruct (e_clients m !! k) as [c|] eqn:Ec; [|done]. destruct (Hof k c Ec) as [Hnd Hsrc]. destruct (Hc k c Ec) as (Hkr&_).
  assert (sameFiles m m' ∧ e_clients m' = delete k (e_clients m) ∧ e_nextClientID m' = e_nextClientID m ∧
    e_clientsByHash m' = (if bool_decide (ci_Hash (mc_info c) ≠ []) && bool_decide (e_clientsByHash m !! ci_Hash (mc_info c) = Some k)
      then delete (ci_Hash (mc_info c)) (e_clientsByHash m) else e_clientsByHash m) ∧ d = mkDeparture k (mc_offered c) (e_layout m))
    as (Hsame&Ecl&En&Eb&->) by (injection E as <- <-; by destruct m).
  destruct (sameFiles_views m m' Hsame) as (Hrec&Hs&_&_&Hsplit&_). destruct Hsame as (Er&Em&Ef&Eco&Ed&Efr&Enm&El).
  cbn [dp_storeID dp_left dp_layout]. split_and!; [split|done|done|by rewrite Ec|done]; rewrite ?Ecl, ?En, ?Ef, ?El; cbn [map dp_storeID].
  - by apply Hsplit.
  - intros id. rewrite Hrec. apply Hh.
  - intros id. by rewrite Hs.
  - intros id s Hin. rewrite Hs in Hin. pose proof (How id s Hin) as Hw. destruct (decide (store s = k)) as [Es|Hne].
    + rewrite Es in *. rewrite Ec in Hw. rewrite lookup_delete_eq. destruct Hw as [Hw _].
      eexists. split_and!; [by left|done|cbn; intros E0; rewrite E0 in Hw; by apply elem_of_nil in Hw|done].
    + rewrite lookup_delete_ne by done. destruct (e_clients m !! store s); [done|]. eapply leaving_weaken; [|exact Hw]. intros; by right.
  - intros j c' [Hne E']%lookup_delete_Some. destruct (Hof j c' E') as [? H2]. split; [done|]. intros id Hid. rewrite Hs. auto.
  - intros j c' [Hne E']%lookup_delete_Some. by apply Hc.
  - intros hash j E'. rewrite Eb in E'. assert (e_clientsByHash m !! hash = Some j) as E2 by (destruct (_ && _); [by apply lookup_delete_Some in E' as [_ ?]|done]).
    destruct (Hb hash j E2) as (Hne&c'&Ec'&Hh'). split; [done|]. exists c'. split; [|done]. rewrite lookup_delete_ne; [done|]. intros <-.
    assert (c' = c) as -> by congruence. rewrite Hh' in E'. rewrite !bool_decide_eq_true_2 in E' by done. cbn [andb] in E'. by rewrite lookup_delete_eq in E'.
  - split.
    + constructor; [|done]. intros (d&E1&Hd)%list_elem_of_fmap. destruct (Hg2 d Hd) as (_&E2&_). congruence.
    + intros d [->|Hd]%elem_of_cons; cbn; [rewrite lookup_delete_eq; split_and!; [lia..|done|lia]|].
      destruct (Hg2 d Hd) as (?&?&?). split_and!; [lia..| |lia]. rewrite lookup_delete_None. by right.
  - done.
Qed.

Section Release.
Context (m : MemoryEngine) (D1 D2 : list departure) (d : departure) (Ho : owned m (D1 ++ d :: D2)).

Lemma gone_client : e_clients m !! dp_storeID d = None.
Proof. destruct (ow_gone m _ Ho) as [_ Hg]. destruct (Hg d) as (_&?&_); [apply elem_of_app; right; by left|done]. Qed.

(** A source of the departure is on a record still to be visited. *)
Lemma gone_source id s :
  s ∈ sourcesOf m id → store s = dp_storeID d → dp_left d ≠ [] ∧ (dp_layout d = e_layout m → id ∈ dp_left d).
Proof.
  intros Hs E. pose proof (ow_owner m _ Ho id s Hs) as Hw. rewrite E, gone_client in Hw. destruct Hw as (d0&Hd&Ed&Hw).
  assert (d0 = d) as ->; [|done]. eapply (NoDup_map_inj dp_storeID); [apply (ow_gone m _ Ho)|done|apply elem_of_app; right; by left|done].
Qed.

(** The sources of the other departures do not depend on this one. *)
Lemma leaving_other X layout k id : k ≠ dp_storeID d → leaving (D1 ++ d :: D2) layout k id → leaving (D1 ++ X ++ D2) layout k id.
Proof.
  intros Hne (d0&Hd&Ed&Hw). exists d0. split; [|done]. rewrite !elem_of_app in *. rewrite elem_of_cons in Hd.
  destruct Hd as [?|[->|?]]; [by left|done|by right; right].
Qed.

Lemma gone_nodup X : (∀ d', d' ∈ X → dp_storeID d' = dp_storeID d) → (length X <= 1)%nat → NoDup (map dp_storeID (D1 ++ X ++ D2)).
Proof.
  intros HX L. destruct (ow_gone m _ Ho) as [Hnd _]. rewrite !map_app in *. cbn [map] in Hnd. destruct X as [|d' [|]]; [|by cbn in *; rewrite (HX d') by by left|cbn in L; lia].
  cbn. rewrite <- Permutation_middle in Hnd. by apply NoDup_cons in Hnd as [_ Hnd].
Qed.

(** What is left after sources of the departure were taken down. *)
Lemma owned_release m' X :
  split_ok m' → sameStore m m' → e_clients m' = e_clients m →
  (∀ id, sourcesOf m' id = sourcesOf m id ∨ sourcesOf m' id = filter (λ s, store s ≠ dp_storeID d) (sourcesOf m id)) →
  (∀ d', d' ∈ X → dp_storeID d' = dp_storeID d ∧ dp_layout d' = dp_layout d) → (length X <= 1)%nat →
  (∀ id s, s ∈ sourcesOf m' id → store s = dp_storeID d → leaving X (e_layout m) (store s) id) →
  owned m' (D1 ++ X ++ D2).
Proof.
  intros Hsp Hst Ec Hs HX L Hl. eapply (owned_strip m m' (D1 ++ d :: D2) _ (dp_storeID d)); try done.
  - apply gone_client.
  - intros id s Hin E. destruct (decide (store s = dp_storeID d)) as [Es|Hne].
    + eapply leaving_weaken; [|by apply Hl]. intros d' Hd. rewrite !elem_of_app. auto.
    + apply leaving_other; [done|]. assert (s ∈ sourcesOf m id) as Hin' by (destruct (Hs id) as [E1|E1]; rewrite E1 in Hin; [done|by apply list_elem_of_filter in Hin as [_ ?]]).
      pose proof (ow_owner m _ Ho id s Hin') as Hw. by rewrite E in Hw.
  - apply gone_nodup; [|done]. intros d' Hd. by apply HX.
  - intros d' Hd. rewrite !elem_of_app in Hd. destruct Hd as [Hd|[Hd|Hd]].
    + exists d'. rewrite elem_of_app. auto.
    + exists d. destruct (HX d' Hd). rewrite elem_of_app, elem_of_cons. auto.
    + exists d'. rewrite elem_of_app, elem_of_cons. auto.
Qed.

Lemma owned_done m' :
  split_ok m' → sameStore m m' → e_clients m' = e_clients m →
  (∀ id, sourcesOf m' id = sourcesOf m id ∨ sourcesOf m' id = filter (λ s, store s ≠ dp_storeID d) (sourcesOf m id)) →
  (∀ id s, s ∈ sourcesOf m' id → store s ≠ dp_storeID d) → owned m' (D1 ++ [] ++ D2).
Proof.
  intros Hsp Hst Ec Hs Hno. apply owned_release; try done; [by intros d' ?%elem_of_nil|cbn; lia|].
  intros id s Hin Es. by destruct (Hno id s Hin).
Qed.

Lemma owned_range id : (length (e_recs m) <= id)%nat → sourcesOf m id = [].
Proof. intros L. apply sourcesOf_nil. unfold recAt. by rewrite (proj2 (lookup_ge_None _ _)). Qed.

Lemma length_drop_add h rest :
  drop disconnectChunk (dp_left d) = h :: rest → (length (h :: rest) + disconnectChunk = length (dp_left d))%nat.
Proof. intros E. pose proof (f_equal length E) as L. rewrite length_drop in L. cbn [length] in *. lia. Qed.

(** One turn of the loop: the departure is done, or has less to do. *)
Lemma release_owned m' o :
  release d m = (m', o) →
  owned m' (D1 ++ option_list o ++ D2) ∧ sameStore m m' ∧ e_clients m' = e_clients m ∧
  (∀ id, sourcesOf m' id = sourcesOf m id ∨ sourcesOf m' id = filter (λ s, store s ≠ dp_storeID d) (sourcesOf m id)) ∧
  match o with
  | None => ∀ id s, s ∈ sourcesOf m' id → store s ≠ dp_storeID d
  | Some d' => dp_storeID d' = dp_storeID d ∧ (length (dp_left d') + disconnectChunk = length (dp_left d))%nat
  end.
Proof.
  intros E. unfold release in E. case_bool_decide as El.
  { injection E as <- <-. assert (∀ id s, s ∈ sourcesOf m id → store s ≠ dp_storeID d) as Hno.
    { intros id s Hs Es. by destruct (gone_source id s Hs Es). }
    split_and!; try done; [|by left]. apply owned_done; try done; [apply Ho|by left]. }
  destruct (Z.eqb_spec (e_layout m) (dp_layout d)) as [Ey|Ey]; cbn [negb] in E.
  - destruct (strip_fold (take disconnectChunk (dp_left d)) (dp_storeID d) m (ow_split m _ Ho)) as (Hsp&Hst&Hc&Hat).
    set (m1 := fold_left _ _ m) in *.
    assert (∀ id, sourcesOf m1 id = sourcesOf m id ∨ sourcesOf m1 id = filter (λ s, store s ≠ dp_storeID d) (sourcesOf m id)) as Hor.
    { intros id. rewrite Hat. case_decide; [by right|by left]. }
    assert (∀ id s, s ∈ sourcesOf m1 id → store s = dp_storeID d → id ∈ drop disconnectChunk (dp_left d)) as Hrest.
    { intros id s. rewrite Hat. case_decide as Hid; [by intros [? _]%list_elem_of_filter|]. intros Hs Es.
      destruct (gone_source id s Hs Es) as [_ Hin]. specialize (Hin (eq_sym Ey)). rewrite <- (take_drop disconnectChunk (dp_left d)) in Hin.
      by apply elem_of_app in Hin as [?|?]. }
    destruct (drop disconnectChunk (dp_left d)) as [|h rest] eqn:Edrop; injection E as <- <-.
    + assert (∀ id s, s ∈ sourcesOf m1 id → store s ≠ dp_storeID d) as Hno.
      { intros id s Hs Es. by apply (Hrest id s Hs), elem_of_nil in Es. }
      split_and!; try done. by apply owned_done.
    + split_and!; try done.
      * apply owned_release; try done; [by intros d' ->%list_elem_of_singleton; destruct d|].
        intros id s Hs Es. exists { d with dp_left := h :: rest }. split_and!; [by left|by destruct d|by destruct d|]. intros _.
        replace (dp_left _) with (h :: rest) by by destruct d. by eapply Hrest.
      * rewrite <- (length_drop_add h rest Edrop). by destruct d.
  - injection E as <- <-. destruct (strip_fold (seq 0 (length (e_recs m))) (dp_storeID d) m (ow_split m _ Ho)) as (Hsp&Hst&Hc&Hat).
    fold (removeAllSourcesOfLocked (dp_storeID d) m) in Hsp, Hst, Hc, Hat. set (m1 := removeAllSourcesOfLocked _ m) in *.
    assert (∀ id, sourcesOf m1 id = filter (λ s, store s ≠ dp_storeID d) (sourcesOf m id)) as Hall.
    { intros id. rewrite Hat. case_decide as Hid; [done|]. rewrite (owned_range id); [done|]. rewrite elem_of_seq in Hid. lia. }
    assert (∀ id s, s ∈ sourcesOf m1 id → store s ≠ dp_storeID d) as Hno.
    { intros id s. rewrite Hall. by intros [? _]%list_elem_of_filter. }
    split_and!; try done; [|by right]. apply owned_done; try done. by right.
Qed.
End Release.

(** ** The whole state *)

Section Leave.
Context `{Unicode}.

Lemma detach_wf m D info m' d :
  wf m D → detach info m = (m', Some d) →
  wf m' (d :: D) ∧ sameFiles m m' ∧ sessions m' = delete (dp_storeID d) (sessions m) ∧
  is_Some (e_clients m !! dp_storeID d) ∧ dp_storeID d = resolved info m.
Proof.
  intros ([C Hok]&Ho&Hn) E. destruct (detach_owned m D info m' d Ho E) as (Ho'&Hs&Hc&Hk&Hr).
  destruct (sameFiles_views m m' Hs) as (_&_&_&_&_&Hst). split; [split_and!|split_and!; try done].
  - exists C. by apply Hst.
  - done.
  - destruct Hs as (?&_&_&_&?&_&?&_). by eapply named_ext.
  - unfold sessions. by rewrite Hc, fmap_delete.
Qed.

Lemma detach_None m info m' : detach info m = (m', None) → m' = m.
Proof. unfold detach. destruct (_ =? 0); [by intros [= <-]|]. destruct (e_clients m !! _); [done|by intros [= <-]]. Qed.

Lemma release_wf m D1 D2 d m' o :
  wf m (D1 ++ d :: D2) → release d m = (m', o) →
  wf m' (D1 ++ option_list o ++ D2) ∧ sameStore m m' ∧ sessions m' = sessions m.
Proof.
  intros ([C Hok]&Ho&Hn) E. destruct (release_owned m D1 D2 d Ho m' o E) as (Ho'&Hs&Hc&_). split; [split_and!|split_and!; try done].
  - exists C. by eapply store_ok_same.
  - done.
  - by eapply same_named.
  - unfold sessions. by rewrite Hc.
Qed.

(** The sources of the other sessions never change. *)
Lemma release_sources m D1 D2 d m' o key :
  wf m (D1 ++ d :: D2) → release d m = (m', o) →
  filter (λ s, store s ≠ dp_storeID d) (sourcesAt m' key) = filter (λ s, store s ≠ dp_storeID d) (sourcesAt m key) ∧
  (o = None → sourcesAt m' key = filter (λ s, store s ≠ dp_storeID d) (sourcesAt m key)).
Proof.
  intros (_&Ho&_) E. destruct (release_owned m D1 D2 d Ho m' o E) as (_&(_&Ef&_)&_&Hs&Ho').
  unfold sourcesAt. rewrite Ef. destruct (e_files m !! key) as [h|]; [|done].
  assert (filter (λ s, store s ≠ dp_storeID d) (sourcesOf m' h) = filter (λ s, store s ≠ dp_storeID d) (sourcesOf m h)) as Hf.
  { destruct (Hs h) as [->| ->]; [done|]. by rewrite list_filter_filter_r. }
  split; [done|]. intros ->. rewrite <- Hf. symmetry. apply filter_all. intros s. apply Ho'.
Qed.

(** With nothing in between, the turns take every source of the session down. *)
Lemma releaseAll_wf steps d m D :
  wf m (d :: D) → (length (dp_left d) < steps)%nat →
  let m' := releaseAll steps d m in
  wf m' D ∧ sameStore m m' ∧ sessions m' = sessions m ∧
  ∀ key, sourcesAt m' key = filter (λ s, store s ≠ dp_storeID d) (sourcesAt m key).
Proof.
  revert d m. induction steps as [|steps IH]; intros d m Hwf L; [lia|]. cbn [releaseAll].
  destruct (release d m) as [m1 o] eqn:E. destruct (release_wf m [] D d m1 o Hwf E) as (Hwf1&Hst&Hse).
  pose proof (λ key, release_sources m [] D d m1 o key Hwf E) as Hsrc. destruct o as [d'|]; cbn [option_list app] in Hwf1.
  - destruct Hwf as (_&Ho&_). destruct (release_owned m [] D d Ho m1 (Some d') E) as (_&_&_&_&Hk&Hl).
    destruct (IH d' m1 Hwf1) as (Hwf2&Hst2&Hse2&Hsrc2); [unfold disconnectChunk in Hl; lia|].
    split_and!; [done|by etransitivity|congruence|]. intros key. rewrite Hsrc2, Hk. by apply Hsrc.
  - split_and!; try done. intros key. by apply Hsrc.
Qed.

Lemma disconnect_wf m D info :
  wf m D →
  let m' := Disconnect info m in
  wf m' D ∧ (∀ key size, fileAt m' key size = fileAt m key size) ∧ 
  sessions m' = delete (resolved info m) (sessions m) ∧
  ∀ key, sourcesAt m' key = if decide (is_Some (e_clients m !! resolved info m))
                            then filter (λ s, store s ≠ resolved info m) (sourcesAt m key) else sourcesAt m key.
Proof.
  intros Hwf. unfold Disconnect. destruct (detach info m) as [m1 [d|]] eqn:E.
  - destruct (detach_wf m D info m1 d Hwf E) as (Hwf1&Hsame&Hse&Hk&Hr). pose proof Hwf1 as ([C Hok1]&_).
    destruct (releaseAll_wf (S (length (dp_left d))) d m1 D Hwf1 ltac:(lia)) as (Hwf2&Hst&Hse2&Hsrc).
    destruct (sameFiles_views m m1 Hsame) as (_&_&Hat&Hfile&_&_).
    split_and!; [done| |by rewrite Hse2, Hse, Hr|].
    + intros key size. by rewrite (same_fileAt m1 _ Hst C), Hfile.
    + intros key. rewrite <- Hr, decide_True by done. by rewrite Hsrc, Hat.
  - pose proof (detach_None m info m1 E) as ->. assert (e_clients m !! resolved info m = None) as Hno.
    { unfold detach in E. destruct (Z.eqb_spec (resolved info m) 0) as [Ez|Hz]; [|by destruct (e_clients m !! _)].
      rewrite Ez. destruct (e_clients m !! 0) as [c|] eqn:E0; [|done]. destruct Hwf as (_&Ho&_). destruct (ow_client m D Ho 0 c E0). lia. }
    split_and!; try done.
    + rewrite delete_id; [done|]. unfold sessions. by rewrite lookup_fmap, Hno.
    + intros key. rewrite decide_False; [done|]. rewrite Hno. by intros [? ?].
Qed.
End Leave.
