(* ===== verification/MemClean.v ===== *)
(** * Cleaning up the memory engine

    Reaping the files whose hash has no source left, purging their ids from the name index,
    renumbering the records, and replacing all files at once. *)

From S2P Require Import Prelude Types Text Search SortedIDs FileMeta NameIndex Rank MemEngine MemSources MemStore MemInv MemOffer MemLeave.
Local Open Scope Z_scope.
#[local] Set Warnings "-clear-no-such-hyp".

(** ** One record *)

Section Remove.
Context `{Unicode}.
Context (m : MemoryEngine) (D : list departure) (id : nat) (Hwf : wf m D) (Hlive : r_live (recAt m id) = true)
  (Hnone : r_first (recAt m (headLocked m id)) = None).
Let m' := removeRecLocked id m.
Let key := r_hash (recAt m id).

(** The record itself has no source either. *)
Lemma remove_first : r_first (recAt m id) = None ∧ r_more (recAt m id) = false.
Proof.
  destruct Hwf as ([C Hok]&Ho&_). assert (r_first (recAt m id) = None) as E.
  { destruct (r_first (recAt m id)) as [s|] eqn:E; [|done]. destruct (ow_head m D Ho id) as [k Ek]; [congruence|].
    destruct (head_holds C m Hok k id Ek) as [_ Eh]. rewrite Eh in Hnone. congruence. }
  split; [done|]. by apply split_ok_first; [apply Ho|].
Qed.

(** What [removeRecLocked] does to the records and the table of heads. *)
Lemma remove_shape :
  (∃ C, store_ok C m') ∧ sameSessions m m' ∧ e_dead m' = e_dead m ++ [id] ∧ e_names m' = removeFile (r_name (recAt m id)) (e_names m) ∧
  e_count m' = e_count m - 1 ∧ length (e_recs m') = length (e_recs m) ∧
  (∀ k, k ≠ key → e_files m' !! k = e_files m !! k) ∧ recAt m' id = zeroRec ∧
  ∀ i, i ≠ id → ∃ next sibling, recAt m' i = { recAt m i with r_next := next; r_sibling := sibling }.
Proof.
  destruct Hwf as ([C Hok]&_). assert (holds m id key (r_size (recAt m id))) as Hh by (apply holds_live; done).
  destruct (holds_chain C m id key _ Hok Hh) as (l&El&Hid). apply list_elem_of_split in Hid as (l1&l2&->).
  destruct (removeRec_ok C m id l1 l2 Hok El) as (Hok'&Hs&Hd&Hf&Hn&Hlen&Hun). fold m' in Hok', Hs, Hd, Hf, Hn, Hlen, Hun.
  split_and!; try done.
  - by eexists.
  - subst m'. unfold removeRecLocked. case_bool_decide; [destruct (r_next _)|destruct (find _ _)]; by destruct m.
  - intros k Hk. rewrite Hf. unfold restFiles. fold key. destruct l1; [destruct l2|]; by rewrite ?lookup_delete_ne, ?lookup_insert_ne.
  - unfold recAt. destruct Hh as (L&_). destruct (lookup_lt_is_Some_2 _ _ L) as [y Ey]. rewrite (Hun id y Ey). by rewrite decide_True.
  - intros i Hi. unfold recAt. destruct (e_recs m !! i) as [y|] eqn:Ey.
    + rewrite (Hun i y Ey), decide_False by done. by do 2 eexists.
    + exists 0%nat, false. rewrite (proj2 (lookup_ge_None _ i)); [done|]. rewrite Hlen. by apply lookup_ge_None.
Qed.

Lemma remove_recs i :
  r_first (recAt m' i) = r_first (recAt m i) ∧ r_more (recAt m' i) = r_more (recAt m i) ∧
  r_live (recAt m' i) = r_live (recAt m i) && negb (bool_decide (i = id)) ∧
  (i ≠ id → r_hash (recAt m' i) = r_hash (recAt m i) ∧ r_size (recAt m' i) = r_size (recAt m i) ∧
    r_name (recAt m' i) = r_name (recAt m i) ∧ recFile (recAt m' i) = recFile (recAt m i)).
Proof.
  destruct remove_shape as (_&_&_&_&_&_&_&Hz&Hr). destruct (decide (i = id)) as [->|Hi].
  - destruct remove_first as [-> ->]. rewrite Hz, bool_decide_eq_true_2 by done. by rewrite andb_false_r.
  - destruct (Hr i Hi) as (next&sibling&->). rewrite bool_decide_eq_false_2 by done. rewrite andb_true_r. by destruct (recAt m i).
Qed.

Lemma remove_holds i k size : holds m' i k size ↔ holds m i k size ∧ i ≠ id.
Proof.
  rewrite !holds_live. destruct (remove_recs i) as (_&_&Hl&Hr). rewrite Hl, andb_true_iff, negb_true_iff, bool_decide_eq_false.
  split.
  - intros ([? Hi]&?&?). destruct (Hr Hi) as (E1&E2&_). by rewrite <- E1, <- E2.
  - intros ((?&?&?)&Hi). destruct (Hr Hi) as (E1&E2&_). by rewrite E1, E2.
Qed.

Lemma remove_owned : owned m' D.
Proof.
  destruct Hwf as ([C Hok]&Ho&_). destruct remove_shape as (_&Hs&_&_&_&_&Hf&_).
  eapply owned_records; [done| | |done].
  - intros i. destruct (remove_recs i) as (?&?&_). done.
  - intros k i Hi E. destruct (decide (k = key)) as [->|Hne]; [|by rewrite Hf]. exfalso. apply Hi.
    rewrite (holds_head C m Hok id key (r_size (recAt m id))) in E by (by apply holds_live). injection E as <-. exact Hnone.
Qed.

Lemma remove_named : named m'.
Proof.
  destruct Hwf as (_&_&[Hi Hl Ho]). destruct remove_shape as (_&_&Hd&Hn&_).
  destruct (applyIndexOp_spec (e_names m) (RemoveFile (r_name (recAt m id))) Hi) as (Hwf'&_&Hin). cbn [applyIndexOp promised] in *.
  rewrite <- Hn in Hwf', Hin. split; [done| |].
  - intros i. destruct (remove_recs i) as (_&_&E&Hr). rewrite E, andb_true_iff, negb_true_iff, bool_decide_eq_false. intros [Hli Hi'].
    destruct (Hr Hi') as (_&_&->&_). intros w Hw. apply Hin. by apply Hl.
  - intros w i Hw%Hin. rewrite Hd, elem_of_app, list_elem_of_singleton. destruct (remove_recs i) as (_&_&E&_). rewrite E.
    destruct (decide (i = id)) as [->|Hi']; [by right; right|]. rewrite bool_decide_eq_false_2, andb_true_r by done.
    destruct (Ho w i Hw); auto.
Qed.

Lemma remove_views :
  wf m' D ∧ (∀ k, sourcesAt m' k = sourcesAt m k) ∧ sourcesAt m key = [] ∧
  ∀ k size, fileAt m' k size = if decide ((k, size) = (key, r_size (recAt m id))) then None else fileAt m k size.
Proof.
  destruct remove_shape as ([C' Hok']&Hs&_&_&_&_&Hf&_). pose proof remove_owned as Ho'. pose proof remove_named as Hn'.
  destruct Hwf as ([C Hok]&Ho&_). assert (holds m id key (r_size (recAt m id))) as Hh by (by apply holds_live).
  assert (sourcesAt m key = []) as Hkey.
  { unfold sourcesAt. rewrite (holds_head C m Hok id key _ Hh). by apply sourcesOf_nil. }
  split_and!; [split_and!; [by exists C'|done..]| |done|].
  - intros k. destruct (decide (k = key)) as [->|Hne].
    + rewrite Hkey. unfold sourcesAt. destruct (e_files m' !! key) as [h|] eqn:Eh; [|done].
      apply sourcesOf_nil. destruct (head_holds C' m' Hok' key h Eh) as [Hhh _]. apply remove_holds in Hhh as [Hhh Hne].
      destruct (remove_recs h) as (->&_). destruct (r_first (recAt m h)) as [s|] eqn:Ef; [|done].
      destruct (ow_head m D Ho h) as [k Ek]; [congruence|]. destruct (head_holds C m Hok k h Ek) as [(_&_&Hk&_) Ehh].
      exfalso. rewrite (proj1 (proj2 (proj2 Hhh))) in Hk. subst k. rewrite (holds_head C m Hok id key _ Hh) in Ek. congruence.
    + unfold sourcesAt. rewrite Hf by done. destruct (e_files m !! k) as [h|]; [|done]. apply sourcesOf_ext; [apply Hs|].
      intros i. destruct (remove_recs i) as (?&?&_). done.
  - intros k size. apply option_eq_iff. intros f. rewrite (fileAt_Some C' m' Hok'). setoid_rewrite remove_holds. case_decide as Ek.
    + split; [|done]. intros (i&[Hi Hne]&_). injection Ek as -> ->. by destruct Hne; eapply holds_unique.
    + rewrite (fileAt_Some C m Hok). split; intros (i&Hi&->).
      * exists i. destruct Hi as [Hi Hne]. destruct (remove_recs i) as (_&_&_&Hr). by destruct (Hr Hne) as (_&_&_&->).
      * exists i. assert (i ≠ id) as Hne. { intros ->. apply Ek. destruct Hi as (_&_&<-&<-). done. }
        destruct (remove_recs i) as (_&_&_&Hr). by destruct (Hr Hne) as (_&_&_&->).
Qed.
End Remove.

(** ** The sweep *)

Section Sweep.
Context `{Unicode}.

(** Records go, with sources or without: those that stay are where they were. *)
Record swept (D : list departure) (m m' : MemoryEngine) : Prop := {
  sw_wf : wf m' D;
  sw_sessions : sameSessions m m';
  sw_len : length (e_recs m') = length (e_recs m);
  sw_sources : ∀ key, sourcesAt m' key = sourcesAt m key;
  sw_file : ∀ key size, fileAt m' key size = fileAt m key size ∨ fileAt m' key size = None ∧ sourcesAt m key = [];
  sw_stay : ∀ id, r_live (recAt m' id) = true → r_live (recAt m id) = true ∧ r_hash (recAt m' id) = r_hash (recAt m id);
}.

Lemma sameSessions_trans m1 m2 m3 : sameSessions m1 m2 → sameSessions m2 m3 → sameSessions m1 m3.
Proof. unfold sameSessions. intros (?&?&?&?&?) (?&?&?&?&?). split_and!; congruence. Qed.

Lemma swept_trans D m1 m2 m3 : swept D m1 m2 → swept D m2 m3 → swept D m1 m3.
Proof.
  intros [_ Hs L1 Hsrc Hf Hst] [Hwf Hs' L2 Hsrc' Hf' Hst']. split; [done|by eapply sameSessions_trans|congruence| | |].
  - intros key. by rewrite Hsrc', Hsrc.
  - intros key size. destruct (Hf' key size) as [->|[-> E]]; [done|]. rewrite Hsrc in E. by right.
  - intros id Hl. destruct (Hst' id Hl) as [Hl' ->]. by apply Hst.
Qed.

Lemma swept_refl D m : wf m D → swept D m m.
Proof. intros Hwf. split; try done. by left. Qed.

(** A turn leaves no file without a source behind. *)
Lemma reap_swept D m n id :
  wf m D → let '(m', n') := reap (m, n) id in
  swept D m m' ∧ n' + e_count m' = n + e_count m ∧
  (r_live (recAt m' id) = true → sourcesAt m' (r_hash (recAt m' id)) ≠ []).
Proof.
  intros Hwf. unfold reap. destruct (r_live (recAt m id)) eqn:Hl; cbn [negb].
  2:{ split_and!; [by apply swept_refl|done|]. by rewrite Hl. }
  destruct (r_first (recAt m (headLocked m id))) as [s|] eqn:Ef.
  - split_and!; [by apply swept_refl|done|]. intros _. destruct Hwf as ([C Hok]&_). unfold sourcesAt.
    rewrite (holds_head C m Hok id _ (r_size (recAt m id))) by (by apply holds_live). unfold sourcesOf. by rewrite Ef.
  - destruct (remove_views m D id Hwf Hl Ef) as (Hwf'&Hsrc&Hkey&Hfile). destruct (remove_shape m D id Hwf Hl Ef) as (_&Hs&_&_&Hc&Hlen&_&Hz&_).
    split_and!; [split; try done|lia|by rewrite Hz].
    + intros key size. rewrite Hfile. case_decide as E; [|by left]. injection E as -> ->. by right.
    + intros i. destruct (remove_recs m D id Hwf Hl Ef i) as (_&_&E&Hr). rewrite E, andb_true_iff, negb_true_iff, bool_decide_eq_false.
      intros [? Hi]. destruct (Hr Hi) as (->&_). done.
Qed.

Lemma reap_fold D ids m n :
  wf m D → let '(m', n') := fold_left reap ids (m, n) in
  swept D m m' ∧ n' + e_count m' = n + e_count m ∧
  ∀ id, id ∈ ids → r_live (recAt m' id) = true → sourcesAt m' (r_hash (recAt m' id)) ≠ [].
Proof.
  revert m n. induction ids as [|i ids IH]; intros m n Hwf; cbn [fold_left].
  { split_and!; [by apply swept_refl|done|]. by intros id ?%elem_of_nil. }
  pose proof (reap_swept D m n i Hwf) as H1. destruct (reap (m, n) i) as [m1 n1]. destruct H1 as (Hs1&Hc1&Hl1).
  specialize (IH m1 n1 (sw_wf _ _ _ Hs1)). destruct (fold_left reap ids (m1, n1)) as [m2 n2]. destruct IH as (Hs2&Hc2&Hl2).
  split_and!; [by eapply swept_trans|lia|]. intros id [->|Hid]%elem_of_cons Hl; [|by apply Hl2].
  destruct (sw_stay _ _ _ Hs2 i Hl) as [Hl' E]. rewrite E, (sw_sources _ _ _ Hs2). by apply Hl1.
Qed.

(** After the sweep exactly the files whose hash has a source are left. *)
Lemma sweep_files D m :
  wf m D → let '(m', n) := fold_left reap (seq 0 (length (e_recs m))) (m, 0) in
  swept D m m' ∧ n = e_count m - e_count m' ∧
  ∀ key size, fileAt m' key size = if decide (sourcesAt m key = []) then None else fileAt m key size.
Proof.
  intros Hwf. pose proof (reap_fold D (seq 0 (length (e_recs m))) m 0 Hwf) as Hr. destruct (fold_left _ _ _) as [m' n].
  destruct Hr as (Hs&Hc&Hl). split_and!; [done|lia|]. intros key size. case_decide as E.
  - destruct (fileAt m' key size) as [f|] eqn:Ef; [|done]. exfalso. destruct (sw_wf _ _ _ Hs) as ([C Hok]&_).
    apply (fileAt_Some C m' Hok) in Ef as (id&(L&Hli&<-&_)&_). apply (Hl id); [|done|by rewrite (sw_sources _ _ _ Hs)].
    apply elem_of_seq. rewrite <- (sw_len _ _ _ Hs). lia.
  - destruct (sw_file _ _ _ Hs key size) as [?|[_ ?]]; done.
Qed.
End Sweep.

(** ** Renumbering *)

Lemma owned_live C m D id : store_ok C m → owned m D → r_first (recAt m id) ≠ None → r_live (recAt m id) = true.
Proof. intros Hok Ho Hf. destruct (ow_head m D Ho id Hf) as [k E]. by destruct (head_holds C m Hok k id E) as [(_&?&_) _]. Qed.

Lemma live_lookup m id : r_live (recAt m id) = true → e_recs m !! id = Some (recAt m id).
Proof. unfold recAt. by destruct (e_recs m !! id). Qed.

Section Rebuild.
Context `{Unicode}.

Lemma indexAll_spec recs :
  wf_index (indexAll recs) ∧ ∀ w i, lists (indexAll recs) w i ↔ ∃ rec, recs !! i = Some rec ∧ w ∈ nameWords (r_name rec).
Proof.
  unfold indexAll. induction recs as [|r recs IH] using rev_ind.
  { split; [apply wf_newNameIndex|]. intros w i. split; [by intros (?&?&_)|by intros (?&?&_)]. }
  rewrite imap_app, fold_left_app. cbn. destruct IH as [Hwf Hin]. destruct (indexName_spec (length recs + 0) (r_name r) _ Hwf) as (Hwf'&_&Hin').
  split; [done|]. intros w i. rewrite Hin', Hin, Nat.add_0_r. split.
  - intros [(x&E&Hw)|[Hw ->]]; [exists x; by rewrite (lookup_app_l_Some _ _ _ _ E)|]. exists r. split; [|done]. apply lookup_snoc_Some. by right.
  - intros (x&E&Hw). apply lookup_snoc_Some in E as [[_ E]|[-> <-]]; [left; by exists x|by right].
Qed.

Context (C : gmap bytes (list nat)) (m : MemoryEngine) (D : list departure) (Hok : store_ok C m) (Ho : owned m D)
  (Hlay : e_layout m + 1 < 2 ^ 64).
Let m' := rebuildIndexLocked m.
Let new := newID (e_recs m).

Lemma rebuild_at i : r_live (recAt m i) = true → recAt m' (new i) = renext (e_recs m) (recAt m i).
Proof.
  intros Hl. unfold recAt at 1, m', new. rewrite rebuild_recs, (renumbered_at (e_recs m) i (recAt m i)) by (done || by apply live_lookup).
  done.
Qed.

Lemma rebuild_inv j : recAt m' j = zeroRec ∨ ∃ i, r_live (recAt m i) = true ∧ j = new i.
Proof.
  unfold recAt at 1, m'. rewrite rebuild_recs. destruct (renumbered (e_recs m) !! j) as [x|] eqn:E; [|by left].
  apply renumbered_inv in E as (i&r&Er&Hr&->&->). right. exists i. unfold recAt. by rewrite Er.
Qed.

Lemma new_inj i j : r_live (recAt m i) = true → r_live (recAt m j) = true → new i = new j → i = j.
Proof. intros Hi Hj. apply (newID_inj (e_recs m) i j (recAt m i) (recAt m j)); try done; by apply live_lookup. Qed.

Lemma renumber_new i : r_live (recAt m i) = true → renumber (e_recs m) i = S (new i).
Proof. intros Hl. apply (renumber_live _ i (recAt m i)); [by apply live_lookup|done]. Qed.

Lemma renext_fields r :
  r_first (renext (e_recs m) r) = r_first r ∧ r_more (renext (e_recs m) r) = r_more r ∧ r_live (renext (e_recs m) r) = r_live r ∧
  r_hash (renext (e_recs m) r) = r_hash r ∧ r_size (renext (e_recs m) r) = r_size r ∧ r_name (renext (e_recs m) r) = r_name r ∧
  recFile (renext (e_recs m) r) = recFile r.
Proof. by destruct r. Qed.

Lemma more_live i l : e_more m !! i = Some l → r_live (recAt m i) = true.
Proof.
  intros E. destruct (so_more m (ow_split m D Ho) i l E) as [_ Hm]. destruct (so_flag m (ow_split m D Ho) i Hm) as [_ [s Hs]].
  eapply owned_live; [done..|congruence].
Qed.

Lemma rebuild_more j l : e_more m' !! j = Some l ↔ ∃ i, r_live (recAt m i) = true ∧ j = new i ∧ e_more m !! i = Some l.
Proof.
  replace (e_more m') with (list_to_map (map (λ p : nat * list memSource, (pred (renumber (e_recs m) p.1), p.2)) (map_to_list (e_more m))) : gmap nat (list memSource))
    by by destruct m.
  assert (∀ p, p ∈ map_to_list (e_more m) → r_live (recAt m p.1) = true) as Hp.
  { intros [i k] E%elem_of_map_to_list. by eapply more_live. }
  rewrite <- elem_of_list_to_map.
  - rewrite list_elem_of_fmap. split.
    + intros ([i k]&E&Hin). injection E as -> ->. pose proof (Hp _ Hin) as Hl. exists i. rewrite renumber_new by done.
      split_and!; [done|done|by apply elem_of_map_to_list].
    + intros (i&Hl&->&E). exists (i, l). cbn. rewrite renumber_new by done. split; [done|by apply elem_of_map_to_list].
  - change (NoDup (map fst (map (λ p : nat * list memSource, (pred (renumber (e_recs m) p.1), p.2)) (map_to_list (e_more m))))).
    rewrite map_map. cbn. apply NoDup_fmap_2_strong; [|apply NoDup_map_to_list]. intros [i k] [i' k'] Hi Hj E. cbn in E.
    pose proof (Hp _ Hi) as Li. pose proof (Hp _ Hj) as Lj. cbn in Li, Lj. rewrite !renumber_new in E by done. cbn in E.
    apply new_inj in E; [|done|done]. subst i'. apply elem_of_map_to_list in Hi, Hj. congruence.
Qed.

Lemma rebuild_more_at i : r_live (recAt m i) = true → e_more m' !! new i = e_more m !! i.
Proof.
  intros Hl. apply option_eq_iff. intros l. rewrite rebuild_more. split; [|intros E; by exists i].
  intros (j&Hj&E&El). by apply new_inj in E; [subst|..].
Qed.

Lemma rebuild_sources i : r_live (recAt m i) = true → sourcesOf m' (new i) = sourcesOf m i.
Proof.
  intros Hl. unfold sourcesOf, moreOf. rewrite rebuild_at, rebuild_more_at by done. by destruct (renext_fields (recAt m i)) as (->&->&_).
Qed.

Lemma rebuild_sources_inv j s : s ∈ sourcesOf m' j → ∃ i, r_live (recAt m i) = true ∧ j = new i ∧ s ∈ sourcesOf m i.
Proof.
  intros Hs. destruct (rebuild_inv j) as [E|(i&Hl&->)].
  - rewrite (proj1 (sourcesOf_nil m' j)) in Hs by (by rewrite E). by apply elem_of_nil in Hs.
  - exists i. by rewrite rebuild_sources in Hs.
Qed.

Lemma rebuild_files key : e_files m' !! key = new <$> e_files m !! key.
Proof.
  replace (e_files m') with ((λ head, pred (renumber (e_recs m) head)) <$> e_files m) by by destruct m. rewrite lookup_fmap.
  destruct (e_files m !! key) as [h|] eqn:E; [|done]. cbn. destruct (head_holds C m Hok key h E) as [(_&Hl&_) _].
  by rewrite renumber_new.
Qed.

Lemma source_live i s : s ∈ sourcesOf m i → r_live (recAt m i) = true.
Proof.
  intros Hs. eapply owned_live; [done..|]. intros E. rewrite (proj1 (sourcesOf_nil m i) E) in Hs. by apply elem_of_nil in Hs.
Qed.

Lemma rebuild_client k : e_clients m' !! k = (λ c, { c with mc_offered := map new (mc_offered c) }) <$> e_clients m !! k.
Proof.
  replace (e_clients m') with ((λ c, { c with mc_offered := map pred (filter (λ n, n ≠ 0%nat) (map (renumber (e_recs m)) (mc_offered c))) }) <$> e_clients m)
    by by destruct m. rewrite lookup_fmap. destruct (e_clients m !! k) as [c|] eqn:E; [|done]. cbn. do 2 f_equal.
  destruct (ow_offered m D Ho k c E) as [_ Hof]. assert (∀ i, i ∈ mc_offered c → r_live (recAt m i) = true) as Hl.
  { intros i Hi. destruct (Hof i Hi) as (s&Hs&_). by eapply source_live. }
  clear Hof E. induction (mc_offered c) as [|i l IH]; [done|]. cbn [map]. rewrite renumber_new by (apply Hl; by left).
  rewrite filter_cons_True by done. cbn [map pred]. f_equal. apply IH. intros j Hj. apply Hl. by right.
Qed.

Lemma rebuild_layout : e_layout m' = e_layout m + 1.
Proof. destruct (ow_range m D Ho) as [_ ?]. replace (e_layout m') with (u64 (e_layout m + 1)) by by destruct m. apply Z.mod_small. lia. Qed.

Lemma rebuild_split : split_ok m'.
Proof.
  pose proof (ow_split m D Ho) as [H1 H2]. split.
  - intros j l (i&Hl&->&E)%rebuild_more. rewrite rebuild_at by done. destruct (renext_fields (recAt m i)) as (_&->&_). by apply H1.
  - intros j. destruct (rebuild_inv j) as [->|(i&Hl&->)]; [done|]. rewrite rebuild_at, rebuild_more_at by done.
    destruct (renext_fields (recAt m i)) as (->&->&_). apply H2.
Qed.

(** A departure finds the layout changed. *)
Lemma rebuild_owned : owned m' D.
Proof.
  pose proof Ho as [Hsp Hh Ha How Hof Hc Hb [Hg1 Hg2] [Hr1 Hr2]]. split.
  - apply rebuild_split.
  - intros j Hj. destruct (rebuild_inv j) as [E|(i&Hl&->)]; [by rewrite E in Hj|]. rewrite rebuild_at in Hj by done.
    destruct (renext_fields (recAt m i)) as (E&_). rewrite E in Hj. destruct (Hh i Hj) as [key Ek]. exists key. by rewrite rebuild_files, Ek.
  - intros j. destruct (rebuild_inv j) as [E|(i&Hl&->)]; [|by rewrite rebuild_sources].
    rewrite (proj1 (sourcesOf_nil m' j)) by (by rewrite E). constructor.
  - intros j s (i&Hl&->&Hs)%rebuild_sources_inv. rewrite rebuild_client, rebuild_layout. pose proof (How i s Hs) as Hw.
    destruct (e_clients m !! store s) as [c|]; cbn.
    + destruct Hw as [Hw1 Hw2]. destruct c; cbn in *. split; [|done]. apply list_elem_of_fmap. by exists i.
    + destruct Hw as (d&Hd&Ed&Hne&_). exists d. split_and!; [done|done|done|]. destruct (Hg2 d Hd) as (_&_&?). lia.
  - intros k c'. rewrite rebuild_client. intros (c&E&->)%fmap_Some. destruct (Hof k c E) as [Hnd Hin]. destruct c as [ci cp co]; cbn in *. split.
    + apply NoDup_fmap_2_strong; [|done]. intros i j Hi Hj. destruct (Hin i Hi) as (?&?&_), (Hin j Hj) as (?&?&_).
      apply new_inj; by eapply source_live.
    + intros j (i&->&Hi)%list_elem_of_fmap. destruct (Hin i Hi) as (s&Hs&<-). exists s. split; [|done].
      rewrite rebuild_sources; [done|]. by eapply source_live.
  - intros k c'. rewrite rebuild_client. intros (c&E&->)%fmap_Some. replace (e_nextClientID m') with (e_nextClientID m) by by destruct m.
    destruct (Hc k c E) as (?&?&?). by destruct c.
  - intros hash k. replace (e_clientsByHash m') with (e_clientsByHash m) by by destruct m. intros E.
    destruct (Hb hash k E) as (?&c&Ec&?). split; [done|]. eexists. rewrite rebuild_client, Ec. split; [done|]. by destruct c.
  - split; [done|]. intros d Hd. replace (e_nextClientID m') with (e_nextClientID m) by by destruct m. rewrite rebuild_client, rebuild_layout.
    destruct (Hg2 d Hd) as (?&->&?). split_and!; [lia..|done|lia].
  - rewrite rebuild_layout. replace (e_nextClientID m') with (e_nextClientID m) by by destruct m. lia.
Qed.

Lemma rebuild_named : named m'.
Proof.
  assert (e_names m' = indexAll (e_recs m')) as E by by destruct m. destruct (indexAll_spec (e_recs m')) as [Hwf Hin].
  rewrite <- E in *. split; [done| |].
  - intros j Hl w Hw. apply Hin. exists (recAt m' j). split; [by apply live_lookup|done].
  - intros w j (rec&Er&_)%Hin. left. unfold m' in Er. rewrite rebuild_recs in Er. apply renumbered_inv in Er as (i&r&Er&Hr&->&_).
    assert (r = recAt m i) as -> by (unfold recAt; by rewrite Er). fold new. rewrite rebuild_at by done.
    by destruct (renext_fields (recAt m i)) as (_&_&->&_).
Qed.

Lemma rebuild_wf : wf m' D.
Proof. split_and!; [|apply rebuild_owned|apply rebuild_named]. eexists. by apply rebuild_ok. Qed.

Lemma rebuild_sourcesAt key : sourcesAt m' key = sourcesAt m key.
Proof.
  unfold sourcesAt. rewrite rebuild_files. destruct (e_files m !! key) as [h|] eqn:E; [|done]. cbn.
  apply rebuild_sources. by destruct (head_holds C m Hok key h E) as [(_&?&_) _].
Qed.

Lemma rebuild_fileAt key size : fileAt m' key size = fileAt m key size.
Proof.
  destruct rebuild_wf as ([C' Hok']&_). apply option_eq_iff. intros f. rewrite (fileAt_Some C' m' Hok'), (fileAt_Some C m Hok).
  setoid_rewrite holds_live. split.
  - intros (j&(Hl&Hh&Hs)&->). destruct (rebuild_inv j) as [E|(i&Hi&->)]; [by rewrite E in Hl|]. exists i. rewrite rebuild_at in * by done.
    destruct (renext_fields (recAt m i)) as (_&_&E1&E2&E3&_&E4). rewrite E4. split_and!; congruence.
  - intros (i&(Hl&Hh&Hs)&->). exists (new i). rewrite rebuild_at by done.
    destruct (renext_fields (recAt m i)) as (_&_&->&->&->&_& ->). done.
Qed.

Lemma rebuild_sessions : sessions m' = sessions m.
Proof.
  unfold sessions. apply map_eq. intros k. rewrite !lookup_fmap, rebuild_client. destruct (e_clients m !! k) as [c|]; [|done]. by destruct c.
Qed.
End Rebuild.

(** ** [CleanupStale] *)

Section Cleanup.
Context `{Unicode}.

(** The catalogue is not touched by what happens to the index and the numbering. *)
Record sameView (m m' : MemoryEngine) : Prop := {
  sv_sources : ∀ key, sourcesAt m' key = sourcesAt m key;
  sv_files : ∀ key size, fileAt m' key size = fileAt m key size;
  sv_sessions : sessions m' = sessions m;
  sv_count : e_count m' = e_count m;
}.

Lemma purged_wf m D : wf m D → wf (purged m) D ∧ sameView m (purged m) ∧ e_layout (purged m) = e_layout m.
Proof.
  intros ([C Hok]&Ho&[Hwf Hl Hon]). destruct (purged_ok C m Hok) as (Hok'&Hd&Hr&Hf&Hs).
  assert (∀ id, recAt (purged m) id = recAt m id) as Hrec by (intros id; unfold recAt; by rewrite Hr).
  assert (∀ id, sourcesOf (purged m) id = sourcesOf m id) as Hsrc by (apply sourcesOf_ext; [apply Hs|]; intros; by rewrite Hrec).
  split; [split_and!|split; [split|]].
  - by exists C.
  - eapply owned_records; [done| | |done]; [intros; by rewrite Hrec|by rewrite Hf].
  - unfold purged in *. case_bool_decide as E; [done|]. set (m1 := { m with e_names := _; e_free := _; e_dead := _ }) in *.
    destruct (purge_spec (λ id, negb (r_live (recAt m id))) (e_names m) Hwf) as (Hwf'&_&Hin).
    replace (purge _ (e_names m)) with (e_names m1) in Hwf', Hin by by destruct m. split; [done| |].
    + intros id. rewrite Hrec. intros Hli w Hw. apply Hin. split; [by apply Hl|by rewrite Hli].
    + intros w id [_ Hi]%Hin. left. rewrite Hrec. by apply negb_false_iff in Hi.
  - intros key. unfold sourcesAt. rewrite Hf. by destruct (e_files m !! key).
  - intros key size. apply option_eq_iff. intros f. rewrite (fileAt_Some C _ Hok'), (fileAt_Some C m Hok).
    setoid_rewrite holds_live. by setoid_rewrite Hrec.
  - unfold sessions. destruct Hs as (_&->&_). done.
  - unfold purged. case_bool_decide; by destruct m.
  - apply Hs.
Qed.

Lemma maintain_wf m D : e_layout m + 1 < 2 ^ 64 → wf m D → wf (maintainIndexLocked m) D ∧ sameView m (maintainIndexLocked m).
Proof.
  intros Hlay Hwf. rewrite maintain_purged. destruct (purged_wf m D Hwf) as (Hwf1&Hv&El).
  destruct (needsRebuild _); [|done]. destruct Hwf1 as ([C Hok]&Ho&Hn), Hv as [Hs1 Hf1 Hse1 Hc1]. rewrite <- El in Hlay. split; [by eapply rebuild_wf|split].
  - intros key. by erewrite rebuild_sourcesAt.
  - intros key size. by erewrite rebuild_fileAt.
  - by erewrite rebuild_sessions.
  - rewrite <- Hc1. by destruct (purged m).
Qed.

(** The clean-up: what it removes and what it answers. *)
Lemma cleanup_wf m D maxAge keep :
  e_layout m + 1 < 2 ^ 64 → wf m D →
  let '(m', res) := CleanupStale maxAge keep m in
  wf m' D ∧ sessions m' = sessions m ∧ (∀ key, sourcesAt m' key = sourcesAt m key) ∧
  (∀ key size, fileAt m' key size =
    if decide (0 < maxAge ∧ keep = false ∧ sourcesAt m key = []) then None else fileAt m key size) ∧
  res = if decide (0 < maxAge) then Ok (e_count m - e_count m') else Err (ErrNew "cleanup: maxAge must be positive").
Proof.
  intros Hlay Hwf. unfold CleanupStale. destruct (Z.leb_spec maxAge 0) as [L|L].
  { split_and!; try done; [|by rewrite decide_False by lia]. intros key size. by rewrite decide_False by lia. }
  destruct keep.
  - destruct (maintain_wf m D Hlay Hwf) as (Hwf'&[Hs Hf Hse Hc]). split_and!; [done|done|done| |].
    + intros key size. rewrite decide_False by naive_solver. apply Hf.
    + rewrite decide_True by done. f_equal. lia.
  - pose proof (sweep_files D m Hwf) as Hsw. destruct (fold_left _ _ _) as [m1 n]. destruct Hsw as ([Hwf1 Hses Hlen Hsrc _ _]&Hn&Hfile).
    assert (e_layout m1 = e_layout m ∧ e_clients m1 = e_clients m) as [El Ec] by (destruct Hses as (?&?&?&?&?); done).
    rewrite <- El in Hlay. destruct (maintain_wf m1 D Hlay Hwf1) as (Hwf'&[Hs Hf Hse Hc]). split_and!.
    + done.
    + rewrite Hse. unfold sessions. by rewrite Ec.
    + intros key. by rewrite Hs, Hsrc.
    + intros key size. rewrite Hf, Hfile. apply decide_ext. naive_solver.
    + rewrite decide_True by done. f_equal. lia.
Qed.
End Cleanup.

(** ** Replacing all files *)

Section Install.
Context `{Unicode} `{Charmap} `{SortSlice}.

(** The engine with its sessions and nothing else. *)
Definition emptied (m : MemoryEngine) : MemoryEngine :=
  { m with e_files := ∅; e_more := ∅; e_recs := []; e_names := newNameIndex; e_dead := []; e_free := [];
           e_count := 0; e_layout := u64 (e_layout m + 1);
           e_clients := (λ c, { c with mc_offered := [] }) <$> e_clients m }.

Lemma emptied_client m k : e_clients (emptied m) !! k = (λ c, { c with mc_offered := [] }) <$> e_clients m !! k.
Proof. replace (e_clients (emptied m)) with ((λ c, { c with mc_offered := [] }) <$> e_clients m) by by destruct m. apply lookup_fmap. Qed.

Lemma emptied_wf m D : e_layout m + 1 < 2 ^ 64 → owned m D → wf (emptied m) D ∧ sessions (emptied m) = sessions m.
Proof.
  intros Hlay [_ _ _ _ _ Hc Hb [Hg1 Hg2] [Hr1 Hr2]].
  assert (e_nextClientID (emptied m) = e_nextClientID m ∧ e_clientsByHash (emptied m) = e_clientsByHash m) as [En Eh] by by destruct m.
  assert (e_layout (emptied m) = e_layout m + 1) as El.
  { replace (e_layout (emptied m)) with (u64 (e_layout m + 1)) by by destruct m. apply Z.mod_small. lia. }
  assert (∀ id, recAt (emptied m) id = zeroRec) as Hr by by destruct m.
  assert (∀ id, sourcesOf (emptied m) id = []) as Hs by (intros id; apply sourcesOf_nil; by rewrite Hr).
  split; [split_and!|].
  - exists ∅. pose proof store_ok_new as Hn. by destruct m.
  - split; rewrite ?En, ?Eh, ?El; try lia.
    + split; [by destruct m|]. intros id. by rewrite Hr.
    + intros id. by rewrite Hr.
    + intros id. rewrite Hs. constructor.
    + intros id s. rewrite Hs. by intros ?%elem_of_nil.
    + intros k c'. rewrite emptied_client. intros (c&_&->)%fmap_Some. destruct c; cbn. split; [constructor|by intros ? ?%elem_of_nil].
    + intros k c'. rewrite emptied_client. intros (c&E&->)%fmap_Some. pose proof (Hc k c E). by destruct c.
    + intros hash k E. destruct (Hb hash k E) as (?&c&Ec&?). split; [done|]. eexists. rewrite emptied_client, Ec. split; [done|]. by destruct c.
    + split; [done|]. intros d Hd. rewrite emptied_client. destruct (Hg2 d Hd) as (?&->&?). split_and!; [lia..|done|lia].
  - split; [destruct m; apply wf_newNameIndex| |].
    + intros id. by rewrite Hr.
    + intros w id Hw. replace (e_names (emptied m)) with newNameIndex in Hw by by destruct m. by destruct Hw as (?&?&_).
  - unfold sessions. apply map_eq. intros k. rewrite !lookup_fmap, emptied_client. destruct (e_clients m !! k) as [c|]; [|done]. by destruct c.
Qed.

Definition keyed (key : bytes) (size : Z) (f : File) : Prop := (hashArray (f_Hash f), f_Size f) = (key, size).
#[global] Instance keyed_dec key size f : Decision (keyed key size f).
Proof. unfold keyed. apply _. Defined.

(** The last file of each (hash, size) is there, and no source. *)
Lemma install_wf files m D :
  e_layout m + 1 < 2 ^ 64 → owned m D →
  let m' := installFilesLocked files m in
  wf m' D ∧ sessions m' = sessions m ∧ (∀ key, sourcesAt m' key = []) ∧
  ∀ key size, fileAt m' key size = stored <$> last (filter (keyed key size) files).
Proof.
  intros Hlay Ho. change (installFilesLocked files m) with (fold_left (λ m f, (storeFileLocked f m).1) files (emptied m)).
  destruct (emptied_wf m D Hlay Ho) as [Hwf Hse]. cbv zeta. rewrite <- Hse.
  assert (∀ key, sourcesAt (emptied m) key = []) as Hsrc by by destruct m.
  assert (∀ key size, fileAt (emptied m) key size = None) as Hfile by by destruct m.
  induction files as [|f files IH] using rev_ind; [done|]. rewrite fold_left_app. cbn [fold_left].
  destruct IH as (Hwf1&Hse1&Hsrc1&Hfile1). set (m1 := fold_left _ files _) in *.
  pose proof (storeFile_wf m1 D f Hwf1) as Hst. destruct (storeFileLocked f m1) as [m2 head]. cbn [fst].
  destruct Hst as (Hwf2&[Hses _ _ Hs2 Hf2 Ho2]). split_and!; [done| | |].
  - rewrite <- Hse1. unfold sessions. destruct Hses as (_&->&_). done.
  - intros key. by rewrite Hs2.
  - intros key size. rewrite filter_app, filter_cons, filter_nil. case_decide as Ek.
    + rewrite last_snoc. injection Ek as <- <-. exact Hf2.
    + rewrite app_nil_r, <- Hfile1. apply Ho2. intros E. apply Ek. by unfold keyed.
Qed.
End Install.
