(* ===== verification/MemRefine.v ===== *)
(** * The memory engine as a catalogue

    The engine's operations as events in any order, the departures of sessions interleaved
    with them, against a specification that knows neither slots nor chains nor an index: the
    sessions, a file to a (hash, size), and the sources of a hash in the order of offers. *)

From S2P Require Import Prelude Types Text Search SortedIDs FileMeta NameIndex Rank.
From S2P Require Import MemEngine MemSources MemStore MemInv MemOffer MemLeave MemClean.
Local Open Scope Z_scope.
#[local] Set Warnings "-clear-no-such-hyp".

(** ** Events *)

Inductive event :=
| EConnect (info : ClientInfo)
| EOffer (file : File) (info : ClientInfo)
| EDetach (info : ClientInfo)
| ERelease (storeID : Z)
| ECleanup (maxAge : Z) (keepZeroSourceFiles : bool)
| EInstall (files : list File).

(** The [Disconnect] of session [k] has the lock for one turn of its loop. *)
Fixpoint turn (k : Z) (D : list departure) (m : MemoryEngine) : MemoryEngine * list departure :=
  match D with
  | [] => (m, [])
  | d :: D =>
      if dp_storeID d =? k then let '(m, o) := release d m in (m, option_list o ++ D)
      else let '(m, D) := turn k D m in (m, d :: D)
  end.

Section Events.
Context `{Unicode} `{Charmap} `{SortSlice}.

Definition engineStep (st : MemoryEngine * list departure) (e : event) : MemoryEngine * list departure :=
  let '(m, D) := st in
  match e with
  | EConnect info => ((Connect info m).1, D)
  | EOffer file info => (addFileLocked file info m, D)
  | EDetach info => let '(m, o) := detach info m in (m, option_list o ++ D)
  | ERelease k => turn k D m
  | ECleanup maxAge keep => ((CleanupStale maxAge keep m).1, D)
  | EInstall files => (installFilesLocked files m, D)
  end.

(** A session offers with the identifier it got and the address it logged in with, and the
    two 64-bit counters do not wrap. *)
Definition allowed (m : MemoryEngine) (e : event) : Prop :=
  match e with
  | EConnect _ => e_nextClientID m + 1 < 2 ^ 64
  | EOffer _ info => ci_StoreID info ≠ 0 ∧ ∀ i, sessions m !! ci_StoreID info = Some i → address info = address i
  | ECleanup _ _ | EInstall _ => e_layout m + 1 < 2 ^ 64
  | EDetach _ | ERelease _ => True
  end.

Inductive reachable : MemoryEngine * list departure → Prop :=
| reachable_new : reachable (NewMemoryEngine, [])
| reachable_step st e : reachable st → allowed st.1 e → reachable (engineStep st e).

(** ** The specification *)

Record catalogue := mkCatalogue {
  ct_sessions : gmap Z ClientInfo;
  ct_file : bytes → Z → option File;
  ct_sources : bytes → list memSource;
}.

Definition view (m : MemoryEngine) : catalogue := mkCatalogue (sessions m) (fileAt m) (sourcesAt m).

Definition sameCatalogue (c c' : catalogue) : Prop :=
  (∀ key size, ct_file c' key size = ct_file c key size) ∧ ∀ key, ct_sources c' key = ct_sources c key.

Definition specified (c : catalogue) (e : event) (c' : catalogue) : Prop :=
  match e with
  | EConnect info =>
      ∃ k, 0 < k ∧ ct_sessions c !! k = None ∧ (∀ key s, s ∈ ct_sources c key → store s ≠ k) ∧
        ct_sessions c' = <[k := { info with ci_StoreID := k }]> (ct_sessions c) ∧ sameCatalogue c c'
  | EOffer file info =>
      ct_sessions c' = ct_sessions c ∧
      match ct_sessions c !! ci_StoreID info with
      | None => sameCatalogue c c'
      | Some _ =>
          let file := NormalizeFile file in
          let key := hashArray (f_Hash file) in
          let src := mkMemSource (newMemPeer info) (f_Size file) (ci_ID info) (ci_Port info) (ci_CryptOptions info)
            (0 <? f_Completed file) (ci_IPv6Reachable info) in
          (∀ k size, ct_file c' k size = if decide ((k, size) = (key, f_Size file)) then Some (stored file) else ct_file c k size) ∧
          ∀ k, ct_sources c' k =
            if decide (k = key) then filter (λ s, addr s ≠ addr src) (ct_sources c k) ++ [src] else ct_sources c k
      end
  | EDetach info =>
      ∃ k, (ci_StoreID info ≠ 0 → k = ci_StoreID info) ∧ ct_sessions c' = delete k (ct_sessions c) ∧ sameCatalogue c c'
  | ERelease k =>
      ct_sessions c' = ct_sessions c ∧ (∀ key size, ct_file c' key size = ct_file c key size) ∧
      (∀ key, filter (λ s, store s ≠ k) (ct_sources c' key) = filter (λ s, store s ≠ k) (ct_sources c key)) ∧
      (ct_sessions c !! k ≠ None → ∀ key, ct_sources c' key = ct_sources c key)
  | ECleanup maxAge keep =>
      ct_sessions c' = ct_sessions c ∧ (∀ key, ct_sources c' key = ct_sources c key) ∧
      ∀ key size, ct_file c' key size =
        if decide (0 < maxAge ∧ keep = false ∧ ct_sources c key = []) then None else ct_file c key size
  | EInstall files =>
      ct_sessions c' = ct_sessions c ∧ (∀ key, ct_sources c' key = []) ∧
      ∀ key size, ct_file c' key size = stored <$> last (filter (keyed key size) files)
  end.

(** ** One event *)

Lemma turn_split k D m : (turn k D m = (m, D) ∧ ∀ d, d ∈ D → dp_storeID d ≠ k) ∨
  ∃ D1 d D2, D = D1 ++ d :: D2 ∧ dp_storeID d = k ∧
    turn k D m = let '(m', o) := release d m in (m', D1 ++ option_list o ++ D2).
Proof.
  induction D as [|d D IH]; cbn [turn]; [left; split; [done|by intros ? ?%elem_of_nil]|].
  destruct (Z.eqb_spec (dp_storeID d) k) as [E|Hne].
  - right. exists [], d, D. split_and!; [done|done|]. by destruct (release d m).
  - destruct IH as [[-> Hn]|(D1&d'&D2&->&E&->)].
    + left. split; [done|]. intros d' [->|?]%elem_of_cons; auto.
    + right. exists (d :: D1), d', D2. split_and!; [done|done|]. by destruct (release d' m).
Qed.

Lemma connect_specified m D info :
  e_nextClientID m + 1 < 2 ^ 64 → wf m D → specified (view m) (EConnect info) (view (Connect info m).1).
Proof.
  intros Hn ([C Hok]&Ho&_). destruct (ow_range m D Ho) as [Hr _].
  destruct (sameFiles_views m _ (Connect_same info m)) as (_&_&Hs&Hf&_). exists (e_nextClientID m + 1).
  assert (∀ k, e_nextClientID m < k → e_clients m !! k = None) as Hfresh.
  { intros k Hk. destruct (e_clients m !! k) as [c|] eqn:E; [|done]. destruct (ow_client m D Ho k c E). lia. }
  split_and!; [lia|by cbn; unfold sessions; rewrite lookup_fmap, Hfresh by lia| | |done].
  - cbn. intros key s Hs'. unfold sourcesAt in Hs'. destruct (e_files m !! key) as [h|]; [|by apply elem_of_nil in Hs'].
    pose proof (ow_owner m D Ho h s Hs') as Hw. destruct (e_clients m !! store s) as [c|] eqn:E.
    + destruct (ow_client m D Ho _ c E). lia.
    + destruct Hw as (d&Hd&Ed&_). destruct (ow_gone m D Ho) as [_ Hg]. destruct (Hg d Hd). lia.
  - cbn. unfold sessions, Connect. assert (u64 (e_nextClientID m + 1) = e_nextClientID m + 1) as -> by (apply Z.mod_small; lia).
    destruct m; cbn. by rewrite fmap_insert.
Qed.

Lemma offer_specified m D file info :
  allowed m (EOffer file info) → wf m D →
  wf (addFileLocked file info m) D ∧ specified (view m) (EOffer file info) (view (addFileLocked file info m)).
Proof.
  intros [Hk Ha] Hwf. cbn. unfold sessions at 3. rewrite lookup_fmap. unfold sessions in Ha. rewrite lookup_fmap in Ha.
  destruct (e_clients m !! ci_StoreID info) as [c|] eqn:Ec.
  2:{ rewrite offer_unknown by done. done. }
  destruct (offer_known m D file info c Hwf Hk Ec ltac:(by apply Ha)) as (Hwf'&[Hse Hf Hfo Hs Hso]).
  split; [done|]. split; [done|]. split.
  - intros key size. case_decide as E; [by injection E as -> ->|by apply Hfo].
  - intros key. case_decide as E; [by subst key|by apply Hso].
Qed.

Lemma detach_specified m D info m' o :
  wf m D → detach info m = (m', o) → wf m' (option_list o ++ D) ∧ specified (view m) (EDetach info) (view m').
Proof.
  intros Hwf E. assert (ci_StoreID info ≠ 0 → resolved info m = ci_StoreID info) as Hres.
  { intros Hk. unfold resolved. by rewrite (proj2 (Z.eqb_neq _ _) Hk). }
  destruct o as [d|].
  - destruct (detach_wf m D info m' d Hwf E) as (Hwf'&Hsame&Hse&_&Hr). destruct (sameFiles_views m m' Hsame) as (_&_&Hs&Hf&_).
    split; [done|]. exists (dp_storeID d). rewrite Hr in *. split_and!; [done|done|by split].
  - pose proof (detach_None m info m' E) as ->. split; [done|]. exists (resolved info m). split_and!; [done| |done]. cbn.
    rewrite delete_id; [done|]. unfold sessions. rewrite lookup_fmap. unfold detach in E.
    destruct (Z.eqb_spec (resolved info m) 0) as [Ez|Hz]; [|by destruct (e_clients m !! _)]. rewrite Ez.
    destruct (e_clients m !! 0) as [c|] eqn:E0; [|done]. destruct Hwf as (_&Ho&_). destruct (ow_client m D Ho 0 c E0). lia.
Qed.

Lemma release_specified m D k :
  wf m D → let '(m', D') := turn k D m in wf m' D' ∧ specified (view m) (ERelease k) (view m').
Proof.
  intros Hwf. destruct (turn_split k D m) as [[-> _]|(D1&d&D2&->&<-&->)]; [done|]. destruct (release d m) as [m' o] eqn:E.
  destruct (release_wf m D1 D2 d m' o Hwf E) as (Hwf'&Hst&Hse). split; [done|]. pose proof Hwf as ([C Hok]&Ho&_).
  split_and!; cbn.
  - done.
  - intros key size. by apply (same_fileAt m m' Hst C).
  - intros key. by eapply release_sources.
  - intros Hk key. destruct Hk. unfold sessions. rewrite lookup_fmap. by rewrite (gone_client m D1 D2 d Ho).
Qed.

(** Every event keeps the invariant and does what is specified. *)
Lemma step_ok m D e :
  wf m D → allowed m e → let '(m', D') := engineStep (m, D) e in wf m' D' ∧ specified (view m) e (view m').
Proof.
  intros Hwf Ha. destruct e as [info|file info|info|k|maxAge keep|files]; cbn [engineStep].
  - split; [by apply connect_wf|by eapply connect_specified].
  - by apply offer_specified.
  - destruct (detach info m) as [m' o] eqn:E. by apply (detach_specified m D info m' o).
  - by apply release_specified.
  - cbn in Ha. pose proof (cleanup_wf m D maxAge keep Ha Hwf) as Hc. destruct (CleanupStale maxAge keep m) as [m' res]. cbn [fst].
    destruct Hc as (?&?&?&?&_). split; [done|]. by split_and!.
  - cbn in Ha. destruct Hwf as (_&Ho&_). destruct (install_wf files m D Ha Ho) as (?&?&?&?). split; [done|]. by split_and!.
Qed.

Lemma reachable_wf st : reachable st → wf st.1 st.2.
Proof.
  induction 1 as [|st e _ IH Ha]; [apply wf_new|]. destruct st as [m D]. pose proof (step_ok m D e IH Ha) as Hs.
  destruct (engineStep (m, D) e). apply Hs.
Qed.

(** C19: the engine is a catalogue. Whatever history of logins, offers, log-outs in progress,
    clean-ups and installations led to its state, every further event changes the sessions,
    the files and the sources as specified: an offer stores the file under its (hash, size)
    and makes the session the newest source of the hash, in place of the source known at its
    address; a departure only ever takes away sources of the session that left; a clean-up
    only files without a source. Slots, chains, the split of a source list and the
    renumbering do not show. *)
Theorem engine_refines st e :
  reachable st → allowed st.1 e → specified (view st.1) e (view (engineStep st e).1).
Proof.
  intros Hr Ha. pose proof (reachable_wf st Hr) as Hwf. destruct st as [m D]. pose proof (step_ok m D e Hwf Ha) as Hs.
  destruct (engineStep (m, D) e). apply Hs.
Qed.

(** ** Counters *)

(** The files of the catalogue, by record. *)
Definition fileKeys (m : MemoryEngine) : list (bytes * Z) :=
  map (λ r, (r_hash r, r_size r)) (filter (λ r, r_live r = true) (e_recs m)).

Lemma live_at m id r : e_recs m !! id = Some r → recAt m id = r.
Proof. unfold recAt. by intros ->. Qed.

Lemma fileKeys_spec C m :
  store_ok C m → NoDup (fileKeys m) ∧ (∀ key size, (key, size) ∈ fileKeys m ↔ is_Some (fileAt m key size)) ∧
  FilesCount m = length (fileKeys m).
Proof.
  intros Hok. unfold fileKeys. split_and!.
  - apply NoDup_alt. intros i j x. rewrite !list_lookup_fmap. intros (r&Ei&->)%fmap_Some (r'&Ej&E)%fmap_Some.
    apply filter_lookup_inv in Ei as (a&Ea&Ha&->), Ej as (b&Eb&Hb&->). injection E as E1 E2.
    assert (a = b) as ->; [|done]. apply live_at in Ea, Eb.
    eapply (holds_unique C m a b (r_hash r) (r_size r)); [done|apply holds_live..]; rewrite ?Ea, ?Eb; done.
  - intros key size. rewrite list_elem_of_fmap. split.
    + intros (r&[= -> ->]&[Hr Hin]%list_elem_of_filter). apply list_elem_of_lookup in Hin as [id Eid]. apply live_at in Eid.
      eexists. apply (fileAt_Some C m Hok). exists id. split; [|done]. apply holds_live. by rewrite Eid.
    + intros [f (id&Hh&_)%(fileAt_Some C m Hok)]. exists (recAt m id). apply holds_live in Hh as (Hl&<-&<-). split; [done|].
      apply list_elem_of_filter. split; [done|]. apply list_elem_of_lookup. exists id. by apply live_lookup.
  - unfold FilesCount. rewrite (ck_count _ _ _ _ _ Hok). unfold cores. by rewrite live_cores, !length_map.
Qed.

(** The hashes a session is a source of. *)
Definition offeredHashes (m : MemoryEngine) (c : memClient) : list bytes := map (λ id, r_hash (recAt m id)) (mc_offered c).

Lemma offeredHashes_spec C m D k c :
  store_ok C m → owned m D → e_clients m !! k = Some c →
  NoDup (offeredHashes m c) ∧ ∀ key, key ∈ offeredHashes m c ↔ ∃ s, s ∈ sourcesAt m key ∧ store s = k.
Proof.
  intros Hok Ho Ec. destruct (ow_offered m D Ho k c Ec) as [Hnd Hof].
  assert (∀ id, id ∈ mc_offered c → e_files m !! r_hash (recAt m id) = Some id) as Hh.
  { intros id Hid. destruct (Hof id Hid) as (s&Hs&_). destruct (sourcesOf_head m D id s Ho Hs) as (key&E&_).
    destruct (head_holds C m Hok key id E) as [(_&_&<-&_) _]. done. }
  split.
  - apply NoDup_fmap_2_strong; [|done]. intros i j Hi%Hh Hj%Hh E. rewrite E in Hi. congruence.
  - intros key. unfold offeredHashes. rewrite list_elem_of_fmap. split.
    + intros (id&->&Hid). destruct (Hof id Hid) as (s&Hs&E). exists s. split; [|done]. unfold sourcesAt. by rewrite (Hh id Hid).
    + intros (s&Hs&Es). unfold sourcesAt in Hs. destruct (e_files m !! key) as [id|] eqn:E; [|by apply elem_of_nil in Hs].
      exists id. destruct (head_holds C m Hok key id E) as [(_&_&->&_) _]. split; [done|].
      pose proof (ow_owner m D Ho id s Hs) as Hw. rewrite Es, Ec in Hw. apply Hw.
Qed.

(** The counters are exact. In every reachable state the number of files is the number
    of (hash, size) pairs with a file, the number of clients the number of sessions, and a
    connected session's offered count the number of hashes it is a source of. *)
Lemma engine_counts m D :
  reachable (m, D) →
  (∃ files, NoDup files ∧ (∀ key size, (key, size) ∈ files ↔ is_Some (fileAt m key size)) ∧ FilesCount m = length files) ∧
  ClientsCount m = size (sessions m) ∧
  ∀ info, ∃ hashes, NoDup hashes ∧ OfferedCount info m = length hashes ∧
    ∀ key, key ∈ hashes ↔
      is_Some (sessions m !! resolved info m) ∧ ∃ s, s ∈ sourcesAt m key ∧ store s = resolved info m.
Proof.
  intros Hr. destruct (reachable_wf _ Hr) as ([C Hok]&Ho&_). cbn in Hok, Ho. split_and!.
  - exists (fileKeys m). by apply (fileKeys_spec C).
  - unfold ClientsCount, sessions. by rewrite map_size_fmap.
  - intros info. unfold OfferedCount, sessions. rewrite lookup_fmap. destruct (e_clients m !! resolved info m) as [c|] eqn:Ec.
    + destruct (offeredHashes_spec C m D _ c Hok Ho Ec) as [Hnd Hin]. exists (offeredHashes m c). split_and!; [done|by unfold offeredHashes; rewrite length_map|].
      intros key. rewrite Hin. cbn. naive_solver.
    + exists []. split_and!; [constructor|done|]. intros key. rewrite elem_of_nil. cbn. split; [done|]. by intros [[? ?] _].
Qed.

(** ** Departures *)

(** C22: no source without an owner. In every reachable state a source of a hash belongs to a
    connected session, at the address that session logged in with, or to a session whose
    departure is still in progress; a hash has one source to an address, and a connected
    session at most one. *)
Theorem no_orphans m D key :
  reachable (m, D) →
  NoDup (map addr (sourcesAt m key)) ∧
  ∀ s, s ∈ sourcesAt m key →
    match sessions m !! store s with
    | Some info => addr s = address info ∧ ∀ t, t ∈ sourcesAt m key → store t = store s → t = s
    | None => store s ∈ map dp_storeID D
    end.
Proof.
  intros Hr. destruct (reachable_wf _ Hr) as (_&Ho&_). cbn in Ho. unfold sourcesAt.
  destruct (e_files m !! key) as [h|]; [|split; [constructor|]; by intros s ?%elem_of_nil].
  pose proof (ow_addr m D Ho h) as Hnd. split; [done|]. intros s Hs. pose proof (ow_owner m D Ho h s Hs) as Hw.
  unfold sessions. rewrite lookup_fmap. destruct (e_clients m !! store s) as [c|] eqn:E; cbn.
  - destruct Hw as [_ Ha]. split; [done|]. intros t Ht Et. pose proof (ow_owner m D Ho h t Ht) as Hw. rewrite Et, E in Hw.
    destruct Hw as [_ Ha']. eapply (NoDup_map_inj addr); [exact Hnd|done|done|congruence].
  - destruct Hw as (d&Hd&Ed&_). apply list_elem_of_fmap. by exists d.
Qed.

Fixpoint allowedRun (st : MemoryEngine * list departure) (es : list event) : Prop :=
  match es with [] => True | e :: es => allowed st.1 e ∧ allowedRun (engineStep st e) es end.

(** The turns the loop of session [k] gets. *)
Definition isTurn (k : Z) (e : event) : nat := match e with ERelease j => if j =? k then 1 else 0 | _ => 0 end.
Fixpoint turnsOf (k : Z) (es : list event) : nat := match es with [] => 0 | e :: es => isTurn k e + turnsOf k es end.

(** Identifiers only grow. *)
Lemma storeFile_next m D file : wf m D → e_nextClientID (storeFileLocked file m).1 = e_nextClientID m.
Proof.
  intros Hwf. pose proof (storeFile_wf m D file Hwf) as Hs. destruct (storeFileLocked file m) as [m' h]. destruct Hs as (_&[Hs _ _ _ _ _]).
  apply Hs.
Qed.

Lemma offer_next m D file info :
  wf m D → allowed m (EOffer file info) → e_nextClientID (addFileLocked file info m) = e_nextClientID m.
Proof.
  intros Hwf [Hk Ha]. unfold sessions in Ha. rewrite lookup_fmap in Ha. destruct (e_clients m !! ci_StoreID info) as [c|] eqn:Ec.
  - destruct (addFile_shape m D file info c Hwf Hk Ec ltac:(by apply Ha)) as (m1&head&cs&_&_&[Hs _ _ _ _ _]&->&_).
    transitivity (e_nextClientID m1); [|apply Hs]. by destruct m1.
  - by rewrite offer_unknown.
Qed.

Lemma cleanup_next m D maxAge keep : wf m D → e_nextClientID (CleanupStale maxAge keep m).1 = e_nextClientID m.
Proof.
  intros Hwf. unfold CleanupStale. destruct (maxAge <=? 0); [done|].
  assert (∀ m, e_nextClientID (maintainIndexLocked m) = e_nextClientID m) as Hm.
  { intros x. rewrite maintain_purged. transitivity (e_nextClientID (purged x)).
    - destruct (needsRebuild _); [by destruct (purged x)|done].
    - unfold purged. case_bool_decide; by destruct x. }
  destruct keep; cbn [fst]; [apply Hm|]. pose proof (reap_fold D (seq 0 (length (e_recs m))) m 0 Hwf) as Hr.
  destruct (fold_left _ _ _) as [m1 n]. cbn [fst]. rewrite Hm. apply Hr.
Qed.

Lemma install_next files m D : e_layout m + 1 < 2 ^ 64 → owned m D → e_nextClientID (installFilesLocked files m) = e_nextClientID m.
Proof.
  intros Hlay Ho. change (installFilesLocked files m) with (fold_left (λ m f, (storeFileLocked f m).1) files (emptied m)).
  destruct (emptied_wf m D Hlay Ho) as [Hwf _]. transitivity (e_nextClientID (emptied m)); [|by destruct m]. revert Hwf. generalize (emptied m).
  induction files as [|f files IH]; intros x Hwf; [done|]. cbn [fold_left]. pose proof (storeFile_next x D f Hwf) as E.
  pose proof (storeFile_wf x D f Hwf) as Hs. destruct (storeFileLocked f x) as [x' h]. cbn [fst] in *. rewrite IH; [done|apply Hs].
Qed.

(** Session [k] has logged out, and has at most [n] turns to go. *)
Record gone (k : Z) (n : nat) (m : MemoryEngine) (D : list departure) : Prop := {
  go_client : sessions m !! k = None;
  go_next : k <= e_nextClientID m;
  go_left : ∀ d, d ∈ D → dp_storeID d = k → (length (dp_left d) < disconnectChunk * n)%nat;
}.

Lemma gone_turn k n j m D :
  wf m D → gone k n m D → gone k (n - isTurn k (ERelease j)) (turn j D m).1 (turn j D m).2.
Proof.
  intros Hwf [Hc Hn Hl]. destruct (turn_split j D m) as [[-> Hno]|(D1&d&D2&->&<-&->)].
  - split; [done|done|]. intros d Hd Ed. cbn [isTurn]. destruct (Z.eqb_spec j k) as [->|]; [by destruct (Hno d Hd)|].
    rewrite Nat.sub_0_r. by apply Hl.
  - destruct (release d m) as [m' o] eqn:E. cbn [fst snd]. destruct (release_wf m D1 D2 d m' o Hwf E) as (_&Hst&Hse).
    destruct Hwf as (_&Ho&_). destruct (release_owned m D1 D2 d Ho m' o E) as (_&_&_&_&Ho').
    split; [by rewrite Hse|by destruct Hst as (_&_&_&_&_&_&_&->&_)|].
    assert (∀ d', d' ∈ D1 ++ D2 → dp_storeID d' ≠ dp_storeID d) as Hdist.
    { intros d' Hd Ed. destruct (ow_gone m _ Ho) as [Hnd _]. rewrite map_app in Hnd. cbn [map] in Hnd. rewrite <- Permutation_middle in Hnd.
      apply NoDup_cons in Hnd as [Hnd _]. apply Hnd. rewrite <- map_app, <- Ed. apply list_elem_of_fmap. by exists d'. }
    intros d' Hd Ed. cbn [isTurn]. rewrite !elem_of_app in Hd.
    assert (d' ∈ D1 ++ D2 ∨ o = Some d') as [Hin| ->].
    { rewrite elem_of_app. clear -Hd. destruct o as [d0|]; cbn in Hd; [rewrite list_elem_of_singleton in Hd|rewrite elem_of_nil in Hd]; naive_solver. }
    + assert ((dp_storeID d =? k) = false) as -> by (apply Z.eqb_neq; intros <-; by apply (Hdist d')). rewrite Nat.sub_0_r.
      apply Hl; [|done]. rewrite elem_of_app in Hin. rewrite elem_of_app, elem_of_cons. naive_solver.
    + destruct Ho' as [Ek Hlen]. rewrite <- Ek, Ed, Z.eqb_refl. assert (length (dp_left d) < disconnectChunk * n)%nat.
      { apply Hl; [rewrite elem_of_app, elem_of_cons; naive_solver|congruence]. } unfold disconnectChunk in *. lia.
Qed.

Lemma gone_step k n m D e :
  wf m D → allowed m e → gone k n m D → gone k (n - isTurn k e) (engineStep (m, D) e).1 (engineStep (m, D) e).2.
Proof.
  intros Hwf Ha Hg. pose proof (step_ok m D e Hwf Ha) as Hst. pose proof Hg as [Hc Hn Hl].
  destruct e as [info|file info|info|j|maxAge keep|files]; cbn [engineStep isTurn] in *; rewrite ?Nat.sub_0_r.
  - destruct Hwf as (_&Ho&_). destruct (ow_range m D Ho) as [Hr _]. cbn in Ha.
    assert (u64 (e_nextClientID m + 1) = e_nextClientID m + 1) as Eu by (apply Z.mod_small; lia).
    split; [| |done]; cbn [fst].
    + unfold sessions, Connect in *. rewrite Eu. destruct m; cbn in *. rewrite lookup_fmap in *. rewrite lookup_insert_ne by lia. done.
    + unfold Connect. rewrite Eu. destruct m; cbn in *. lia.
  - destruct Hst as (_&Hse&_). cbn in Hse. cbn [fst snd]. split; [by rewrite Hse|by rewrite (offer_next m D)|done].
  - destruct (detach info m) as [m' o] eqn:E. cbn [fst snd]. destruct Hst as (_&j&_&Hse&_). cbn in Hse.
    assert (e_nextClientID m' = e_nextClientID m) as En.
    { unfold detach in E. destruct (_ =? 0); [by injection E as <- _|]. destruct (e_clients m !! _); injection E as <- _; by destruct m. }
    split; [rewrite Hse; apply lookup_delete_None; by right|by rewrite En|].
    intros d Hd Ed. apply elem_of_app in Hd as [Hd|Hd]; [|by apply Hl]. destruct o as [d0|]; [|by apply elem_of_nil in Hd].
    apply list_elem_of_singleton in Hd as ->. destruct (detach_wf m D info m' d0 Hwf E) as (_&_&_&[c Hc0]&_).
    unfold sessions in Hc. rewrite lookup_fmap, <- Ed, Hc0 in Hc. done.
  - by apply gone_turn.
  - cbn [fst snd]. destruct Hst as (_&Hse&_). cbn in Hse. split; [by rewrite Hse|by rewrite (cleanup_next m D)|done].
  - cbn [fst snd]. destruct Hst as (_&Hse&_). cbn in Hse. split; [by rewrite Hse| |done]. rewrite (install_next files m D); [done|done|apply Hwf].
Qed.

Lemma gone_run k n es m D :
  wf m D → allowedRun (m, D) es → gone k n m D →
  let st := fold_left engineStep es (m, D) in wf st.1 st.2 ∧ gone k (n - turnsOf k es) st.1 st.2.
Proof.
  revert m D n. induction es as [|e es IH]; intros m D n Hwf Ha Hg; cbn [fold_left turnsOf].
  { cbn. by rewrite Nat.sub_0_r. }
  destruct Ha as [Ha Has]. pose proof (step_ok m D e Hwf Ha) as Hst. pose proof (gone_step k n m D e Hwf Ha Hg) as Hg'.
  destruct (engineStep (m, D) e) as [m1 D1]. rewrite Nat.sub_add_distr. apply IH; [apply Hst|done|done].
Qed.

(** C21: every departure ends. Once the departing session's loop has had as many turns as its
    list has chunks of 1000, and whatever else happens between the turns (offers that take
    its sources over, clean-ups that renumber the records its list names, other sessions
    leaving or logging in), its departure is over and no hash has a source of it; nor does
    any later event bring one back. *)
Theorem departures_finish m D d es :
  reachable (m, D) → d ∈ D → allowedRun (m, D) es →
  (length (dp_left d) < disconnectChunk * turnsOf (dp_storeID d) es)%nat →
  let '(m', D') := fold_left engineStep es (m, D) in
  (dp_storeID d ∉ map dp_storeID D') ∧ ∀ key s, s ∈ sourcesAt m' key → store s ≠ dp_storeID d.
Proof.
  intros Hr Hd Ha Ht. pose proof (reachable_wf _ Hr) as Hwf. cbn in Hwf. pose proof Hwf as (_&Ho&_).
  destruct (ow_gone m D Ho) as [Hnd Hg]. destruct (Hg d Hd) as (Hk&Hc&_).
  assert (gone (dp_storeID d) (turnsOf (dp_storeID d) es) m D) as Hgone.
  { split; [unfold sessions; by rewrite lookup_fmap, Hc|lia|]. intros d' Hd' Ed.
    assert (d' = d) as -> by (eapply (NoDup_map_inj dp_storeID); done). done. }
  destruct (gone_run _ _ es m D Hwf Ha Hgone) as [Hwf' [Hc' _ Hl]]. destruct (fold_left engineStep es (m, D)) as [m' D']. cbn [fst snd] in *.
  rewrite Nat.sub_diag, Nat.mul_0_r in Hl.
  assert (dp_storeID d ∉ map dp_storeID D') as Hno.
  { intros (d'&E&Hd')%list_elem_of_fmap. specialize (Hl d' Hd' (eq_sym E)). lia. }
  split; [done|]. intros key s Hs Es. destruct Hwf' as (_&Ho'&_). unfold sourcesAt in Hs.
  destruct (e_files m' !! key) as [h|]; [|by apply elem_of_nil in Hs]. pose proof (ow_owner m' D' Ho' h s Hs) as Hw.
  unfold sessions in Hc'. rewrite lookup_fmap in Hc'. rewrite Es in Hw. destruct (e_clients m' !! dp_storeID d); [done|].
  destruct Hw as (d'&Hd'&E&_). apply Hno, list_elem_of_fmap. by exists d'.
Qed.
End Events.

(** ** Witnesses: two sessions share a file, one of them leaves *)

Section Witness.
#[local] Existing Instances asciiTables latin1 mergeSortSlice.

Lemma reachable_run st es : reachable st → allowedRun st es → reachable (fold_left engineStep es st).
Proof.
  revert st. induction es as [|e es IH]; intros st Hr; [done|]. intros [Ha Has]. cbn [fold_left]. apply IH; [|done].
  by apply reachable_step.
Qed.

Definition demoUser (id store : Z) : ClientInfo := mkClientInfo id id 4662 (replicate 16 id) false store 0 [] false.
Definition demoShare : File := { emptyFile with f_Hash := replicate 16 0xAB; f_Name := str "Cabinet plans.pdf"; f_Size := 700 }.

Definition demoHistory : list event :=
  [EConnect (demoUser 17 0); EConnect (demoUser 34 0); EOffer demoShare (demoUser 17 1); EOffer demoShare (demoUser 34 2);
   EDetach (demoUser 17 1)].
Definition demoState : MemoryEngine * list departure := fold_left engineStep demoHistory (NewMemoryEngine, []).

Lemma allowedOffer m file info :
  ci_StoreID info ≠ 0 → address info = default (address info) (address <$> sessions m !! ci_StoreID info) → allowed m (EOffer file info).
Proof. intros Hk E. split; [done|]. intros i Hi. by rewrite Hi in E. Qed.

Lemma demo_allowed : allowedRun (NewMemoryEngine, []) demoHistory.
Proof.
  unfold demoHistory. cbn [allowedRun]. split_and!; [by vm_compute|by vm_compute|by apply allowedOffer; vm_compute..|done|done].
Qed.

Lemma demo_reachable : reachable demoState.
Proof. apply reachable_run; [constructor|apply demo_allowed]. Qed.

Lemma demo_reachable_pair : reachable (demoState.1, demoState.2).
Proof. rewrite <- surjective_pairing. apply demo_reachable. Qed.

Lemma engine_refines_witness :
  sourcesAt demoState.1 (replicate 16 0xAB) ≠ [] ∧
  specified (view demoState.1) (ECleanup 1 false) (view (engineStep demoState (ECleanup 1 false)).1).
Proof. split; [by vm_compute|]. apply engine_refines; [apply demo_reachable|by vm_compute]. Defined.

Lemma no_orphans_witness : map store (sourcesAt demoState.1 (replicate 16 0xAB)) = [1; 2] ∧
  1 ∈ map dp_storeID demoState.2 ∧ sessions demoState.1 !! 2 = Some (demoUser 34 2).
Proof.
  destruct (no_orphans demoState.1 demoState.2 (replicate 16 0xAB) demo_reachable_pair) as [_ Hs]. split_and!; [by vm_compute| |by vm_compute].
  refine (Hs (offer demoShare (demoUser 17 1)) _). apply (bool_decide_unpack _). by vm_compute.
Defined.

(** Before the departing session gets its turn, the other one offers again. *)
Definition demoRest : list event := [EOffer demoShare (demoUser 34 2); ERelease 1].

Lemma departures_finish_witness :
  let '(m', D') := fold_left engineStep demoRest (demoState.1, demoState.2) in
  (1 ∉ map dp_storeID D') ∧ ∀ key s, s ∈ sourcesAt m' key → store s ≠ 1.
Proof.
  refine (departures_finish demoState.1 demoState.2 (mkDeparture 1 [0%nat] 0) demoRest demo_reachable_pair _ _ _).
  - assert (demoState.2 = [mkDeparture 1 [0%nat] 0]) as E by by vm_compute. rewrite E. by left.
  - unfold demoRest. cbn [allowedRun]. split_and!; [by apply allowedOffer; vm_compute|done|done].
  - by apply (bool_decide_unpack _); vm_compute.
Defined.
End Witness.
