(* ===== verification/MemQuery.v ===== *)
(** * Looking things up in the memory engine

    Searches, sources and browsing, in terms of the catalogue. *)

From S2P Require Import Prelude Types Text Search SortedIDs FileMeta NameIndex Rank.
From S2P Require Import MemEngine MemSources MemStore MemInv MemOffer MemLeave MemClean MemRefine.
Local Open Scope Z_scope.
#[local] Set Warnings "-clear-no-such-hyp".

(** ** A record's hash is its file's, padded *)

Definition hashedRec (r : memRec) : Prop := hashArray (take (r_hashLen r) (r_hash r)) = r_hash r.
Definition hashed (m : MemoryEngine) : Prop := ∀ id, hashedRec (recAt m id).

Lemma hashArray_take h : hashArray (take hashLen h) = hashArray h.
Proof.
  unfold hashArray. destruct (Nat.le_gt_cases hashLen (length h)) as [L|L]; [|by rewrite (take_ge h) by lia].
  by rewrite !take_app_le, take_take, Nat.min_id by (rewrite ?length_take; lia).
Qed.

Lemma hashed_setRec file r : hashedRec (setRecLocked file r).
Proof.
  unfold hashedRec. replace (r_hashLen (setRecLocked file r)) with (Nat.min (length (f_Hash file)) hashLen) by by destruct r.
  replace (r_hash (setRecLocked file r)) with (hashArray (f_Hash file)) by by destruct r. by rewrite take_hashArray, hashArray_take.
Qed.

Lemma hashed_zero : hashedRec zeroRec.
Proof. done. Qed.

Lemma hashed_core r : hashedRec (core r) ↔ hashedRec r.
Proof. by destruct r. Qed.

Section Hashed.
Context `{Unicode} `{Charmap} `{SortSlice}.

Lemma hashed_same m m' : sameStore m m' → hashed m → hashed m'.
Proof. intros Hs Hh id. by rewrite <- hashed_core, (same_core m m' Hs), hashed_core. Qed.

Lemma hashed_store m D file : wf m D → hashed m → hashed (storeFileLocked file m).1.
Proof.
  intros ([C Hok]&_) Hh. destruct (findLocked (hashArray (f_Hash file)) (f_Size file) m) as [id|] eqn:E.
  - pose proof (storeFile_known C m file id Hok E) as Hk. destruct (storeFileLocked file m) as [m' h]. destruct Hk as (_&_&_&_&_&_&Hr).
    intros i. cbn. rewrite Hr. case_decide; [apply hashed_setRec|done].
  - pose proof (storeFile_new C m file _ _ Hok eq_refl eq_refl E) as Hk. destruct (storeFileLocked file m) as [m' h].
    destruct Hk as (id&_&_&_&_&_&_&_&Hr). intros i. cbn [fst]. rewrite Hr.
    case_decide; [pose proof (hashed_setRec file (recAt m id)) as Hs; by destruct (setRecLocked file (recAt m id))|].
    specialize (Hh i). by destruct (recAt m i).
Qed.

Lemma hashed_reap m D n ids : wf m D → hashed m → hashed (fold_left reap ids (m, n)).1.
Proof.
  revert m n. induction ids as [|i ids IH]; intros m n Hwf Hh; [done|]. cbn [fold_left].
  pose proof (reap_swept D m n i Hwf) as Hs. assert (hashed (reap (m, n) i).1) as Hr.
  { unfold reap. destruct (r_live (recAt m i)) eqn:Hl; [|done]. cbn [negb]. destruct (r_first _) eqn:Ef; [done|]. cbn [fst].
    destruct (remove_shape m D i Hwf Hl Ef) as (_&_&_&_&_&_&_&Hz&Ho). intros j. destruct (decide (j = i)) as [->|Hne]; [by rewrite Hz|].
    destruct (Ho j Hne) as (a&b&->). specialize (Hh j). by destruct (recAt m j). }
  destruct (reap (m, n) i) as [m1 n1]. destruct Hs as (Hs&_). apply IH; [apply Hs|done].
Qed.

Lemma hashed_maintain m : hashed m → hashed (maintainIndexLocked m).
Proof.
  intros Hh. rewrite maintain_purged. assert (hashed (purged m)) as Hp by (unfold purged; case_bool_decide; [done|by destruct m]).
  destruct (needsRebuild _); [|done]. intros j. destruct (rebuild_inv (purged m) j) as [->|(i&Hl&->)]; [done|].
  rewrite rebuild_at by done. specialize (Hp i). by destruct (recAt (purged m) i).
Qed.

Lemma hashed_install files m D : owned m D → e_layout m + 1 < 2 ^ 64 → hashed (installFilesLocked files m).
Proof.
  intros Ho Hlay. change (installFilesLocked files m) with (fold_left (λ m f, (storeFileLocked f m).1) files (emptied m)).
  destruct (emptied_wf m D Hlay Ho) as [Hwf _]. assert (hashed (emptied m)) as Hh by by destruct m. revert Hwf Hh. generalize (emptied m).
  induction files as [|f files IH]; intros x Hwf Hh; [done|]. cbn [fold_left]. apply IH; [|by eapply hashed_store].
  pose proof (storeFile_wf x D f Hwf) as Hs. by destruct (storeFileLocked f x) as [x' h], Hs.
Qed.

Lemma hashed_step m D e : wf m D → allowed m e → hashed m → hashed (engineStep (m, D) e).1.
Proof.
  intros Hwf Ha Hh. destruct e as [info|file info|info|k|maxAge keep|files]; cbn [engineStep fst].
  - by destruct m.
  - destruct Ha as [Hk Ha]. unfold sessions in Ha. rewrite lookup_fmap in Ha. destruct (e_clients m !! ci_StoreID info) as [c|] eqn:Ec.
    + destruct (addFile_shape m D file info c Hwf Hk Ec ltac:(by apply Ha)) as (m1&head&cs&E&_&_&->&_).
      eapply hashed_same; [etransitivity; [apply sameStore_writeLists|apply sameStore_clients]|].
      replace m1 with (storeFileLocked (NormalizeFile file) m).1 by by rewrite E. by eapply hashed_store.
    + by rewrite offer_unknown.
  - destruct (detach info m) as [m' o] eqn:E. cbn [fst]. unfold detach in E. destruct (_ =? 0); [by injection E as <- _|].
    destruct (e_clients m !! _); injection E as <- _; by destruct m.
  - destruct (turn_split k D m) as [[-> _]|(D1&d&D2&->&_&->)]; [done|]. destruct (release d m) as [m' o] eqn:E.
    destruct (release_wf m D1 D2 d m' o Hwf E) as (_&Hs&_). by eapply hashed_same.
  - unfold CleanupStale. destruct (maxAge <=? 0); [done|]. destruct keep; [by apply hashed_maintain|].
    pose proof (hashed_reap m D 0 (seq 0 (length (e_recs m))) Hwf Hh) as Hr. destruct (fold_left _ _ _) as [m1 n].
    by apply hashed_maintain.
  - eapply hashed_install; [apply Hwf|done].
Qed.

Lemma reachable_hashed st : reachable st → hashed st.1.
Proof.
  induction 1 as [|st e Hr IH Ha]; [done|]. destruct st as [m D]. apply (hashed_step m D e); [|done|done].
  apply (reachable_wf _ Hr).
Qed.
End Hashed.

(** ** Files with their sources counted *)

(** A stored file as an answer shows it. *)
Definition withSources (l : list memSource) (f : File) : File :=
  fold_left (countSource (f_Size f)) l { f with f_Sources := 0; f_Completed := 0; f_SourceID := 0; f_SourcePort := 0 }.

Lemma countSource_stored size l f :
  let g := fold_left (countSource size) l f in f_Hash g = f_Hash f ∧ f_Name g = f_Name f ∧ f_Size g = f_Size f.
Proof.
  revert f. induction l as [|s l IH]; intros f; [done|]. cbn [fold_left]. destruct (IH (countSource size f s)) as (->&->&->).
  unfold countSource. destruct (_ && _ && _); [done|]. destruct f; cbn. by destruct (ms_complete s), (_ || _).
Qed.

Lemma withSources_stored l f :
  f_Hash (withSources l f) = f_Hash f ∧ f_Name (withSources l f) = f_Name f ∧ f_Size (withSources l f) = f_Size f.
Proof. unfold withSources. destruct (countSource_stored (f_Size f) l { f with f_Sources := 0; f_Completed := 0; f_SourceID := 0; f_SourcePort := 0 }) as (->&->&->). by destruct f. Qed.

Section Queries.
Context `{Unicode} `{Charmap} `{SortSliceLaws}.
Context (m : MemoryEngine) (D : list departure) (Hr : reachable (m, D)).

Lemma fileLocked_at id :
  r_live (recAt m id) = true → fileLocked m id = withSources (sourcesAt m (r_hash (recAt m id))) (recFile (recAt m id)).
Proof.
  intros Hl. destruct (reachable_wf _ Hr) as ([C Hok]&_). cbn in Hok. unfold fileLocked, liveFieldsLocked, withSources, sourcesAt.
  rewrite (holds_head C m Hok id (r_hash (recAt m id)) (r_size (recAt m id))) by (by apply holds_live). by destruct (recFile (recAt m id)).
Qed.

(** A file of the catalogue with its sources counted. *)
Definition shown (f : File) : Prop := ∃ key size g, fileAt m key size = Some g ∧ f = withSources (sourcesAt m key) g.

Lemma shown_iff f : shown f ↔ ∃ id, r_live (recAt m id) = true ∧ f = fileLocked m id.
Proof.
  destruct (reachable_wf _ Hr) as ([C Hok]&_). cbn in Hok. unfold shown. split.
  - intros (key&size&g&Hg&->). apply (fileAt_Some C m Hok) in Hg as (id&(Hl&<-&<-)%holds_live&->). exists id. split; [done|]. by rewrite fileLocked_at.
  - intros (id&Hl&->). exists (r_hash (recAt m id)), (r_size (recAt m id)), (recFile (recAt m id)). rewrite fileLocked_at by done.
    split; [|done]. apply (fileAt_Some C m Hok). exists id. split; [|done]. by apply holds_live.
Qed.

Lemma live_range id : r_live (recAt m id) = true → (id < length (e_recs m))%nat.
Proof. intros Hl%live_lookup. by eapply lookup_lt_Some. Qed.

(** ** Searching *)

Lemma recFile_stored r : f_Hash (recFile r) = take (r_hashLen r) (r_hash r) ∧ f_Name (recFile r) = r_name r ∧ f_Size (recFile r) = r_size r.
Proof. by destruct r. Qed.

(** The chain of a hash has every file a hash leaf matches. *)
Lemma hashIDs_complete id : r_live (recAt m id) = true → hashComplete (Some (hashIDsLocked m)) (fileLocked m id) id.
Proof.
  intros Hl lookup e [= <-] Hm. destruct (reachable_wf _ Hr) as ([C Hok]&_). cbn in Hok. pose proof (reachable_hashed _ Hr id) as Hh. cbn in Hh.
  unfold matchHashLeaf in Hm. case_bool_decide as Eh; [|done]. cbn [negb] in Hm. rewrite fileLocked_at in Eh, Hm by done.
  destruct (withSources_stored (sourcesAt m (r_hash (recAt m id))) (recFile (recAt m id))) as (E1&_&E3).
  destruct (recFile_stored (recAt m id)) as (E1'&_&E3'). rewrite E1, E1' in Eh. rewrite E3, E3' in Hm.
  unfold hashIDsLocked. apply list_elem_of_filter. rewrite <- Eh, Hh. split; [done|].
  rewrite (chainOf_ok C m _ Hok). destruct (holds_chain C m id (r_hash (recAt m id)) (r_size (recAt m id)) Hok) as (l&->&Hin); [by apply holds_live|done].
Qed.

Lemma omap_matches l l' (f : nat → option (nat * File)) :
  ascending l → ascending l' → (∀ id, f id ≠ None → id ∈ l ↔ id ∈ l') → omap f l = omap f l'.
Proof.
  assert (∀ l : list nat, omap f l = omap f (filter (λ id, is_Some (f id)) l)) as Hf.
  { clear. intros l. induction l as [|i l IH]; [done|]. rewrite filter_cons. case_decide as Hi; cbn.
    - destruct (f i); [by rewrite IH|done].
    - destruct (f i); [by destruct Hi|done]. }
  assert (∀ l : list nat, ascending l → ascending (filter (λ id, is_Some (f id)) l)) as Hs.
  { clear. induction 1 as [|i l Hl IH Hi]; [constructor|]. rewrite filter_cons. case_decide; [|done]. constructor; [done|].
    rewrite Forall_forall in *. intros j [_ ?]%list_elem_of_filter. auto. }
  intros Hl Hl' Hin. rewrite (Hf l), (Hf l'). f_equal. apply ascending_unique; [by apply Hs..|].
  intros id. rewrite !list_elem_of_filter. split; intros [Hi ?]; (split; [done|]); apply Hin; try done; intros E; rewrite E in Hi; by destruct Hi.
Qed.

Lemma ascending_seq a n : ascending (seq a n).
Proof.
  revert a. induction n as [|n IH]; intros a; [constructor|]. cbn. constructor; [done|]. apply Forall_forall. intros i Hi%elem_of_seq. lia.
Qed.

(** The candidates of the index give the matches of a scan. *)
Lemma candidates_scan expr :
  let scan := omap (matchLocked m expr) (seq 0 (length (e_recs m))) in
  match candidates (e_names m) expr (searchLimit m) (Some (hashIDsLocked m)) with
  | Some ids => omap (matchLocked m expr) ids = scan
  | None => True
  end.
Proof.
  destruct (reachable_wf _ Hr) as (_&_&[Hwf Hlive _]). cbn in Hwf, Hlive. intros scan.
  assert (∀ id, r_live (recAt m id) = true → narrows (candidates (e_names m) expr (searchLimit m) (Some (hashIDsLocked m))) id
    (matchNode expr (fileLocked m id) (ToLower (f_Name (fileLocked m id))))) as Hn.
  { intros id Hl. apply candidates_narrow; [done| |by apply hashIDs_complete]. rewrite fileLocked_at by done.
    destruct (withSources_stored (sourcesAt m (r_hash (recAt m id))) (recFile (recAt m id))) as (_&->&_).
    destruct (recFile_stored (recAt m id)) as (_&->&_). by apply Hlive. }
  destruct (candidates _ _ _ _) as [ids|]; [|done].
  assert (∀ id, matchLocked m expr id ≠ None → r_live (recAt m id) = true ∧ match_ expr (fileLocked m id) = true) as Hm.
  { intros id. unfold matchLocked. destruct (r_live (recAt m id)); [|done]. by destruct (match_ _ _). }
  destruct (decide (Exists (λ id, is_Some (matchLocked m expr id)) (seq 0 (length (e_recs m))))) as [He|He].
  - apply omap_matches; [|apply ascending_seq|].
    + apply Exists_exists in He as (id&_&[x Hx]). destruct (Hm id) as [Hl _]; [congruence|]. by destruct (Hn id Hl) as [? _].
    + intros id Hid. destruct (Hm id Hid) as [Hl Hmatch]. split; intros _.
      * apply elem_of_seq. pose proof (live_range id Hl). lia.
      * destruct (Hn id Hl) as (_&Hp&Hin). unfold match_ in Hmatch. destruct (matchNode _ _ _) as [b p]. cbn in *. subst p. by apply Hin.
  - assert (∀ id, matchLocked m expr id = None) as Hnone.
    { intros id. destruct (matchLocked m expr id) eqn:E; [|done]. destruct He. apply Exists_exists. exists id.
      destruct (Hm id) as [Hl _]; [congruence|]. split; [apply elem_of_seq; pose proof (live_range id Hl); lia|]. by rewrite E. }
    assert (∀ l : list nat, omap (matchLocked m expr) l = []) as Ho by (intros l; induction l as [|i l IH]; [done|]; cbn; by rewrite Hnone).
    unfold scan. by rewrite !Ho.
Qed.

Lemma elem_of_matches expr f :
  f ∈ (omap (matchLocked m expr) (seq 0 (length (e_recs m)))).*2 ↔ shown f ∧ match_ expr f = true.
Proof.
  rewrite shown_iff, list_elem_of_fmap. split.
  - intros ([i g]&->&Hin). apply list_elem_of_omap in Hin as (id&_&E). unfold matchLocked in E. destruct (r_live (recAt m id)) eqn:Hl; [|done].
    destruct (match_ expr (fileLocked m id)) eqn:Em; [|done]. injection E as <- <-. split; [by exists id|done].
  - intros [(id&Hl&->) Hm]. exists (id, fileLocked m id). split; [done|]. apply list_elem_of_omap. exists id. split.
    + apply elem_of_seq. pose proof (live_range id Hl). lia.
    + unfold matchLocked. by rewrite Hl, Hm.
Qed.

Lemma matches_ids expr (l : list nat) : NoDup l → NoDup (omap (matchLocked m expr) l).*1.
Proof.
  assert (∀ l : list nat, (omap (matchLocked m expr) l).*1 = filter (λ id, is_Some (matchLocked m expr id)) l) as E.
  { clear. intros l. induction l as [|i l IH]; [done|]. rewrite filter_cons. cbn. case_decide as Hi.
    - destruct (matchLocked m expr i) as [p|] eqn:E; [|by destruct Hi]. cbn. rewrite IH. f_equal. unfold matchLocked in E.
      destruct (r_live _); [|done]. destruct (match_ _ _); [|done]. by injection E as <-.
    - destruct (matchLocked m expr i); [by destruct Hi|done]. }
  intros Hnd. rewrite E. by apply NoDup_filter.
Qed.
End Queries.

Section Search.
Context `{Unicode} `{Charmap} `{SortSliceLaws}.

(** C20: a search through the index answers what a scan of the whole catalogue would. In every
    reachable state there is a list of matches, by distinct records, that has exactly the
    files of the catalogue which, with their sources counted, match the expression; the
    answer is that list, or of more than 1000 matches the best 1000 of the first 20,000.
    The name index, its limits and its stale entries do not show. *)
Theorem search_is_scan m D expr :
  reachable (m, D) → searchPrunes expr = false →
  ∃ ms : list (nat * File), NoDup ms.*1 ∧ (∀ f, f ∈ ms.*2 ↔ shown m f ∧ match_ expr f = true) ∧
    FindBySearch (Some expr) m =
      if length ms <=? MaxSearchResults then ms.*2
      else (take (Z.to_nat MaxSearchResults)
             (merge_sort (better (searchSeed expr)) (take (Z.to_nat searchRankScan) ms))).*2.
Proof.
  intros Hr Hp. exists (omap (matchLocked m expr) (seq 0 (length (e_recs m)))).
  pose proof (matches_ids m expr _ (NoDup_seq 0 (length (e_recs m)))) as Hnd.
  split_and!; [done|by eapply elem_of_matches|]. rewrite <- rankAll_best by done. unfold FindBySearch. rewrite Hp.
  pose proof (candidates_scan m D Hr expr) as Hc. by destruct (candidates _ _ _ _) as [ids|]; [rewrite Hc|].
Qed.
End Search.

(** ** Sources of a file *)

Section Sources.
Context `{Unicode} `{Charmap} `{SortSlice}.

Lemma storedSources_split m D id : owned m D → storedSources m id = sourcesOf m id.
Proof.
  intros Ho. unfold storedSources, sourcesOf. destruct (r_first (recAt m id)) eqn:E; [done|].
  unfold moreOf. by rewrite (split_ok_first m id (ow_split m D Ho) E).
Qed.

Lemma lookups m D hash size info files :
  wf m D →
  let key := hashArray hash in
  GetSources hash size m =
    match fileAt m key size with
    | Some _ => take 255 (map source (filter (λ s, size = 0 ∨ ms_size s = 0 ∨ ms_size s = size) (rev (sourcesAt m key))))
    | None => []
    end ∧
  GetSourcesByHash hash m = take 255 (map source (rev (sourcesAt m key))) ∧
  HasOffered info files m =
    map (λ f, bool_decide (is_Some (sessions m !! resolved info m)) &&
              existsb (λ s, store s =? resolved info m) (sourcesAt m (hashArray (f_Hash f)))) files.
Proof.
  intros ([C Hok]&Ho&_) key.
  assert (∀ h sz, capSourcesLocked h sz m = take 255 (map source (filter (λ s, sz = 0 ∨ ms_size s = 0 ∨ ms_size s = sz) (rev (sourcesOf m h))))) as Hcap.
  { intros h sz. unfold capSourcesLocked. rewrite (storedSources_split m D) by done. do 2 f_equal. apply list_filter_iff. intros s.
    rewrite !orb_true_iff, !Z.eqb_eq. tauto. }
  split_and!.
  - unfold GetSources, fileAt. fold key. destruct (findLocked key size m) as [id|] eqn:E; [|done].
    apply (findLocked_iff C) in E; [|done]. unfold sourcesAt. rewrite (holds_head C m Hok id key size E). apply Hcap.
  - unfold GetSourcesByHash, sourcesAt. fold key. destruct (e_files m !! key) as [h|]; [|done]. rewrite Hcap.
    do 2 f_equal. apply filter_all. by left.
  - unfold HasOffered, sessions. rewrite lookup_fmap. destruct (e_clients m !! resolved info m) as [c|].
    + rewrite (bool_decide_eq_true_2 (is_Some (mc_info <$> Some c))) by done. apply map_ext. intros f. unfold sourcesAt. destruct (e_files m !! _); [|done].
      by rewrite (storedSources_split m D).
    + by rewrite bool_decide_eq_false_2 by (by intros [? ?]).
Qed.

(** Source lookups. In every reachable state the sources of a file are those of its hash
    that were offered at its size or at no size, newest first and at most 255; by hash alone,
    all of the hash; a file that is not stored has none. What a session has offered is what
    it is a source of. *)
Lemma source_lookups m D hash size info files :
  reachable (m, D) →
  let key := hashArray hash in
  GetSources hash size m =
    match fileAt m key size with
    | Some _ => take 255 (map source (filter (λ s, size = 0 ∨ ms_size s = 0 ∨ ms_size s = size) (rev (sourcesAt m key))))
    | None => []
    end ∧
  GetSourcesByHash hash m = take 255 (map source (rev (sourcesAt m key))) ∧
  HasOffered info files m =
    map (λ f, bool_decide (is_Some (sessions m !! resolved info m)) &&
              existsb (λ s, store s =? resolved info m) (sourcesAt m (hashArray (f_Hash f)))) files.
Proof. intros Hr. apply (lookups m D), (reachable_wf _ Hr). Qed.
End Sources.

(** ** Browsing *)

Section Browse.
Context (m : MemoryEngine).

(** What a page shows of a record. *)
Definition browsed (id : nat) : option File :=
  let f := fileLocked m id in
  if r_live (recAt m id) && negb (f_Sources f =? 0) then Some { f with f_SourceID := 0; f_SourcePort := 0 } else None.

Lemma browseFrom_spec k from limit :
  (0 < limit)%nat →
  let '(fs, next) := browseFrom m (seq from k) limit in
  (length fs <= limit)%nat ∧
  match next with
  | Some j => (from < j < from + k)%nat ∧ omap browsed (seq from k) = fs ++ omap browsed (seq j (from + k - j))
  | None => omap browsed (seq from k) = fs
  end.
Proof.
  revert from limit. induction k as [|k IH]; intros from limit L; [split; [cbn; lia|done]|].
  change (seq from (S k)) with (from :: seq (S from) k). cbn [browseFrom]. change (omap browsed (from :: seq (S from) k)) with
    (match browsed from with Some f => f :: omap browsed (seq (S from) k) | None => omap browsed (seq (S from) k) end).
  assert (browsed from = if r_live (recAt m from) && negb (f_Sources (fileLocked m from) =? 0)
    then Some { fileLocked m from with f_SourceID := 0; f_SourcePort := 0 } else None) as -> by done.
  pose proof (IH (S from) limit L) as Hskip.
  assert (∀ j, S from + k - j = from + S k - j)%nat as Hj by lia.
  destruct (r_live (recAt m from)); cbn [negb andb].
  2:{ destruct (browseFrom m (seq (S from) k) limit) as [fs [j|]]; [|done]. destruct Hskip as (?&?&E). rewrite Hj in E. split; [done|]. split; [lia|done]. }
  destruct (f_Sources (fileLocked m from) =? 0); cbn [negb].
  { destruct (browseFrom m (seq (S from) k) limit) as [fs [j|]]; [|done]. destruct Hskip as (?&?&E). rewrite Hj in E. split; [done|]. split; [lia|done]. }
  destruct limit as [|[|limit]]; [lia| |].
  - case_bool_decide as E.
    + split; [cbn; lia|]. rewrite E. done.
    + split; [cbn; lia|]. destruct k; [done|]. split; [lia|]. cbn [app]. f_equal. do 2 f_equal. lia.
  - pose proof (IH (S from) (S limit) ltac:(lia)) as Hr. cbn [pred]. destruct (browseFrom m (seq (S from) k) (S limit)) as [fs [j|]].
    + destruct Hr as (?&?&E). rewrite Hj in E. split; [cbn; lia|]. split; [lia|]. cbn [app]. by rewrite E.
    + destruct Hr as (?&E). split; [cbn; lia|]. by rewrite E.
Qed.

Definition cursorAt (j : nat) : bytes := be_split 8 (e_layout m) ++ be_split 4 j.

Lemma be_round (k : nat) z : fits (8 * k) z → be_combine (be_split k z) = z.
Proof. intros Hz. unfold be_combine, be_split. rewrite rev_involutive. by apply le_combine_split. Qed.

Lemma length_be_split k z : length (be_split k z) = k.
Proof. unfold be_split. by rewrite length_rev, length_le_split. Qed.

(** The walk from [from] on, of one page. *)
Definition pageFrom (from : nat) (limit : Z) : result (list File * bytes) :=
  let '(out, next) := browseFrom m (seq from (length (e_recs m) - from)) (Z.to_nat (browseLimit limit)) in
  Ok (out, match next with Some j => cursorAt j | None => [] end).

Lemma browse_first limit : BrowseFiles [] limit m = pageFrom 0 limit.
Proof. done. Qed.

Lemma browse_cursor (j : nat) limit :
  fits 64 (e_layout m) → fits 32 j → BrowseFiles (cursorAt j) limit m = pageFrom j limit.
Proof.
  intros Hl Hj. unfold BrowseFiles. assert (length (cursorAt j) = 12%nat) as L by (unfold cursorAt; rewrite length_app, !length_be_split; done).
  rewrite (bool_decide_eq_false_2 (cursorAt j = [])) by (intros E; rewrite E in L; done).
  rewrite bool_decide_eq_true_2 by done. unfold cursorAt. rewrite take_app_le, drop_app_ge by (rewrite length_be_split; lia).
  rewrite take_ge, length_be_split, Nat.sub_diag, drop_0 by (rewrite length_be_split; lia). rewrite !be_round by done.
  rewrite Z.eqb_refl. cbn [negb orb]. by rewrite Nat2Z.id.
Qed.

(** All pages in turn, as a client asks for them. *)
Fixpoint browseAll (steps : nat) (cursor : bytes) (limit : Z) : option (list (list File)) :=
  match steps with
  | O => None
  | S steps =>
      match BrowseFiles cursor limit m with
      | Ok (page, next) => if bool_decide (next = []) then Some [page] else cons page <$> browseAll steps next limit
      | _ => None
      end
  end.

Lemma browsePages_from steps from limit cursor :
  fits 64 (e_layout m) → Z.of_nat (length (e_recs m)) <= 2 ^ 32 → (from <= length (e_recs m))%nat → (length (e_recs m) - from < steps)%nat →
  BrowseFiles cursor limit m = pageFrom from limit →
  ∃ pages, browseAll steps cursor limit = Some pages ∧ Forall (λ page, Z.of_nat (length page) <= browseLimit limit) pages ∧
    concat pages = omap browsed (seq from (length (e_recs m) - from)).
Proof.
  intros Hl Hn. assert (0 < Z.to_nat (browseLimit limit))%nat as Hlim by (unfold browseLimit, MaxBrowsePage; lia).
  revert from cursor. induction steps as [|steps IH]; intros from cursor L1 L2 E; [lia|]. cbn [browseAll]. rewrite E. unfold pageFrom.
  pose proof (browseFrom_spec (length (e_recs m) - from) from (Z.to_nat (browseLimit limit)) Hlim) as Hp.
  destruct (browseFrom _ _ _) as [page [j|]]; destruct Hp as [Hlen Hp].
  - destruct Hp as [Hj Ho]. rewrite bool_decide_eq_false_2.
    2:{ intros E0. apply (f_equal length) in E0. unfold cursorAt in E0. by rewrite length_app, !length_be_split in E0. }
    destruct (IH j (cursorAt j)) as (pages&Ea&Hall&Hc); [lia|lia|apply browse_cursor; [done|unfold fits; lia]|].
    exists (page :: pages). rewrite Ea. split_and!; [done|constructor; [lia|done]|]. cbn [concat]. rewrite Hc, Ho. do 2 f_equal. f_equal. lia.
  - exists [page]. rewrite bool_decide_eq_true_2 by done. split_and!; [done|constructor; [lia|constructor]|]. cbn. by rewrite app_nil_r.
Qed.
End Browse.

Section BrowseAll.
Context `{Unicode} `{Charmap} `{SortSlice}.

(** Browsing ends and shows everything. While the engine does not change, asking for page
    after page with the cursor of the one before comes to an end within as many requests as
    there are records; no page is longer than the limit, and the pages together are the files
    of the catalogue that have a source, each record once and in order, without the fields
    that name a source. *)
Lemma browse_pages m D limit :
  reachable (m, D) → Z.of_nat (length (e_recs m)) <= 2 ^ 32 →
  ∃ pages, browseAll m (S (length (e_recs m))) [] limit = Some pages ∧
    Forall (λ page, Z.of_nat (length page) <= browseLimit limit) pages ∧
    concat pages = omap (browsed m) (seq 0 (length (e_recs m))) ∧
    ∀ f, f ∈ concat pages ↔ ∃ g, shown m g ∧ f_Sources g ≠ 0 ∧ f = { g with f_SourceID := 0; f_SourcePort := 0 }.
Proof.
  intros Hr Hn. destruct (reachable_wf _ Hr) as (_&Ho&_). destruct (ow_range m D Ho) as [_ Hlay].
  destruct (browsePages_from m (S (length (e_recs m))) 0 limit [] Hlay Hn) as (pages&E&Hall&Hc); [lia|lia|apply browse_first|].
  rewrite Nat.sub_0_r in Hc. exists pages. split_and!; [done|done|done|]. intros f. rewrite Hc, list_elem_of_omap.
  setoid_rewrite (shown_iff m D Hr). unfold browsed. split.
  - intros (id&_&E1). destruct (r_live (recAt m id)) eqn:Hl; [|done]. destruct (Z.eqb_spec (f_Sources (fileLocked m id)) 0); [done|].
    injection E1 as <-. exists (fileLocked m id). split_and!; [by exists id|done|done].
  - intros (g&(id&Hl&->)&Hs&->). exists id. split; [apply elem_of_seq; pose proof (live_range m id Hl); lia|]. rewrite Hl.
    by rewrite (proj2 (Z.eqb_neq _ _) Hs).
Qed.
End BrowseAll.

(** ** Witnesses *)

Section Witness.
#[local] Existing Instances asciiTables latin1 mergeSortSlice mergeSortSlice_laws.

Lemma search_is_scan_witness :
  ∃ f, FindBySearch (Some (textExpr (str "cabinet"))) demoState.1 = [f] ∧ shown demoState.1 f ∧ f_Sources f = 2.
Proof.
  destruct (search_is_scan demoState.1 demoState.2 (textExpr (str "cabinet")) demo_reachable_pair ltac:(by vm_compute)) as (ms&_&Hin&E).
  assert (length (FindBySearch (Some (textExpr (str "cabinet"))) demoState.1) = 1%nat ∧
    Forall (λ f, f_Sources f = 2) (FindBySearch (Some (textExpr (str "cabinet"))) demoState.1)) as [L Hf].
  { split; [by vm_compute|]. apply (bool_decide_unpack _). by vm_compute. }
  destruct (Z.leb_spec (length ms) MaxSearchResults) as [Hl|Hl].
  - rewrite E in L, Hf |- *. destruct ms.*2 as [|f [|]]; [done| |done]. exists f. split_and!; [done| |by inversion Hf].
    apply Hin. by left.
  - exfalso. rewrite E, length_fmap, length_take, merge_sort_Permutation, length_take in L. unfold MaxSearchResults, searchRankScan in *. lia.
Defined.

End Witness.
