(* ===== verification/Engine.v ===== *)
(** * What the server asks of its storage: the [Engine] interface of [storage/factory.go]

    The methods the request handlers call, and the laws the handlers' theorems use of them.
    The memory engine has an instance; a database engine would be another. *)

From S2P Require Import Prelude Types Search.
Local Open Scope Z_scope.

Class Engine (E : Type) := {
  eng_IsConnected : ClientInfo → E → bool;
  eng_Connect : ClientInfo → E → E * result Z;
  eng_Disconnect : ClientInfo → E → E;
  eng_ClientsCountChecked : E → result Z;
  eng_FilesCountEstimateChecked : E → result Z;
  eng_AddFiles : list File → ClientInfo → E → E;
  eng_OfferedCount : ClientInfo → E → Z;
  eng_HasOffered : ClientInfo → list File → E → list bool;
  eng_GetSources : bytes → Z → E → list Source;
  eng_GetSourcesByHash : bytes → E → list Source;
  eng_RelatedFiles : list FileKey → Z → Z → E → list File;
  eng_FindBySearch : option SearchExpr → E → list File;
  eng_ServersAll : E → list Server;
}.

(** [storage.ClientInfo{Hash: hash}]. *)
Definition hashInfo (hash : bytes) : ClientInfo := mkClientInfo 0 0 0 hash false 0 0 [] false.

Definition clientAddr (info : ClientInfo) : Z * Z := (ci_ID info, ci_Port info).

(** A hash copied into an array of sixteen bytes. *)
Definition array16 (hash : bytes) : bytes := take 16 (hash ++ replicate 16 0).

(** What a file is told apart by. *)
Definition fileKey (f : File) : bytes * Z := (array16 (f_Hash f), f_Size f).

(** The laws. [eng_sessions] are the sessions online by their identifier, [eng_row] is the
    one a user hash is online as, [eng_ok] what the engine keeps true of itself, and
    [eng_fresh] says that it has an identifier left. *)
Class EngineLaws (E : Type) `{Engine E} := {
  eng_ok : E → Prop;
  eng_fresh : E → Prop;
  eng_sessions : E → gmap Z ClientInfo;
  eng_row : E → bytes → option Z;
  eng_connected e h : h ≠ [] → eng_IsConnected (hashInfo h) e = bool_decide (is_Some (eng_row e h));
  eng_row_session e h k : eng_ok e → eng_row e h = Some k → ∃ i, eng_sessions e !! k = Some i ∧ ci_Hash i = h;
  eng_session_id e k i : eng_ok e → eng_sessions e !! k = Some i → 0 < k ∧ ci_StoreID i = k;
  eng_connect info e : eng_ok e → eng_fresh e → ci_Hash info ≠ [] →
    let '(e', r) := eng_Connect info e in
    eng_ok e' ∧
    match r with
    | Ok k =>
        eng_sessions e !! k = None ∧ eng_sessions e' = <[k := { info with ci_StoreID := k }]> (eng_sessions e) ∧
        ∀ h, eng_row e' h = if bool_decide (h = ci_Hash info) then Some k else eng_row e h
    | Err _ => eng_sessions e' = eng_sessions e ∧ ∀ h, eng_row e' h = eng_row e h
    | Panic => False
    end;
  eng_disconnect info e k : eng_ok e →
    (ci_StoreID info = k ∧ is_Some (eng_sessions e !! k)) ∨
    (ci_StoreID info = 0 ∧ ci_Hash info ≠ [] ∧ eng_row e (ci_Hash info) = Some k) →
    let e' := eng_Disconnect info e in
    eng_ok e' ∧ (eng_fresh e → eng_fresh e') ∧ eng_sessions e' = delete k (eng_sessions e) ∧
    ∀ h, eng_row e' h = if bool_decide (eng_row e h = Some k) then None else eng_row e h;
  eng_add files info e : eng_ok e → ci_StoreID info ≠ 0 →
    (∀ i, eng_sessions e !! ci_StoreID info = Some i → clientAddr info = clientAddr i) →
    let e' := eng_AddFiles files info e in
    eng_ok e' ∧ eng_sessions e' = eng_sessions e ∧ ∀ h, eng_row e' h = eng_row e h;
  eng_offered info e : eng_ok e → ci_StoreID info ≠ 0 →
    (∀ i, eng_sessions e !! ci_StoreID info = Some i → clientAddr info = clientAddr i) →
    ∃ known : File → bool, ∀ files,
      eng_HasOffered info files e = map known files ∧
      eng_OfferedCount info (eng_AddFiles files info e) <=
        eng_OfferedCount info e + size (list_to_set (map fileKey (filter (λ f, known f = false) files)) : gset (bytes * Z));
  eng_offered_others files info e k i : eng_ok e → ci_StoreID info ≠ 0 →
    (∀ i, eng_sessions e !! ci_StoreID info = Some i → clientAddr info = clientAddr i) →
    eng_sessions e !! k = Some i → k ≠ ci_StoreID info →
    eng_OfferedCount i (eng_AddFiles files info e) <= eng_OfferedCount i e;
  eng_offered_connect info e k i : eng_ok e → eng_fresh e → ci_Hash info ≠ [] →
    eng_sessions (eng_Connect info e).1 !! k = Some i →
    eng_OfferedCount i (eng_Connect info e).1 = if bool_decide (eng_sessions e !! k = None) then 0 else eng_OfferedCount i e;
  eng_offered_disconnect info e k i : eng_ok e → eng_sessions (eng_Disconnect info e) !! k = Some i →
    eng_OfferedCount i (eng_Disconnect info e) <= eng_OfferedCount i e;
  eng_served e hash size src : eng_ok e → src ∈ eng_GetSources hash size e ∨ src ∈ eng_GetSourcesByHash hash e →
    ∃ k i, eng_sessions e !! k = Some i ∧ (src_ID src, src_Port src) = clientAddr i;
}.
