(* ===== verification/MemAPI.v ===== *)
(** * The memory engine as the server's storage

    The memory engine behind the [Engine] interface, and the laws of the interface proved of
    it: what the theorems on the request handlers ask of a storage, this one gives. *)

From S2P Require Import Prelude Types Text Search SortedIDs FileMeta NameIndex Rank Servers.
From S2P Require Import MemEngine MemSources MemStore MemInv MemOffer MemLeave MemClean MemRefine MemQuery Engine.
Local Open Scope Z_scope.
#[local] Set Warnings "-clear-no-such-hyp".

Section Instance_.
Context `{Unicode} `{Charmap} `{SortSlice}.

(** No call fails: the counters are held in memory. *)
#[export] Instance memoryEngine : Engine MemoryEngine := {
  eng_IsConnected := IsConnected;
  eng_Connect := λ info m, let '(m, id) := Connect info m in (m, Ok id);
  eng_Disconnect := Disconnect;
  eng_ClientsCountChecked := λ m, Ok (Z.of_nat (ClientsCount m));
  eng_FilesCountEstimateChecked := λ m, Ok (FilesCount m);
  eng_AddFiles := AddFiles;
  eng_OfferedCount := λ info m, Z.of_nat (OfferedCount info m);
  eng_HasOffered := HasOffered;
  eng_GetSources := GetSources;
  eng_GetSourcesByHash := GetSourcesByHash;
  eng_RelatedFiles := RelatedFiles;
  eng_FindBySearch := FindBySearch;
  eng_ServersAll := ServersAll;
}.

(** ** Offers *)

(** What a batch of offers of session [k] leaves as it was, and the hashes it can add to
    the ones a session is a source of. *)
Record offered (files : list File) (k : Z) (m m' : MemoryEngine) : Prop := {
  od_wf : wf m' [];
  od_sessions : sessions m' = sessions m;
  od_rows : e_clientsByHash m' = e_clientsByHash m;
  od_next : e_nextClientID m' = e_nextClientID m;
  od_hashes : ∀ key s, s ∈ sourcesAt m' key →
    (store s = k ∧ key ∈ map (λ f, hashArray (f_Hash f)) files) ∨ ∃ t, t ∈ sourcesAt m key ∧ store t = store s;
}.

Lemma offered_one file info m :
  wf m [] → ci_StoreID info ≠ 0 → (∀ i, sessions m !! ci_StoreID info = Some i → clientAddr info = clientAddr i) →
  offered [file] (ci_StoreID info) m (addFileLocked file info m).
Proof.
  intros Hwf Hk Ha. unfold sessions in Ha. rewrite lookup_fmap in Ha. destruct (e_clients m !! ci_StoreID info) as [c|] eqn:Ec.
  - assert (address info = address (mc_info c)) as Ha' by by apply Ha.
    destruct (offer_known m [] file info c Hwf Hk Ec Ha') as [Hwf' [Hs _ _ Hsrc Hoth]].
    destruct (addFile_shape m [] file info c Hwf Hk Ec Ha') as (m1&head&cs&_&_&[Hst _ _ _ _ _]&Hm&_).
    split; [done|done| | |].
    + rewrite Hm. transitivity (e_clientsByHash m1); [by destruct m1|apply Hst].
    + rewrite Hm. transitivity (e_nextClientID m1); [by destruct m1|apply Hst].
    + intros key s Hin. destruct (decide (key = hashArray (f_Hash (NormalizeFile file)))) as [->|Hne]; [|right; exists s; by rewrite <- Hoth].
      rewrite Hsrc in Hin. apply elem_of_app in Hin as [[_ ?]%list_elem_of_filter| ->%list_elem_of_singleton]; [right; by exists s|left].
      split; [|left]. destruct Hwf as (_&Ho&_). rewrite <- (offerSource_value m [] file info c) by done. by eapply offerSource_store.
  - rewrite offer_unknown by done. split; try done. intros key s ?. right. by exists s.
Qed.

Lemma offered_all files info m :
  wf m [] → ci_StoreID info ≠ 0 → (∀ i, sessions m !! ci_StoreID info = Some i → clientAddr info = clientAddr i) →
  offered files (ci_StoreID info) m (AddFiles files info m).
Proof.
  unfold AddFiles. revert m. induction files as [|f files IH]; intros m Hwf Hk Ha; cbn [fold_left].
  - split; try done. intros key s ?. right. by exists s.
  - destruct (offered_one f info m Hwf Hk Ha) as [Hwf1 Hs1 Hr1 Hn1 Hh1].
    destruct (IH _ Hwf1 Hk) as [Hwf2 Hs2 Hr2 Hn2 Hh2]; [by rewrite Hs1|].
    split; [done|congruence..|]. intros key s Hin. destruct (Hh2 key s Hin) as [[? ?]|(t&Ht&Et)]; [left; split; [done|by right]|].
    destruct (Hh1 key t Ht) as [[Hst ->%list_elem_of_singleton]|(u&?&?)]; [left; split; [congruence|left]|right; exists u; split; congruence].
Qed.

(** The hashes a session is a source of. *)
Definition shared (m : MemoryEngine) (c : memClient) : gset bytes := list_to_set (offeredHashes m c).

Lemma shared_spec m k c :
  wf m [] → e_clients m !! k = Some c →
  size (shared m c) = length (mc_offered c) ∧ ∀ key, key ∈ shared m c ↔ ∃ s, s ∈ sourcesAt m key ∧ store s = k.
Proof.
  intros ([C Hok]&Ho&_) Ec. destruct (offeredHashes_spec C m [] k c Hok Ho Ec) as [Hnd Hin]. unfold shared. split.
  - rewrite size_list_to_set by done. unfold offeredHashes. by rewrite length_map.
  - intros key. by rewrite elem_of_list_to_set.
Qed.

(** The count of a session that is a source of no more hashes than before. *)
Lemma offered_mono m m' k i i' :
  wf m [] → wf m' [] → sessions m !! k = Some i → sessions m' !! k = Some i' → i' = i →
  (∀ key s, s ∈ sourcesAt m' key → store s = k → ∃ t, t ∈ sourcesAt m key ∧ store t = k) →
  (OfferedCount i m' <= OfferedCount i m)%nat.
Proof.
  intros Hwf Hwf' Hi Hi' -> Hsub. unfold sessions in Hi, Hi'. rewrite lookup_fmap, fmap_Some in Hi, Hi'.
  destruct Hi as (c&Ec&->), Hi' as (c'&Ec'&Ei). pose proof Hwf as (_&Ho&_). destruct (ow_client m [] Ho k c Ec) as (Hk&Hid&_).
  unfold OfferedCount, resolved. rewrite Hid, (proj2 (Z.eqb_neq k 0)) by lia. rewrite Ec, Ec'.
  destruct (shared_spec m' k c' Hwf' Ec') as [<- Hin']. destruct (shared_spec m k c Hwf Ec) as [<- Hin].
  apply subseteq_size. intros key (s&Hs&Es)%Hin'. apply Hin. by apply (Hsub key s).
Qed.

(** Whether a session has offered a file. *)
Definition hasOffered (info : ClientInfo) (m : MemoryEngine) (f : File) : bool :=
  bool_decide (is_Some (sessions m !! resolved info m)) &&
  existsb (λ s, store s =? resolved info m) (sourcesAt m (hashArray (f_Hash f))).

(** A batch raises the count by no more than the distinct files that were not offered before. *)
Lemma offered_bound info files m :
  wf m [] → ci_StoreID info ≠ 0 → (∀ i, sessions m !! ci_StoreID info = Some i → clientAddr info = clientAddr i) →
  (OfferedCount info (AddFiles files info m) <= OfferedCount info m +
     size (list_to_set (map fileKey (filter (λ f, hasOffered info m f = false) files)) : gset (bytes * Z)))%nat.
Proof.
  intros Hwf Hk Ha. destruct (offered_all files info m Hwf Hk Ha) as [Hwf' Hs _ _ Hh]. set (m' := AddFiles files info m) in *.
  unfold OfferedCount, hasOffered, resolved in *. rewrite (proj2 (Z.eqb_neq _ _) Hk) in *. set (k := ci_StoreID info) in *.
  destruct (e_clients m' !! k) as [c'|] eqn:Ec'; [|lia].
  assert (sessions m !! k = Some (mc_info c')) as Hsess by (rewrite <- Hs; unfold sessions; by rewrite lookup_fmap, Ec').
  rewrite Hsess, bool_decide_eq_true_2 by done. cbn [andb]. set (new := map fileKey _).
  assert (∃ c, e_clients m !! k = Some c) as [c Ec].
  { unfold sessions in Hsess. rewrite lookup_fmap in Hsess. destruct (e_clients m !! k); [by eexists|done]. }
  rewrite Ec. destruct (shared_spec m' k c' Hwf' Ec') as [<- Hin']. destruct (shared_spec m k c Hwf Ec) as [<- Hin].
  assert (shared m' c' ⊆ shared m c ∪ list_to_set (map fst new)) as Hsub.
  { intros key (s&Hs'&Est)%Hin'. rewrite elem_of_union. destruct (decide (key ∈ shared m c)) as [?|Hno]; [by left|right].
    destruct (Hh key s Hs') as [[_ (f&->&Hf)%list_elem_of_fmap]|(t&Ht&Et)]; [|destruct Hno; apply Hin; exists t; split; congruence].
    apply elem_of_list_to_set, list_elem_of_fmap. exists (fileKey f). split; [done|]. apply list_elem_of_fmap. exists f.
    split; [done|]. apply list_elem_of_filter. split; [|done]. apply not_true_iff_false. intros (t&Ht&Et%Z.eqb_eq)%existsb_exists.
    apply Hno, Hin. exists t. split; [by apply list_elem_of_In|done]. }
  apply subseteq_size in Hsub. rewrite size_union_alt in Hsub.
  assert (size ((list_to_set (map fst new) : gset bytes) ∖ shared m c) <= size (list_to_set (map fst new) : gset bytes))%nat by (apply subseteq_size; set_solver).
  pose proof (size_image fst new). lia.
Qed.

(** ** The laws *)

Lemma disconnect_rows info m k :
  wf m [] → resolved info m = k → is_Some (sessions m !! k) →
  e_nextClientID (Disconnect info m) = e_nextClientID m ∧
  ∀ h, e_clientsByHash (Disconnect info m) !! h =
    if bool_decide (e_clientsByHash m !! h = Some k) then None else e_clientsByHash m !! h.
Proof.
  intros Hwf Hk Hs. unfold sessions in Hs. rewrite lookup_fmap, fmap_is_Some in Hs. destruct Hs as [c Ec].
  pose proof Hwf as (_&Ho&_). destruct (ow_client m [] Ho k c Ec) as (Hpos&_).
  unfold Disconnect. destruct (detach info m) as [m1 o] eqn:E. pose proof E as E1. unfold detach in E1. rewrite Hk in E1.
  rewrite (proj2 (Z.eqb_neq k 0)) in E1 by lia. rewrite Ec in E1.
  destruct o as [d|]; [|by destruct m]. destruct (detach_wf m [] info m1 d Hwf E) as (Hwf1&_).
  destruct (releaseAll_wf (S (length (dp_left d))) d m1 [] Hwf1 ltac:(lia)) as (_&(_&_&_&_&_&_&_&->&->)&_).
  injection E1 as <- _. split; [by destruct m|]. intros h.
  replace (e_clientsByHash _) with (if bool_decide (ci_Hash (mc_info c) ≠ []) && bool_decide (e_clientsByHash m !! ci_Hash (mc_info c) = Some k)
    then delete (ci_Hash (mc_info c)) (e_clientsByHash m) else e_clientsByHash m) by by destruct m.
  destruct (bool_decide_reflect (e_clientsByHash m !! h = Some k)) as [Eh|Hne].
  - destruct (ow_hash m [] Ho h k Eh) as (Hh&c'&Ec'&<-). assert (c' = c) as -> by congruence.
    rewrite !bool_decide_eq_true_2 by done. cbn [andb]. by rewrite lookup_delete_eq.
  - destruct (_ && _) eqn:Eb; [|done]. apply andb_true_iff in Eb as [_ Eb%bool_decide_eq_true]. rewrite lookup_delete_ne; [done|].
    intros <-. done.
Qed.

Lemma connect_law info m :
  wf m [] → e_nextClientID m + 1 < 2 ^ 64 → ci_Hash info ≠ [] →
  let '(m', k) := Connect info m in
  wf m' [] ∧ sessions m !! k = None ∧ sessions m' = <[k := { info with ci_StoreID := k }]> (sessions m) ∧
  ∀ h, e_clientsByHash m' !! h = if bool_decide (h = ci_Hash info) then Some k else e_clientsByHash m !! h.
Proof.
  intros Hwf Hn Hh. pose proof (connect_wf m [] info Hn Hwf) as Hwf'. pose proof Hwf as (_&Ho&_).
  assert (u64 (e_nextClientID m + 1) = e_nextClientID m + 1) as Hk by (apply Z.mod_small; pose proof (ow_range m [] Ho); lia).
  unfold Connect in *. rewrite Hk in *. set (k := e_nextClientID m + 1) in *. split_and!.
  - done.
  - destruct (sessions m !! k) as [i|] eqn:E; [|done]. unfold sessions in E. rewrite lookup_fmap, fmap_Some in E. destruct E as (c&Ec&->).
    destruct (ow_client m [] Ho k c Ec). lia.
  - unfold sessions. destruct m. cbn. by rewrite fmap_insert.
  - intros h. transitivity (<[ci_Hash info := k]> (e_clientsByHash m) !! h).
    { destruct m, info. cbn in *. by rewrite (bool_decide_eq_true_2 (_ ≠ [])). }
    destruct (bool_decide_reflect (h = ci_Hash info)) as [->|Hne]; [apply lookup_insert_eq|]. apply lookup_insert_ne. congruence.
Qed.

Lemma connect_count info m k i :
  wf m [] → e_nextClientID m + 1 < 2 ^ 64 → ci_Hash info ≠ [] → sessions (Connect info m).1 !! k = Some i →
  Z.of_nat (OfferedCount i (Connect info m).1) = if bool_decide (sessions m !! k = None) then 0 else Z.of_nat (OfferedCount i m).
Proof.
  intros Hwf Hn Hh Hi. pose proof (connect_law info m Hwf Hn Hh) as Hl. destruct (Connect info m) as [m' k'] eqn:E. cbn [fst] in *.
  destruct Hl as (Hwf'&Hk'&_). assert (e_clients m' = <[k' := mkMemClient { info with ci_StoreID := k' } (newMemPeer { info with ci_StoreID := k' }) []]> (e_clients m)) as Ec
    by (unfold Connect in E; injection E as <- <-; by destruct m).
  unfold sessions in *. rewrite lookup_fmap in Hi. apply fmap_Some in Hi as (c&Hc&->). pose proof Hwf' as (_&Ho&_).
  destruct (ow_client m' [] Ho k c Hc) as (Hk&Hid&_). unfold OfferedCount, resolved. rewrite Hid, (proj2 (Z.eqb_neq k 0)), Hc by lia.
  rewrite Ec in Hc. apply lookup_insert_Some in Hc as [[<- <-]|[Hne Hc]]; [by rewrite bool_decide_eq_true_2|].
  rewrite lookup_fmap, Hc. by rewrite bool_decide_eq_false_2.
Qed.

Lemma disconnect_law info m k :
  wf m [] →
  (ci_StoreID info = k ∧ is_Some (sessions m !! k)) ∨
  (ci_StoreID info = 0 ∧ ci_Hash info ≠ [] ∧ e_clientsByHash m !! ci_Hash info = Some k) →
  let m' := Disconnect info m in
  wf m' [] ∧ e_nextClientID m' = e_nextClientID m ∧ sessions m' = delete k (sessions m) ∧
  ∀ h, e_clientsByHash m' !! h = if bool_decide (e_clientsByHash m !! h = Some k) then None else e_clientsByHash m !! h.
Proof.
  intros Hwf Hk. destruct (disconnect_wf m [] info Hwf) as (Hwf'&_&Hs&_).
  assert (resolved info m = k ∧ is_Some (sessions m !! k)) as [Hr Hin].
  { unfold resolved, resolveStoreIDLocked. pose proof Hwf as (_&Ho&_). destruct Hk as [[<- Hs']|(E0&Hh&Er)].
    - split; [|done]. destruct (Z.eqb_spec (ci_StoreID info) 0) as [E|]; [|done]. exfalso. rewrite E in Hs'.
      destruct Hs' as [i Hi]. unfold sessions in Hi. rewrite lookup_fmap, fmap_Some in Hi. destruct Hi as (c&Ec&_).
      destruct (ow_client m [] Ho 0 c Ec). lia.
    - rewrite E0. cbn. rewrite bool_decide_eq_true_2, Er by done. split; [done|].
      destruct (ow_hash m [] Ho _ k Er) as (_&c&Ec&_). unfold sessions. rewrite lookup_fmap, Ec. by eexists. }
  destruct (disconnect_rows info m k Hwf Hr Hin) as [Hn Hrows]. cbn. by rewrite Hn, Hs, Hr.
Qed.

Lemma served_law m hash size src :
  wf m [] → src ∈ GetSources hash size m ∨ src ∈ GetSourcesByHash hash m →
  ∃ k i, sessions m !! k = Some i ∧ (src_ID src, src_Port src) = clientAddr i.
Proof.
  intros Hwf Hsrc. destruct (lookups m [] hash size (hashInfo []) [] Hwf) as (Hg&Hg'&_).
  assert (∃ s, s ∈ sourcesAt m (hashArray hash) ∧ src = source s) as (s&Hs&->).
  { assert (∀ l, src ∈ take 255 (map source l) → ∃ s, s ∈ l ∧ src = source s) as Htake.
    { intros l (i&(s&->&Hs)%list_elem_of_lookup_2%list_elem_of_fmap&_)%elem_of_take. by exists s. }
    assert (∀ (l : list memSource) s, s ∈ rev l → s ∈ l) as Hrev by (intros l s; by rewrite !list_elem_of_In, <- in_rev).
    destruct Hsrc as [Hs|Hs]; [rewrite Hg in Hs; destruct (fileAt m _ _); [|by apply elem_of_nil in Hs]|rewrite Hg' in Hs].
    - apply Htake in Hs as (s&[_ Hs]%list_elem_of_filter&->). eauto.
    - apply Htake in Hs as (s&Hs&->). eauto. }
  unfold sourcesAt in Hs. destruct (e_files m !! _) as [h|]; [|by apply elem_of_nil in Hs]. destruct Hwf as (_&Ho&_).
  pose proof (ow_owner m [] Ho h s Hs) as Hw. destruct (e_clients m !! store s) as [c|] eqn:Ec.
  - exists (store s), (mc_info c). unfold sessions. rewrite lookup_fmap, Ec. split; [done|]. apply Hw.
  - destruct Hw as (d&Hd&_). by apply elem_of_nil in Hd.
Qed.

#[export, refine] Instance memoryEngine_laws : EngineLaws MemoryEngine := {
  eng_ok := λ m, wf m [];
  eng_fresh := λ m, e_nextClientID m + 1 < 2 ^ 64;
  eng_sessions := sessions;
  eng_row := λ m h, e_clientsByHash m !! h;
}.
Proof.
  - intros m h Hh. cbn. unfold IsConnected. cbn. by rewrite bool_decide_eq_true_2.
  - intros m h k (_&Ho&_) E. destruct (ow_hash m [] Ho h k E) as (_&c&Ec&Hc). exists (mc_info c). unfold sessions. by rewrite lookup_fmap, Ec.
  - intros m k i (_&Ho&_) E. unfold sessions in E. rewrite lookup_fmap, fmap_Some in E. destruct E as (c&Ec&->).
    destruct (ow_client m [] Ho k c Ec) as (?&?&_). split; [lia|done].
  - intros info m Hwf Hn Hh. pose proof (connect_law info m Hwf Hn Hh) as Hc. cbn [eng_Connect memoryEngine].
    by destruct (Connect info m).
  - intros info m k Hwf Hk. destruct (disconnect_law info m k Hwf Hk) as (?&Hn&?&?). cbn. by rewrite Hn.
  - intros files info m Hwf Hk Ha. destruct (offered_all files info m Hwf Hk Ha) as [? Hs Hr _ _]. cbn. by rewrite Hr.
  - intros info m Hwf Hk Ha. exists (hasOffered info m). intros files. split; [apply (lookups m [] [] 0 info files Hwf)|].
    pose proof (offered_bound info files m Hwf Hk Ha) as Hb. cbn in *. lia.
  - intros files info m k i Hwf Hk Ha Hi Hne. destruct (offered_all files info m Hwf Hk Ha) as [Hwf' Hs _ _ Hh]. cbn.
    apply inj_le, (offered_mono m _ k i i); [done..|by rewrite Hs|done|]. intros key s Hin Est.
    destruct (Hh key s Hin) as [[? _]|(t&?&?)]; [congruence|exists t; split; congruence].
  - intros info m k i Hwf Hn Hh. cbn [eng_Connect eng_OfferedCount eng_sessions memoryEngine].
    change ((let '(m, id) := Connect info m in (m, Ok id)).1) with (Connect info m).1. apply connect_count; done.
  - intros info m k i Hwf Hi. cbn in *. destruct (disconnect_wf m [] info Hwf) as (Hwf'&_&Hs&Hsrc).
    assert (sessions m !! k = Some i) as Hi0 by (rewrite Hs in Hi; by apply lookup_delete_Some in Hi as [_ ?]).
    apply inj_le, (offered_mono m _ k i i); [done..|]. intros key s Hin Est. exists s. split; [|done]. rewrite Hsrc in Hin.
    case_decide; [by apply list_elem_of_filter in Hin as [_ ?]|done].
  - intros m hash size src. apply served_law.
Defined.
End Instance_.
