(* ===== verification/Sha256.v ===== *)
(** * [crypto/sha256] and [crypto/hmac], as the server uses them

    FIPS 180-4 on bytes, and HMAC (RFC 2104) over it. *)

From S2P Require Import Prelude Crypt.
Local Open Scope Z_scope.

(** ** SHA-256 *)

(** The constants are the first 32 bits of the fractional parts of the cube and square
    roots of the first primes. *)
Definition isPrime (n : nat) : bool := forallb (λ d, negb (n mod d =? 0)%nat) (seq 2 (n - 2)).
Definition primesUpTo (n : nat) : list Z := map Z.of_nat (List.filter isPrime (seq 2 (n - 1))).

(** The largest [r] in [lo, lo + 2^k) with [r^3 <= n]. *)
Fixpoint cubeRoot (k : nat) (lo n : Z) : Z :=
  match k with
  | O => lo
  | S k => let mid := lo + 2 ^ k in cubeRoot k (if mid * mid * mid <=? n then mid else lo) n
  end.

Definition sha256_K : list Z := Eval vm_compute in map (λ p, u32 (cubeRoot 40 0 (Z.shiftl p 96))) (primesUpTo 311).
Definition sha256_H : list Z := Eval vm_compute in map (λ p, u32 (Z.sqrt (Z.shiftl p 64))) (primesUpTo 19).

Definition rotr32 (x n : Z) : Z := rotl32 x (32 - n).
Definition be32 (b : bytes) : Z := le_combine (rev b).

Definition sigma0 (x : Z) : Z := Z.lxor (Z.lxor (rotr32 x 7) (rotr32 x 18)) (Z.shiftr x 3).
Definition sigma1 (x : Z) : Z := Z.lxor (Z.lxor (rotr32 x 17) (rotr32 x 19)) (Z.shiftr x 10).
Definition Sigma0 (x : Z) : Z := Z.lxor (Z.lxor (rotr32 x 2) (rotr32 x 13)) (rotr32 x 22).
Definition Sigma1 (x : Z) : Z := Z.lxor (Z.lxor (rotr32 x 6) (rotr32 x 11)) (rotr32 x 25).
Definition Ch (x y z : Z) : Z := Z.lxor (Z.land x y) (Z.land (0xffffffff - x) z).
Definition Maj (x y z : Z) : Z := Z.lxor (Z.lxor (Z.land x y) (Z.land x z)) (Z.land y z).

Fixpoint sha256_words (n : nat) (block : bytes) : list Z :=
  match n with
  | O => []
  | S n => be32 (take 4 block) :: sha256_words n (drop 4 block)
  end.

(** The message schedule, each word from the sixteen before it. *)
Fixpoint sha256_extend (n : nat) (w : list Z) : list Z :=
  match n with
  | O => w
  | S n =>
      let t := Z.of_nat (length w) in
      sha256_extend n (w ++ [u32 (sigma1 (at_ w (t - 2)) + at_ w (t - 7) + sigma0 (at_ w (t - 15)) + at_ w (t - 16))])
  end.

Definition sha256_round (v : list Z) (kw : Z * Z) : list Z :=
  match v with
  | [a; b; c; d; e; f; g; h] =>
      let t1 := h + Sigma1 e + Ch e f g + kw.1 + kw.2 in
      let t2 := Sigma0 a + Maj a b c in
      [u32 (t1 + t2); a; b; c; u32 (d + t1); e; f; g]
  | _ => v
  end.

Definition sha256_block (h : list Z) (block : bytes) : list Z :=
  zip_with (λ x y, u32 (x + y)) h
    (fold_left sha256_round (zip sha256_K (sha256_extend 48 (sha256_words 16 block))) h).

Definition sha256_pad (msg : bytes) : bytes :=
  msg ++ [0x80] ++ replicate (Z.to_nat ((55 - length msg) `mod` 64)) 0 ++ rev (le_split 8 (u64 (8 * length msg))).

Fixpoint sha256_blocks (n : nat) (data : bytes) (h : list Z) : list Z :=
  match n with
  | O => h
  | S n => sha256_blocks n (drop 64 data) (sha256_block h (take 64 data))
  end.

Definition SHA256 (msg : bytes) : bytes :=
  let data := sha256_pad msg in
  flat_map (λ x, rev (le_split 4 x)) (sha256_blocks (length data / 64) data sha256_H).

(** ** HMAC *)

Definition hmacKey (key : bytes) : bytes :=
  let key := if 64 <? length key then SHA256 key else key in
  key ++ replicate (64 - length key) 0.

Definition HMAC_SHA256 (key msg : bytes) : bytes :=
  let key := hmacKey key in
  SHA256 (map (Z.lxor 0x5c) key ++ SHA256 (map (Z.lxor 0x36) key ++ msg)).

(** The examples of FIPS 180-4 and the first two cases of RFC 4231. *)
Lemma SHA256_fips180 :
  SHA256 (str "abc") = [
    0xba; 0x78; 0x16; 0xbf; 0x8f; 0x01; 0xcf; 0xea; 0x41; 0x41; 0x40; 0xde; 0x5d; 0xae; 0x22; 0x23;
    0xb0; 0x03; 0x61; 0xa3; 0x96; 0x17; 0x7a; 0x9c; 0xb4; 0x10; 0xff; 0x61; 0xf2; 0x00; 0x15; 0xad] ∧
  SHA256 (str "abcdbcdecdefdefgefghfghighijhijkijkljklmklmnlmnomnopnopq") = [
    0x24; 0x8d; 0x6a; 0x61; 0xd2; 0x06; 0x38; 0xb8; 0xe5; 0xc0; 0x26; 0x93; 0x0c; 0x3e; 0x60; 0x39;
    0xa3; 0x3c; 0xe4; 0x59; 0x64; 0xff; 0x21; 0x67; 0xf6; 0xec; 0xed; 0xd4; 0x19; 0xdb; 0x06; 0xc1].
Proof. split; vm_compute; reflexivity. Qed.

Lemma HMAC_SHA256_rfc4231 :
  HMAC_SHA256 (replicate 20 0x0b) (str "Hi There") = [
    0xb0; 0x34; 0x4c; 0x61; 0xd8; 0xdb; 0x38; 0x53; 0x5c; 0xa8; 0xaf; 0xce; 0xaf; 0x0b; 0xf1; 0x2b;
    0x88; 0x1d; 0xc2; 0x00; 0xc9; 0x83; 0x3d; 0xa7; 0x26; 0xe9; 0x37; 0x6c; 0x2e; 0x32; 0xcf; 0xf7] ∧
  HMAC_SHA256 (str "Jefe") (str "what do ya want for nothing?") = [
    0x5b; 0xdc; 0xc1; 0x46; 0xbf; 0x60; 0x75; 0x4e; 0x6a; 0x04; 0x24; 0x26; 0x08; 0x95; 0x75; 0xc7;
    0x5a; 0x00; 0x3f; 0x08; 0x9d; 0x27; 0x39; 0x83; 0x9d; 0xec; 0x58; 0xb9; 0x64; 0xec; 0x38; 0x43].
Proof. split; vm_compute; reflexivity. Qed.

Lemma length_SHA256_blocks n data h : length h = 8%nat → length (sha256_blocks n data h) = 8%nat.
Proof.
  revert data h. induction n as [|n IH]; intros data h Hh; [done|]. cbn. apply IH. unfold sha256_block.
  assert (∀ l v, length v = 8%nat → length (fold_left sha256_round l v) = 8%nat) as Hf.
  { induction l as [|kw l IHl]; intros v Hv; [done|]. apply IHl. unfold sha256_round. by repeat case_match. }
  rewrite length_zip_with, Hf; lia.
Qed.

Lemma length_SHA256 msg : length (SHA256 msg) = 32%nat.
Proof.
  unfold SHA256. rewrite <- (Nat.mul_1_r 32).
  assert (∀ l : list Z, length (flat_map (λ x, rev (le_split 4 x)) l) = (4 * length l)%nat) as ->.
  { induction l as [|x l IH]; [done|]. cbn [flat_map]. rewrite length_app, length_rev, length_le_split, IH. cbn. lia. }
  by rewrite length_SHA256_blocks.
Qed.
