(* ===== verification/Float64.v ===== *)
(** * [float64] and [time.Duration]

    Binary64 arithmetic as the Standard Library specifies it ([SpecFloat]): every operation
    rounded once to nearest even, nothing fused, as the compiler emits it for amd64. Times
    are nanoseconds since the zero time of [time.Time], durations nanoseconds. *)

From Stdlib Require Import SpecFloat.
From S2P Require Import Prelude.
Local Open Scope Z_scope.

(** ** Numbers *)

Definition float64 : Set := spec_float.

(** An integer converted, or the nearest number to the decimal constant [z/d]. *)
Definition toFloat (z : Z) : float64 := binary_normalize 53 1024 z 0 false.
Definition fadd : float64 → float64 → float64 := SFadd 53 1024.
Definition fsub : float64 → float64 → float64 := SFsub 53 1024.
Definition fmul : float64 → float64 → float64 := SFmul 53 1024.
Definition fdiv : float64 → float64 → float64 := SFdiv 53 1024.
Definition fsqrt : float64 → float64 := SFsqrt 53 1024.
Definition flt : float64 → float64 → bool := SFltb.

(** [min] and [max]: a NaN wins, and of the zeros the one the sign asks for. *)
Definition isNaN (x : float64) : bool := match x with S754_nan => true | _ => false end.
Definition fmin (x y : float64) : float64 :=
  if isNaN x then x else if isNaN y then y
  else match x, y with
       | S754_zero sx, S754_zero sy => S754_zero (sx || sy)
       | _, _ => if flt y x then y else x
       end.
Definition fmax (x y : float64) : float64 :=
  if isNaN x then x else if isNaN y then y
  else match x, y with
       | S754_zero sx, S754_zero sy => S754_zero (sx && sy)
       | _, _ => if flt x y then y else x
       end.

(** [int64(x)]: towards zero; what does not fit becomes the least integer. *)
Definition toInt64 (x : float64) : Z :=
  match x with
  | S754_zero _ => 0
  | S754_finite s m e =>
      let a := if 0 <=? e then Z.pos m * 2 ^ e else Z.pos m / 2 ^ (- e) in
      let z := if s then - a else a in
      if (- 2 ^ 63 <=? z) && (z <? 2 ^ 63) then z else - 2 ^ 63
  | _ => - 2 ^ 63
  end.

(** ** Durations *)

Definition Nanoseconds (s : Z) : Z := s * 1000000000.
Definition aMinute : Z := Nanoseconds 60.

(** [t.Sub(u)], which saturates. *)
Definition timeSub (t u : Z) : Z := Z.max (- 2 ^ 63) (Z.min (2 ^ 63 - 1) (t - u)).

Definition Minutes (d : Z) : float64 :=
  fadd (toFloat (Z.quot d aMinute)) (fdiv (toFloat (Z.rem d aMinute)) (toFloat aMinute)).
Definition Seconds (d : Z) : float64 :=
  fadd (toFloat (Z.quot d (Nanoseconds 1))) (fdiv (toFloat (Z.rem d (Nanoseconds 1))) (toFloat (Nanoseconds 1))).

Lemma timeSub_diag t : timeSub t t = 0.
Proof. unfold timeSub. lia. Qed.

Lemma timeSub_small t u d : - 2 ^ 63 <= d < 2 ^ 63 - 1 → (timeSub t u <=? d) = (t - u <=? d).
Proof. unfold timeSub. intros. apply eq_bool_prop_intro. rewrite !Is_true_true, !Z.leb_le. lia. Qed.

(** ** Whole numbers up to ten thousand are exact *)

#[export] Instance float64_eq_dec : EqDecision float64.
Proof. unfold float64. solve_decision. Defined.

Definition smallMax : Z := 10000.

Definition smallOk (z : Z) : bool :=
  bool_decide (fsub (toFloat z) (toFloat 1) = toFloat (z - 1)) && negb (flt (toFloat z) (toFloat 1)) &&
  flt (toFloat (z - 1)) (toFloat z) && bool_decide (fadd (toFloat z) (toFloat 0) = toFloat z) &&
  bool_decide (fmul (toFloat 0) (toFloat z) = toFloat 0).

Lemma small_exact z : 1 <= z <= smallMax → smallOk z = true.
Proof.
  intros Hz. assert (forallb smallOk (seqZ 1 smallMax) = true) as Hall by (vm_compute; reflexivity).
  rewrite forallb_forall in Hall. apply Hall, list_elem_of_In, elem_of_seqZ. unfold smallMax in *. lia.
Qed.

Section Small.
Context (z : Z) (Hz : 1 <= z <= smallMax).

Lemma small_facts : fsub (toFloat z) (toFloat 1) = toFloat (z - 1) ∧ flt (toFloat z) (toFloat 1) = false ∧
  flt (toFloat (z - 1)) (toFloat z) = true ∧ fadd (toFloat z) (toFloat 0) = toFloat z ∧ fmul (toFloat 0) (toFloat z) = toFloat 0.
Proof.
  pose proof (small_exact z Hz) as H. unfold smallOk in H. rewrite !andb_true_iff, !bool_decide_eq_true, negb_true_iff in H. tauto.
Qed.

Lemma small_sub1 : fsub (toFloat z) (toFloat 1) = toFloat (z - 1).
Proof. apply small_facts. Qed.
Lemma small_ge1 : flt (toFloat z) (toFloat 1) = false.
Proof. apply small_facts. Qed.
Lemma small_pred : flt (toFloat (z - 1)) (toFloat z) = true.
Proof. apply small_facts. Qed.
Lemma small_add0 : fadd (toFloat z) (toFloat 0) = toFloat z.
Proof. apply small_facts. Qed.
Lemma small_mul0 : fmul (toFloat 0) (toFloat z) = toFloat 0.
Proof. apply small_facts. Qed.
End Small.

Lemma flt_trans x y z : flt x y = true → flt y z = true → flt x z = true.
Proof.
  unfold flt, SFltb, SFcompare.
  destruct x as [sx|sx| |sx mx ex], y as [sy|sy| |sy my ey], z as [sz|sz| |sz mz ez]; try done;
    try destruct sx; try destruct sy; try destruct sz; try done;
    repeat match goal with |- context [(?a ?= ?b)%Z] => destruct (Z.compare_spec a b) end; try done; subst; try lia;
    change (Pos.compare_cont Eq ?a ?b) with (Pos.compare a b);
    repeat match goal with |- context [Pos.compare ?a ?b] => destruct (Pos.compare_spec a b) end; cbn; try done; subst; lia.
Qed.

Lemma small_lt k z : 0 <= k < z → z <= smallMax → flt (toFloat k) (toFloat z) = true.
Proof.
  intros Hk Hz. replace z with (k + 1 + Z.of_nat (Z.to_nat (z - k - 1))) in * by lia.
  revert Hk Hz. generalize (Z.to_nat (z - k - 1)). intros n. induction n as [|n IH]; intros Hk Hz.
  - rewrite Z.add_0_r in *. pose proof (small_pred (k + 1) ltac:(lia)) as H. by replace (k + 1 - 1) with k in H by lia.
  - apply flt_trans with (toFloat (k + 1 + n)); [apply IH; lia|].
    pose proof (small_pred (k + 1 + S n) ltac:(lia)) as H. by replace (k + 1 + S n - 1) with (k + 1 + n) in H by lia.
Qed.

Lemma small_min k z : 0 <= k <= z → z <= smallMax → fmin (toFloat z) (toFloat k) = toFloat k.
Proof.
  intros Hk Hz. destruct (decide (k = z)) as [->|]; unfold fmin.
  { destruct (toFloat z) as [s|s| |s m e]; cbn [isNaN]; rewrite ?orb_diag; by try case_match. }
  pose proof (small_lt k z ltac:(lia) Hz) as Hlt.
  destruct (toFloat z) as [s|s| |s m e], (toFloat k) as [s'|s'| |s' m' e']; cbn [isNaN]; try done; rewrite ?Hlt; try done.
Qed.
