(* ===== verification/RateLimit.v ===== *)
(** * The token buckets: [internal/ratelimit/ratelimit.go]

    One bucket per key, refilled continuously. [now] is what the limiter's clock returns. *)

From stdpp Require Import gmap.
From Stdlib Require Import SpecFloat.
From S2P Require Import Prelude Float64.
Local Open Scope Z_scope.

Record bucket := mkBucket { bk_tokens : float64; bk_last : Z }.

Record Limiter := mkLimiter {
  lm_disabled : bool;
  lm_perMinute : float64;
  lm_burst : float64;
  lm_burstSet : bool;
  lm_buckets : gmap bytes bucket;
  lm_lastGC : Z;
  lm_maxIdle : Z;
}.

Definition NewLimiter (perMinute : Z) : Limiter :=
  mkLimiter (perMinute <=? 0) (toFloat perMinute) (toFloat perMinute) false ∅ 0 (2 * aMinute).

Definition setBurstLocked (burst : Z) (l : Limiter) : Limiter :=
  let cap := if 0 <? burst then toFloat burst else lm_perMinute l in
  { l with lm_burstSet := 0 <? burst; lm_burst := cap;
           lm_buckets := (λ b, { b with bk_tokens := fmin (bk_tokens b) cap }) <$> lm_buckets l }.

Definition NewBurst (perMinute burst : Z) : Limiter := setBurstLocked burst (NewLimiter perMinute).

Definition SetRate (perMinute : Z) (l : Limiter) : Limiter :=
  { l with lm_perMinute := toFloat perMinute;
           lm_burst := if lm_burstSet l then lm_burst l else toFloat perMinute;
           lm_disabled := perMinute <=? 0;
           lm_buckets := if perMinute <=? 0 then ∅ else lm_buckets l }.

Definition SetLimits (perMinute burst : Z) (l : Limiter) : Limiter := setBurstLocked burst (SetRate perMinute l).

Definition gc (now : Z) (l : Limiter) : Limiter :=
  let idle := if flt (toFloat 0) (lm_perMinute l)
              then Z.max (lm_maxIdle l) (toInt64 (fmul (fdiv (lm_burst l) (lm_perMinute l)) (toFloat aMinute)))
              else lm_maxIdle l in
  if timeSub now (lm_lastGC l) <? idle then l
  else { l with lm_lastGC := now; lm_buckets := filter (λ kb, timeSub now (bk_last kb.2) < idle) (lm_buckets l) }.

(** The tokens a bucket has at [now]. *)
Definition refill (now : Z) (l : Limiter) (b : bucket) : float64 :=
  fmin (lm_burst l) (fadd (bk_tokens b) (fmul (Minutes (timeSub now (bk_last b))) (lm_perMinute l))).

Definition Allow (key : bytes) (now : Z) (l : Limiter) : Limiter * bool :=
  if lm_disabled l then (l, true)
  else
    let l := gc now l in
    let tokens := refill now l (default (mkBucket (lm_burst l) now) (lm_buckets l !! key)) in
    let ok := negb (flt tokens (toFloat 1)) in
    let b := mkBucket (if ok then fsub tokens (toFloat 1) else tokens) now in
    ({ l with lm_buckets := <[key := b]> (lm_buckets l) }, ok).

(** ** Properties *)

Lemma Allow_disabled key now l : lm_disabled l = true → Allow key now l = (l, true).
Proof. unfold Allow. by intros ->. Qed.

(** The bucket of [key] holds [k] of [burst] tokens at [now]. *)
Definition holds (key : bytes) (now k burst : Z) (l : Limiter) : Prop :=
  lm_disabled l = false ∧ lm_burst l = toFloat burst ∧ fmul (toFloat 0) (lm_perMinute l) = toFloat 0 ∧ 0 < lm_maxIdle l ∧
  default (mkBucket (lm_burst l) now) (lm_buckets l !! key) = mkBucket (toFloat k) now.

Lemma gc_holds key now k burst l : holds key now k burst l → holds key now k burst (gc now l).
Proof.
  intros (Hd&Hb&Hm&Hi&Hk). unfold gc. set (idle := if flt _ _ then _ else _).
  assert (0 < idle) as Hidle by (unfold idle; case_match; lia).
  destruct (timeSub now (lm_lastGC l) <? idle); [done|]. destruct l as [d pm bu bs bk lg mi]; cbn in *. split_and!; try done.
  cbn [lm_burst lm_buckets]. rewrite map_lookup_filter. destruct (bk !! key) as [b|] eqn:Hl; cbn in *; [|done].
  subst b. rewrite option_guard_True; [done|]. cbn. rewrite timeSub_diag. lia.
Qed.

Lemma Allow_holds key now k burst l : holds key now k burst l → 0 <= k <= burst → 1 <= burst <= smallMax →
  (Allow key now l).2 = (0 <? k) ∧ holds key now (Z.max 0 (k - 1)) burst (Allow key now l).1.
Proof.
  intros Hh Hk Hb. pose proof (gc_holds _ _ _ _ _ Hh) as Hg. unfold Allow.
  destruct Hh as (->&_). destruct Hg as (Hd&Hbu&Hm&Hi&Hl). set (g := gc now l) in *. clearbody g.
  rewrite Hl. unfold refill. cbn [bk_tokens bk_last]. rewrite timeSub_diag.
  assert (Minutes 0 = toFloat 0) as -> by (vm_compute; reflexivity). rewrite Hm, Hbu.
  assert (fmin (toFloat burst) (fadd (toFloat k) (toFloat 0)) = toFloat k) as ->.
  { destruct (decide (k = 0)) as [->|].
    - change (fadd (toFloat 0) (toFloat 0)) with (toFloat 0). apply small_min; lia.
    - rewrite small_add0 by lia. apply small_min; lia. }
  destruct (Z.ltb_spec 0 k) as [Hpos|].
  - rewrite small_ge1, small_sub1 by lia. cbn [negb fst snd]. split; [done|]. replace (Z.max 0 (k - 1)) with (k - 1) by lia.
    unfold holds. destruct g; cbn in *. by rewrite lookup_insert_eq.
  - replace k with 0 in * by lia. replace (flt (toFloat 0) (toFloat 1)) with true by (vm_compute; reflexivity).
    cbn [negb fst snd]. split; [done|]. unfold holds. destruct g; cbn in *. by rewrite lookup_insert_eq.
Qed.

(** [n] calls for one key at one instant. *)
Fixpoint AllowN (n : nat) (key : bytes) (now : Z) (l : Limiter) : Limiter * list bool :=
  match n with
  | O => (l, [])
  | S n => let '(l, ok) := Allow key now l in let '(l, oks) := AllowN n key now l in (l, ok :: oks)
  end.

Lemma AllowN_holds n key now k burst l : holds key now k burst l → 0 <= k <= burst → 1 <= burst <= smallMax →
  (AllowN n key now l).2 = replicate (n `min` Z.to_nat k) true ++ replicate (n - Z.to_nat k) false.
Proof.
  revert k l. induction n as [|n IH]; intros k l Hh Hk Hb; [done|]. cbn [AllowN].
  destruct (Allow_holds _ _ _ _ _ Hh Hk Hb) as [Hok Hh']. destruct (Allow key now l) as [l' ok]. cbn [fst snd] in *. subst ok.
  specialize (IH _ _ Hh' ltac:(lia) Hb). destruct (AllowN n key now l') as [l'' oks]. cbn [fst snd] in *. subst oks.
  destruct (Z.ltb_spec 0 k) as [Hpos|].
  - replace (Z.to_nat k) with (S (Z.to_nat (k - 1))) by lia. replace (Z.max 0 (k - 1)) with (k - 1) by lia. done.
  - replace (Z.to_nat k) with 0%nat by lia. replace (Z.to_nat (Z.max 0 (k - 1))) with 0%nat by lia. by rewrite !Nat.min_0_r, !Nat.sub_0_r.
Qed.

(** Of the events of one key at one instant, a fresh limiter lets the burst through and no
    more. The limits are at most ten thousand, so that they are exact as [float64]. *)
Lemma burst_exact perMinute burst n key now : 1 <= perMinute <= smallMax → 1 <= burst <= smallMax →
  (AllowN n key now (NewBurst perMinute burst)).2 = replicate (n `min` Z.to_nat burst) true ++ replicate (n - Z.to_nat burst) false.
Proof.
  intros Hp Hb. apply AllowN_holds with burst; [|lia|done]. unfold NewBurst, setBurstLocked. rewrite (proj2 (Z.ltb_lt 0 burst)) by lia.
  pose proof (small_mul0 perMinute Hp). unfold holds. cbn -[toFloat fmul]. rewrite fmap_empty, lookup_empty. split_and!; try done. lia.
Qed.
