(* ===== verification/BotDetector.v ===== *)
(** * The bot detector: [ed2k/botdetector.go]

    It watches the times of each address's queries and lists the addresses that look
    automated. Query times are the nanoseconds of [now]; [UnixNano] shifts them all by the
    same constant. The text of a detection is its two numbers; the server only shows it. *)

From stdpp Require Import gmap.
From S2P Require Import Prelude Float64.
Local Open Scope Z_scope.

Definition botWindow : Z := Nanoseconds 60.
Definition botMinSamples : Z := 30.
Definition botMaxSamples : Z := 4096.
Definition botCooldown : Z := Nanoseconds 30.
Definition botDetectionTTL : Z := Nanoseconds (24 * 3600).
Definition botMaxSources : Z := 100000.
Definition defaultBotMinQueriesPerMinute : Z := 200.
Definition defaultBotFloodQueriesPerMinute : Z := 600.
Definition defaultBotMaxIntervalStddevMs : Z := 50.

Record BotDetectionConfig := mkBotConfig {
  bc_Enabled : bool; bc_MinQueriesPerMinute : Z; bc_FloodQueriesPerMinute : Z; bc_MaxIntervalStddevMs : Z }.

Inductive botReason := BotFlood (qpm : float64) | BotUniform (qpm stddev : float64).

Record BotDetection := mkBotDetection {
  bd_Source : bytes; bd_Detections : Z; bd_QueriesPerMinute : float64; bd_IntervalStddevMs : float64;
  bd_Reason : botReason; bd_FirstSeen : Z; bd_LastSeen : Z }.

(** A tracker is its times, oldest first. *)
Record botDetector := mkBots { bt_trackers : gmap bytes (list Z); bt_detections : gmap bytes BotDetection; bt_lastPrune : Z }.

Definition newBotDetector : botDetector := mkBots ∅ ∅ 0.

Definition positiveOr (v fallback : Z) : Z := if 0 <? v then v else fallback.

Fixpoint dropOld (cutoff : Z) (times : list Z) : list Z :=
  match times with t :: rest => if t <? cutoff then dropOld cutoff rest else times | [] => [] end.

(** [botTracker.add]. *)
Definition addTime (now : Z) (times : list Z) : list Z :=
  let times := dropOld (now - botWindow) times in
  drop (Z.to_nat (length times + 1 - botMaxSamples)) times ++ [now].

Fixpoint gaps (times : list Z) : list float64 :=
  match times with
  | t :: (u :: _) as rest => fdiv (toFloat (u - t)) (toFloat 1000000) :: gaps rest
  | _ => []
  end.

Definition intervalStddevMs (times : list Z) : float64 :=
  let n := length times - 1 in
  if n <? 1 then toFloat 0
  else
    let mean := fdiv (foldl fadd (toFloat 0) (gaps times)) (toFloat n) in
    let variance := foldl (λ v g, let gap := fsub g mean in fadd v (fmul gap gap)) (toFloat 0) (gaps times) in
    fsqrt (fdiv variance (toFloat n)).

Definition pruneLocked (now : Z) (d : botDetector) : botDetector :=
  if timeSub now (bt_lastPrune d) <? botWindow then d
  else mkBots (filter (λ kt, Is_true (match last kt.2 with Some t => now - botWindow <=? t | None => false end)) (bt_trackers d))
         (filter (λ kd, timeSub now (bd_LastSeen kd.2) ≤ botDetectionTTL) (bt_detections d)) now.

(** What the sample window says of an address: nothing, or why it is flagged. *)
Definition judge (cfg : BotDetectionConfig) (now : Z) (times : list Z) : option (float64 * float64 * botReason) :=
  let minRate := toFloat (positiveOr (bc_MinQueriesPerMinute cfg) defaultBotMinQueriesPerMinute) in
  let floodRate := toFloat (positiveOr (bc_FloodQueriesPerMinute cfg) defaultBotFloodQueriesPerMinute) in
  let maxStddev := toFloat (positiveOr (bc_MaxIntervalStddevMs cfg) defaultBotMaxIntervalStddevMs) in
  let span := Seconds (now - default now (head times)) in
  let qpm := fmul (fdiv (toFloat (length times)) (fmax span (fdiv (toFloat 1) (toFloat 1000)))) (toFloat 60) in
  if flt qpm minRate then None
  else
    let stddev := intervalStddevMs times in
    if flt floodRate qpm then Some (qpm, stddev, BotFlood qpm)
    else if flt stddev maxStddev then Some (qpm, stddev, BotUniform qpm stddev)
    else None.

Definition record (source : bytes) (cfg : BotDetectionConfig) (now : Z) (d : botDetector) : botDetector * bool :=
  if negb (bc_Enabled cfg) then (d, false)
  else
    let d := pruneLocked now d in
    if negb (bool_decide (is_Some (bt_trackers d !! source))) && (botMaxSources <=? size (bt_trackers d)) then (d, false)
    else
      let times := addTime now (default [] (bt_trackers d !! source)) in
      let d := { d with bt_trackers := <[source := times]> (bt_trackers d) } in
      if length times <? botMinSamples then (d, false)
      else
        let existing := bt_detections d !! source in
        match judge cfg now times with
        | None => (d, false)
        | Some (qpm, stddev, reason) =>
            if match existing with Some e => timeSub now (bd_LastSeen e) <? botCooldown | None => false end then (d, false)
            else
              let n := match existing with Some e => bd_Detections e | None => 0 end in
              let first := match existing with Some e => bd_FirstSeen e | None => now end in
              ({ d with bt_detections := <[source := mkBotDetection source (u64 (n + 1)) qpm stddev reason first now]> (bt_detections d) }, true)
        end.

(** ** The memory of the detector is bounded *)

Definition bots_ok (d : botDetector) : Prop :=
  size (bt_trackers d) ≤ botMaxSources ∧ map_Forall (λ _ times, length times ≤ botMaxSamples) (bt_trackers d).

Lemma length_addTime now times : length (addTime now times) ≤ botMaxSamples.
Proof. unfold addTime, botMaxSamples. rewrite length_app, length_drop. cbn [length]. lia. Qed.

Lemma prune_ok now d : bots_ok d → bots_ok (pruneLocked now d).
Proof.
  intros [Hs Ht]. unfold pruneLocked. case_match; [done|]. split; cbn.
  - etrans; [|apply Hs]. apply inj_le, map_subseteq_size, map_filter_subseteq.
  - intros k times [Hk _]%map_lookup_filter_Some. by apply (Ht k).
Qed.

Lemma record_ok source cfg now d : bots_ok d → bots_ok (record source cfg now d).1.
Proof.
  intros Hok. unfold record. destruct (bc_Enabled cfg); [|done]. cbn [negb]. pose proof (prune_ok now d Hok) as [Hs Ht].
  destruct (pruneLocked now d) as [tr de lp]. cbn [bt_trackers bt_detections] in *.
  destruct (bool_decide_reflect (is_Some (tr !! source))) as [Hin|Hin]; cbn [negb andb].
  2: destruct (Z.leb_spec botMaxSources (size tr)); [done|].
  all: set (times := addTime now _); assert (length times ≤ botMaxSamples) as Hl by apply length_addTime.
  all: assert (bots_ok (mkBots (<[source := times]> tr) de lp)) as Hok'
    by (split; cbn; [|by apply map_Forall_insert_2]; first [rewrite map_size_insert_Some by done; done|
        rewrite map_size_insert_None by (by apply eq_None_not_Some); lia]).
  all: repeat case_match; done.
Qed.
