(* ===== verification/RuntimeState.v ===== *)
(** * The server's state: [ed2k/server_runtime.go], [countercache.go], [statsboost.go]

    The settings, the interfaces the server is given, what a connection knows of its client
    and what all connections share, with the small operations on them. A connection is a
    number; the table of connections stands for the pointers to [tcpClient] the code passes
    around, so one handler can write to another client's socket. The parts that only log
    are left out, and so are the names kept for the admin pages. *)

From S2P Require Import Prelude Buffer Types Address NetIP Packet Builders Framing LowID Text Search Servers BotDetector Engine.
Local Open Scope Z_scope.

Definition maxEd3kClaims : Z := 8.
Definition defaultMoreResultsMax : Z := 510.
Definition defaultRelatedMinClients : Z := 5.
Definition relatedMaxClients : Z := 500.
Definition IPv6StatusHave : Z := 1.
Definition IPv6StatusReachable : Z := 2.
Definition IPv6StatusProbed : Z := 4.
Definition LoginVersionStr : bytes :=
  str ENodeName ++ str " " ++ str ENodeVersionStr ++ str " (" ++ str GossipCompatVersion ++ str ")".

(** ** Settings

    Times are in nanoseconds. *)

Record TCPRuntimeConfig := mkTCPConfig {
  tc_Name : bytes;
  tc_Description : bytes;
  tc_Address : bytes;
  tc_AdvertisedIP : bytes;
  tc_Port : Z;
  tc_Flags : Z;
  tc_Hash : bytes;
  tc_MessageLogin : bytes;
  tc_MessageLowID : bytes;
  tc_IPv6 : bool;
  tc_PublishV6Sources : bool;
  tc_ProbeIPv6 : bool;
  tc_ServerIPv6 : bytes;
  tc_NatRendezvousPort : Z;
  tc_MetaAPI : MetaAPIAdvert;
  tc_Ed3k : bytes;
  tc_ServerStatusInterval : Z;
  tc_SoftFileLimit : Z;
  tc_HardFileLimit : Z;
  tc_MoreResultsMax : Z;
  tc_MoreResultsTTL : Z;
  tc_RelatedSearch : bool;
  tc_RelatedMinClients : Z;
}.

Record UDPRuntimeConfig := mkUDPRuntimeConfig {
  uc_Name : bytes;
  uc_Description : bytes;
  uc_DynIP : bytes;
  uc_UDPFlags : Z;
  uc_GetSources : bool;
  uc_GetFiles : bool;
  uc_UDPPortObf : Z;
  uc_TCPPortObf : Z;
  uc_UDPSecret : bytes;
  uc_UDPServerKey : Z;
  uc_MaxConnections : Z;
  uc_SoftFiles : Z;
  uc_HardFiles : Z;
  uc_BotDetection : BotDetectionConfig;
  uc_ForeignPerMinute : Z;
  uc_ForeignBurst : Z;
  uc_ServerSearch : ServerSearchAdvert;
  uc_Ed3k : bytes;
  uc_TrackClientUDPPorts : bool;
}.

Record StatsBoost := mkBoost {
  sb_Users : Z;
  sb_LowIDUsers : Z;
  sb_Files : Z;
  sb_KadUsers : bool;
  sb_TorrentUsers : bool;
}.

(** ** The interfaces *)

(** [ContentFilter]: [F] is what the filter keeps, its bans among it. *)
Class ContentFilter (F : Type) := {
  CheckOffer : bytes → bytes → F → bool * bool * bool;
  Withheld : bytes → bytes → F → bool;
  QueryBlocked : list bytes → F → bool;
  BanThreshold : F → Z;
  KeywordBanThreshold : F → Z;
  Ban : bytes → option bytes → bytes → F → F;
  Banned : bytes → option bytes → F → bool;
}.

(** [SpamObserver]: [P] is the observer's own state, [Q] what it keeps per session. *)
Class SpamObserver (P Q : Type) := {
  ObserveOffer : option Q → bytes → option bytes → list File → P → P * Q;
}.

(** [MetaSearcher]: the rows of a search, by expression, UDP or not, native rows only. *)
Record MetaSearcher := mkMeta {
  meta_Search : SearchExpr → bool → bool → list File;
  meta_AdvertisedFiles : Z;
  meta_NetworkUsers : bytes → Z;
}.

(** ** The counter cache *)

Record counterCache := mkCounters {
  cc_ttl : Z;
  cc_clients : Z;
  cc_files : Z;
  cc_fetched : option Z;
}.

(** [Counts]; concurrent readers wait for the one that refreshes. What [Failure] reports to
    the admin pages is left out. *)
Definition Counts {E} `{Engine E} (now : Z) (e : E) (c : counterCache) : counterCache * (Z * Z) :=
  let fresh := match cc_fetched c with Some at_ => now - at_ <? cc_ttl c | None => false end in
  if fresh then (c, (cc_clients c, cc_files c))
  else
    let clients := match eng_ClientsCountChecked e with Ok n => n | _ => cc_clients c end in
    let files := match eng_FilesCountEstimateChecked e with Ok n => n | _ => cc_files c end in
    ({ c with cc_clients := clients; cc_files := files; cc_fetched := Some now }, (clients, files)).

(** ** A connection *)

(** [pendingSearch]. *)
Record pendingSearch := mkPending { ps_rows : list File; ps_expires : Z }.

(** Where a login stands while its handler waits: for a session it collides with to fail its
    probe, for the dial-backs, for the storage to have written the row. *)
Inductive loginPhase :=
| LIdle
| LStale (req : LoginRequest)
| LDialing (v6 : bytes)
| LRegistering.

(** [tcpClient], the fields the handlers use beyond those of [Session]. [h_released] stands
    for [releaseOnce] too: both are set by the one release. [h_ended] says that the read loop
    has returned. *)
Record handlerState {Q : Type} := mkHandlerState {
  h_peerIP : option bytes;
  h_remotePort : Z;
  h_connectedV6 : bool;
  h_ipv6Capable : bool;
  h_metaCapable : bool;
  h_nattCapable : bool;
  h_natWakeCapable : bool;
  h_holePunchExt : bool;
  h_ed3kID : bytes;
  h_info : ClientInfo;
  h_hasLowID : bool;
  h_pendingResults : option pendingSearch;
  h_softLimitWarned : bool;
  h_hardLimitHit : bool;
  h_banlistHits : gset bytes;
  h_keywordHits : gset bytes;
  h_banlistDropped : bool;
  h_spamSession : option Q;
  h_released : bool;
  h_statusStop : bool;
  h_ended : bool;
  h_login : loginPhase;
}.
Arguments handlerState : clear implicits.
Arguments mkHandlerState {_}.

Abbreviation connID := nat.

(** ** What the connections share *)

(** A session's state for the NAT keepalives: its token, if it was given one, the last proof
    counter accepted, and whether an obfuscated keepalive was read. *)
Record natSessionState := mkNatSession { ns_token : option bytes; ns_counter : Z; ns_obfuscated : bool }.

Record ServerRuntime {E F P Q : Type} := mkServerRuntime {
  s_tcp : TCPRuntimeConfig;
  s_udp : UDPRuntimeConfig;
  s_Storage : E;
  s_LowIDs : LowIDClients connID;
  s_Content : option F;
  s_Spam : option P;
  s_counters : counterCache;
  s_sessionsByHash : gmap bytes connID;
  s_sessionsByEd3k : gmap bytes (list connID);
  s_handshaking : gmap bytes Z;
  s_meta : option MetaSearcher;
  s_metaAdvertiseLegacy : bool;
  s_boost : StatsBoost;
  s_verified : list Server;
  s_bannedLogins : Z;
  s_hardLimit : Z;
  s_natSessions : gmap connID natSessionState;
  s_clients : gmap connID (Session (handlerState Q));
}.
Arguments ServerRuntime : clear implicits.
Arguments mkServerRuntime {_ _ _ _}.

Section State.
Context {E F P Q : Type} `{!Engine E} `{!ContentFilter F} `{!SpamObserver P Q} `{!Zlib} `{!Unicode}.
Implicit Types (s : ServerRuntime E F P Q) (c : connID).

(** A client no connection has. *)
Definition noInfo : ClientInfo := mkClientInfo 0 0 0 [] false 0 0 [] false.
Definition nobody : Session (handlerState Q) :=
  mkSession false false [] EmptyString true
    (mkHandlerState None 0 false false false false false false [] noInfo false None false false ∅ ∅ false None
      true false true LIdle).

Definition client c s : Session (handlerState Q) := default nobody (s_clients s !! c).
Definition state c s : handlerState Q := ss_app (client c s).
Definition info c s : ClientInfo := h_info (state c s).

Definition onClient c (f : Session (handlerState Q) → Session (handlerState Q)) s : ServerRuntime E F P Q :=
  { s with s_clients := alter f c (s_clients s) }.
Definition onState c (f : handlerState Q → handlerState Q) s : ServerRuntime E F P Q :=
  onClient c (λ cl, { cl with ss_app := f (ss_app cl) }) s.
Definition onInfo c (f : ClientInfo → ClientInfo) s : ServerRuntime E F P Q :=
  onState c (λ h, { h with h_info := f (h_info h) }) s.

Definition closeClient c (reason : String.string) s : ServerRuntime E F P Q :=
  onClient c (closeWithReason reason) s.
Definition messageClient c (message : bytes) s : ServerRuntime E F P Q :=
  onClient c (sendServerMessage message) s.
Definition sendClient c (packet : result Buffer) s : ServerRuntime E F P Q := onClient c (send packet) s.

Definition ipv6Enabled s : bool := tc_IPv6 (s_tcp s).
Definition publishV6Sources s : bool := tc_PublishV6Sources (s_tcp s).
Definition advertisedAddress s : bytes :=
  if bool_decide (tc_AdvertisedIP (s_tcp s) ≠ []) then tc_AdvertisedIP (s_tcp s) else tc_Address (s_tcp s).

(** [newTCPClient] and the accept path around it. *)
Definition newTCPClient (ip : bytes) (port : Z) : Session (handlerState Q) :=
  let peerIP := NormalizeIP (Some ip) in
  let ipv4 := default 0 (peerIP ≫= IPv4ToUint32LE) in
  let connectedV6 := bool_decide (is_Some (peerIP ≫= IPv6Bytes)) in
  mkSession false false [] "read-loop-ended" false
    (mkHandlerState peerIP port connectedV6 false false false false false [] (mkClientInfo 0 ipv4 0 [] true 0 0 [] false)
      true None false false ∅ ∅ false None false false false LIdle).

(** ** The session index *)

Definition sessionByHash (hash : bytes) s : option connID :=
  if bool_decide (length hash = 16%nat) then s_sessionsByHash s !! hash else None.

Definition hashHeldLocally (hash : bytes) s : bool :=
  bool_decide (length hash = 16%nat) &&
  (bool_decide (is_Some (s_sessionsByHash s !! hash)) || (0 <? default 0 (s_handshaking s !! hash))).

Definition beginHandshake (hash : bytes) s : ServerRuntime E F P Q :=
  if bool_decide (length hash = 16%nat)
  then { s with s_handshaking := <[hash := default 0 (s_handshaking s !! hash) + 1]> (s_handshaking s) } else s.

Definition endHandshake (hash : bytes) s : ServerRuntime E F P Q :=
  if bool_decide (length hash = 16%nat) then
    let n := default 0 (s_handshaking s !! hash) - 1 in
    { s with s_handshaking := if n <=? 0 then delete hash (s_handshaking s) else <[hash := n]> (s_handshaking s) }
  else s.

(** [ed3kNodeID]. *)
Definition ed3kNodeID c s : option bytes :=
  let id := h_ed3kID (state c s) in if bool_decide (length id = 16%nat) then Some id else None.

Definition registerSession (hash : bytes) c s : ServerRuntime E F P Q :=
  if negb (bool_decide (length hash = 16%nat)) then s
  else
    let s := { s with s_sessionsByHash := <[hash := c]> (s_sessionsByHash s) } in
    match ed3kNodeID c s with
    | None => s
    | Some id =>
        let claims := default [] (s_sessionsByEd3k s !! id) in
        if bool_decide (c ∈ claims) then s
        else
          let claims := if maxEd3kClaims <=? length claims then tail claims else claims in
          { s with s_sessionsByEd3k := <[id := claims ++ [c]]> (s_sessionsByEd3k s) }
    end.

Definition unregisterSession (hash : bytes) c s : ServerRuntime E F P Q :=
  if negb (bool_decide (length hash = 16%nat)) then s
  else
    let s := if bool_decide (s_sessionsByHash s !! hash = Some c)
             then { s with s_sessionsByHash := delete hash (s_sessionsByHash s) } else s in
    match ed3kNodeID c s with
    | None => s
    | Some id =>
        let claims := filter (λ d, d ≠ c) (default [] (s_sessionsByEd3k s !! id)) in
        { s with s_sessionsByEd3k := if bool_decide (claims = []) then delete id (s_sessionsByEd3k s)
                                     else <[id := claims]> (s_sessionsByEd3k s) }
    end.

(** ** The advertised counts *)

Definition addClampedUint32 (count offset : Z) : Z := Z.min (Z.max count 0 + Z.max offset 0) (2 ^ 32 - 1).

Definition advertisedFiles s (ed2kFiles : Z) : Z :=
  let meta := match s_meta s with Some m => Z.max (meta_AdvertisedFiles m) 0 | None => 0 end in
  Z.min (u64 (Z.max ed2kFiles 0 + meta + Z.max (sb_Files (s_boost s)) 0)) (2 ^ 32 - 1).

Definition advertisedUsers s (clients : Z) : Z :=
  let boost := s_boost s in
  let total := addClampedUint32 clients (sb_Users boost) in
  match s_meta s with
  | None => total
  | Some m =>
      let total := if sb_KadUsers boost then addClampedUint32 total (meta_NetworkUsers m (str "kad")) else total in
      if sb_TorrentUsers boost then addClampedUint32 total (meta_NetworkUsers m (str "torrent")) else total
  end.

Definition advertisedLowIDs s (lowIDs : Z) : Z := addClampedUint32 lowIDs (sb_LowIDUsers (s_boost s)).

(** [c.server.counters.Counts()]. *)
Definition counts (now : Z) s : ServerRuntime E F P Q * (Z * Z) :=
  let '(cc, n) := Counts now (s_Storage s) (s_counters s) in ({ s with s_counters := cc }, n).

End State.
