(* ===== verification/Runtime.v ===== *)
(** * The request handlers: [ed2k/server_runtime.go], [contentfilter.go], [metasearch.go]

    Between two waits for the network a handler is one step. What it waits for is an
    argument: the outcome of a dial-back, the clock, the random token. A login, which waits
    more than once, is a step up to each wait, see [loginRequest].

    A parser or a builder that panics is treated as one that fails: none does, see
    [GetTags_safe], [getFileList_safe], [ParseSearchExpr_safe] and [MakePacket_total]. *)

From S2P Require Import Prelude Buffer Types Address NetIP Packet Builders Framing LowID Text Search SearchParse.
From S2P Require Import FileMeta Servers Engine RuntimeState.
Local Open Scope Z_scope.

(** ** Constants *)

Definition OpOfferFiles : Z := 0x15.
Definition OpGetServerList : Z := 0x14.
Definition OpGetSources : Z := 0x19.
Definition OpGetSourcesObfu : Z := 0x23.
Definition OpGetSourcesIPv6 : Z := 0x24.
Definition OpSearchRequest : Z := 0x16.
Definition OpQueryMoreResult : Z := 0x21.
Definition OpCallbackRequest : Z := 0x1c.
Definition FlagSupportCrypt : Z := 0x0200.
Definition FlagRequestCrypt : Z := 0x0400.
Definition FlagRequireCrypt : Z := 0x0800.
Definition FlagNatCallback : Z := 0x1000.
Definition FlagNatWake : Z := 0x200000.
Definition FlagForeignCallback : Z := 0x100000.
Definition SrvCapMetaSearch : Z := 0x10000.
Definition SrvCapNatTraversal : Z := 0x1000.
Definition SrvCapNatWake : Z := 0x200000.
Definition SrvCapHolePunchExt : Z := 0x100000.

Definition msgBanlisted : bytes :=
  str "ERROR : You are sharing files this server does not accept. Closing the connection.".
Definition msgBanned : bytes :=
  str "ERROR : You are temporarily banned from this server for sharing files it does not accept.".
Definition msgDuplicate : bytes := str "Already connected from another session.".
Definition msgSoftFileLimit (limit : Z) : bytes :=
  str "WARNING : This server accepts " ++ Itoa limit ++
  str " shares per client. Some of your shares are ignored.".
Definition msgHardFileLimit (limit : Z) : bytes :=
  str "ERROR : This server accepts at most " ++ Itoa limit ++
  str " shares per client. Closing the connection.".

(** [flags&bit != 0]. *)
Definition hasFlag (flags bit : Z) : bool := negb (Z.land flags bit =? 0).

(** [metahash.RejectOfferedFile] of the module [enodemeta]: a pseudo-hash. *)
Class MetaHash := { RejectOfferedFile : bytes → bool }.

(** ** Reading a login's tags *)

(** The value of the first tag of a name. *)
Definition firstTag (name : bytes) (tags : list NamedTag) : option NamedTag :=
  find (λ t, bool_decide (nt_Name t = name)) tags.

Definition loginFlags (tags : list NamedTag) : Z :=
  match firstTag (str "flags") tags with
  | Some t => match nt_Value t with AUint64 v => u32 v | _ => 0 end
  | None => 0
  end.

Definition loginEd3k (tags : list NamedTag) : bytes :=
  match firstTag (str "ed3k") tags with
  | Some t =>
      match nt_Value t with
      | ABytes b => if bool_decide (length b = 16%nat) && (nt_Type t =? TypeHash) then b else []
      | _ => []
      end
  | None => []
  end.

(** nil is the empty list. *)
Definition loginIPv6 (tags : list NamedTag) : bytes * bool :=
  match firstTag (str "ipv6") tags with
  | Some t =>
      match nt_Value t with
      | ABytes b =>
          if bool_decide (length b = 16%nat) && (nt_Type t =? TypeHash) && IsPublicIPv6 b then (b, true) else ([], true)
      | _ => ([], true)
      end
  | None => ([], false)
  end.

Definition cryptOptionsFromLoginFlags (flags : Z) : Z :=
  Z.lor (Z.lor (if hasFlag flags FlagSupportCrypt then 1 else 0) (if hasFlag flags FlagRequestCrypt then 2 else 0))
    (if hasFlag flags FlagRequireCrypt then 4 else 0).

(** ** The content filter *)

(** [searchTerms(expr, nil)]. *)
Fixpoint searchTerms (expr : SearchExpr) : list bytes :=
  match expr with
  | mkSearchExpr kind text tag str_ _ l r _ =>
      match kind with
      | SearchText => if bool_decide (text ≠ []) then [text] else []
      | SearchString => if (tag =? SearchTermTag) && bool_decide (str_ ≠ []) then [str_] else []
      | SearchAnd | SearchOr =>
          match l with Some l => searchTerms l | None => [] end ++ match r with Some r => searchTerms r | None => [] end
      | SearchAndNot => match l with Some l => searchTerms l | None => [] end
      | _ => []
      end
  end.

(** [mergeMetaResults]: [None] is no searcher. *)
Fixpoint mergeMeta (files : list File) (seen : gset bytes) (rows : list File) : list File :=
  match rows with
  | [] => files
  | m :: rows =>
      if MaxSearchResults <=? length files then files
      else if bool_decide (f_Hash m ∈ seen) then mergeMeta files seen rows
      else mergeMeta (files ++ [m]) ({[ f_Hash m ]} ∪ seen) rows
  end.

Definition mergeMetaResults (files : list File) (rows : option (list File)) : list File :=
  match rows with
  | None | Some [] => files
  | Some rows => mergeMeta files (list_to_set (map f_Hash files)) rows
  end.

(** ** Offers *)

Definition declaredFileCount (b : Buffer) : option Z :=
  let rest := drop (pointer b) (data b) in
  if length rest <? 4 then None else Some (le_combine (take 4 rest)).

(** The loop of [withinSoftLimit]: the files let through and how many are not. *)
Fixpoint admitOffers (files : list (File * bool)) (room : Z) (admitted : gset (bytes * Z)) : list File * Z :=
  match files with
  | [] => ([], 0)
  | (file, known) :: files =>
      let key := fileKey file in
      if bool_decide (key ∈ admitted) || known then
        let '(kept, skipped) := admitOffers files room admitted in (file :: kept, skipped)
      else if 0 <? room then
        let '(kept, skipped) := admitOffers files (room - 1) ({[ key ]} ∪ admitted) in (file :: kept, skipped)
      else let '(kept, skipped) := admitOffers files room admitted in (kept, skipped + 1)
  end.

(** [known[i]] for [i < len(known)], false past its end. *)
Definition withKnown (batch : list File) (known : list bool) : list (File * bool) :=
  zip batch (take (length batch) (known ++ replicate (length batch) false)).

Section Handlers.
Context {E F P Q : Type} `{!Engine E} `{!ContentFilter F} `{!SpamObserver P Q} `{!Zlib} `{!Unicode} `{!Charmap} `{!MetaHash}.
Implicit Types (s : ServerRuntime E F P Q) (c : connID).

Definition checkOffer (hash name : bytes) s : bool * bool * bool :=
  match s_Content s with Some f => CheckOffer hash name f | None => (false, false, false) end.

Definition withheldHash (hash : bytes) s : bool :=
  match s_Content s with Some f => Withheld hash [] f | None => false end.

Definition queryBlocked (expr : SearchExpr) s : bool :=
  match s_Content s with
  | Some f => let terms := searchTerms expr in bool_decide (terms ≠ []) && QueryBlocked terms f
  | None => false
  end.

Definition withholdFiles (files : list File) s : list File :=
  match s_Content s with
  | Some f => filter (λ file, Withheld (f_Hash file) (f_Name file) f = false) files
  | None => files
  end.

Definition noteBanlistHit (hash : bytes) c s : ServerRuntime E F P Q * bool :=
  let threshold := match s_Content s with Some f => BanThreshold f | None => 0 end in
  if (threshold <=? 0) || negb (bool_decide (length hash = 16%nat)) then (s, false)
  else
    let s := onState c (λ h, { h with h_banlistHits := {[ hash ]} ∪ h_banlistHits h }) s in
    (s, threshold <? size (h_banlistHits (state c s))).

Definition noteKeywordHit (hash : bytes) c s : ServerRuntime E F P Q * bool :=
  let threshold := match s_Content s with Some f => KeywordBanThreshold f | None => 0 end in
  if (threshold <=? 0) || negb (bool_decide (length hash = 16%nat)) then (s, false)
  else
    let s := onState c (λ h, { h with h_keywordHits := {[ hash ]} ∪ h_keywordHits h }) s in
    (s, threshold <=? size (h_keywordHits (state c s))).

Definition fileFromRecord (record : FileRecord) (info : ClientInfo) : File :=
  let typ :=
    if bool_decide (fr_Type record = []) && bool_decide (fr_Name record ≠ []) then GetFileType (fr_Name record)
    else fr_Type record in
  mkFile (fr_Hash record) (fr_Name record) (fr_Size record) typ (fr_Sources record)
    (if fr_Complete record then 1 else 0) (fr_Title record) (fr_Artist record) (fr_Album record) (fr_Length record)
    (fr_Bitrate record) (fr_Codec record) (ci_ID info) (ci_Port info) None.

(** The session is told, banned and dropped: nothing of the packet is stored. *)
Definition banPublisher (inf : ClientInfo) (reason : bytes) c s : ServerRuntime E F P Q :=
  let s := onState c (λ h, { h with h_banlistDropped := true }) s in
  let s := { s with s_Content := Ban (ci_Hash inf) (h_peerIP (state c s)) reason <$> s_Content s } in
  closeClient c "banlist" (messageClient c msgBanlisted s).

Definition banReason (distinct : nat) (what : String.string) : bytes :=
  str "offered " ++ Itoa distinct ++ str " " ++ str what ++ str " files".

(** The loop over the records: the batch to store, or [None] when the session was dropped. *)
Fixpoint collectOffers (records : list FileRecord) (inf : ClientInfo) c s : ServerRuntime E F P Q * option (list File) :=
  match records with
  | [] => (s, Some [])
  | record :: records =>
      if (fr_Size record =? 0) || RejectOfferedFile (fr_Hash record) then collectOffers records inf c s
      else
        let '(refused, banlist, keyword) := checkOffer (fr_Hash record) (fr_Name record) s in
        if negb refused then
          match collectOffers records inf c s with
          | (s, Some batch) => (s, Some (fileFromRecord record inf :: batch))
          | (s, None) => (s, None)
          end
        else
          let '(s, hit) := if banlist then noteBanlistHit (fr_Hash record) c s else (s, false) in
          if hit then
            (banPublisher inf (banReason (size (h_banlistHits (state c s))) "ban list") c s, None)
          else
            let '(s, hit) := if keyword then noteKeywordHit (fr_Hash record) c s else (s, false) in
            if hit then
              (banPublisher inf (banReason (size (h_keywordHits (state c s))) "keyword") c s, None)
            else collectOffers records inf c s
  end.

Definition withinSoftLimit (batch : list File) (inf : ClientInfo) (softLimit : Z) s : list File * Z :=
  if (softLimit <=? 0) || bool_decide (batch = []) then (batch, 0)
  else
    let have := eng_OfferedCount inf (s_Storage s) in
    if have + length batch <=? softLimit then (batch, 0)
    else admitOffers (withKnown batch (eng_HasOffered inf batch (s_Storage s))) (softLimit - have) ∅.

Definition addFiles (batch : list File) (inf : ClientInfo) c s : ServerRuntime E F P Q :=
  if h_released (state c s) then s else { s with s_Storage := eng_AddFiles batch inf (s_Storage s) }.

Definition observeOffer (batch : list File) (inf : ClientInfo) c s : ServerRuntime E F P Q :=
  match s_Spam s with
  | Some sp =>
      if bool_decide (batch = []) then s
      else
        let '(sp, q) := ObserveOffer (h_spamSession (state c s)) (ci_Hash inf) (h_peerIP (state c s)) batch sp in
        onState c (λ h, { h with h_spamSession := Some q }) { s with s_Spam := Some sp }
  | None => s
  end.

(** What happens to the batch of a packet that was not refused. *)
Definition storeOffers (batch : list File) (inf : ClientInfo) (softLimit : Z) c s : ServerRuntime E F P Q :=
  let s := observeOffer batch inf c s in
  let '(batch, skipped) := withinSoftLimit batch inf softLimit s in
  let s := if (0 <? skipped) && negb (h_softLimitWarned (state c s)) then
             messageClient c (msgSoftFileLimit softLimit) (onState c (λ h, { h with h_softLimitWarned := true }) s)
           else s in
  if bool_decide (batch = []) then s else addFiles batch inf c s.

Definition handleOfferFiles c (payload : bytes) s : ServerRuntime E F P Q :=
  let b := NewBufferFromBytes payload in
  let softLimit := tc_SoftFileLimit (s_tcp s) in
  let hardLimit := tc_HardFileLimit (s_tcp s) in
  if h_hardLimitHit (state c s) || h_banlistDropped (state c s) then s
  else if match declaredFileCount b with
          | Some declared => (0 <? hardLimit) && (u32 hardLimit <=? declared)
          | None => false
          end then
    let s := onState c (λ h, { h with h_hardLimitHit := true }) s in
    let s := { s with s_hardLimit := u64 (s_hardLimit s + 1) } in
    closeClient c "file-hard-limit" (messageClient c (msgHardFileLimit hardLimit) s)
  else
    match (GetOfferedFiles b).2 with
    | Ok records =>
        let inf := info c s in
        match collectOffers records inf c s with
        | (s, Some batch) => storeOffers batch inf softLimit c s
        | (s, None) => s
        end
    | _ => s
    end.

(** ** Sources *)

(** [parseGetSources]. *)
Definition parseGetSources : M Buffer (bytes * Z) :=
  hash ← Get 16;
  if negb (bool_decide (length hash = 16%nat)) then fail ErrOutOfBounds else
  size ← GetUInt32LE;
  if size =? 0 then v ← GetUInt64LE; mret (hash, v) else mret (hash, size).

Definition sendFoundSources c (hash : bytes) (sources : list Source) (obfuscated : bool) (format : SourceFormat) s :
    ServerRuntime E F P Q :=
  sendClient c
    (if is_sentinel format then BuildFoundSourcesSentinelPacket hash sources obfuscated
     else if obfuscated then BuildFoundSourcesObfuPacket hash sources
     else BuildFoundSourcesPacket hash sources) s.

Definition handleGetSources c (payload : bytes) (obfuscated : bool) s : ServerRuntime E F P Q :=
  match (parseGetSources (NewBufferFromBytes payload)).2 with
  | Ok (hash, fileSize) =>
      let sources := if withheldHash hash s then [] else eng_GetSources hash fileSize (s_Storage s) in
      let format := if publishV6Sources s && h_ipv6Capable (state c s) then FormatSentinel else FormatClassic in
      sendFoundSources c hash sources obfuscated format s
  | _ => s
  end.

Definition v6PublishableSources (sources : list Source) s : list Source :=
  if publishV6Sources s then sources
  else map (λ src, { src with src_IPv6 := []; src_IPv6Reachable := false }) sources.

Definition handleGetSourcesIPv6 c (payload : bytes) s : ServerRuntime E F P Q :=
  match (parseGetSources (NewBufferFromBytes payload)).2 with
  | Ok (hash, fileSize) =>
      let sources :=
        if withheldHash hash s then [] else v6PublishableSources (eng_GetSources hash fileSize (s_Storage s)) s in
      sendClient c (BuildFoundSourcesIPv6Packet hash sources) s
  | _ => s
  end.

(** ** Searches *)

Definition metaSearchFor (capable : bool) s : bool :=
  bool_decide (is_Some (s_meta s)) && (s_metaAdvertiseLegacy s || capable).

(** The rows [startMetaSearch] leads to. *)
Definition startMetaSearch (expr : SearchExpr) (capable udp : bool) s : option (list File) :=
  (λ m, meta_Search m expr udp (negb (metaSearchFor capable s))) <$> s_meta s.

Definition relatedSearch (expr : SearchExpr) (seeds : list FileKey) s : list File :=
  let cfg := s_tcp s in
  if negb (tc_RelatedSearch cfg) then []
  else
    let minClients := if tc_RelatedMinClients cfg <=? 0 then defaultRelatedMinClients else tc_RelatedMinClients cfg in
    let files := eng_RelatedFiles seeds minClients relatedMaxClients (s_Storage s) in
    withholdFiles (filter (λ f, MatchRelatedFilter expr f = true) files) s.

Definition keepPendingResults c (rows : list File) (expires : Z) s : ServerRuntime E F P Q :=
  let rows := take (Z.to_nat (Z.max (tc_MoreResultsMax (s_tcp s)) 0)) rows in
  onState c (λ h, { h with h_pendingResults := if bool_decide (rows = []) then None else Some (mkPending rows expires) }) s.

Definition pendingRows c s : list File :=
  match h_pendingResults (state c s) with Some p => ps_rows p | None => [] end.

Definition dropExpiredResults c (now : Z) s : ServerRuntime E F P Q :=
  onState c (λ h, { h with h_pendingResults :=
    match h_pendingResults h with
    | Some p => if ps_expires p <=? now then None else Some p
    | None => None
    end }) s.

Definition sendSearchResult c (files : list File) (more : bool) s : ServerRuntime E F P Q :=
  sendClient c (BuildSearchResultPacket files more) s.

Definition sendSearchPageUntil c (files : list File) (expires : Z) s : ServerRuntime E F P Q :=
  let page := take (Z.to_nat MaxSearchPage) files in
  let rest := drop (Z.to_nat MaxSearchPage) files in
  let s := keepPendingResults c rest expires s in
  sendSearchResult c page (0 <? length (pendingRows c s)) s.

Definition sendSearchPage c (files : list File) (now : Z) s : ServerRuntime E F P Q :=
  sendSearchPageUntil c files (now + tc_MoreResultsTTL (s_tcp s)) s.

(** The rows a search is answered with. *)
Definition searchRows c (expr : SearchExpr) s : list File :=
  if queryBlocked expr s then []
  else match FindRelated expr with
       | Some seeds => relatedSearch expr seeds s
       | None =>
           let rows := startMetaSearch expr (h_metaCapable (state c s)) false s in
           withholdFiles (mergeMetaResults (eng_FindBySearch (Some expr) (s_Storage s)) rows) s
       end.

Definition handleSearchRequest c (payload : bytes) (now : Z) s : ServerRuntime E F P Q :=
  match (ParseSearchExpr (NewBufferFromBytes payload)).2 with
  | Ok expr => sendSearchPage c (searchRows c expr s) now s
  | _ => sendSearchPage c [] now s
  end.

Definition handleQueryMoreResult c (now : Z) s : ServerRuntime E F P Q :=
  let s := dropExpiredResults c now s in
  match h_pendingResults (state c s) with
  | Some kept =>
      if bool_decide (ps_rows kept = []) then sendSearchResult c [] false s
      else sendSearchPageUntil c (withholdFiles (ps_rows kept) s) (ps_expires kept) s
  | None => sendSearchResult c [] false s
  end.

(** ** Callbacks *)

(** [target.writePacket] with its error. *)
Definition tryClient c (packet : result Buffer) s : ServerRuntime E F P Q * bool :=
  match packet with
  | Ok b =>
      let ok := negb (ss_closed (client c s)) in (onClient c (λ cl, (writePacket b cl).1) s, ok)
  | _ => (s, false)
  end.

Definition sendCallbackFailed c s : ServerRuntime E F P Q := sendClient c BuildCallbackFailedPacket s.

Definition handleCallbackRequest c (payload : bytes) s : ServerRuntime E F P Q :=
  match (GetUInt32LE (NewBufferFromBytes payload)).2 with
  | Ok lowID =>
      match GetClient lowID (s_LowIDs s) with
      | None => sendCallbackFailed c s
      | Some target =>
          if negb (ss_logged (client target s)) then sendCallbackFailed c s
          else
            let self := info c s in
            let t := state target s in
            if negb (ci_LowID self) && negb (ci_IPv4 self =? 0) then
              let '(s, ok) := tryClient target
                (BuildCallbackRequestedPacket (ci_IPv4 self) (ci_Port self) (ci_CryptOptions self) (ci_Hash self)) s in
              if ok then s else sendCallbackFailed c s
            else if publishV6Sources s && is16 (ci_IPv6 self) && ci_IPv6Reachable self && h_ipv6Capable t &&
                    (is16 (ci_IPv6 (h_info t)) || h_connectedV6 t) then
              let '(s, ok) := tryClient target (BuildCallbackRequestedIPv6Packet (ci_IPv6 self) (ci_Port self)) s in
              if ok then s else sendCallbackFailed c s
            else sendCallbackFailed c s
      end
  | _ => s
  end.

(** ** Status, identity and server list *)

Definition sendServerStatus c (now : Z) s : ServerRuntime E F P Q :=
  let '(s, (clients, files)) := counts now s in
  sendClient c (BuildServerStatusPacket (advertisedUsers s clients) (advertisedFiles s files)) s.

Definition natCallbackEnabled s : bool := hasFlag (tc_Flags (s_tcp s)) FlagNatCallback.
Definition natWakeEnabled s : bool := hasFlag (tc_Flags (s_tcp s)) FlagNatWake.
Definition foreignCallbackEnabled s : bool :=
  natCallbackEnabled s && hasFlag (uc_UDPFlags (s_udp s)) FlagForeignCallback.

Definition lowIDParity c s : Z :=
  if negb (natCallbackEnabled s) then LowIDAnyParity
  else if h_nattCapable (state c s) then LowIDOddParity else LowIDEvenParity.

Definition wantsLongIDChange c s : bool :=
  natCallbackEnabled s && h_nattCapable (state c s) && hasFlag (ci_CryptOptions (info c s)) 1.

Definition idChangeNatPorts c (id : Z) s : IDChangeNatPorts :=
  let obf := if uc_TCPPortObf (s_udp s) =? 0 then tc_Port (s_tcp s) else uc_TCPPortObf (s_udp s) in
  let port := h_remotePort (state c s) in
  mkNatPorts obf (if negb (HasHighID id) && (0 <? port) && (port <=? 0xffff) then port else ci_Port (info c s)).

Definition sendIDChange c (id : Z) s : ServerRuntime E F P Q :=
  let lan := match h_peerIP (state c s) with Some ip => IsLANIP ip | None => false end in
  let observed := if lan && negb (HasHighID id) then 0 else ci_IPv4 (info c s) in
  let natPorts := if wantsLongIDChange c s then Some (idChangeNatPorts c id s) else None in
  sendClient c (BuildIDChangePacket id (tc_Flags (s_tcp s)) (tc_Port (s_tcp s)) observed natPorts) s.

Definition v6ProbeRequired (v6Len : nat) s : bool :=
  publishV6Sources s && bool_decide (v6Len = 16%nat) && tc_ProbeIPv6 (s_tcp s).

Definition ipv6Reflection c s : bytes * Z :=
  if negb (ipv6Enabled s) then ([], 0)
  else
    let peerV6 :=
      match h_peerIP (state c s) with
      | Some ip => if h_connectedV6 (state c s) && IsPublicIPv6 ip then default [] (IPv6Bytes ip) else []
      | None => []
      end in
    let inf := info c s in
    if negb (publishV6Sources s) || negb (ss_logged (client c s)) || negb (is16 (ci_IPv6 inf)) then (peerV6, 0)
    else
      let status := Z.lor IPv6StatusHave (if ci_IPv6Reachable inf then IPv6StatusReachable else 0) in
      (peerV6, Z.lor status (if v6ProbeRequired (length (ci_IPv6 inf)) s then IPv6StatusProbed else 0)).

Definition sendServerIdent c s : ServerRuntime E F P Q :=
  let '(clientV6, v6Status) := ipv6Reflection c s in
  let cfg := s_tcp s in
  sendClient c (BuildServerIdentPacket (mkServerConfig (tc_Name cfg) (tc_Description cfg) (advertisedAddress s)
    (tc_Hash cfg) (tc_Port cfg) (tc_Flags cfg) (tc_ServerIPv6 cfg) (tc_NatRendezvousPort cfg) clientV6 v6Status
    (tc_MetaAPI cfg) (tc_Ed3k cfg) (uc_UDPFlags (s_udp s)) (default [] (s_natSessions s !! c ≫= ns_token)))) s.

(** Each address and port once, the configured entries first. *)
Definition advertisableServers s : list Server :=
  fold_left (λ out sv,
      if existsb (λ o, bool_decide (ServerAddrKey o = ServerAddrKey sv)) out then out else out ++ [sv])
    (eng_ServersAll (s_Storage s) ++ s_verified s) [].

Definition sendServerList c s : ServerRuntime E F P Q :=
  sendClient c (BuildServerListPacket (advertisableServers s) (publishV6Sources s)) s.

Definition handleGetServerList c s : ServerRuntime E F P Q := sendServerIdent c (sendServerList c s).

Definition startPeriodicServerStatus c s : ServerRuntime E F P Q :=
  if h_statusStop (state c s) || (tc_ServerStatusInterval (s_tcp s) <=? 0) then s
  else onState c (λ h, { h with h_statusStop := true }) s.

(** One turn of its ticker. *)
Definition statusTick c (now : Z) s : ServerRuntime E F P Q :=
  if negb (h_statusStop (state c s)) then s
  else
    let s := if ss_logged (client c s) then sendServerStatus c now s else s in
    dropExpiredResults c now s.

(** ** Releasing a session *)

Definition releaseSession c s : ServerRuntime E F P Q :=
  if h_released (state c s) then s
  else
    let s := { s with s_natSessions := delete c (s_natSessions s) } in
    let inf := info c s in
    let s := if h_hasLowID (state c s) then { s with s_LowIDs := Remove (ci_ID inf) (s_LowIDs s) } else s in
    let s := onState c (λ h, { h with h_released := true }) s in
    let s := if ss_logged (client c s) then
               let s := unregisterSession (ci_Hash inf) c s in
               { s with s_Storage := eng_Disconnect inf (s_Storage s) }
             else s in
    onClient c (λ cl, { cl with ss_closed := true }) s.

(** The read loop ends: [run]'s deferred calls. *)
Definition endRun c (reason : String.string) s : ServerRuntime E F P Q :=
  releaseSession c (onState c (λ h, { h with h_statusStop := false; h_ended := true }) (onClient c (setCloseReason reason) s)).

Definition replaceSameIPSession c (hash : bytes) s : ServerRuntime E F P Q :=
  match sessionByHash hash s with
  | Some old =>
      match h_peerIP (state c s) with
      | Some ip =>
          if bool_decide (old = c) || negb (EqualIP (default [] (h_peerIP (state old s))) ip) then s
          else releaseSession old (closeClient old "replaced-by-relogin" s)
      | None => s
      end
  | None => s
  end.

Definition dualStackHandoverFrom c (hash : bytes) (port : Z) s : option connID :=
  match h_peerIP (state c s), sessionByHash hash s with
  | Some ip, Some old =>
      let o := info old s in
      if negb (h_connectedV6 (state c s)) || bool_decide (old = c) || h_connectedV6 (state old s) ||
         negb (is16 (ci_IPv6 o)) || negb (ci_Port o =? port) || negb (EqualIP (ci_IPv6 o) ip)
      then None else Some old
  | _, _ => None
  end.

Definition refuseDuplicate c s : ServerRuntime E F P Q := closeClient c "duplicate-login" (messageClient c msgDuplicate s).

Definition completeDualStackHandover c s : ServerRuntime E F P Q * bool :=
  let inf := info c s in
  if negb (bool_decide (length (ci_Hash inf) = 16%nat)) ||
     negb (eng_IsConnected (hashInfo (ci_Hash inf)) (s_Storage s)) then (s, true)
  else
    let s := match dualStackHandoverFrom c (ci_Hash inf) (ci_Port inf) s with
             | Some old => releaseSession old (closeClient old "replaced-by-ipv6-session" s)
             | None => s
             end in
    if eng_IsConnected (hashInfo (ci_Hash inf)) (s_Storage s) then (refuseDuplicate c s, false) else (s, true).

(** ** Login *)

Definition setLogin c (p : loginPhase) s : ServerRuntime E F P Q := onState c (λ h, { h with h_login := p }) s.

(** The row in storage, which other connections can see before [registerSession] has run. *)
Definition connectSession c s : ServerRuntime E F P Q :=
  let s := beginHandshake (ci_Hash (info c s)) s in
  match eng_Connect (info c s) (s_Storage s) with
  | (e, Ok storeID) =>
      let s := onClient c (λ cl, { cl with ss_logged := true }) { s with s_Storage := e } in
      setLogin c LRegistering (onInfo c (λ i, { i with ci_StoreID := storeID }) s)
  | (e, Err err) =>
      let s := { s with s_Storage := e } in
      endHandshake (ci_Hash (info c s))
        (closeClient c (String.append "storage-connect-failed: " (error_text err)) s)
  | (e, Panic) => { s with s_Storage := e }
  end.

(** [handShake] up to [registerSession]. *)
Definition handShake c s : ServerRuntime E F P Q :=
  match completeDualStackHandover c s with
  | (s, false) => s
  | (s, true) => connectSession c s
  end.

(** [issueNatToken]: [token] is what the random source gives, if it gives any. *)
Definition issueNatToken c (token : option bytes) s : ServerRuntime E F P Q :=
  let h := state c s in
  if negb (foreignCallbackEnabled s) ||
     negb (ss_logged (client c s) && h_hasLowID h && h_nattCapable h && h_holePunchExt h) then s
  else match token with
       | Some token => { s with s_natSessions := <[c := mkNatSession (Some token) 0 false]> (s_natSessions s) }
       | None => s
       end.

(** The rest of [handShake]. *)
Definition finishHandShake c (now : Z) (token : option bytes) s : ServerRuntime E F P Q :=
  let s := setLogin c LIdle s in
  let inf := info c s in
  let s := issueNatToken c token (registerSession (ci_Hash inf) c s) in
  let s := messageClient c (tc_MessageLogin (s_tcp s)) s in
  let s := messageClient c (str "server version " ++ LoginVersionStr) s in
  let s := sendServerStatus c now s in
  let s := startPeriodicServerStatus c s in
  let s := sendServerIdent c (sendIDChange c (ci_ID inf) s) in
  endHandshake (ci_Hash inf) s.

Definition allocateLowID c s : LowIDClients connID * option Z :=
  AddByAddress (default [] (h_peerIP (state c s))) (ci_IPv4 (info c s)) (ci_Port (info c s)) c (lowIDParity c s) (s_LowIDs s).

(** [handleLoginRequest] from the verdict of the dial-backs on: [probe] is [isFirewalled],
    [reachable6] the IPv6 probe's. *)
Definition loginDialed c (v6 : bytes) (probe reachable6 : bool) s : ServerRuntime E F P Q :=
  let s := setLogin c LIdle s in
  let inf := info c s in
  let firewalled := negb (HasHighID (ci_IPv4 inf)) || probe in
  let '(s, ok) :=
    if firewalled then
      let s := onState c (λ h, { h with h_hasLowID := true }) (onInfo c (λ i, { i with ci_LowID := true }) s) in
      let s := messageClient c (tc_MessageLowID (s_tcp s)) s in
      match allocateLowID c s with
      | (l, Some id) => (onInfo c (λ i, { i with ci_ID := id }) { s with s_LowIDs := l }, true)
      | (l, None) => (closeClient c "lowid-pool-exhausted" { s with s_LowIDs := l }, false)
      end
    else
      (onState c (λ h, { h with h_hasLowID := false })
         (onInfo c (λ i, { i with ci_LowID := false; ci_ID := ci_IPv4 i }) s), true) in
  if negb ok then s
  else
    let s := if publishV6Sources s && is16 v6 then
               let reachable := if v6ProbeRequired (length v6) s then reachable6 else true in
               onInfo c (λ i, { i with ci_IPv6Reachable := reachable }) s
             else s in
    handShake c s.

(** From the login's acceptance to the dial-backs. *)
Definition loginAccept c (req : LoginRequest) s : ServerRuntime E F P Q :=
  let h := state c s in
  let '(v6Bytes, v6Capable) :=
    if ipv6Enabled s then
      let '(v6, sent) := loginIPv6 (lr_Tags req) in
      let v6 := match v6, h_connectedV6 h, h_peerIP h with
                | [], true, Some ip => if IsPublicIPv6 ip then default [] (IPv6Bytes ip) else []
                | _, _, _ => v6
                end in
      (v6, h_connectedV6 h || sent)
    else ([], false) in
  let flags := loginFlags (lr_Tags req) in
  let s := onInfo c (λ i, { i with ci_Hash := lr_Hash req; ci_ID := lr_ID req; ci_Port := lr_Port req;
                                   ci_CryptOptions := cryptOptionsFromLoginFlags flags; ci_IPv6 := v6Bytes }) s in
  let s := onState c (λ h, { h with
      h_metaCapable := hasFlag flags SrvCapMetaSearch;
      h_nattCapable := natCallbackEnabled s && hasFlag flags SrvCapNatTraversal;
      h_natWakeCapable := natWakeEnabled s && hasFlag flags SrvCapNatWake;
      h_holePunchExt := foreignCallbackEnabled s && hasFlag flags SrvCapHolePunchExt;
      h_ed3kID := loginEd3k (lr_Tags req);
      h_ipv6Capable := v6Capable }) s in
  setLogin c (LDialing v6Bytes) s.

(** After the probe of the session it collides with. *)
Definition loginProbed c (req : LoginRequest) s : ServerRuntime E F P Q :=
  let s := setLogin c LIdle s in
  if negb (eng_IsConnected (hashInfo (lr_Hash req)) (s_Storage s)) then loginAccept c req s
  else if negb (hashHeldLocally (lr_Hash req) s) then
    loginAccept c req { s with s_Storage := eng_Disconnect (hashInfo (lr_Hash req)) (s_Storage s) }
  else refuseDuplicate c s.

(** [handleLoginRequest] up to its first wait: the probe of a session it collides with, or
    the dial-backs. *)
Definition loginRequest c (payload : bytes) (now : Z) s : ServerRuntime E F P Q :=
  match (ParseLoginRequest (NewBufferFromBytes payload)).2 with
  | Ok req =>
      let hash := lr_Hash req in
      if ss_logged (client c s) then closeClient c "already-logged-in" s
      else if match s_Content s with Some f => Banned hash (h_peerIP (state c s)) f | None => false end then
        let s := { s with s_bannedLogins := u64 (s_bannedLogins s + 1) } in
        closeClient c "content-ban" (messageClient c msgBanned s)
      else if bool_decide (length hash = 16%nat) && eng_IsConnected (hashInfo hash) (s_Storage s) then
        let s := replaceSameIPSession c hash s in
        match dualStackHandoverFrom c hash (lr_Port req) s with
        | Some _ => loginAccept c req s
        | None =>
            match sessionByHash hash s with
            | Some old =>
                if bool_decide (old = c) then loginProbed c req s
                else setLogin c (LStale req) (sendServerStatus old now s)
            | None => loginProbed c req s
            end
        end
      else loginAccept c req s
  | _ => s
  end.

(** ** Dispatch *)

(** The switch of [handleED2K], the login and the disconnect apart: [requireLogin] has let
    the request through. *)
Definition serveRequest c (opcode : Z) (payload : bytes) (now : Z) s : ServerRuntime E F P Q :=
  if opcode =? OpOfferFiles then handleOfferFiles c payload s
  else if opcode =? OpGetServerList then handleGetServerList c s
  else if opcode =? OpGetSources then handleGetSources c payload false s
  else if opcode =? OpGetSourcesObfu then handleGetSources c payload true s
  else if opcode =? OpGetSourcesIPv6 then if tc_IPv6 (s_tcp s) then handleGetSourcesIPv6 c payload s else s
  else if opcode =? OpSearchRequest then handleSearchRequest c payload now s
  else if opcode =? OpQueryMoreResult then handleQueryMoreResult c now s
  else if opcode =? OpCallbackRequest then handleCallbackRequest c payload s
  else s.

Definition gate c (opcode : Z) s : ServerRuntime E F P Q * bool :=
  (onClient c (λ cl, (requireLogin opcode cl).1) s, (requireLogin opcode (client c s)).2).

(** [handleED2K]. *)
Definition serve c (opcode : Z) (payload : bytes) (now : Z) s : ServerRuntime E F P Q :=
  if opcode =? OpLoginRequest then loginRequest c payload now s
  else if opcode =? OpDisconnect then closeClient c "client-disconnect" s
  else let '(s, ok) := gate c opcode s in if ok then serveRequest c opcode payload now s else s.

End Handlers.
