(* ===== verification/Demo.v ===== *)
(** * A concrete server

    The server on the memory engine, with filters that let everything through and an ASCII
    text layer: the instance the theorems on the request handlers are evaluated on. *)

From S2P Require Import Prelude Buffer Types Address NetIP Packet Builders Framing LowID Text Search SearchParse.
From S2P Require Import SortedIDs FileMeta NameIndex Rank Servers MemEngine MemInv MemRefine MemQuery Engine MemAPI BotDetector RuntimeState Runtime.
Local Open Scope Z_scope.

(** ** The interfaces *)

Definition openFilter : ContentFilter unit := {|
  CheckOffer := λ _ _ _, (false, false, false);
  Withheld := λ _ _ _, false;
  QueryBlocked := λ _ _, false;
  BanThreshold := λ _, 0;
  KeywordBanThreshold := λ _, 0;
  Ban := λ _ _ _ f, f;
  Banned := λ _ _ _, false;
|}.

Definition noObserver : SpamObserver unit unit := {| ObserveOffer := λ _ _ _ _ p, (p, tt) |}.
Definition noPseudoHash : MetaHash := {| RejectOfferedFile := λ _, false |}.

Module Instances.
#[export] Existing Instances asciiTables latin1 mergeSortSlice mergeSortSlice_laws rleZlib openFilter noObserver noPseudoHash.
End Instances.
Import Instances.

(** ** The server before its first connection *)

Definition demoTCP : TCPRuntimeConfig :=
  mkTCPConfig (str "demo") (str "a demo server") (str "192.0.2.1") [] 4661 0 (replicate 16 7) (str "welcome") (str "you have a LowID")
    true true false [] 0 (mkMetaAPIAdvert [] 0 []) [] 300000000000 3 10 defaultMoreResultsMax 60000000000 true 5.

Definition demoUDP : UDPRuntimeConfig :=
  mkUDPRuntimeConfig (str "demo") (str "a demo server") [] 0 true true 0 0 [] 0 100 3 10 (mkBotConfig false 0 0 0) 0 0 (mkServerSearchAdvert [] []) [] false.

Abbreviation DemoServer := (ServerRuntime MemoryEngine unit unit unit).

Definition demoServer : DemoServer :=
  mkServerRuntime demoTCP demoUDP NewMemoryEngine (NewLowIDClients true 1 100) None None (mkCounters 1000000000 0 0 None) ∅ ∅ ∅ None false
    (mkBoost 0 0 0 false false) [] 0 0 ∅ ∅.

(** ** What clients send *)

Definition loginBytes (hash : bytes) (port : Z) : bytes := hash ++ le_split 4 0 ++ le_split 2 port ++ le_split 4 0.

(** A file of a 32-bit size with its name and no other tag. *)
Definition offerRecord (hash name : bytes) (size : Z) : bytes :=
  hash ++ le_split 4 0 ++ le_split 2 0 ++ le_split 4 2 ++
  [2; 1; 0; 1] ++ le_split 2 (length name) ++ name ++ [3; 1; 0; 2] ++ le_split 4 size.

Definition offerBytes (files : list (bytes * bytes * Z)) : bytes :=
  le_split 4 (length files) ++ flat_map (λ f, offerRecord f.1.1 f.1.2 f.2) files.

Definition alice : bytes := replicate 16 0xA1.
Definition bob : bytes := replicate 16 0xB0.
Definition plans : bytes := replicate 16 0xF1.
