(* ===== verification/Sessions.v ===== *)
(** * The life of a session: connections, logins and releases in any order

    The steps of all connections interleaved, a login being several of them, and what holds
    after every step: the storage rows, the index of sessions and the connections agree. *)

From S2P Require Import Prelude Buffer Types Address NetIP Packet Builders Framing LowID Text Search SearchParse.
From S2P Require Import FileMeta Servers MemEngine MemInv Engine MemAPI RuntimeState Runtime Demo.
Local Open Scope Z_scope.
#[local] Set Warnings "-clear-no-such-hyp".

(** ** Events *)

Inductive serverEvent :=
| SvAccept (c : connID) (ip : bytes) (port : Z)
| SvPacket (c : connID) (opcode : Z) (payload : bytes) (now : Z)
| SvProbed (c : connID)
| SvDialed (c : connID) (probe reachable6 : bool)
| SvRegister (c : connID) (now : Z) (token : option bytes)
| SvTick (c : connID) (now : Z)
| SvEnd (c : connID) (reason : String.string).

Section Sessions.
Context {E F P Q : Type} `{!Engine E} `{!EngineLaws E} `{!ContentFilter F} `{!SpamObserver P Q}.
Context `{!Zlib} `{!Unicode} `{!Charmap} `{!MetaHash}.
Implicit Types (s : ServerRuntime E F P Q) (c : connID).

Definition serverStep s (e : serverEvent) : ServerRuntime E F P Q :=
  match e with
  | SvAccept c ip port => { s with s_clients := <[c := newTCPClient ip port]> (s_clients s) }
  | SvPacket c opcode payload now => serve c opcode payload now s
  | SvProbed c => match h_login (state c s) with LStale req => loginProbed c req s | _ => s end
  | SvDialed c probe reachable6 =>
      match h_login (state c s) with LDialing v6 => loginDialed c v6 probe reachable6 s | _ => s end
  | SvRegister c now token =>
      match h_login (state c s) with LRegistering => finishHandShake c now token s | _ => s end
  | SvTick c now => statusTick c now s
  | SvEnd c reason => endRun c reason s
  end.

(** A connection reads and ends while no login of its own is waiting; the engine has an
    identifier left for a login. *)
Definition possible s (e : serverEvent) : Prop :=
  match e with
  | SvAccept c _ _ => s_clients s !! c = None
  | SvPacket c _ _ _ | SvEnd c _ =>
      is_Some (s_clients s !! c) ∧ h_login (state c s) = LIdle ∧ h_ended (state c s) = false
  | SvDialed _ _ _ => eng_fresh (s_Storage s)
  | SvProbed _ | SvRegister _ _ _ | SvTick _ _ => True
  end.

(** A server that has just started. *)
Record started s : Prop := {
  st_ok : eng_ok (s_Storage s);
  st_sessions : eng_sessions (s_Storage s) = ∅;
  st_index : s_sessionsByHash s = ∅;
  st_handshaking : s_handshaking s = ∅;
  st_clients : s_clients s = ∅;
  st_lowids : wf_lowid (s_LowIDs s) ∧ l_clients (s_LowIDs s) = ∅;
}.

Inductive served (s0 : ServerRuntime E F P Q) : ServerRuntime E F P Q → Prop :=
| served_start : served s0 s0
| served_step s e : served s0 s → possible s e → served s0 (serverStep s e).

(** ** What of a connection matters here *)

Record core := mkCore {
  k_logged : bool;
  k_released : bool;
  k_ended : bool;
  k_hasLowID : bool;
  k_login : loginPhase;
  k_info : ClientInfo;
}.

Definition coreOf (cl : Session (handlerState Q)) : core :=
  mkCore (ss_logged cl) (h_released (ss_app cl)) (h_ended (ss_app cl)) (h_hasLowID (ss_app cl))
    (h_login (ss_app cl)) (h_info (ss_app cl)).

Definition cores s : gmap connID core := coreOf <$> s_clients s.

(** Logged in and not released. *)
Definition online (x : core) : Prop := k_logged x = true ∧ k_released x = false.
Definition hashOf (x : core) : bytes := ci_Hash (k_info x).
Definition storeOf (x : core) : Z := ci_StoreID (k_info x).

Definition stage_ok (x : core) : Prop :=
  match k_login x with
  | LIdle => k_logged x = false → k_released x = k_ended x
  | LStale req => k_logged x = false ∧ k_released x = false ∧ k_ended x = false ∧ length (lr_Hash req) = 16%nat
  | LDialing _ => k_logged x = false ∧ k_released x = false ∧ k_ended x = false ∧ length (hashOf x) = 16%nat
  | LRegistering => k_logged x = true ∧ k_released x = false
  end.

Record sessions_ok (K : gmap connID core) (e : E) (idx : gmap bytes connID) (hk : gmap bytes Z) : Prop := {
  so_engine : eng_ok e;
  so_rows : ∀ k i, eng_sessions e !! k = Some i ↔ ∃ c x, K !! c = Some x ∧ online x ∧ k_info x = i ∧ storeOf x = k;
  so_row : ∀ c x, K !! c = Some x → online x →
    length (hashOf x) = 16%nat ∧ eng_row e (hashOf x) = Some (storeOf x);
  so_inj : ∀ c d x y, K !! c = Some x → K !! d = Some y → online x → online y → storeOf x = storeOf y → c = d;
  so_index : ∀ h c, idx !! h = Some c ↔ ∃ x, K !! c = Some x ∧ online x ∧ hashOf x = h ∧ k_login x = LIdle;
  so_hand : ∀ h n, hk !! h = Some n → n = 1 ∧ ∃ c x, K !! c = Some x ∧ hashOf x = h ∧ k_login x = LRegistering;
  so_held : ∀ c x, K !! c = Some x → k_login x = LRegistering → hk !! hashOf x = Some 1;
  so_stage : ∀ c x, K !! c = Some x → stage_ok x;
}.

Definition consistent s : Prop := sessions_ok (cores s) (s_Storage s) (s_sessionsByHash s) (s_handshaking s).

(** *** Steps on the cores *)

Section Cores.
Context (K : gmap connID core) (e : E) (idx : gmap bytes connID) (hk : gmap bytes Z) (Hok : sessions_ok K e idx hk).

(** One connection to a user hash. *)
Lemma online_unique c d x y :
  K !! c = Some x → K !! d = Some y → online x → online y → hashOf x = hashOf y → c = d.
Proof.
  intros Hc Hd Ox Oy Eh. apply (so_inj _ _ _ _ Hok c d x y); try done.
  destruct (so_row _ _ _ _ Hok c x Hc Ox) as [_ Hr1], (so_row _ _ _ _ Hok d y Hd Oy) as [_ Hr2]. congruence.
Qed.

Lemma row_online h k : eng_row e h = Some k → ∃ c x, K !! c = Some x ∧ online x ∧ hashOf x = h ∧ storeOf x = k.
Proof.
  intros (i&Hi&Eh)%eng_row_session; [|apply Hok]. apply (so_rows _ _ _ _ Hok) in Hi as (c&x&?&?&<-&?). by exists c, x.
Qed.

Lemma online_stage c x : K !! c = Some x → online x → k_login x = LIdle ∨ k_login x = LRegistering.
Proof. intros Hc [Hl _]. pose proof (so_stage _ _ _ _ Hok c x Hc) as Hs. unfold stage_ok in Hs. destruct (k_login x); naive_solver congruence. Qed.

(** A hash with a row is held: by the index or by a handshake. *)
Lemma row_held h k : eng_row e h = Some k → is_Some (idx !! h) ∨ hk !! h = Some 1.
Proof.
  intros (c&x&Hc&Ox&<-&_)%row_online. destruct (online_stage c x Hc Ox) as [El|El].
  - left. exists c. apply (so_index _ _ _ _ Hok). by exists x.
  - right. by eapply so_held.
Qed.

(** A connection that is not online changes without becoming so. *)
Lemma sessions_offline c y :
  (∀ x, K !! c = Some x → ¬ online x ∧ k_login x ≠ LRegistering) → ¬ online y → k_login y ≠ LRegistering → stage_ok y →
  sessions_ok (<[c := y]> K) e idx hk.
Proof.
  intros Hx Oy Ly Sy.
  assert (∀ d x, K !! d = Some x → online x ∨ k_login x = LRegistering → d ≠ c) as Hne by (intros d x Hd Ho ->; naive_solver).
  assert (∀ d x, <[c := y]> K !! d = Some x → online x ∨ k_login x = LRegistering → K !! d = Some x) as Hold.
  { intros d x [[<- <-]|[_ ?]]%lookup_insert_Some; naive_solver. }
  assert (∀ d x, K !! d = Some x → online x ∨ k_login x = LRegistering → <[c := y]> K !! d = Some x) as Hnew.
  { intros d x Hd Ho. rewrite lookup_insert_ne; [done|]. intros <-. by eapply Hne. }
  split.
  - apply Hok.
  - intros k i. rewrite (so_rows _ _ _ _ Hok). split; intros (d&x&Hd&Ox&?); exists d, x; auto.
  - intros d x Hd Ox. apply (so_row _ _ _ _ Hok d x); auto.
  - intros d d' x x' Hd Hd' Ox Ox' ?. apply (so_inj _ _ _ _ Hok d d' x x'); auto.
  - intros h d. rewrite (so_index _ _ _ _ Hok). split; intros (x&Hd&Ox&?); exists x; auto.
  - intros h n Hn. destruct (so_hand _ _ _ _ Hok h n Hn) as (->&d&x&Hd&?&?). split; [done|]. exists d, x. auto.
  - intros d x Hd Hl. apply (so_held _ _ _ _ Hok d x); auto.
  - intros d x [[<- <-]|[_ Hd]]%lookup_insert_Some; [done|]. by eapply so_stage.
Qed.

(** A session is released. *)
Lemma sessions_release c x e' :
  K !! c = Some x → online x → k_login x = LIdle →
  eng_ok e' → eng_sessions e' = delete (storeOf x) (eng_sessions e) →
  (∀ h, eng_row e' h = if bool_decide (eng_row e h = Some (storeOf x)) then None else eng_row e h) →
  ∀ y, k_released y = true → k_login y = LIdle → (k_logged y = true) →
  sessions_ok (<[c := y]> K) e' (if bool_decide (idx !! hashOf x = Some c) then delete (hashOf x) idx else idx) hk.
Proof.
  intros Hc Ox Lx Ok' Es Er y Ry Ly Gy.
  assert (¬ online y) as Oy by (unfold online; rewrite Ry; naive_solver).
  assert (idx !! hashOf x = Some c) as Hi by (apply (so_index _ _ _ _ Hok); by exists x).
  rewrite bool_decide_eq_true_2 by done.
  assert (∀ d z, <[c := y]> K !! d = Some z → online z → d ≠ c ∧ K !! d = Some z) as Hold.
  { intros d z [[<- <-]|[? ?]]%lookup_insert_Some; naive_solver. }
  assert (∀ d z, K !! d = Some z → online z → d ≠ c → hashOf z ≠ hashOf x ∧ storeOf z ≠ storeOf x) as Hdiff.
  { intros d z Hd Oz Hne. split; intros E'; destruct Hne; [by eapply online_unique|by eapply so_inj]. }
  split.
  - done.
  - intros k i. rewrite Es, lookup_delete_Some, (so_rows _ _ _ _ Hok). split.
    + intros (Hk&d&z&Hd&Oz&Ei&Ek). exists d, z. split_and!; try done. rewrite lookup_insert_ne; [done|]. intros <-. naive_solver.
    + intros (d&z&Hd&Oz&Ei&Ek). destruct (Hold d z Hd Oz) as [Hne Hd']. destruct (Hdiff d z Hd' Oz Hne) as [_ ?].
      split; [congruence|]. by exists d, z.
  - intros d z Hd Oz. destruct (Hold d z Hd Oz) as [Hne Hd']. destruct (Hdiff d z Hd' Oz Hne) as [_ ?].
    destruct (so_row _ _ _ _ Hok d z Hd' Oz) as [? Hr]. split; [done|]. rewrite Er, bool_decide_eq_false_2; [done|]. congruence.
  - intros d d' z z' Hd Hd' Oz Oz' ?. apply Hold in Hd as [_ Hd], Hd' as [_ Hd']; try done. by apply (so_inj _ _ _ _ Hok d d' z z').
  - intros h d. rewrite lookup_delete_Some, (so_index _ _ _ _ Hok). split.
    + intros (Hh&z&Hd&Oz&Eh&?). exists z. split_and!; try done. rewrite lookup_insert_ne; [done|]. intros <-. naive_solver.
    + intros (z&Hd&Oz&<-&?). destruct (Hold d z Hd Oz) as [Hne Hd']. destruct (Hdiff d z Hd' Oz Hne) as [? _].
      split; [done|]. by exists z.
  - intros h n Hn. destruct (so_hand _ _ _ _ Hok h n Hn) as (->&d&z&Hd&?&?). split; [done|]. exists d, z.
    split_and!; try done. rewrite lookup_insert_ne; [done|]. intros <-. congruence.
  - intros d z [[<- <-]|[_ Hd]]%lookup_insert_Some Hl; [congruence|]. by eapply so_held.
  - intros d z [[<- <-]|[_ Hd]]%lookup_insert_Some; [|by eapply so_stage]. unfold stage_ok. rewrite Ly. congruence.
Qed.

Lemma no_row_no_online h c x : eng_row e h = None → K !! c = Some x → online x → hashOf x ≠ h.
Proof. intros Hn Hc Ox <-. destruct (so_row _ _ _ _ Hok c x Hc Ox). congruence. Qed.

Lemma no_row_no_hand h : eng_row e h = None → hk !! h = None.
Proof.
  intros Hn. destruct (hk !! h) as [n|] eqn:En; [|done]. destruct (so_hand _ _ _ _ Hok h n En) as (_&c&x&Hc&<-&Hl).
  destruct (no_row_no_online _ c x Hn Hc); [|done]. pose proof (so_stage _ _ _ _ Hok c x Hc) as Hs. unfold stage_ok in Hs.
  by rewrite Hl in Hs.
Qed.

(** A login gets its row. *)
Lemma sessions_connect c x y e' k :
  K !! c = Some x → ¬ online x → k_login x ≠ LRegistering → length (hashOf x) = 16%nat → eng_row e (hashOf x) = None →
  eng_ok e' → eng_sessions e !! k = None → eng_sessions e' = <[k := { k_info x with ci_StoreID := k }]> (eng_sessions e) →
  (∀ h, eng_row e' h = if bool_decide (h = hashOf x) then Some k else eng_row e h) →
  online y → k_login y = LRegistering → k_info y = { k_info x with ci_StoreID := k } →
  sessions_ok (<[c := y]> K) e' idx (<[hashOf x := 1]> hk).
Proof.
  intros Hc Ox Lx Hl Hn Ok' Hk Es Er Oy Ly Iy.
  assert (hashOf y = hashOf x ∧ storeOf y = k) as [Ehy Esy] by (unfold hashOf, storeOf; rewrite Iy; by destruct (k_info x)).
  assert (∀ d z, <[c := y]> K !! d = Some z → online z → (d = c ∧ z = y) ∨ (d ≠ c ∧ K !! d = Some z)) as Hold.
  { intros d z [[<- <-]|[? ?]]%lookup_insert_Some; naive_solver. }
  assert (∀ d z, K !! d = Some z → online z → d ≠ c) as Hnc by (intros d z Hd Oz ->; naive_solver).
  assert (∀ d z, K !! d = Some z → online z → storeOf z ≠ k) as Hks.
  { intros d z Hd Oz Ez. assert (eng_sessions e !! k = Some (k_info z)); [|congruence]. apply (so_rows _ _ _ _ Hok). by exists d, z. }
  assert (∀ d z, K !! d = Some z → online z → <[c := y]> K !! d = Some z) as Hnew.
  { intros d z Hd Oz. rewrite lookup_insert_ne; [done|]. intros <-. by eapply Hnc. }
  split.
  - done.
  - intros k' i. rewrite Es, lookup_insert_Some, (so_rows _ _ _ _ Hok). split.
    + intros [[<- <-]|(Hne&d&z&Hd&Oz&?&?)]; [|exists d, z; auto]. exists c, y. by rewrite lookup_insert_eq.
    + intros (d&z&Hd&Oz&Ei&Ek). destruct (Hold d z Hd Oz) as [[-> ->]|[_ Hd']]; [left; split; congruence|].
      right. split; [|by exists d, z]. intros <-. by eapply Hks.
  - intros d z Hd Oz. rewrite Er. destruct (Hold d z Hd Oz) as [[-> ->]|[_ Hd']].
    + rewrite Ehy, bool_decide_eq_true_2 by done. by rewrite Esy.
    + rewrite bool_decide_eq_false_2 by (by eapply no_row_no_online). by eapply so_row.
  - intros d d' z z' Hd Hd' Oz Oz' Ez. destruct (Hold d z Hd Oz) as [[-> ->]|[_ Hd2]], (Hold d' z' Hd' Oz') as [[-> ->]|[_ Hd2']]; try done.
    + exfalso. rewrite Esy in Ez. by eapply (Hks d' z').
    + exfalso. rewrite Esy in Ez. by eapply (Hks d z).
    + by eapply so_inj.
  - intros h d. rewrite (so_index _ _ _ _ Hok). split; intros (z&Hd&Oz&Eh&Lz).
    + exists z. auto.
    + destruct (Hold d z Hd Oz) as [[-> ->]|[_ Hd']]; [congruence|]. by exists z.
  - intros h n [[<- <-]|[_ Hh]]%lookup_insert_Some.
    + split; [done|]. exists c, y. by rewrite lookup_insert_eq.
    + destruct (so_hand _ _ _ _ Hok h n Hh) as (->&d&z&Hd&?&?). split; [done|]. exists d, z. split_and!; try done.
      rewrite lookup_insert_ne; [done|]. intros <-. congruence.
  - intros d z [[<- <-]|[_ Hd]]%lookup_insert_Some Lz; [by rewrite Ehy, lookup_insert_eq|].
    rewrite lookup_insert_ne; [by eapply so_held|]. intros Eh. pose proof (so_held _ _ _ _ Hok d z Hd Lz) as Hh.
    rewrite <- Eh, no_row_no_hand in Hh; [done|congruence].
  - intros d z [[<- <-]|[_ Hd]]%lookup_insert_Some; [|by eapply so_stage]. unfold stage_ok. by rewrite Ly.
Qed.

(** A login is registered. *)
Lemma sessions_register c x y :
  K !! c = Some x → k_login x = LRegistering → online y → k_login y = LIdle → k_info y = k_info x →
  sessions_ok (<[c := y]> K) e (<[hashOf x := c]> idx) (delete (hashOf x) hk).
Proof.
  intros Hc Lx Oy Ly Iy.
  assert (online x) as Ox by (pose proof (so_stage _ _ _ _ Hok c x Hc) as Hs; unfold stage_ok in Hs; by rewrite Lx in Hs).
  assert (hashOf y = hashOf x ∧ storeOf y = storeOf x) as [Ehy Esy] by (unfold hashOf, storeOf; by rewrite Iy).
  assert (∀ d z, <[c := y]> K !! d = Some z → (d = c ∧ z = y) ∨ (d ≠ c ∧ K !! d = Some z)) as Hold.
  { intros d z [[<- <-]|[? ?]]%lookup_insert_Some; naive_solver. }
  assert (∀ d z, d ≠ c → K !! d = Some z → <[c := y]> K !! d = Some z) as Hnew by (intros; by rewrite lookup_insert_ne).
  assert (∀ d z, K !! d = Some z → online z → d ≠ c → hashOf z ≠ hashOf x) as Hdiff.
  { intros d z Hd Oz Hne E'. destruct Hne. by eapply online_unique. }
  split.
  - apply Hok.
  - intros k i. rewrite (so_rows _ _ _ _ Hok). split; intros (d&z&Hd&Oz&?&?).
    + destruct (decide (d = c)) as [->|Hne]; [|exists d, z; auto]. exists c, y. rewrite lookup_insert_eq. split_and!; congruence.
    + destruct (Hold d z Hd) as [[-> ->]|[_ Hd']]; [exists c, x|exists d, z]; split_and!; congruence || done.
  - intros d z Hd Oz. destruct (Hold d z Hd) as [[-> ->]|[_ Hd']]; [|by eapply so_row]. rewrite Ehy, Esy. by eapply so_row.
  - intros d d' z z' Hd Hd' Oz Oz' Ez. destruct (Hold d z Hd) as [[-> ->]|[_ Hd2]], (Hold d' z' Hd') as [[-> ->]|[_ Hd2']]; try done.
    + eapply (so_inj _ _ _ _ Hok c d' x z'); congruence.
    + eapply (so_inj _ _ _ _ Hok d c z x); congruence.
    + by eapply so_inj.
  - intros h d. rewrite lookup_insert_Some. split.
    + intros [[<- <-]|(Hne&(z&Hd&Oz&Eh&Lz)%(so_index _ _ _ _ Hok))]; [exists y; by rewrite lookup_insert_eq|].
      exists z. split_and!; try done. apply Hnew; [|done]. intros ->. congruence.
    + intros (z&Hd&Oz&<-&Lz). destruct (Hold d z Hd) as [[-> ->]|[Hne Hd']]; [by left|].
      right. split; [|apply (so_index _ _ _ _ Hok); by exists z]. intros E'. by eapply (Hdiff d z).
  - intros h n (Hne&Hh)%lookup_delete_Some. destruct (so_hand _ _ _ _ Hok h n Hh) as (->&d&z&Hd&?&?). split; [done|].
    exists d, z. split_and!; try done. apply Hnew; [|done]. intros ->. congruence.
  - intros d z Hd Lz. destruct (Hold d z Hd) as [[-> ->]|[Hne Hd']]; [congruence|].
    assert (online z) as Oz by (pose proof (so_stage _ _ _ _ Hok d z Hd') as Hs; unfold stage_ok in Hs; by rewrite Lz in Hs).
    rewrite lookup_delete_ne; [by eapply so_held|]. intros E'. by eapply (Hdiff d z).
  - intros d z Hd. destruct (Hold d z Hd) as [[-> ->]|[_ Hd']]; [|by eapply so_stage]. unfold stage_ok. rewrite Ly.
    destruct Oy. congruence.
Qed.

(** The engine may change as long as its sessions do not. *)
Lemma sessions_engine e' :
  eng_ok e' → eng_sessions e' = eng_sessions e → (∀ h, eng_row e' h = eng_row e h) → sessions_ok K e' idx hk.
Proof.
  intros Ok' Es Er. split; try apply Hok; [done| |].
  - intros k i. rewrite Es. apply Hok.
  - intros c x Hc Ox. rewrite Er. by apply (so_row _ _ _ _ Hok c).
Qed.
End Cores.

(** *** Steps that leave the sessions alone *)

Record quiet s s' : Prop := {
  q_cores : cores s' = cores s;
  q_storage : s_Storage s' = s_Storage s;
  q_index : s_sessionsByHash s' = s_sessionsByHash s;
  q_hand : s_handshaking s' = s_handshaking s;
  q_lowids : s_LowIDs s' = s_LowIDs s;
  q_tcp : s_tcp s' = s_tcp s;
}.

#[export] Instance quiet_refl : Reflexive quiet.
Proof. done. Qed.
#[export] Instance quiet_trans : Transitive quiet.
Proof. intros s1 s2 s3 [] []. split; congruence. Qed.

Lemma coreOf_ext cl cl' : ss_logged cl' = ss_logged cl → ss_app cl' = ss_app cl → coreOf cl' = coreOf cl.
Proof. unfold coreOf. by intros -> ->. Qed.

Lemma cores_onClient c f g s :
  (∀ cl, coreOf (f cl) = g (coreOf cl)) → cores (onClient c f s) = alter g c (cores s).
Proof.
  intros Hf. unfold cores, onClient. replace (s_clients { s with s_clients := _ }) with (alter f c (s_clients s)) by by destruct s.
  apply map_eq. intros d. destruct (decide (d = c)) as [->|Hne].
  - rewrite lookup_fmap, !lookup_alter_eq, lookup_fmap. destruct (s_clients s !! c); cbn; [|done]. by rewrite Hf.
  - by rewrite lookup_fmap, !lookup_alter_ne, lookup_fmap.
Qed.

Lemma client_onClient c f s : is_Some (s_clients s !! c) → client c (onClient c f s) = f (client c s).
Proof.
  intros [cl E0]. unfold client, onClient. replace (s_clients { s with s_clients := _ }) with (alter f c (s_clients s)) by by destruct s.
  by rewrite lookup_alter_eq, E0.
Qed.

Lemma onClient_some c f s : is_Some (s_clients s !! c) → is_Some (s_clients (onClient c f s) !! c).
Proof.
  intros [cl E0]. unfold onClient. replace (s_clients { s with s_clients := _ }) with (alter f c (s_clients s)) by by destruct s.
  rewrite lookup_alter_eq, E0. by eexists.
Qed.

Lemma quiet_onClient c f s : (∀ cl, coreOf (f cl) = coreOf cl) → quiet s (onClient c f s).
Proof.
  intros Hf. split; try by destruct s. rewrite (cores_onClient c f id) by done.
  apply map_eq. intros d. destruct (decide (d = c)) as [->|Hne]; [|by rewrite lookup_alter_ne].
  rewrite lookup_alter_eq. by destruct (cores s !! c).
Qed.

Lemma quiet_onState c f s :
  (∀ h, h_released (f h) = h_released h ∧ h_ended (f h) = h_ended h ∧ h_hasLowID (f h) = h_hasLowID h ∧
        h_login (f h) = h_login h ∧ h_info (f h) = h_info h) → quiet s (onState c f s).
Proof.
  intros Hf. apply quiet_onClient. intros [lg tr se cr cd h]. unfold coreOf; cbn. by destruct (Hf h) as (->&->&->&->&->).
Qed.

Lemma coreOf_close r cl : coreOf (closeWithReason r cl) = coreOf cl.
Proof. destruct (closeWithReason_fields r cl) as (_&?&_&?). by apply coreOf_ext. Qed.
Lemma coreOf_send p cl : coreOf (send p cl) = coreOf cl.
Proof. destruct (send_fields p cl) as (_&?&_&?). by apply coreOf_ext. Qed.
Lemma coreOf_message m cl : coreOf (sendServerMessage m cl) = coreOf cl.
Proof. destruct (sendServerMessage_fields m cl) as (_&?&_&?). by apply coreOf_ext. Qed.
Lemma coreOf_write b cl : coreOf (writePacket b cl).1 = coreOf cl.
Proof. destruct (writePacket_fields b cl) as (_&?&_&?). by apply coreOf_ext. Qed.

Lemma quiet_close c r s : quiet s (closeClient c r s).
Proof. apply quiet_onClient, coreOf_close. Qed.
Lemma quiet_send c p s : quiet s (sendClient c p s).
Proof. apply quiet_onClient, coreOf_send. Qed.
Lemma quiet_message c m s : quiet s (messageClient c m s).
Proof. apply quiet_onClient, coreOf_message. Qed.
Lemma quiet_try c p s : quiet s (tryClient c p s).1.
Proof. destruct p; [apply quiet_onClient, coreOf_write|done|done]. Qed.

Lemma quiet_status c now s : quiet s (sendServerStatus c now s).
Proof.
  unfold sendServerStatus, counts. destruct (Counts now (s_Storage s) (s_counters s)) as [cc [n m]].
  etransitivity; [|apply quiet_send]. by destruct s.
Qed.

Lemma quiet_ident c s : quiet s (sendServerIdent c s).
Proof. unfold sendServerIdent. destruct (ipv6Reflection c s). apply quiet_send. Qed.

Lemma quiet_hits hash c s : quiet s (noteBanlistHit hash c s).1 ∧ quiet s (noteKeywordHit hash c s).1.
Proof.
  unfold noteBanlistHit, noteKeywordHit. split; (case_match; [done|]; apply quiet_onState; by intros []).
Qed.

Lemma quiet_ban inf reason c s : quiet s (banPublisher inf reason c s).
Proof.
  unfold banPublisher. etransitivity; [|apply quiet_close]. etransitivity; [|apply quiet_message].
  etransitivity; [apply (quiet_onState c (λ h, { h with h_banlistDropped := true })); by intros []|].
  by destruct (onState c _ s).
Qed.

Lemma quiet_collect records inf c s : quiet s (collectOffers records inf c s).1.
Proof.
  revert s. induction records as [|record records IH]; intros s; cbn [collectOffers]; [done|].
  destruct (_ || _); [apply IH|]. destruct (checkOffer _ _ _) as [[refused banlist] keyword].
  destruct (negb refused); [pose proof (IH s); by destruct (collectOffers records inf c s) as [s' []]|].
  assert (quiet s (if banlist then noteBanlistHit (fr_Hash record) c s else (s, false)).1) as Hq1
    by (destruct banlist; [apply quiet_hits|done]).
  destruct (if banlist then _ else _) as [s1 hit]. cbn [fst] in Hq1. etransitivity; [exact Hq1|].
  destruct hit; [apply quiet_ban|].
  assert (quiet s1 (if keyword then noteKeywordHit (fr_Hash record) c s1 else (s1, false)).1) as Hq2
    by (destruct keyword; [apply quiet_hits|done]).
  destruct (if keyword then _ else _) as [s2 hit]. cbn [fst] in Hq2. etransitivity; [exact Hq2|].
  destruct hit; [apply quiet_ban|apply IH].
Qed.

Lemma quiet_observe batch inf c s : quiet s (observeOffer batch inf c s).
Proof.
  unfold observeOffer. destruct (s_Spam s) as [sp|]; [|done]. case_bool_decide; [done|].
  destruct (ObserveOffer _ _ _ _ _) as [sp' q]. etransitivity; [|apply quiet_onState; by intros []]. by destruct s.
Qed.

(** What the connections know of a client is in its core. *)
Lemma client_core c s : coreOf (client c s) = default (coreOf nobody) (cores s !! c).
Proof. unfold client, cores. rewrite lookup_fmap. by destruct (s_clients s !! c). Qed.

Lemma same_cores c s s' : cores s' = cores s → coreOf (client c s') = coreOf (client c s).
Proof. intros Hc. by rewrite !client_core, Hc. Qed.

Lemma same_state c s s' : cores s' = cores s → h_released (state c s') = h_released (state c s) ∧ info c s' = info c s.
Proof. intros Hc%(same_cores c). split; [exact (f_equal k_released Hc)|exact (f_equal k_info Hc)]. Qed.

(** A step that leaves the sessions alone but may publish files of one of them. *)
Record publishes c s s' : Prop := {
  pb_quiet : quiet s { s' with s_Storage := s_Storage s };
  pb_storage : s_Storage s' = s_Storage s ∨
    h_released (state c s) = false ∧ ∃ batch, s_Storage s' =
      eng_AddFiles (withinSoftLimit batch (info c s) (tc_SoftFileLimit (s_tcp s)) s).1 (info c s) (s_Storage s);
}.

Lemma quiet_storage s : quiet s { s with s_Storage := s_Storage s }.
Proof. by destruct s. Qed.

Lemma publishes_quiet c s s' : quiet s s' → publishes c s s'.
Proof. intros [Hc Hst Hi Hh Hl Ht]. split; [by split; destruct s'|by left]. Qed.

Lemma publishes_after c s s' s'' : quiet s s' → publishes c s' s'' → publishes c s s''.
Proof.
  intros Hq [[Hc _ Hi Hh Hl Ht] Hp]. destruct Hq as [Hc' Hs' Hi' Hh' Hl' Ht']. destruct (same_state c s s' Hc') as [Er Ei].
  unfold withinSoftLimit in *. rewrite Hs', Er, Ei, Ht' in Hp. split; [|done]. destruct s''; cbn in *. split; cbn; try congruence.
Qed.

Lemma publishes_offer c payload s : publishes c s (handleOfferFiles c payload s).
Proof.
  unfold handleOfferFiles. destruct (_ || _); [by apply publishes_quiet|]. destruct (match declaredFileCount _ with Some _ => _ | None => _ end).
  { apply publishes_quiet. etransitivity; [|apply quiet_close]. etransitivity; [|apply quiet_message].
    etransitivity; [apply (quiet_onState c (λ h, { h with h_hardLimitHit := true })); by intros []|]. by destruct (onState c _ s). }
  destruct (GetOfferedFiles _) as [b' [records| |]]; cbn [snd]; [|by apply publishes_quiet..].
  pose proof (quiet_collect records (info c s) c s) as Hq. destruct (collectOffers records (info c s) c s) as [s1 [batch|]]; cbn [fst] in Hq;
    [|by apply publishes_quiet].
  eapply publishes_after; [exact Hq|]. destruct (same_state c s s1 (q_cores _ _ Hq)) as [_ <-]. rewrite <- (q_tcp _ _ Hq). clear Hq.
  unfold storeOffers. pose proof (quiet_observe batch (info c s1) c s1) as Hq. destruct (same_state c s1 _ (q_cores _ _ Hq)) as [_ Ei].
  eapply publishes_after; [exact Hq|]. rewrite <- (q_tcp _ _ Hq). revert Ei. clear Hq. generalize (observeOffer batch (info c s1) c s1) as s2.
  intros s2 <-. destruct (withinSoftLimit batch (info c s2) _ s2) as [kept skipped] eqn:Ew. set (s3 := if _ && _ then _ else _).
  assert (quiet s2 s3) as Hq.
  { unfold s3. destruct (_ && _); [|done]. etransitivity; [|apply quiet_message]. apply quiet_onState. by intros []. }
  destruct (same_state c s2 s3 (q_cores _ _ Hq)) as [_ Ei]. eapply publishes_after; [exact Hq|]. rewrite <- Ei in Ew |- *.
  case_bool_decide; [by apply publishes_quiet|]. unfold addFiles. destruct (h_released (state c s3)) eqn:Er; [by apply publishes_quiet|].
  split; [by destruct s3|]. right. split; [done|]. exists batch. unfold withinSoftLimit in Ew |- *.
  rewrite (q_storage _ _ Hq), (q_tcp _ _ Hq), Ew. by destruct s3.
Qed.

Lemma quiet_pages c files expires s : quiet s (sendSearchPageUntil c files expires s).
Proof.
  unfold sendSearchPageUntil, sendSearchResult. etransitivity; [|apply quiet_send]. apply quiet_onState. by intros [].
Qed.

Lemma quiet_expired c now s : quiet s (dropExpiredResults c now s).
Proof. apply quiet_onState. by intros []. Qed.

Lemma quiet_more c now s : quiet s (handleQueryMoreResult c now s).
Proof.
  unfold handleQueryMoreResult. etransitivity; [apply (quiet_expired c now)|].
  destruct (h_pendingResults _) as [kept|]; [case_bool_decide|]; apply quiet_send || apply quiet_pages.
Qed.

Lemma quiet_callback c payload s : quiet s (handleCallbackRequest c payload s).
Proof.
  assert (∀ d p, quiet s (let '(s', ok) := tryClient d p s in if ok : bool then s' else sendCallbackFailed c s')) as Htry.
  { intros d p. pose proof (quiet_try d p s) as Hq. destruct (tryClient d p s) as [s' []]; [done|].
    etransitivity; [exact Hq|apply quiet_send]. }
  unfold handleCallbackRequest. destruct (GetUInt32LE _) as [b [lowID| |]]; cbn [snd]; [|done..].
  destruct (GetClient _ _) as [target|]; [|apply quiet_send]. destruct (negb (ss_logged _)); [apply quiet_send|].
  destruct (_ && _); [apply Htry|]. destruct (_ && _); [apply Htry|apply quiet_send].
Qed.

Lemma quiet_sources c payload obf s : quiet s (handleGetSources c payload obf s) ∧ quiet s (handleGetSourcesIPv6 c payload s).
Proof.
  unfold handleGetSources, handleGetSourcesIPv6. destruct (parseGetSources _) as [b [[hash size]| |]]; cbn [snd]; split;
    done || apply quiet_send.
Qed.

Lemma publishes_request c opcode payload now s : publishes c s (serveRequest c opcode payload now s).
Proof.
  unfold serveRequest. destruct (opcode =? OpOfferFiles); [apply publishes_offer|]. apply publishes_quiet.
  destruct (opcode =? OpGetServerList).
  { unfold handleGetServerList. etransitivity; [apply (quiet_send c)|apply quiet_ident]. }
  do 2 (case_match; [apply (quiet_sources c payload)|]). case_match; [case_match; [apply (quiet_sources c payload false)|done]|].
  destruct (opcode =? OpSearchRequest).
  { unfold handleSearchRequest. destruct (ParseSearchExpr _) as [b [expr| |]]; apply quiet_pages. }
  case_match; [apply quiet_more|]. case_match; [apply quiet_callback|done].
Qed.

Lemma quiet_gate c opcode s : quiet s (gate c opcode s).1.
Proof.
  apply quiet_onClient. intros cl. unfold requireLogin. destruct (ss_logged cl); [done|]. destruct (ss_loginGateTripped cl); [done|].
  cbn [fst]. rewrite coreOf_close, coreOf_message. by destruct cl.
Qed.

Lemma quiet_tick c now s : quiet s (statusTick c now s).
Proof.
  unfold statusTick. destruct (negb _); [done|]. etransitivity; [|apply quiet_expired]. case_match; [apply quiet_status|done].
Qed.

(** *** Releasing *)

Definition releasedCore (x : core) : core := { x with k_released := true }.

Definition sameRest s s' : Prop :=
  s_Storage s' = s_Storage s ∧ s_sessionsByHash s' = s_sessionsByHash s ∧ s_handshaking s' = s_handshaking s ∧
  s_LowIDs s' = s_LowIDs s ∧ s_tcp s' = s_tcp s.

Lemma onClient_rest c f s : sameRest s (onClient c f s).
Proof. by destruct s. Qed.

Lemma unregister_effect hash c s :
  let s' := unregisterSession hash c s in
  s_clients s' = s_clients s ∧ s_Storage s' = s_Storage s ∧ s_handshaking s' = s_handshaking s ∧
  s_LowIDs s' = s_LowIDs s ∧ s_tcp s' = s_tcp s ∧
  (length hash = 16%nat → s_sessionsByHash s' =
    if bool_decide (s_sessionsByHash s !! hash = Some c) then delete hash (s_sessionsByHash s) else s_sessionsByHash s).
Proof.
  unfold unregisterSession. case_bool_decide as Hl; cbn [negb]; [|by split_and!].
  set (s1 := if bool_decide (s_sessionsByHash s !! hash = Some c) then _ else _).
  assert (s_clients s1 = s_clients s ∧ s_Storage s1 = s_Storage s ∧ s_handshaking s1 = s_handshaking s ∧
    s_LowIDs s1 = s_LowIDs s ∧ s_tcp s1 = s_tcp s ∧ s_sessionsByHash s1 =
    if bool_decide (s_sessionsByHash s !! hash = Some c) then delete hash (s_sessionsByHash s) else s_sessionsByHash s) as H1s
    by (unfold s1; case_bool_decide; by destruct s).
  destruct (ed3kNodeID c s1) as [id|]; [|naive_solver]. destruct s1; cbn in *. naive_solver.
Qed.

(** What a release does to a session that was not released yet. *)
Record releases c s s' : Prop := {
  rl_cores : cores s' = alter releasedCore c (cores s);
  rl_storage : s_Storage s' =
    if ss_logged (client c s) then eng_Disconnect (info c s) (s_Storage s) else s_Storage s;
  rl_index : length (ci_Hash (info c s)) = 16%nat → s_sessionsByHash s' =
    if ss_logged (client c s) && bool_decide (s_sessionsByHash s !! ci_Hash (info c s) = Some c)
    then delete (ci_Hash (info c s)) (s_sessionsByHash s) else s_sessionsByHash s;
  rl_index_out : ss_logged (client c s) = false → s_sessionsByHash s' = s_sessionsByHash s;
  rl_hand : s_handshaking s' = s_handshaking s;
  rl_lowids : s_LowIDs s' = if h_hasLowID (state c s) then Remove (ci_ID (info c s)) (s_LowIDs s) else s_LowIDs s;
  rl_tcp : s_tcp s' = s_tcp s;
}.

Lemma release_effect c s : h_released (state c s) = false → releases c s (releaseSession c s).
Proof.
  intros Hr. unfold releaseSession. rewrite Hr.
  set (s1 := { s with s_natSessions := _ }).
  assert (s_clients s1 = s_clients s ∧ sameRest s s1) as [Hc1 (Hs1&Hi1&Hh1&Hl1&Ht1)] by (unfold s1; by destruct s).
  assert (client c s1 = client c s) as Hcl1 by (unfold client; by rewrite Hc1).
  assert (state c s1 = state c s ∧ info c s1 = info c s) as [-> ->] by (unfold info, state; by rewrite Hcl1).
  set (s2 := if h_hasLowID _ then _ else _).
  assert (s_clients s2 = s_clients s ∧ s_Storage s2 = s_Storage s ∧ s_sessionsByHash s2 = s_sessionsByHash s ∧
    s_handshaking s2 = s_handshaking s ∧ s_tcp s2 = s_tcp s ∧
    s_LowIDs s2 = if h_hasLowID (state c s) then Remove (ci_ID (info c s)) (s_LowIDs s) else s_LowIDs s) as (Hc2&Hs2&Hi2&Hh2&Ht2&Hl2).
  { unfold s2. destruct (h_hasLowID _); [|by rewrite <- Hl1]. rewrite <- Hl1. by destruct s1. }
  set (s3 := onState c _ s2). destruct (onClient_rest c (λ cl, { cl with ss_app := { ss_app cl with h_released := true } }) s2) as (Hs3&Hi3&Hh3&Hl3&Ht3).
  change (onClient c _ s2) with s3 in Hs3, Hi3, Hh3, Hl3, Ht3.
  assert (cores s3 = alter releasedCore c (cores s)) as Hc3.
  { unfold s3, onState. rewrite (cores_onClient c _ releasedCore) by (by intros [? ? ? ? ? []]). unfold cores. by rewrite Hc2. }
  assert (ss_logged (client c s3) = ss_logged (client c s)) as Hg3.
  { change (k_logged (coreOf (client c s3)) = k_logged (coreOf (client c s))). rewrite !client_core, Hc3, lookup_alter_eq.
    by destruct (cores s !! c). }
  rewrite Hg3. set (s4 := if ss_logged _ then _ else _).
  destruct (onClient_rest c (λ cl, { cl with ss_closed := true }) s4) as (Hs5&Hi5&Hh5&Hl5&Ht5).
  destruct (unregister_effect (ci_Hash (info c s)) c s3) as (Hc4&Hs4&Hh4&Hl4&Ht4&Hi4).
  assert (cores (onClient c (λ cl, { cl with ss_closed := true }) s4) = cores s4) as Hc5.
  { apply quiet_onClient. by intros []. }
  assert (cores s4 = cores s3 ∧ s_handshaking s4 = s_handshaking s3 ∧ s_LowIDs s4 = s_LowIDs s3 ∧ s_tcp s4 = s_tcp s3) as (Hk4&Hk5&Hk6&Hk7).
  { unfold s4. destruct (ss_logged (client c s)); [|by split_and!]. rewrite <- Hh4, <- Hl4, <- Ht4. unfold cores. rewrite <- Hc4.
    by destruct (unregisterSession _ _ _). }
  split; try congruence.
  - rewrite Hs5. unfold s4. destruct (ss_logged (client c s)); [|congruence].
    transitivity (eng_Disconnect (info c s) (s_Storage (unregisterSession (ci_Hash (info c s)) c s3))); [by destruct (unregisterSession _ _ _)|].
    f_equal. congruence.
  - intros Hl. rewrite Hi5. unfold s4. destruct (ss_logged (client c s)); cbn [andb]; [|congruence].
    transitivity (s_sessionsByHash (unregisterSession (ci_Hash (info c s)) c s3)); [by destruct (unregisterSession _ _ _)|].
    rewrite (Hi4 Hl). by rewrite Hi3, Hi2.
  - intros Hg. rewrite Hi5. unfold s4. rewrite Hg. congruence.
Qed.

(** *** One connection moves *)

Record moves c (y : core) s s' : Prop := {
  mv_cores : cores s' = <[c := y]> (cores s);
  mv_storage : s_Storage s' = s_Storage s;
  mv_index : s_sessionsByHash s' = s_sessionsByHash s;
  mv_hand : s_handshaking s' = s_handshaking s;
}.

Lemma core_client c s x : cores s !! c = Some x → coreOf (client c s) = x.
Proof. intros Hx. by rewrite client_core, Hx. Qed.

Lemma core_info c s x : cores s !! c = Some x → info c s = k_info x.
Proof. intros <-%core_client. done. Qed.

Lemma moves_onClient c f g s x :
  cores s !! c = Some x → (∀ cl, coreOf (f cl) = g (coreOf cl)) → moves c (g x) s (onClient c f s).
Proof.
  intros Hx Hf. destruct (onClient_rest c f s) as (?&?&?&?&?). split; try done. rewrite (cores_onClient c f g) by done.
  apply map_eq. intros d. destruct (decide (d = c)) as [->|Hne]; [by rewrite lookup_alter_eq, Hx, lookup_insert_eq|].
  by rewrite lookup_alter_ne, lookup_insert_ne.
Qed.

Lemma moves_id c s x : cores s !! c = Some x → moves c x s s.
Proof. intros Hx. split; try done. by rewrite insert_id. Qed.

Lemma moves_trans c y z s s' s'' : moves c y s s' → moves c z s' s'' → moves c z s s''.
Proof. intros [Hc ? ? ?] [Hc' ? ? ?]. split; try congruence. by rewrite Hc', Hc, insert_insert_eq. Qed.

Lemma moves_quiet c y s s' s'' : moves c y s s' → quiet s' s'' → moves c y s s''.
Proof. intros [? ? ? ?] [? ? ? ? ? ?]. split; congruence. Qed.

Lemma moves_at c y s s' : moves c y s s' → cores s' !! c = Some y.
Proof. intros [-> _ _ _]. apply lookup_insert_eq. Qed.

Lemma moves_lowids c y s s' l : moves c y s s' → moves c y s { s' with s_LowIDs := l }.
Proof. intros [? ? ? ?]. by split; destruct s'. Qed.

Definition offline (x : core) : Prop := k_logged x = false ∧ k_login x ≠ LRegistering.

Lemma moves_consistent c x y s s' :
  consistent s → cores s !! c = Some x → ¬ online x → k_login x ≠ LRegistering → ¬ online y → k_login y ≠ LRegistering →
  stage_ok y → moves c y s s' → consistent s'.
Proof.
  intros Hok Hx Ox Lx Oy Ly Sy [Hc Hs Hi Hh]. unfold consistent. rewrite Hc, Hs, Hi, Hh.
  apply sessions_offline; try done. rewrite Hx. naive_solver.
Qed.

Lemma quiet_consistent s s' : quiet s s' → consistent s → consistent s'.
Proof. intros [Hc Hs Hi Hh _ _]. unfold consistent. by rewrite Hc, Hs, Hi, Hh. Qed.

Lemma alter_insert_core (K : gmap connID core) c f x : K !! c = Some x → alter f c K = <[c := f x]> K.
Proof.
  intros Hx. apply map_eq. intros d. destruct (decide (d = c)) as [->|Hne]; [by rewrite lookup_alter_eq, Hx, lookup_insert_eq|].
  by rewrite lookup_alter_ne, lookup_insert_ne.
Qed.

(** An online session is released; [K] is what the connections were when it was last known
    consistent. *)
Lemma release_online c s x y :
  cores s !! c = Some x → online x → k_login x = LIdle → y = releasedCore x →
  ∀ K, sessions_ok K (s_Storage s) (s_sessionsByHash s) (s_handshaking s) →
  (∃ x0, K !! c = Some x0 ∧ cores s = <[c := x]> K ∧ online x0 ∧ k_login x0 = LIdle ∧ k_info x0 = k_info x) →
  consistent (releaseSession c s).
Proof.
  intros Hx [Lx Rx] Px -> K Hok (x0&Hx0&EK&Ox0&Px0&Ix0). pose proof (core_client c s x Hx) as Ec.
  assert (h_released (state c s) = false) as Hr by exact (eq_trans (f_equal k_released Ec) Rx).
  assert (ss_logged (client c s) = true) as Hg by exact (eq_trans (f_equal k_logged Ec) Lx).
  assert (info c s = k_info x0) as Hi by (rewrite Ix0; exact (f_equal k_info Ec)).
  destruct (release_effect c s Hr) as [Hc Hs Hidx _ Hh _ _]. rewrite Hg, Hi in *. cbn [andb] in Hidx.
  destruct (so_row _ _ _ _ Hok c x0 Hx0 Ox0) as [Hlen Hrow]. specialize (Hidx Hlen).
  assert (is_Some (eng_sessions (s_Storage s) !! storeOf x0)) as Hsome.
  { exists (k_info x0). apply (so_rows _ _ _ _ Hok). by exists c, x0. }
  destruct (eng_disconnect (k_info x0) (s_Storage s) (storeOf x0) (so_engine _ _ _ _ Hok)) as (Hok'&_&Hses&Hrows); [by left|].
  unfold consistent. rewrite Hc, EK, (alter_insert_core _ c releasedCore x) by apply lookup_insert_eq.
  rewrite insert_insert_eq, Hs, Hh, Hidx. by eapply sessions_release.
Qed.

Lemma release_consistent c s x :
  consistent s → cores s !! c = Some x → online x → k_login x = LIdle → consistent (releaseSession c s).
Proof. intros Hok Hx Ox Px. eapply release_online; [done..|exact Hok|]. exists x. by rewrite insert_id. Qed.

(** The session index names sessions that can be released. *)
Lemma indexed_session hash old s :
  consistent s → sessionByHash hash s = Some old →
  ∃ x, cores s !! old = Some x ∧ online x ∧ hashOf x = hash ∧ k_login x = LIdle.
Proof. intros Hok. unfold sessionByHash. case_bool_decide; [|done]. apply Hok. Qed.

(** A takeover: the other session goes, whatever else holds. *)
Lemma takeover_consistent hash old reason s :
  consistent s → sessionByHash hash s = Some old → consistent (releaseSession old (closeClient old reason s)).
Proof.
  intros Hok Hs. destruct (indexed_session hash old s Hok Hs) as (x&Hx&Ox&_&Px). pose proof (quiet_close old reason s) as Hq.
  apply (release_consistent old _ x); [by eapply quiet_consistent|by rewrite (q_cores _ _ Hq)|done..].
Qed.

(** What a takeover leaves of the others. *)
Lemma takeover_others hash old reason s :
  consistent s → sessionByHash hash s = Some old →
  let s' := releaseSession old (closeClient old reason s) in
  (∀ d, d ≠ old → cores s' !! d = cores s !! d) ∧ s_tcp s' = s_tcp s ∧
  (eng_fresh (s_Storage s) → eng_fresh (s_Storage s')) ∧
  ∀ h, eng_row (s_Storage s') h = if bool_decide (h = hash) then None else eng_row (s_Storage s) h.
Proof.
  intros Hok Hs s'. destruct (indexed_session hash old s Hok Hs) as (x&Hx&Ox&Eh&Px). pose proof (quiet_close old reason s) as Hq.
  assert (cores (closeClient old reason s) !! old = Some x) as Hx' by by rewrite (q_cores _ _ Hq). pose proof (core_client _ _ _ Hx') as Ec.
  destruct Ox as [Lx Rx]. destruct (release_effect old (closeClient old reason s)) as [Hc Hst _ _ _ _ Ht];
    [exact (eq_trans (f_equal k_released Ec) Rx)|].
  assert (ss_logged (client old (closeClient old reason s)) = true) as Hg by exact (eq_trans (f_equal k_logged Ec) Lx).
  rewrite Hg, (core_info _ _ _ Hx'), (q_storage _ _ Hq) in Hst. fold s' in Hc, Hst, Ht.
  destruct (so_row _ _ _ _ Hok old x Hx (conj Lx Rx)) as [_ Hrow].
  destruct (eng_disconnect (k_info x) (s_Storage s) (storeOf x) (so_engine _ _ _ _ Hok)) as (_&Hf&_&Hrows).
  { left. split; [done|]. exists (k_info x). apply (so_rows _ _ _ _ Hok). by exists old, x. }
  split_and!.
  - intros d Hd. rewrite Hc, lookup_alter_ne by done. by rewrite (q_cores _ _ Hq).
  - rewrite Ht. apply Hq.
  - by rewrite Hst.
  - intros h. rewrite Hst, Hrows. destruct (decide (h = hash)) as [->|Hne].
    + rewrite <- Eh, Hrow, !bool_decide_eq_true_2; done.
    + rewrite (bool_decide_eq_false_2 (h = hash)), bool_decide_eq_false_2; [done| |done]. intros Hr.
      destruct (row_online _ _ _ _ Hok h _ Hr) as (d&z&Hd&Oz&<-&Ez). destruct Hne. rewrite <- Eh.
      assert (d = old) as -> by (by eapply (so_inj _ _ _ _ Hok d old z x)). congruence.
Qed.

(** A connection whose login has not come to its row. *)
Definition pendingLogin (x : core) : Prop :=
  k_logged x = false ∧ k_released x = false ∧ k_ended x = false ∧ k_login x ≠ LRegistering.

Lemma pending_offline x : pendingLogin x → ¬ online x.
Proof. intros (?&?&_) [? _]. congruence. Qed.

Lemma moves_pending c x y s s' :
  consistent s → cores s !! c = Some x → pendingLogin x → pendingLogin y → stage_ok y → moves c y s s' → consistent s'.
Proof.
  intros Hok Hx Px Py Sy Hm. eapply moves_consistent; [exact Hok|exact Hx|..|exact Hm];
    [by apply pending_offline|apply Px|by apply pending_offline|apply Py|done].
Qed.

Lemma moves_setLogin c p s x : cores s !! c = Some x → moves c { x with k_login := p } s (setLogin c p s).
Proof. intros Hx. apply (moves_onClient c _ (λ x, { x with k_login := p })); [done|]. by intros [? ? ? ? ? []]. Qed.

Lemma moves_onInfo c f s x : cores s !! c = Some x → moves c { x with k_info := f (k_info x) } s (onInfo c f s).
Proof. intros Hx. apply (moves_onClient c _ (λ x, { x with k_info := f (k_info x) })); [done|]. by intros [? ? ? ? ? []]. Qed.

Lemma accept_consistent c req s x :
  consistent s → cores s !! c = Some x → pendingLogin x → length (lr_Hash req) = 16%nat → consistent (loginAccept c req s).
Proof.
  intros Hok Hx Px Hl. unfold loginAccept. destruct (if ipv6Enabled s then _ else _) as [v6 capable].
  match goal with |- context [onInfo c ?f s] => pose proof (moves_onInfo c f s x Hx) as H1m; set (s1 := onInfo c f s) in * end.
  match goal with |- context [onState c ?f s1] => assert (quiet s1 (onState c f s1)) as H2m by (apply quiet_onState; by intros []) end.
  pose proof (moves_quiet _ _ _ _ _ H1m H2m) as H3m.
  eapply moves_pending; [exact Hok|exact Hx|done| | |eapply moves_trans; [exact H3m|apply moves_setLogin; by eapply moves_at]].
  - destruct Px as (?&?&?&?). by destruct x.
  - unfold stage_ok. destruct Px as (?&?&?&_), x as [? ? ? ? ? []]. by cbn in *.
Qed.

Lemma refuse_quiet c s : quiet s (refuseDuplicate c s).
Proof. unfold refuseDuplicate. etransitivity; [apply quiet_message|apply quiet_close]. Qed.

Lemma connected_row h s : length h = 16%nat →
  eng_IsConnected (hashInfo h) (s_Storage s) = bool_decide (is_Some (eng_row (s_Storage s) h)).
Proof. intros Hl. apply eng_connected. by intros ->. Qed.

(** The row of an orphan is never the row of a session: with one there is no orphan. *)
Lemma connected_held h s :
  consistent s → length h = 16%nat → eng_IsConnected (hashInfo h) (s_Storage s) = true → hashHeldLocally h s = true.
Proof.
  intros Hok Hl. rewrite (connected_row h s Hl), bool_decide_eq_true. intros [k Hk]. unfold hashHeldLocally.
  rewrite bool_decide_eq_true_2 by done. destruct (row_held _ _ _ _ Hok h k Hk) as [?| ->]; [by rewrite bool_decide_eq_true_2|].
  cbn. by rewrite orb_true_r.
Qed.

Lemma probed_consistent c req s x :
  consistent s → cores s !! c = Some x → pendingLogin x → length (lr_Hash req) = 16%nat → consistent (loginProbed c req s).
Proof.
  intros Hok Hx Px Hl. unfold loginProbed. pose proof (moves_setLogin c LIdle s x Hx) as Hm.
  assert (pendingLogin { x with k_login := LIdle }) as Py by (destruct Px as (?&?&?&?); by destruct x).
  assert (consistent (setLogin c LIdle s)) as Hok1.
  { eapply moves_pending; [done|done|done|exact Py| |exact Hm]. unfold stage_ok. destruct Px as (?&?&?&?). destruct x; cbn in *. congruence. }
  pose proof (moves_at _ _ _ _ Hm) as Hx1. set (s1 := setLogin c LIdle s) in *.
  destruct (eng_IsConnected (hashInfo (lr_Hash req)) (s_Storage s1)) eqn:Ec; cbn [negb]; [|by eapply accept_consistent].
  rewrite connected_held by done. cbn [negb]. eapply quiet_consistent; [apply refuse_quiet|done].
Qed.

Lemma replace_consistent c hash s x :
  consistent s → cores s !! c = Some x → pendingLogin x →
  consistent (replaceSameIPSession c hash s) ∧ cores (replaceSameIPSession c hash s) !! c = Some x.
Proof.
  intros Hok Hx Px. unfold replaceSameIPSession. destruct (sessionByHash hash s) as [old|] eqn:Eo; [|done].
  destruct (h_peerIP (state c s)) as [ip|]; [|done]. destruct (bool_decide (old = c) || _) eqn:Eb; [done|].
  apply orb_false_iff in Eb as [Hne%bool_decide_eq_false _].
  destruct (takeover_others hash old "replaced-by-relogin" s Hok Eo) as (Hd&_). split; [by eapply takeover_consistent|].
  by rewrite Hd.
Qed.

Lemma login_hash payload b req : ParseLoginRequest (NewBufferFromBytes payload) = (b, Ok req) → length (lr_Hash req) = 16%nat.
Proof.
  unfold ParseLoginRequest, mbind, M_bind. destruct (Get 16 _) as [b1 [hash| |]]; [|done..]. case_bool_decide; [|done]. cbn [negb].
  repeat (case_match; try done). intros [= _ <-]. done.
Qed.

Lemma request_consistent c payload now s x :
  consistent s → cores s !! c = Some x → k_login x = LIdle → k_ended x = false → consistent (loginRequest c payload now s).
Proof.
  intros Hok Hx Lx Ex. unfold loginRequest. destruct (ParseLoginRequest _) as [b [req| |]] eqn:Ep; cbn [snd]; [|done..].
  apply login_hash in Ep. pose proof (core_client c s x Hx) as Ec.
  destruct (ss_logged (client c s)) eqn:Eg; [eapply quiet_consistent; [apply quiet_close|done]|].
  assert (k_logged x = false) as Gx by by rewrite <- Ec.
  assert (pendingLogin x) as Px.
  { pose proof (so_stage _ _ _ _ Hok c x Hx) as Hs. unfold stage_ok in Hs. rewrite Lx in Hs. split_and!; [done|rewrite Hs; done|done|congruence]. }
  destruct (match s_Content s with Some _ => _ | None => _ end).
  { eapply quiet_consistent; [|exact Hok]. etransitivity; [|apply quiet_close]. etransitivity; [|apply quiet_message]. by destruct s. }
  destruct (_ && _); [|by eapply accept_consistent].
  destruct (replace_consistent c (lr_Hash req) s x Hok Hx Px) as [Hok1 Hx1]. set (s1 := replaceSameIPSession _ _ s) in *.
  destruct (dualStackHandoverFrom _ _ _ _); [by eapply accept_consistent|].
  destruct (sessionByHash (lr_Hash req) s1) as [old|]; [|by eapply probed_consistent].
  case_bool_decide; [by eapply probed_consistent|]. pose proof (quiet_status old now s1) as Hq.
  assert (cores (sendServerStatus old now s1) !! c = Some x) as Hx2 by by rewrite (q_cores _ _ Hq).
  eapply (moves_pending c x); [by eapply quiet_consistent|exact Hx2|done| | |apply moves_setLogin, Hx2].
  - destruct Px as (?&?&?&?). by destruct x.
  - unfold stage_ok. destruct Px as (?&?&?&_), x. by cbn in *.
Qed.

(** *** The handshake *)

Lemma handover_consistent c s x :
  consistent s → cores s !! c = Some x → pendingLogin x → length (hashOf x) = 16%nat → eng_fresh (s_Storage s) →
  let '(s', ok) := completeDualStackHandover c s in
  consistent s' ∧
  (ok = true → cores s' !! c = Some x ∧ eng_fresh (s_Storage s') ∧ eng_row (s_Storage s') (hashOf x) = None).
Proof.
  intros Hok Hx Px Hl Hf. unfold completeDualStackHandover. rewrite (core_info c s x Hx). fold (hashOf x).
  rewrite bool_decide_eq_true_2 by done. cbn [negb orb].
  destruct (eng_IsConnected (hashInfo (hashOf x)) (s_Storage s)) eqn:Ec; cbn [negb].
  2: { rewrite connected_row, bool_decide_eq_false, <- eq_None_not_Some in Ec by done. done. }
  set (s1 := match dualStackHandoverFrom _ _ _ _ with Some _ => _ | None => _ end).
  assert (consistent s1 ∧ cores s1 !! c = Some x ∧ eng_fresh (s_Storage s1)) as (Hok1&Hx1&Hf1).
  { unfold s1. destruct (dualStackHandoverFrom c (hashOf x) (ci_Port (k_info x)) s) as [old|] eqn:Eo; [|done].
    unfold dualStackHandoverFrom in Eo. destruct (h_peerIP _); [|done]. destruct (sessionByHash (hashOf x) s) as [o|] eqn:Es; [|done].
    destruct (_ || bool_decide (o = c)) eqn:Eb in Eo; cbn [orb] in Eo; [done|]. apply orb_false_iff in Eb as [_ Hne%bool_decide_eq_false].
    destruct (_ || _) in Eo; [done|]. injection Eo as <-. destruct (takeover_others _ o "replaced-by-ipv6-session" s Hok Es) as (Hd&_&Hfr&_).
    split_and!; [by eapply takeover_consistent|by rewrite Hd|auto]. }
  destruct (eng_IsConnected (hashInfo (hashOf x)) (s_Storage s1)) eqn:Ec1.
  - split; [|done]. eapply quiet_consistent; [apply refuse_quiet|done].
  - split; [done|]. intros _. rewrite connected_row, bool_decide_eq_false, <- eq_None_not_Some in Ec1 by done. done.
Qed.

Lemma begin_effect hash s : length hash = 16%nat → s_handshaking s !! hash = None →
  let s' := beginHandshake hash s in
  s_clients s' = s_clients s ∧ s_Storage s' = s_Storage s ∧ s_sessionsByHash s' = s_sessionsByHash s ∧
  s_LowIDs s' = s_LowIDs s ∧ s_tcp s' = s_tcp s ∧ s_handshaking s' = <[hash := 1]> (s_handshaking s).
Proof. intros Hl Hn. unfold beginHandshake. rewrite bool_decide_eq_true_2, Hn by done. by destruct s. Qed.

Lemma end_effect hash s : length hash = 16%nat → s_handshaking s !! hash = Some 1 →
  let s' := endHandshake hash s in
  s_clients s' = s_clients s ∧ s_Storage s' = s_Storage s ∧ s_sessionsByHash s' = s_sessionsByHash s ∧
  s_LowIDs s' = s_LowIDs s ∧ s_tcp s' = s_tcp s ∧ s_handshaking s' = delete hash (s_handshaking s).
Proof. intros Hl Hn. unfold endHandshake. rewrite bool_decide_eq_true_2, Hn by done. by destruct s. Qed.

(** [setLogin] after the identifier was written and the session logged in. *)
Lemma moves_logged c k s x :
  cores s !! c = Some x →
  moves c (mkCore true (k_released x) (k_ended x) (k_hasLowID x) LRegistering { k_info x with ci_StoreID := k }) s
    (setLogin c LRegistering (onInfo c (λ i, { i with ci_StoreID := k }) (onClient c (λ cl, { cl with ss_logged := true }) s))).
Proof.
  intros Hx. pose proof (moves_onClient c (λ cl, { cl with ss_logged := true }) (λ x, { x with k_logged := true }) s x Hx) as M1.
  specialize (M1 ltac:(by intros [])). pose proof (moves_onInfo c (λ i, { i with ci_StoreID := k }) _ _ (moves_at _ _ _ _ M1)) as M2.
  pose proof (moves_setLogin c LRegistering _ _ (moves_at _ _ _ _ M2)) as M3.
  pose proof (moves_trans _ _ _ _ _ _ (moves_trans _ _ _ _ _ _ M1 M2) M3) as M. by destruct x.
Qed.

Lemma handShake_consistent c s x :
  consistent s → cores s !! c = Some x → pendingLogin x → length (hashOf x) = 16%nat → eng_fresh (s_Storage s) →
  consistent (handShake c s).
Proof.
  intros Hok Hx Px Hl Hf. unfold handShake. pose proof (handover_consistent c s x Hok Hx Px Hl Hf) as Hh.
  destruct (completeDualStackHandover c s) as [s1 []]; destruct Hh as [Hok1 Hh]; [|done].
  destruct (Hh eq_refl) as (Hx1&Hf1&Hn). unfold connectSession. rewrite (core_info c s1 x Hx1). fold (hashOf x).
  pose proof (no_row_no_hand _ _ _ _ Hok1 _ Hn) as Hnh. destruct (begin_effect (hashOf x) s1 Hl Hnh) as (Hc2&Hs2&Hi2&_&_&Hh2).
  set (s2 := beginHandshake (hashOf x) s1) in *. assert (cores s2 = cores s1) as Hk2 by (unfold cores; by rewrite Hc2).
  assert (cores s2 !! c = Some x) as Hx2 by by rewrite Hk2. rewrite (core_info c s2 x Hx2), Hs2.
  pose proof (eng_connect (k_info x) (s_Storage s1) (so_engine _ _ _ _ Hok1) Hf1) as Hcon.
  destruct (eng_Connect (k_info x) (s_Storage s1)) as [e' [k|err|]]; cbn in Hcon;
    destruct Hcon as [Hok' Hcon]; try (intros E0; fold (hashOf x) in E0; by rewrite E0 in Hl); [| |done].
  - destruct Hcon as (Hfk&Hses&Hrows). set (s3 := { s2 with s_Storage := e' }).
    assert (cores s3 !! c = Some x) as Hx3 by (unfold s3; by destruct s2). destruct (moves_logged c k s3 x Hx3) as [Mc Ms Mi Mh].
    unfold consistent. rewrite Mc, Ms, Mi, Mh. destruct (sessions_connect _ _ _ _ Hok1 c x
      (mkCore true (k_released x) (k_ended x) (k_hasLowID x) LRegistering { k_info x with ci_StoreID := k }) e' k); try done.
    + by apply pending_offline.
    + apply Px.
    + split; [done|]. apply Px.
    + replace (cores s3) with (cores s1) by (rewrite <- Hk2; unfold s3; by destruct s2).
      replace (s_Storage s3) with e' by (unfold s3; by destruct s2).
      replace (s_sessionsByHash s3) with (s_sessionsByHash s1) by (rewrite <- Hi2; unfold s3; by destruct s2).
      replace (s_handshaking s3) with (<[hashOf x := 1]> (s_handshaking s1)) by (rewrite <- Hh2; unfold s3; by destruct s2). done.
  - destruct Hcon as [Hses Hrows]. set (s3 := { s2 with s_Storage := e' }). set (s4 := closeClient c _ s3).
    pose proof (quiet_close c (String.append "storage-connect-failed: " (error_text err)) s3) as Hq. fold s4 in Hq.
    assert (cores s3 = cores s1 ∧ s_Storage s3 = e' ∧ s_sessionsByHash s3 = s_sessionsByHash s1 ∧
      s_handshaking s3 = <[hashOf x := 1]> (s_handshaking s1)) as (E1&E2&E3&E4)
      by (rewrite <- Hk2, <- Hi2, <- Hh2; unfold s3; by destruct s2).
    assert (cores s3 !! c = Some x) as Hx3 by by rewrite E1. rewrite (core_info c s3 x Hx3). fold (hashOf x).
    destruct (end_effect (hashOf x) s4 Hl) as (Hc5&Hs5&Hi5&_&_&Hh5).
    { by rewrite (q_hand _ _ Hq), E4, lookup_insert_eq. }
    unfold consistent. replace (cores (endHandshake (hashOf x) s4)) with (cores s1)
      by (unfold cores at 2; rewrite Hc5; fold (cores s4); by rewrite (q_cores _ _ Hq), E1).
    rewrite Hs5, Hi5, Hh5, (q_storage _ _ Hq), (q_index _ _ Hq), (q_hand _ _ Hq), E2, E3, E4, delete_insert_id by done.
    by apply (sessions_engine _ _ _ _ Hok1).
Qed.

(** The verdict on the address. *)
Lemma moves_verdict c b f s x y :
  moves c x s y → moves c { x with k_hasLowID := b; k_info := f (k_info x) } s
    (onState c (λ h, { h with h_hasLowID := b }) (onInfo c f y)).
Proof.
  intros M. pose proof (moves_trans _ _ _ _ _ _ M (moves_onInfo c f y x (moves_at _ _ _ _ M))) as M1.
  pose proof (moves_onClient c (λ cl, { cl with ss_app := { ss_app cl with h_hasLowID := b } }) (λ x, { x with k_hasLowID := b })
    _ _ (moves_at _ _ _ _ M1)) as M2. specialize (M2 ltac:(by intros [? ? ? ? ? []])).
  pose proof (moves_trans _ _ _ _ _ _ M1 M2) as M3. by destruct x.
Qed.

(** What the verdict does: the login goes on to its handshake with the address settled, or
    it ends for want of a LowID. *)
Record dialed c (x y : core) s s1 : Prop := {
  dl_moves : moves c y s s1;
  dl_pending : pendingLogin y ∧ k_login y = LIdle;
  dl_hash : hashOf y = hashOf x;
  dl_tcp : s_tcp s1 = s_tcp s;
  dl_low : k_hasLowID y = ci_LowID (k_info y);
}.

Lemma onState_fixed c f s : s_tcp (onState c f s) = s_tcp s ∧ s_LowIDs (onState c f s) = s_LowIDs s.
Proof. by destruct s. Qed.
Lemma onInfo_fixed c f s : s_tcp (onInfo c f s) = s_tcp s ∧ s_LowIDs (onInfo c f s) = s_LowIDs s.
Proof. by destruct s. Qed.

Lemma dialed_reach c x y s s1 b r :
  dialed c x y s s1 →
  let s2 := if b : bool then onInfo c (λ i, { i with ci_IPv6Reachable := r }) s1 else s1 in
  s_LowIDs s2 = s_LowIDs s1 ∧
  ∃ y', dialed c x y' s s2 ∧ k_hasLowID y' = k_hasLowID y ∧ ci_ID (k_info y') = ci_ID (k_info y).
Proof.
  intros [M [Py Ly] Hy Ht Hb]. destruct b; [|split; [done|by exists y]]. split; [apply onInfo_fixed|].
  exists { y with k_info := { k_info y with ci_IPv6Reachable := r } }.
  pose proof (moves_trans _ _ _ _ _ _ M (moves_onInfo c (λ i, { i with ci_IPv6Reachable := r }) s1 y (moves_at _ _ _ _ M))) as M2.
  split; [split|].
  - exact M2.
  - destruct Py as (?&?&?&?). by destruct y.
  - rewrite <- Hy. by destruct y as [? ? ? ? ? []].
  - by rewrite (proj1 (onInfo_fixed c _ s1)).
  - by destruct y as [? ? ? ? ? []].
  - by destruct y as [? ? ? ? ? []].
Qed.

Lemma allocate_ext c s s' :
  (h_peerIP (state c s'), h_nattCapable (state c s'), ci_IPv4 (info c s'), ci_Port (info c s')) =
    (h_peerIP (state c s), h_nattCapable (state c s), ci_IPv4 (info c s), ci_Port (info c s)) →
  s_LowIDs s' = s_LowIDs s → s_tcp s' = s_tcp s → allocateLowID c s' = allocateLowID c s.
Proof. intros [= E1 E2 E3 E4] El Et. unfold allocateLowID, lowIDParity, natCallbackEnabled. by rewrite E1, E2, E3, E4, El, Et. Qed.

Lemma dialed_shape c v6 probe reachable6 s x :
  consistent s → cores s !! c = Some x → k_login x = LDialing v6 →
  ∃ y s1, dialed c x y s s1 ∧
    ((loginDialed c v6 probe reachable6 s = handShake c s1 ∧
      ((k_hasLowID y = false ∧ s_LowIDs s1 = s_LowIDs s) ∨
       (k_hasLowID y = true ∧ allocateLowID c s = (s_LowIDs s1, Some (ci_ID (k_info y)))))) ∨
     (quiet s1 (loginDialed c v6 probe reachable6 s) ∧ allocateLowID c s = (s_LowIDs s1, None))).
Proof.
  intros Hok Hx Lx. pose proof (so_stage _ _ _ _ Hok c x Hx) as Hs. unfold stage_ok in Hs. rewrite Lx in Hs. destruct Hs as (Gx&Rx&Ex&Hl).
  unfold loginDialed. pose proof (moves_setLogin c LIdle s x Hx) as M1. set (s1 := setLogin c LIdle s) in *.
  assert (s_tcp s1 = s_tcp s ∧ s_LowIDs s1 = s_LowIDs s) as [Ht1 Hl1] by apply onState_fixed.
  destruct (negb (HasHighID _) || probe).
  - set (s2 := onState c _ (onInfo c _ s1)). assert (s_tcp s2 = s_tcp s ∧ s_LowIDs s2 = s_LowIDs s) as [Ht2 Hl2]
      by (unfold s2; rewrite (proj1 (onState_fixed c _ _)), (proj2 (onState_fixed c _ _)), (proj1 (onInfo_fixed c _ s1)), (proj2 (onInfo_fixed c _ s1)); done).
    pose proof (moves_verdict c true (λ i, { i with ci_LowID := true }) s _ s1 M1) as M2. fold s2 in M2.
    pose proof (quiet_message c (tc_MessageLowID (s_tcp s2)) s2) as Hq. pose proof (moves_quiet _ _ _ _ _ M2 Hq) as M3.
    assert (allocateLowID c (messageClient c (tc_MessageLowID (s_tcp s2)) s2) = allocateLowID c s) as ->.
    { assert (is_Some (s_clients s !! c)) as Hc by (unfold cores in Hx; rewrite lookup_fmap in Hx; destruct (s_clients s !! c); [by eexists|done]).
      apply allocate_ext; [|by rewrite (q_lowids _ _ Hq)|by rewrite (q_tcp _ _ Hq)].
      unfold info, state, messageClient, s2, onState, onInfo, onState, s1, setLogin, onState. rewrite !client_onClient by (repeat apply onClient_some; done).
      rewrite (proj2 (proj2 (proj2 (sendServerMessage_fields _ _)))). by destruct (client c s) as [? ? ? ? ? [? ? ? ? ? ? ? ? ? []]]. }
    set (s3 := messageClient c _ s2) in *. destruct (allocateLowID c s) as [l [id|]] eqn:Ea; cbn [negb].
    + pose proof (moves_onInfo c (λ i, { i with ci_ID := id }) { s3 with s_LowIDs := l } _ (moves_at _ _ _ _ (moves_lowids _ _ _ _ l M3))) as M4.
      pose proof (moves_trans _ _ _ _ _ _ (moves_lowids _ _ _ _ l M3) M4) as M5. set (s4 := onInfo c _ { s3 with s_LowIDs := l }) in *.
      assert (s_tcp s4 = s_tcp s ∧ s_LowIDs s4 = l) as [Ht4 Hl4].
      { unfold s4. rewrite (proj1 (onInfo_fixed c _ _)), (proj2 (onInfo_fixed c _ _)). rewrite <- Ht2, <- (q_tcp _ _ Hq). by destruct s3. }
      match type of M5 with moves c ?y s _ => assert (dialed c x y s s4) as Hd end.
      { split; [exact M5|by destruct x as [? ? ? ? ? []]|by destruct x as [? ? ? ? ? []]|exact Ht4|by destruct x as [? ? ? ? ? []]]. }
      match goal with |- context [handShake c (if ?b then onInfo c (λ i, { i with ci_IPv6Reachable := ?r }) s4 else s4)] =>
        destruct (dialed_reach c x _ s s4 b r Hd) as (El&y'&Hd'&Eb&Ei) end.
      exists y'. eexists. split; [exact Hd'|]. left. split; [done|]. right. rewrite Eb, Ei. split; [by destruct x as [? ? ? ? ? []]|].
      rewrite El, Hl4. by destruct x as [? ? ? ? ? []].
    + eexists _, { s3 with s_LowIDs := l }. split; [split; [by apply moves_lowids, M3|by destruct x as [? ? ? ? ? []]|by destruct x as [? ? ? ? ? []]| |by destruct x as [? ? ? ? ? []]]|].
      * rewrite <- Ht2, <- (q_tcp _ _ Hq). by destruct s3.
      * right. split; [apply quiet_close|]. by destruct s3.
  - cbn [negb]. set (s2 := onState c _ (onInfo c _ s1)). assert (s_tcp s2 = s_tcp s ∧ s_LowIDs s2 = s_LowIDs s) as [Ht2 Hl2]
      by (unfold s2; rewrite (proj1 (onState_fixed c _ _)), (proj2 (onState_fixed c _ _)), (proj1 (onInfo_fixed c _ s1)), (proj2 (onInfo_fixed c _ s1)); done).
    pose proof (moves_verdict c false (λ i, { i with ci_LowID := false; ci_ID := ci_IPv4 i }) s _ s1 M1) as M2. fold s2 in M2.
    match type of M2 with moves c ?y s _ => assert (dialed c x y s s2) as Hd end.
    { split; [exact M2|by destruct x as [? ? ? ? ? []]|by destruct x as [? ? ? ? ? []]|exact Ht2|by destruct x as [? ? ? ? ? []]]. }
    match goal with |- context [handShake c (if ?b then onInfo c (λ i, { i with ci_IPv6Reachable := ?r }) s2 else s2)] =>
      destruct (dialed_reach c x _ s s2 b r Hd) as (El&y'&Hd'&Eb&Ei) end.
    exists y'. eexists. split; [exact Hd'|]. left. split; [done|]. left. rewrite Eb. split; [by destruct x as [? ? ? ? ? []]|].
    by rewrite El.
Qed.

(** The state a login's handshake starts in. *)
Lemma dialed_ready c v6 s x y s1 :
  consistent s → cores s !! c = Some x → k_login x = LDialing v6 → dialed c x y s s1 →
  consistent s1 ∧ cores s1 !! c = Some y ∧ pendingLogin y ∧ length (hashOf y) = 16%nat ∧ s_Storage s1 = s_Storage s.
Proof.
  intros Hok Hx Lx [M [Py Ly] Hy _ _]. pose proof (so_stage _ _ _ _ Hok c x Hx) as Hs. unfold stage_ok in Hs. rewrite Lx in Hs.
  destruct Hs as (Gx&Rx&Ex&Hl). split_and!; [|by eapply moves_at|apply Py..|congruence|apply M].
  eapply (moves_pending c x y); [done|done|split_and!; congruence|done| |exact M]. unfold stage_ok. rewrite Ly.
  destruct Py as (?&?&?&_). congruence.
Qed.

Lemma dialed_consistent c v6 probe reachable6 s x :
  consistent s → cores s !! c = Some x → k_login x = LDialing v6 → eng_fresh (s_Storage s) →
  consistent (loginDialed c v6 probe reachable6 s).
Proof.
  intros Hok Hx Lx Hf. destruct (dialed_shape c v6 probe reachable6 s x Hok Hx Lx) as (y&s1&Hd&Hc).
  destruct (dialed_ready c v6 s x y s1 Hok Hx Lx Hd) as (Hok1&Hy&Py&Hl&Es). destruct Hc as [[-> _]|[Hq _]].
  - eapply handShake_consistent; [done|done|done|done|by rewrite Es].
  - by eapply quiet_consistent.
Qed.

Lemma register_effect hash c s : length hash = 16%nat →
  let s' := registerSession hash c s in
  s_clients s' = s_clients s ∧ s_Storage s' = s_Storage s ∧ s_handshaking s' = s_handshaking s ∧
  s_LowIDs s' = s_LowIDs s ∧ s_tcp s' = s_tcp s ∧ s_sessionsByHash s' = <[hash := c]> (s_sessionsByHash s).
Proof.
  intros Hl. unfold registerSession. rewrite bool_decide_eq_true_2 by done. cbn [negb].
  set (s1 := { s with s_sessionsByHash := _ }).
  assert (s_clients s1 = s_clients s ∧ s_Storage s1 = s_Storage s ∧ s_handshaking s1 = s_handshaking s ∧
    s_LowIDs s1 = s_LowIDs s ∧ s_tcp s1 = s_tcp s ∧ s_sessionsByHash s1 = <[hash := c]> (s_sessionsByHash s)) as Hs1
    by (unfold s1; by destruct s).
  destruct (ed3kNodeID c s1) as [id|]; [|done]. case_bool_decide; [done|]. destruct s1; cbn in *. naive_solver.
Qed.

Lemma quiet_token c token s : quiet s (issueNatToken c token s).
Proof. unfold issueNatToken. destruct (_ || _); [done|]. destruct token; [by destruct s|done]. Qed.

Lemma quiet_start c s : quiet s (startPeriodicServerStatus c s).
Proof. unfold startPeriodicServerStatus. destruct (_ || _); [done|]. apply quiet_onState. by intros []. Qed.

(** What the client is told once it is registered. *)
Lemma quiet_welcome c now token id m m' s :
  quiet s (sendServerIdent c (sendIDChange c id (startPeriodicServerStatus c (sendServerStatus c now
    (messageClient c m (messageClient c m' (issueNatToken c token s))))))).
Proof.
  etransitivity; [apply (quiet_token c token)|]. do 2 (etransitivity; [apply quiet_message|]).
  etransitivity; [apply (quiet_status c now)|]. etransitivity; [|apply quiet_ident]. etransitivity; [|apply quiet_send]. apply quiet_start.
Qed.

Lemma finish_consistent c now token s x :
  consistent s → cores s !! c = Some x → k_login x = LRegistering → consistent (finishHandShake c now token s).
Proof.
  intros Hok Hx Lx. unfold finishHandShake. pose proof (moves_setLogin c LIdle s x Hx) as [Mc Ms Mi Mh].
  set (s1 := setLogin c LIdle s) in *. assert (cores s1 !! c = Some { x with k_login := LIdle }) as Hx1 by by rewrite Mc, lookup_insert_eq.
  rewrite (core_info c s1 _ Hx1). replace (k_info { x with k_login := LIdle }) with (k_info x) by by destruct x. fold (hashOf x).
  assert (online x) as Ox by (pose proof (so_stage _ _ _ _ Hok c x Hx) as Hs; unfold stage_ok in Hs; by rewrite Lx in Hs).
  destruct (so_row _ _ _ _ Hok c x Hx Ox) as [Hl _]. destruct (register_effect (hashOf x) c s1 Hl) as (Hc2&Hs2&Hh2&_&_&Hi2).
  set (s2 := registerSession (hashOf x) c s1) in *. match goal with |- consistent (endHandshake _ ?z) => assert (quiet s2 z) as Hq by apply quiet_welcome end.
  match goal with |- consistent (endHandshake _ ?z) => set (s3 := z) in * end.
  pose proof (so_held _ _ _ _ Hok c x Hx Lx) as Hh. destruct (end_effect (hashOf x) s3 Hl) as (Hc4&Hs4&Hi4&_&_&Hh4).
  { rewrite (q_hand _ _ Hq), Hh2, Mh. done. }
  assert (cores (endHandshake (hashOf x) s3) = cores s3) as Hk4 by (unfold cores; by rewrite Hc4).
  assert (cores s2 = cores s1) as Hk2 by (unfold cores; by rewrite Hc2).
  unfold consistent. rewrite Hk4, Hs4, Hi4, Hh4, (q_cores _ _ Hq), (q_storage _ _ Hq), (q_index _ _ Hq), (q_hand _ _ Hq).
  rewrite Hk2, Hs2, Hi2, Hh2, Mc, Ms, Mi, Mh. apply (sessions_register _ _ _ _ Hok c x); try done; by destruct x.
Qed.

(** The read loop ends. *)
Lemma moves_end c reason s x :
  cores s !! c = Some x →
  moves c { x with k_ended := true } s (onState c (λ h, { h with h_statusStop := false; h_ended := true }) (onClient c (setCloseReason reason) s)).
Proof.
  intros Hx. set (s1 := onClient c (setCloseReason reason) s). assert (quiet s s1) as Hq.
  { apply quiet_onClient. intros cl. apply coreOf_ext; unfold setCloseReason; repeat case_bool_decide; by destruct cl. }
  assert (cores s1 !! c = Some x) as Hx1 by by rewrite (q_cores _ _ Hq). eapply moves_trans.
  - eapply moves_quiet; [by apply moves_id|exact Hq].
  - apply (moves_onClient c _ (λ x, { x with k_ended := true })); [done|]. by intros [? ? ? ? ? []].
Qed.

Lemma end_consistent c reason s x :
  consistent s → cores s !! c = Some x → k_login x = LIdle → k_ended x = false → consistent (endRun c reason s).
Proof.
  intros Hok Hx Lx Ex. unfold endRun. pose proof (moves_end c reason s x Hx) as M. set (s1 := onClient c (setCloseReason reason) s) in *.
  set (s2 := onState c _ s1) in *. pose proof (moves_at _ _ _ _ M) as Hx2.
  pose proof (core_client c s2 _ Hx2) as Ec.
  destruct (k_released x) eqn:Rx.
  { assert (h_released (state c s2) = true) as Hr by (etransitivity; [exact (f_equal k_released Ec)|]; by destruct x).
    unfold releaseSession. rewrite Hr. eapply (moves_consistent c x); [done|done| |congruence| | | |exact M].
    - intros [_ ?]. congruence.
    - intros [_ ?]. destruct x; cbn in *. congruence.
    - by destruct x; cbn in *; subst.
    - unfold stage_ok. by destruct x; cbn in *; subst. }
  destruct (k_logged x) eqn:Gx.
  { destruct M as [Mc Ms Mi Mh]. eapply (release_online c s2 _ _ Hx2); [by destruct x|by destruct x; cbn in *; subst|done| |].
    - rewrite Ms, Mi, Mh. exact Hok.
    - exists x. by split_and!. }
  assert (h_released (state c s2) = false) as Hr by (etransitivity; [exact (f_equal k_released Ec)|]; by destruct x).
  assert (ss_logged (client c s2) = false) as Hg by (etransitivity; [exact (f_equal k_logged Ec)|]; by destruct x).
  destruct (release_effect c s2 Hr) as [Hc Hst _ Hi Hh _ _]. rewrite Hg in Hst.
  eapply (moves_consistent c x (releasedCore { x with k_ended := true })); [done|done|intros [? _]; congruence|congruence| | | |].
  - intros [? _]. destruct x; cbn in *. congruence.
  - by destruct x; cbn in *; subst.
  - unfold stage_ok. by destruct x; cbn in *; subst.
  - destruct M as [Mc Ms Mi Mh]. split.
    + rewrite Hc, Mc, (alter_insert_core _ c _ { x with k_ended := true }) by apply lookup_insert_eq. by rewrite insert_insert_eq.
    + congruence.
    + rewrite (Hi Hg). congruence.
    + congruence.
Qed.

(** *** Every step *)

Lemma publishes_consistent c s s' :
  consistent s → ss_logged (client c s) = true → publishes c s s' → consistent s'.
Proof.
  intros Hok Hg [[Hc _ Hi Hh _ _] Hst].
  assert (cores s' = cores s ∧ s_sessionsByHash s' = s_sessionsByHash s ∧ s_handshaking s' = s_handshaking s) as (Ec&Ei&Eh)
    by (destruct s'; by split_and!).
  unfold consistent. rewrite Ec, Ei, Eh. destruct Hst as [->|(Hr&files&->)]; [done|].
  generalize (withinSoftLimit files (info c s) (tc_SoftFileLimit (s_tcp s)) s).1 as batch. intros batch.
  destruct (cores s !! c) as [x|] eqn:Hx.
  2: { exfalso. change (k_logged (coreOf (client c s)) = true) in Hg. by rewrite client_core, Hx in Hg. }
  pose proof (core_client c s x Hx) as Ex. assert (online x) as Ox by (rewrite <- Ex; by split).
  assert (eng_sessions (s_Storage s) !! storeOf x = Some (k_info x)) as Hs by (apply (so_rows _ _ _ _ Hok); by exists c, x).
  rewrite (core_info c s x Hx). destruct (eng_session_id _ _ _ (so_engine _ _ _ _ Hok) Hs) as [Hk _]. unfold storeOf in *.
  destruct (eng_add batch (k_info x) (s_Storage s) (so_engine _ _ _ _ Hok)) as (?&?&?); [lia| |].
  { rewrite Hs. by intros i [= <-]. }
  by apply (sessions_engine _ _ _ _ Hok).
Qed.

Lemma serve_consistent c opcode payload now s x :
  consistent s → cores s !! c = Some x → k_login x = LIdle → k_ended x = false → consistent (serve c opcode payload now s).
Proof.
  intros Hok Hx Lx Ex. unfold serve. destruct (opcode =? OpLoginRequest); [by eapply request_consistent|].
  destruct (opcode =? OpDisconnect); [eapply quiet_consistent; [apply quiet_close|done]|].
  pose proof (quiet_gate c opcode s) as Hq. destruct (gate c opcode s) as [s1 ok] eqn:Eg. cbn [fst] in Hq.
  pose proof (quiet_consistent _ _ Hq Hok) as Hok1. destruct ok; [|done].
  apply (publishes_consistent c s1); [done| |apply publishes_request].
  change (k_logged (coreOf (client c s1)) = true). rewrite (same_cores c s s1 (q_cores _ _ Hq)).
  unfold gate, requireLogin in Eg. injection Eg as _ Eg. unfold coreOf, client in *; cbn.
  destruct (ss_logged _); [done|]. by destruct (ss_loginGateTripped _).
Qed.

Lemma accepted_consistent c ip port s :
  consistent s → s_clients s !! c = None → consistent (serverStep s (SvAccept c ip port)).
Proof.
  intros Hok Hc. assert (cores s !! c = None) as Hn by (unfold cores; by rewrite lookup_fmap, Hc). unfold consistent, serverStep.
  replace (cores _) with (<[c := coreOf (newTCPClient ip port)]> (cores s))
    by (unfold cores; rewrite <- fmap_insert; by destruct s).
  destruct s; cbn in *. apply sessions_offline; [done|by intros x ?; simplify_eq|by intros [? ?]|done|done].
Qed.

Lemma step_consistent s ev : consistent s → possible s ev → consistent (serverStep s ev).
Proof.
  intros Hok Hp.
  assert (∀ c, is_Some (s_clients s !! c) → cores s !! c = Some (coreOf (client c s))) as Hin.
  { intros c [cl Hc]. unfold cores, client. by rewrite lookup_fmap, Hc. }
  assert (∀ c p, h_login (state c s) = p → p ≠ LIdle → cores s !! c = Some (coreOf (client c s))) as Hph.
  { intros c p Hl Hne. apply Hin. unfold state, client in Hl. destruct (s_clients s !! c); [by eexists|by destruct Hne]. }
  destruct ev as [c ip port|c op payload now|c|c probe r6|c now token|c now|c reason]; cbn [possible] in Hp.
  - by apply accepted_consistent.
  - destruct Hp as (Hc&Hl&He). cbn [serverStep]. by eapply serve_consistent; [|apply Hin|..].
  - cbn [serverStep]. destruct (h_login (state c s)) as [|req|v6|] eqn:El; try done. pose proof (Hph c _ El ltac:(done)) as Hx.
    pose proof (so_stage _ _ _ _ Hok c _ Hx) as Hs. unfold stage_ok in Hs.
    replace (k_login (coreOf (client c s))) with (LStale req) in Hs by done. destruct Hs as (?&?&?&?).
    eapply probed_consistent; [done|exact Hx| |done]. split_and!; try done. by change (h_login (state c s) ≠ LRegistering); rewrite El.
  - cbn [serverStep]. destruct (h_login (state c s)) as [|req|v6|] eqn:El; try done. pose proof (Hph c _ El ltac:(done)) as Hx.
    by eapply dialed_consistent.
  - cbn [serverStep]. destruct (h_login (state c s)) as [|req|v6|] eqn:El; try done. pose proof (Hph c _ El ltac:(done)) as Hx.
    by eapply finish_consistent.
  - eapply quiet_consistent; [apply quiet_tick|done].
  - destruct Hp as (Hc&Hl&He). cbn [serverStep]. by eapply end_consistent; [|apply Hin|..].
Qed.

Lemma started_consistent s : started s → consistent s.
Proof.
  intros [Hok Hs Hi Hh Hc _]. unfold consistent, cores. rewrite Hi, Hh, Hc, fmap_empty. split; try done.
  - intros k i. rewrite Hs, lookup_empty. split; [done|]. by intros (c&x&?&_).
  - intros h c. rewrite lookup_empty. split; [done|]. by intros (x&?&_).
Qed.

Lemma served_consistent s0 s : started s0 → served s0 s → consistent s.
Proof. intros Hs. induction 1 as [|s ev _ IH Hp]; [by apply started_consistent|by apply step_consistent]. Qed.

(** ** What holds of every state of the server *)

(** Connection [c] has completed its login as [i] and was not released. *)
Definition loggedIn s c (i : ClientInfo) : Prop :=
  ∃ cl, s_clients s !! c = Some cl ∧ ss_logged cl = true ∧ h_released (ss_app cl) = false ∧ h_info (ss_app cl) = i.

Lemma loggedIn_core s c i : loggedIn s c i ↔ ∃ x, cores s !! c = Some x ∧ online x ∧ k_info x = i.
Proof.
  unfold loggedIn, cores. rewrite lookup_fmap. split.
  - intros (cl&->&?&?&?). exists (coreOf cl). by split_and!.
  - intros (x&Hx&[? ?]&?). destruct (s_clients s !! c) as [cl|]; [|done]. injection Hx as <-. by exists cl.
Qed.



(** ** Who can end a session *)

Definition actor (ev : serverEvent) : connID :=
  match ev with
  | SvAccept c _ _ | SvPacket c _ _ _ | SvProbed c | SvDialed c _ _ | SvRegister c _ _ | SvTick c _ | SvEnd c _ => c
  end.

(** [c] comes from the address [d] is connected from, or over IPv6 from the address [d]'s
    IPv4 session announced. *)
Definition mayReplace s c d : Prop :=
  ∃ ip, h_peerIP (state c s) = Some ip ∧
    (EqualIP (default [] (h_peerIP (state d s))) ip = true ∨
     h_connectedV6 (state c s) = true ∧ h_connectedV6 (state d s) = false ∧ EqualIP (ci_IPv6 (info d s)) ip = true).

(** A step of [c] leaves [d] alone. *)
Definition spares c d s s' : Prop := cores s' !! d = cores s !! d ∨ mayReplace s c d.

Lemma same_peers c f s d :
  (∀ cl, h_peerIP (ss_app (f cl)) = h_peerIP (ss_app cl) ∧ h_connectedV6 (ss_app (f cl)) = h_connectedV6 (ss_app cl)) →
  h_peerIP (state d (onClient c f s)) = h_peerIP (state d s) ∧
  h_connectedV6 (state d (onClient c f s)) = h_connectedV6 (state d s).
Proof.
  intros Hf. unfold state, client, onClient. replace (s_clients { s with s_clients := _ }) with (alter f c (s_clients s)) by by destruct s.
  destruct (decide (d = c)) as [->|Hne]; [|by rewrite lookup_alter_ne]. rewrite lookup_alter_eq.
  destruct (s_clients s !! c) as [cl|]; [apply Hf|done].
Qed.

Lemma cores_other c f s d : d ≠ c → cores (onClient c f s) !! d = cores s !! d.
Proof.
  intros Hne. unfold cores, onClient. replace (s_clients { s with s_clients := _ }) with (alter f c (s_clients s)) by by destruct s.
  by rewrite !lookup_fmap, lookup_alter_ne.
Qed.

Lemma accept_other c req s d : d ≠ c → cores (loginAccept c req s) !! d = cores s !! d.
Proof.
  intros Hne. unfold loginAccept, setLogin, onInfo, onState. destruct (if ipv6Enabled s then _ else _) as [v6 capable].
  by rewrite !cores_other.
Qed.

Lemma probed_other c req s d : d ≠ c → cores (loginProbed c req s) !! d = cores s !! d.
Proof.
  intros Hne. unfold loginProbed. set (s1 := setLogin c LIdle s). assert (cores s1 !! d = cores s !! d) as Hs1 by by apply cores_other.
  destruct (negb _); [by rewrite accept_other|]. destruct (negb _); [|by rewrite (q_cores _ _ (refuse_quiet c s1))].
  rewrite accept_other by done. rewrite <- Hs1. by destruct s1.
Qed.

Lemma replace_spares c hash s d : d ≠ c → spares c d s (replaceSameIPSession c hash s).
Proof.
  intros Hne. unfold replaceSameIPSession. destruct (sessionByHash hash s) as [old|]; [|by left].
  destruct (h_peerIP (state c s)) as [ip|] eqn:Ei; [|by left]. destruct (bool_decide _ || negb (EqualIP _ ip)) eqn:Eb; [by left|].
  apply orb_false_iff in Eb as [_ Ee%negb_false_iff]. destruct (decide (d = old)) as [->|Hdo]; [right; exists ip; auto|].
  left. set (s1 := closeClient old _ s). assert (cores s1 !! d = cores s !! d) as <- by by apply cores_other.
  destruct (h_released (state old s1)) eqn:Er; [unfold releaseSession; by rewrite Er|].
  by rewrite (rl_cores _ _ _ (release_effect old s1 Er)), lookup_alter_ne.
Qed.

Lemma request_spares c payload now s d : d ≠ c → spares c d s (loginRequest c payload now s).
Proof.
  intros Hne. unfold loginRequest. destruct (ParseLoginRequest _) as [b [req| |]]; cbn [snd]; [|by left..].
  destruct (ss_logged _); [left; by apply cores_other|]. destruct (match s_Content s with Some _ => _ | None => _ end).
  { left. unfold closeClient, messageClient. rewrite !cores_other by done. by destruct s. }
  destruct (_ && _); [|left; by apply accept_other].
  destruct (replace_spares c (lr_Hash req) s d Hne) as [Hs|]; [|by right]. left. rewrite <- Hs. set (s1 := replaceSameIPSession _ _ s).
  destruct (dualStackHandoverFrom _ _ _ _); [by apply accept_other|]. destruct (sessionByHash _ _) as [old|]; [|by apply probed_other].
  case_bool_decide; [by apply probed_other|]. unfold setLogin, onState. rewrite cores_other by done.
  by rewrite (q_cores _ _ (quiet_status old now s1)).
Qed.

Lemma handShake_spares c s d : d ≠ c → spares c d s (handShake c s).
Proof.
  intros Hne. unfold handShake. assert (spares c d s (completeDualStackHandover c s).1) as Hsp.
  { unfold completeDualStackHandover. destruct (_ || _); [by left|]. set (s1 := match dualStackHandoverFrom _ _ _ _ with Some _ => _ | None => _ end).
    assert (spares c d s s1) as Hs1.
    { unfold s1, dualStackHandoverFrom. destruct (h_peerIP (state c s)) as [ip|] eqn:Ei; [|by left]. destruct (sessionByHash _ _) as [old|]; [|by left].
      destruct (negb (h_connectedV6 (state c s))) eqn:E1; [by left|]. destruct (bool_decide (old = c)); [by left|].
      destruct (h_connectedV6 (state old s)) eqn:E2; [by left|]. destruct (negb (is16 _)); [by left|]. destruct (negb (_ =? _)); [by left|].
      destruct (negb (EqualIP _ ip)) eqn:E3; [by left|]. cbn [orb]. apply negb_false_iff in E1, E3.
      destruct (decide (d = old)) as [->|Hdo]; [right; exists ip; naive_solver|]. left. set (s2 := closeClient old _ s).
      assert (cores s2 !! d = cores s !! d) as <- by by apply cores_other.
      destruct (h_released (state old s2)) eqn:Er; [unfold releaseSession; by rewrite Er|].
      by rewrite (rl_cores _ _ _ (release_effect old s2 Er)), lookup_alter_ne. }
    destruct (eng_IsConnected _ _); cbn [fst]; [|done]. destruct Hs1 as [Hs1|]; [|by right]. left.
    by rewrite (q_cores _ _ (refuse_quiet c s1)). }
  destruct (completeDualStackHandover c s) as [s1 []]; cbn [fst] in Hsp; [|done]. destruct Hsp as [Hs1|]; [left; rewrite <- Hs1|by right].
  unfold connectSession. set (s2 := beginHandshake _ s1). assert (cores s2 = cores s1) as Hs2 by (unfold s2, beginHandshake; case_bool_decide; by destruct s1).
  assert (∀ e', cores { s2 with s_Storage := e' } = cores s1) as He by (intros e'; rewrite <- Hs2; by destruct s2).
  destruct (eng_Connect _ _) as [e' [k|err|]].
  - unfold setLogin, onInfo, onState. by rewrite !cores_other, He.
  - unfold endHandshake. case_bool_decide.
    + set (s3 := closeClient c _ _). assert (cores s3 !! d = cores s1 !! d) as <- by (unfold s3, closeClient; by rewrite cores_other, He).
      by destruct s3.
    + unfold closeClient. by rewrite cores_other, He.
  - by rewrite He.
Qed.
(** A step of [c] on its own state. *)
Definition keeps c s s' : Prop :=
  ∀ d, h_peerIP (state d s') = h_peerIP (state d s) ∧ h_connectedV6 (state d s') = h_connectedV6 (state d s) ∧
       (d ≠ c → cores s' !! d = cores s !! d).

Lemma keeps_trans c s s' s'' : keeps c s s' → keeps c s' s'' → keeps c s s''.
Proof.
  intros H1k H2k d. destruct (H1k d) as (?&?&Hc1), (H2k d) as (?&?&Hc2).
  split_and!; [congruence..|]. intros Hd. by rewrite Hc2, Hc1.
Qed.

Lemma keeps_onClient c f s :
  (∀ cl, h_peerIP (ss_app (f cl)) = h_peerIP (ss_app cl) ∧ h_connectedV6 (ss_app (f cl)) = h_connectedV6 (ss_app cl)) →
  keeps c s (onClient c f s).
Proof. intros Hf d. destruct (same_peers c f s d Hf). split_and!; [done..|]. by apply cores_other. Qed.

Lemma keeps_onState c f s :
  (∀ h, h_peerIP (f h) = h_peerIP h ∧ h_connectedV6 (f h) = h_connectedV6 h) → keeps c s (onState c f s).
Proof. intros Hf. apply keeps_onClient. intros []; cbn. apply Hf. Qed.

Lemma keeps_onInfo c f s : keeps c s (onInfo c f s).
Proof. apply keeps_onState. by intros []. Qed.

Lemma keeps_message c m s : keeps c s (messageClient c m s).
Proof. apply keeps_onClient. intros cl. by destruct (sendServerMessage_fields m cl) as (_&_&_&->). Qed.

Lemma keeps_lowids c s l : keeps c s { s with s_LowIDs := l }.
Proof. intros d. by destruct s. Qed.

Lemma keeps_spares c d s s' s'' : d ≠ c → keeps c s s' → spares c d s' s'' → spares c d s s''.
Proof.
  intros Hne Hk [Hc|(ip&Hip&Hor)].
  - left. rewrite Hc. by apply Hk.
  - right. exists ip. destruct (Hk c) as (Ec&Ev&_), (Hk d) as (Ed&Evd&Ecd). rewrite <- Ec, <- Ev, <- Ed, <- Evd. split; [done|].
    destruct Hor as [|(?&?&Hi)]; [by left|]. right. split_and!; [done..|]. rewrite <- Hi. f_equal.
    assert (coreOf (client d s) = coreOf (client d s')) as Hcd by by rewrite !client_core, Ecd. exact (f_equal (λ x, ci_IPv6 (k_info x)) Hcd).
Qed.

Lemma dialed_spares c v6 probe r6 s d : d ≠ c → spares c d s (loginDialed c v6 probe r6 s).
Proof.
  intros Hne. unfold loginDialed. set (s1 := setLogin c LIdle s).
  assert (keeps c s s1) as Hk1 by (apply keeps_onState; by intros []).
  assert (∀ s2 b r, keeps c s1 s2 →
    spares c d s (handShake c (if b : bool then onInfo c (λ i, { i with ci_IPv6Reachable := r }) s2 else s2))) as Hend.
  { intros s2 b r Hk. eapply keeps_spares; [done| |by apply handShake_spares]. eapply keeps_trans; [exact Hk1|].
    destruct b; [|done]. eapply keeps_trans; [exact Hk|apply keeps_onInfo]. }
  destruct (negb (HasHighID _) || probe).
  - set (s2 := onState c _ _). assert (keeps c s1 s2) as Hk2.
    { eapply keeps_trans; [apply keeps_onInfo|]. apply keeps_onState. by intros []. }
    set (s3 := messageClient c _ s2). assert (keeps c s1 s3) as Hk3 by (eapply keeps_trans; [exact Hk2|apply keeps_message]).
    destruct (allocateLowID c s3) as [l [id|]]; cbn [negb].
    + apply Hend. eapply keeps_trans; [exact Hk3|]. eapply keeps_trans; [apply keeps_lowids|apply keeps_onInfo].
    + eapply keeps_spares; [done| |left; by apply cores_other]. eapply keeps_trans; [exact Hk1|].
      eapply keeps_trans; [exact Hk3|apply keeps_lowids].
  - cbn [negb]. apply Hend. eapply keeps_trans; [apply keeps_onInfo|]. apply keeps_onState. by intros [].
Qed.

Lemma quiet_spares c d s s' : quiet s s' → spares c d s s'.
Proof. intros Hq. left. by rewrite (q_cores _ _ Hq). Qed.

Lemma moves_spares c d y s s' : d ≠ c → moves c y s s' → cores s' !! d = cores s !! d.
Proof. intros Hne [-> _ _ _]. by rewrite lookup_insert_ne. Qed.

Lemma finish_other c now token s d : d ≠ c → cores (finishHandShake c now token s) !! d = cores s !! d.
Proof.
  intros Hne. unfold finishHandShake. set (s1 := setLogin c LIdle s). assert (cores s1 !! d = cores s !! d) as <- by by apply cores_other.
  set (s2 := registerSession _ c s1).
  assert (cores s2 = cores s1) as Hs2.
  { unfold s2, registerSession. destruct (negb _); [done|]. set (s' := { s1 with s_sessionsByHash := _ }).
    assert (cores s' = cores s1) as <- by (unfold s'; by destruct s1). destruct (ed3kNodeID c s'); [|done].
    case_bool_decide; [done|]. by destruct s'. }
  rewrite <- Hs2. match goal with |- cores (endHandshake _ ?z) !! _ = _ => assert (quiet s2 z) as Hq by apply quiet_welcome end.
  match goal with |- cores (endHandshake _ ?z) !! _ = _ => set (s3 := z) in * end. rewrite <- (q_cores _ _ Hq).
  unfold endHandshake. case_bool_decide; [by destruct s3|done].
Qed.

Lemma step_spares s ev d : d ≠ actor ev → spares (actor ev) d s (serverStep s ev).
Proof.
  destruct ev as [c ip port|c op payload now|c|c probe r6|c now token|c now|c reason]; cbn [actor serverStep]; intros Hne.
  - left. unfold cores. rewrite !lookup_fmap. replace (s_clients _) with (<[c := newTCPClient ip port]> (s_clients s)) by by destruct s.
    by rewrite lookup_insert_ne.
  - unfold serve. destruct (op =? OpLoginRequest); [by apply request_spares|]. destruct (op =? OpDisconnect); [left; by apply cores_other|].
    left. pose proof (quiet_gate c op s) as Hq. destruct (gate c op s) as [s1 []]; cbn [fst] in Hq; [|by rewrite (q_cores _ _ Hq)].
    destruct (publishes_request c op payload now s1) as [[Hc _ _ _ _ _] _]. rewrite <- (q_cores _ _ Hq), <- Hc.
    by destruct (serveRequest c op payload now s1).
  - left. destruct (h_login (state c s)); try done. by apply probed_other.
  - destruct (h_login (state c s)); try by left. by apply dialed_spares.
  - left. destruct (h_login (state c s)); try done. by apply finish_other.
  - apply quiet_spares, quiet_tick.
  - left. unfold endRun. set (s1 := onState c _ _). assert (cores s1 !! d = cores s !! d) as <- by (unfold s1, onState; by rewrite !cores_other).
    destruct (h_released (state c s1)) eqn:Er; [unfold releaseSession; by rewrite Er|].
    by rewrite (rl_cores _ _ _ (release_effect c s1 Er)), lookup_alter_ne.
Qed.

(** C4: nobody can log another user out. If a step of connection [c] ends the session of
    another connection [d], then [c] comes from the address [d] is connected from, or it is
    an IPv6 connection from the very address that [d]'s IPv4 session announced as its own.
    Knowing a user's hash, which is public, is not enough. *)
Theorem takeover_only s ev d i :
  d ≠ actor ev → loggedIn s d i → ¬ loggedIn (serverStep s ev) d i → mayReplace s (actor ev) d.
Proof.
  intros Hne Hd Hn. destruct (step_spares s ev d Hne) as [Hc|]; [|done]. destruct Hn. apply loggedIn_core. rewrite Hc. by apply loggedIn_core.
Qed.
End Sessions.

(** ** A run *)

Section Run.
Import Instances.

Definition possibleb (s : DemoServer) (e : serverEvent) : bool :=
  match e with
  | SvAccept c _ _ => bool_decide (s_clients s !! c = None)
  | SvPacket c _ _ _ | SvEnd c _ =>
      bool_decide (is_Some (s_clients s !! c)) && match h_login (state c s) with LIdle => true | _ => false end &&
      negb (h_ended (state c s))
  | SvDialed _ _ _ => e_nextClientID (s_Storage s) + 1 <? 2 ^ 64
  | SvProbed _ | SvRegister _ _ _ | SvTick _ _ => true
  end.

Lemma possibleb_spec s e : possibleb s e = true → possible s e.
Proof.
  destruct e; cbn [possibleb possible]; intros Hp; try done; try by apply bool_decide_eq_true in Hp.
  - apply andb_true_iff in Hp as [[Hc%bool_decide_eq_true Hl]%andb_true_iff Hn%negb_true_iff]. by destruct (h_login _).
  - by apply Z.ltb_lt in Hp.
  - apply andb_true_iff in Hp as [[Hc%bool_decide_eq_true Hl]%andb_true_iff Hn%negb_true_iff]. by destruct (h_login _).
Qed.

Fixpoint play (es : list serverEvent) (s : DemoServer) : DemoServer * bool :=
  match es with
  | [] => (s, true)
  | e :: es => let '(s', ok) := play es (serverStep s e) in (s', possibleb s e && ok)
  end.

Lemma play_served es s0 s : served s0 s → (play es s).2 = true → served s0 (play es s).1.
Proof.
  revert s. induction es as [|e es IH]; intros s Hs; [done|]. cbn [play]. specialize (IH (serverStep s e)).
  destruct (play es (serverStep s e)) as [s' ok]. cbn [fst snd] in *. intros [Hp Hok]%andb_true_iff. apply IH; [|done].
  apply served_step; [done|by apply possibleb_spec].
Qed.

Lemma demo_started : started demoServer.
Proof. split; try done. apply wf_new. Qed.

Definition ip1 : bytes := [203; 0; 113; 7].
Definition ip2 : bytes := [198; 51; 100; 9].

(** Alice logs in and shares a file; Bob logs in behind a firewall; Alice comes back from
    the same address before the server noticed that she was gone. *)
Definition demoEvents : list serverEvent :=
  [SvAccept 0 ip1 50000; SvPacket 0 OpLoginRequest (loginBytes alice 4662) 0; SvDialed 0 false false; SvRegister 0 1 None;
   SvAccept 1 ip2 50001; SvPacket 0 OpOfferFiles (offerBytes [(plans, str "Cabinet plans.pdf", 700)]) 2;
   SvPacket 1 OpLoginRequest (loginBytes bob 4662) 3; SvDialed 1 true false; SvRegister 1 4 None;
   SvPacket 1 OpOfferFiles (offerBytes [(plans, str "Cabinet plans.pdf", 700)]) 5;
   SvAccept 2 ip1 50002; SvPacket 2 OpLoginRequest (loginBytes alice 4662) 6; SvDialed 2 false false].

Definition demoServed : DemoServer := (play demoEvents demoServer).1.

Lemma demo_served : served demoServer demoServed.
Proof. apply play_served; [constructor|by vm_compute]. Qed.

Lemma loggedIn_eval (s : DemoServer) c :
  bool_decide (is_Some (s_clients s !! c)) && ss_logged (client c s) && negb (h_released (state c s)) = true → loggedIn s c (info c s).
Proof.
  intros [[[cl E]%bool_decide_eq_true Hl]%andb_true_iff Hr%negb_true_iff]%andb_true_iff. exists cl.
  unfold info, state, client in *. rewrite E in *. done.
Qed.

Lemma loggedOut_eval (s : DemoServer) c i : h_released (state c s) = true → ¬ loggedIn s c i.
Proof. intros Hr (cl&E&_&Hn&_). unfold state, client in Hr. rewrite E in Hr. cbn in Hr. congruence. Qed.



Definition demoBefore : DemoServer := (play (take 11 demoEvents) demoServer).1.
Definition aliceBack : serverEvent := SvPacket 2 OpLoginRequest (loginBytes alice 4662) 6.

(** Alice's login on connection 2 ends her session on connection 0. *)
Lemma takeover_only_witness : mayReplace demoBefore 2 0.
Proof.
  apply (takeover_only demoBefore aliceBack 0 (info 0 demoBefore)).
  - done.
  - apply loggedIn_eval. by vm_compute.
  - apply loggedOut_eval. by vm_compute.
Defined.
End Run.
