(* ===== verification/Offers.v ===== *)
(** * The limits on what a client shares

    The soft limit of [withinSoftLimit] over a whole run of the server: whatever clients send
    and however their packets interleave, no session is a source of more files than it. *)

From S2P Require Import Prelude Buffer Types Address NetIP Packet Builders Framing LowID Text Search SearchParse.
From S2P Require Import FileMeta Servers MemEngine MemInv Engine MemAPI RuntimeState Runtime Demo Sessions.
Local Open Scope Z_scope.
#[local] Set Warnings "-clear-no-such-hyp".

(** ** One packet *)

(** The files let through: what is known always, and of the new ones as many as there is room. *)
Lemma admit_spec (known : File → bool) files room admitted kept skipped :
  admitOffers (map (λ f, (f, known f)) files) room admitted = (kept, skipped) →
  (∀ f, f ∈ files → known f = true → f ∈ kept) ∧
  ∃ X : gset (bytes * Z), size X <= Z.max room 0 ∧
    (list_to_set (map fileKey (filter (λ f, known f = false) kept)) : gset (bytes * Z)) ⊆ admitted ∪ X.
Proof.
  revert room admitted kept skipped. induction files as [|f files IH]; intros room adm kept skipped; cbn [map admitOffers].
  { intros [= <- <-]. split; [by intros f ?%elem_of_nil|]. exists ∅. split; [rewrite size_empty; lia|set_solver]. }
  assert (∀ g kept', (∀ h, h ∈ files → known h = true → h ∈ kept') → g ∈ f :: files → known g = true → g ∈ f :: kept') as Hcons.
  { intros g kept' Hall [->|Hg]%elem_of_cons Hk; [by left|right; auto]. }
  assert (∀ kept', map fileKey (filter (λ g, known g = false) (f :: kept')) =
    (if known f then [] else [fileKey f]) ++ map fileKey (filter (λ g, known g = false) kept')) as Hkeys.
  { intros kept'. rewrite filter_cons. by destruct (known f); [rewrite decide_False|rewrite decide_True]. }
  destruct (bool_decide_reflect (fileKey f ∈ adm)) as [Hin|Hout]; [|destruct (known f) eqn:Ek]; cbn [orb].
  - destruct (admitOffers _ room adm) as [kept' skipped'] eqn:E. intros [= <- <-]. destruct (IH _ _ _ _ E) as (Hall&X&HX&Hsub).
    split; [by intros g; apply Hcons|]. exists X. split; [done|]. rewrite Hkeys. clear -Hsub Hin. destruct (known f); cbn [app]; [done|]. rewrite list_to_set_cons. set_solver.
  - destruct (admitOffers _ room adm) as [kept' skipped'] eqn:E. intros [= <- <-]. destruct (IH _ _ _ _ E) as (Hall&X&HX&Hsub).
    split; [by intros g; apply Hcons|]. exists X. split; [done|]. by rewrite Hkeys.
  - destruct (Z.ltb_spec 0 room) as [Hr|Hr].
    + destruct (admitOffers _ (room - 1) _) as [kept' skipped'] eqn:E. intros [= <- <-]. destruct (IH _ _ _ _ E) as (Hall&X&HX&Hsub).
      split; [by intros g; apply Hcons|]. exists ({[fileKey f]} ∪ X). split; [|rewrite Hkeys; cbn [app]; rewrite list_to_set_cons; intros key [Hk|Hk%Hsub]%elem_of_union; rewrite !elem_of_union in *; tauto].
      rewrite size_union_alt, size_singleton. assert (size (X ∖ {[fileKey f]}) <= size X)%nat by (apply subseteq_size; clear; set_solver). lia.
    + destruct (admitOffers _ room adm) as [kept' skipped'] eqn:E. intros [= <- <-]. destruct (IH _ _ _ _ E) as (Hall&X&HX&Hsub).
      split; [|by exists X]. intros g [->|Hg]%elem_of_cons Hk; [congruence|auto].
Qed.

Lemma withKnown_map (known : File → bool) batch : withKnown batch (map known batch) = map (λ f, (f, known f)) batch.
Proof.
  unfold withKnown. rewrite take_app_le by (rewrite length_map; lia). rewrite firstn_all2 by (rewrite length_map; lia).
  induction batch as [|f batch IH]; [done|]. cbn. by rewrite IH.
Qed.

Section Offers.
Context {E F P Q : Type} `{!Engine E} `{!EngineLaws E} `{!ContentFilter F} `{!SpamObserver P Q}.
Context `{!Zlib} `{!Unicode} `{!Charmap} `{!MetaHash}.
Implicit Types (s : ServerRuntime E F P Q) (c : connID).

(** The count after a packet of a session that is online. *)
Lemma within_bound batch inf limit s :
  eng_ok (s_Storage s) → ci_StoreID inf ≠ 0 →
  (∀ i, eng_sessions (s_Storage s) !! ci_StoreID inf = Some i → clientAddr inf = clientAddr i) → 0 < limit →
  eng_OfferedCount inf (eng_AddFiles (withinSoftLimit batch inf limit s).1 inf (s_Storage s)) <=
    Z.max limit (eng_OfferedCount inf (s_Storage s)).
Proof.
  intros Hok Hk Ha Hl. destruct (eng_offered inf (s_Storage s) Hok Hk Ha) as (known&Hkn).
  assert (∀ l : list File, (size (list_to_set (map fileKey (filter (λ f, known f = false) l)) : gset (bytes * Z)) <= length l)%nat) as Hsize.
  { intros l. etransitivity; [apply size_list_set|]. rewrite length_map. apply length_filter. }
  unfold withinSoftLimit. rewrite (proj2 (Z.leb_gt limit 0)) by lia. cbn [orb]. case_bool_decide as E0; cbn [fst].
  { subst batch. destruct (Hkn []) as [_ Hb]. cbn in Hb. rewrite size_empty in Hb. lia. }
  destruct (Z.leb_spec (eng_OfferedCount inf (s_Storage s) + length batch) limit) as [Hle|Hgt]; cbn [fst].
  { destruct (Hkn batch) as [_ Hb]. pose proof (Hsize batch). lia. }
  rewrite (proj1 (Hkn batch)), withKnown_map. destruct (admitOffers _ _ _) as [kept skipped] eqn:Ea. cbn [fst].
  destruct (admit_spec known batch _ _ kept skipped Ea) as (_&X&HX&Hsub). destruct (Hkn kept) as [_ Hb].
  apply subseteq_size in Hsub. rewrite (left_id_L ∅ (∪)) in Hsub. lia.
Qed.

(** ** A whole run *)

Definition limited (limit : Z) (e : E) : Prop :=
  ∀ k i, eng_sessions e !! k = Some i → eng_OfferedCount i e <= limit.

Section Limit.
Context (limit : Z) (Hlimit : 0 < limit).

Lemma limited_disconnect info e :
  eng_ok e → is_Some (eng_sessions e !! ci_StoreID info) → limited limit e → limited limit (eng_Disconnect info e).
Proof.
  intros Hok Hin Hl k i Hi. pose proof (eng_offered_disconnect info e k i Hok Hi) as Hle.
  destruct (eng_disconnect info e (ci_StoreID info) Hok) as (_&_&Hs&_); [by left|].
  rewrite Hs in Hi. apply lookup_delete_Some in Hi as [_ Hi]. specialize (Hl k i Hi). lia.
Qed.

Lemma limited_connect info e :
  eng_ok e → eng_fresh e → ci_Hash info ≠ [] → limited limit e → limited limit (eng_Connect info e).1.
Proof.
  intros Hok Hf Hh Hl k i Hi. rewrite (eng_offered_connect info e k i Hok Hf Hh Hi). case_bool_decide as Hn; [lia|].
  pose proof (eng_connect info e Hok Hf Hh) as Hc. destruct (eng_Connect info e) as [e' [k'| |]]; destruct Hc as [_ Hc]; [| |done].
  - destruct Hc as (Hk'&Hs&_). cbn [fst] in Hi. rewrite Hs in Hi. apply lookup_insert_Some in Hi as [[<- _]|[_ Hi]]; [done|by apply (Hl k)].
  - destruct Hc as [Hs _]. cbn [fst] in Hi. rewrite Hs in Hi. by apply (Hl k).
Qed.

Lemma limited_add batch inf s :
  eng_ok (s_Storage s) → eng_sessions (s_Storage s) !! ci_StoreID inf = Some inf → limited limit (s_Storage s) →
  limited limit (eng_AddFiles (withinSoftLimit batch inf limit s).1 inf (s_Storage s)).
Proof.
  intros Hok Hin Hl k i Hi. destruct (eng_session_id _ _ _ Hok Hin) as [Hpos _].
  assert (∀ i, eng_sessions (s_Storage s) !! ci_StoreID inf = Some i → clientAddr inf = clientAddr i) as Ha by (intros j Hj; congruence).
  destruct (eng_add (withinSoftLimit batch inf limit s).1 inf (s_Storage s) Hok) as (_&Hs&_); [lia|done|].
  rewrite Hs in Hi. pose proof (Hl k i Hi) as Hc. destruct (decide (k = ci_StoreID inf)) as [->|Hne].
  - assert (i = inf) as -> by congruence. pose proof (within_bound batch inf limit s Hok) as Hw. specialize (Hw ltac:(lia) Ha Hlimit). lia.
  - pose proof (eng_offered_others (withinSoftLimit batch inf limit s).1 inf (s_Storage s) k i Hok) as Ho.
    specialize (Ho ltac:(lia) Ha Hi Hne). lia.
Qed.

(** The row of a session that is online. *)
Lemma online_session c s :
  consistent s → ss_logged (client c s) = true → h_released (state c s) = false →
  eng_sessions (s_Storage s) !! ci_StoreID (info c s) = Some (info c s).
Proof.
  intros Hok Hg Hr. destruct (cores s !! c) as [x|] eqn:Hx.
  - rewrite (core_info c s x Hx). pose proof (core_client c s x Hx) as Ex. apply (so_rows _ _ _ _ Hok). exists c, x.
    split_and!; try done. rewrite <- Ex. by split.
  - exfalso. change (k_logged (coreOf (client c s)) = true) in Hg. by rewrite client_core, Hx in Hg.
Qed.

(** [s'] differs from a consistent [s] in nothing that matters to the storage or to [c]. *)
Lemma limited_release c s s' :
  consistent s → s_Storage s' = s_Storage s → info c s' = info c s → ss_logged (client c s') = ss_logged (client c s) →
  h_released (state c s') = h_released (state c s) → limited limit (s_Storage s) → limited limit (s_Storage (releaseSession c s')).
Proof.
  intros Hok Es Ei Eg Er Hl. destruct (h_released (state c s')) eqn:Hr; [unfold releaseSession; by rewrite Hr, Es|].
  rewrite (rl_storage _ _ _ (release_effect c s' Hr)), Es. destruct (ss_logged (client c s')) eqn:Hg; [|done].
  rewrite Ei. apply limited_disconnect; [apply Hok| |done]. rewrite online_session by congruence. by eexists.
Qed.

Lemma limited_takeover old reason s :
  consistent s → limited limit (s_Storage s) → limited limit (s_Storage (releaseSession old (closeClient old reason s))).
Proof.
  intros Hok Hl. pose proof (quiet_close old reason s) as Hq. pose proof (same_cores old _ _ (q_cores _ _ Hq)) as Hc.
  apply (limited_release old s); [done|apply Hq|exact (f_equal k_info Hc)|exact (f_equal k_logged Hc)|exact (f_equal k_released Hc)|done].
Qed.

Lemma limited_publishes c s s' :
  tc_SoftFileLimit (s_tcp s) = limit → consistent s → ss_logged (client c s) = true → publishes c s s' →
  limited limit (s_Storage s) → limited limit (s_Storage s').
Proof.
  intros Ht Hok Hg [_ Hst] Hl. destruct Hst as [->|(Hr&batch&->)]; [done|]. rewrite Ht.
  apply limited_add; [apply Hok|by apply online_session|done].
Qed.

Lemma gate_open c opcode s : (gate c opcode s).2 = true → ss_logged (client c (gate c opcode s).1) = true.
Proof.
  intros Hg. change (k_logged (coreOf (client c (gate c opcode s).1)) = true).
  rewrite (same_cores c s _ (q_cores _ _ (quiet_gate c opcode s))). unfold gate, requireLogin in Hg. cbn [snd] in Hg.
  unfold coreOf; cbn. destruct (ss_logged (client c s)); [done|]. by destruct (ss_loginGateTripped _).
Qed.

Lemma accept_storage c req s : s_Storage (loginAccept c req s) = s_Storage s.
Proof. unfold loginAccept. destruct (if ipv6Enabled s then _ else _) as [v6 capable]. by destruct s. Qed.

Lemma probed_storage c req s :
  consistent s → length (lr_Hash req) = 16%nat → s_Storage (loginProbed c req s) = s_Storage s.
Proof.
  intros Hok Hl. unfold loginProbed. set (s1 := setLogin c LIdle s).
  assert (s_Storage s1 = s_Storage s ∧ s_sessionsByHash s1 = s_sessionsByHash s ∧ s_handshaking s1 = s_handshaking s) as (Es&Ei&Eh)
    by (unfold s1; by destruct s).
  rewrite Es. destruct (eng_IsConnected _ (s_Storage s)) eqn:Ec; cbn [negb]; [|by rewrite accept_storage].
  pose proof (connected_held _ s Hok Hl Ec) as Hh. unfold hashHeldLocally in Hh |- *. rewrite Ei, Eh, Hh. cbn [negb].
  by rewrite (q_storage _ _ (refuse_quiet c s1)).
Qed.

Lemma limited_login c payload now s :
  consistent s → limited limit (s_Storage s) → is_Some (s_clients s !! c) → h_login (state c s) = LIdle → h_ended (state c s) = false →
  limited limit (s_Storage (loginRequest c payload now s)).
Proof.
  intros Hok Hl Hin Hlo Hen. unfold loginRequest. destruct (ParseLoginRequest _) as [b [req| |]] eqn:Ep; cbn [snd]; [|done..].
  apply login_hash in Ep. destruct (ss_logged (client c s)) eqn:Eg; [by rewrite (q_storage _ _ (quiet_close _ _ _))|].
  destruct (match s_Content s with Some _ => _ | None => _ end).
  { rewrite (q_storage _ _ (quiet_close _ _ _)), (q_storage _ _ (quiet_message _ _ _)). by destruct s. }
  destruct (_ && _); [|by rewrite accept_storage].
  assert (∃ x, cores s !! c = Some x ∧ pendingLogin x) as (x&Hx&Px).
  { destruct Hin as [cl Hcl]. exists (coreOf cl). assert (cores s !! c = Some (coreOf cl)) as Hx by (unfold cores; by rewrite lookup_fmap, Hcl).
    split; [done|]. pose proof (so_stage _ _ _ _ Hok c _ Hx) as Hs. unfold stage_ok, state, client in *. rewrite Hcl in *. cbn in *.
    rewrite Hlo in Hs. split_and!; [done|exact (eq_trans (Hs Eg) Hen)|done|]. cbn. congruence. }
  destruct (replace_consistent c (lr_Hash req) s x Hok Hx Px) as [Hok1 _].
  assert (limited limit (s_Storage (replaceSameIPSession c (lr_Hash req) s))) as Hl1.
  { unfold replaceSameIPSession. destruct (sessionByHash _ s) as [old|]; [|done]. destruct (h_peerIP _); [|done].
    destruct (_ || _); [done|]. by apply limited_takeover. }
  set (s1 := replaceSameIPSession _ _ s) in *. destruct (dualStackHandoverFrom _ _ _ _); [by rewrite accept_storage|].
  destruct (sessionByHash (lr_Hash req) s1) as [old|]; [|by rewrite probed_storage].
  case_bool_decide; [by rewrite probed_storage|]. unfold setLogin, onState. rewrite (proj1 (onClient_rest c _ _)).
  by rewrite (q_storage _ _ (quiet_status _ _ _)).
Qed.

Lemma waiting_core c s p : h_login (state c s) = p → p ≠ LIdle → ∃ x, cores s !! c = Some x ∧ k_login x = p.
Proof.
  unfold state, client, cores. intros Hl Hne. rewrite lookup_fmap. destruct (s_clients s !! c) as [cl|]; [|by destruct Hne].
  by exists (coreOf cl).
Qed.

Lemma finish_storage c now token s : s_Storage (finishHandShake c now token s) = s_Storage s.
Proof.
  unfold finishHandShake. set (s1 := setLogin c LIdle s). assert (s_Storage s1 = s_Storage s) as <- by by destruct s.
  set (s2 := registerSession _ c s1). assert (s_Storage s2 = s_Storage s1) as <-.
  { unfold s2, registerSession. destruct (negb _); [done|]. destruct (ed3kNodeID _ _); [case_bool_decide|]; by destruct s1. }
  match goal with |- s_Storage (endHandshake _ ?z) = _ => assert (quiet s2 z) as Hq by apply quiet_welcome; set (s3 := z) in * end.
  rewrite <- (q_storage _ _ Hq). unfold endHandshake. case_bool_decide; [by destruct s3|done].
Qed.

Lemma limited_handShake c s x :
  consistent s → cores s !! c = Some x → pendingLogin x → length (hashOf x) = 16%nat → eng_fresh (s_Storage s) →
  limited limit (s_Storage s) → limited limit (s_Storage (handShake c s)).
Proof.
  intros Hok Hx Px Hlen Hf Hl. unfold handShake. pose proof (handover_consistent c s x Hok Hx Px Hlen Hf) as Hh.
  assert (limited limit (s_Storage (completeDualStackHandover c s).1)) as Hl1.
  { unfold completeDualStackHandover. destruct (_ || _); [done|]. set (s1 := match dualStackHandoverFrom _ _ _ _ with Some _ => _ | None => _ end).
    assert (limited limit (s_Storage s1)) as Hs1 by (unfold s1; destruct (dualStackHandoverFrom _ _ _ _); [by apply limited_takeover|done]).
    destruct (eng_IsConnected _ (s_Storage s1)); [cbn; by rewrite (q_storage _ _ (refuse_quiet c s1))|done]. }
  destruct (completeDualStackHandover c s) as [s1 []]; destruct Hh as [Hok1 Hh]; [|done]. destruct (Hh eq_refl) as (Hx1&Hf1&_). cbn [fst] in Hl1.
  unfold connectSession.
  set (s2 := beginHandshake _ s1). assert (s_Storage s2 = s_Storage s1 ∧ s_clients s2 = s_clients s1) as [Es2 Ec2].
  { unfold s2, beginHandshake. case_bool_decide; [by destruct s1|done]. }
  assert (info c s2 = k_info x) as -> by (rewrite <- (core_info c s1 x Hx1); unfold info, state, client; by rewrite Ec2). rewrite Es2.
  assert (ci_Hash (k_info x) ≠ []) as Hne by (intros E0; unfold hashOf in Hlen; by rewrite E0 in Hlen).
  pose proof (limited_connect (k_info x) (s_Storage s1) (so_engine _ _ _ _ Hok1) Hf1 Hne Hl1) as Hl2.
  destruct (eng_Connect (k_info x) (s_Storage s1)) as [e' [k| |]]; cbn [fst] in Hl2.
  - unfold setLogin, onInfo, onState. do 3 rewrite (proj1 (onClient_rest c _ _)). by destruct s2.
  - set (s3 := closeClient c _ _). assert (s_Storage s3 = e') as Es3 by (unfold s3; rewrite (q_storage _ _ (quiet_close _ _ _)); by destruct s2).
    assert (∀ h, s_Storage (endHandshake h s3) = s_Storage s3) as -> by (intros h; unfold endHandshake; case_bool_decide; [by destruct s3|done]).
    by rewrite Es3.
  - by destruct s2.
Qed.

Lemma limited_step s ev :
  tc_SoftFileLimit (s_tcp s) = limit → consistent s → possible s ev → limited limit (s_Storage s) →
  limited limit (s_Storage (serverStep s ev)).
Proof.
  intros Ht Hok Hp Hl. destruct ev as [c ip port|c op payload now|c|c probe r6|c now token|c now|c reason]; cbn [possible serverStep] in *.
  - by destruct s.
  - destruct Hp as (Hc&Hlo&He). unfold serve. destruct (op =? OpLoginRequest); [by apply limited_login|].
    destruct (op =? OpDisconnect); [by rewrite (q_storage _ _ (quiet_close _ _ _))|].
    pose proof (quiet_gate c op s) as Hq. pose proof (gate_open c op s) as Hg. destruct (gate c op s) as [s1 []]; cbn [fst snd] in *.
    + apply (limited_publishes c s1); [by rewrite (q_tcp _ _ Hq)|by eapply quiet_consistent|by apply Hg|apply publishes_request|].
      by rewrite (q_storage _ _ Hq).
    + by rewrite (q_storage _ _ Hq).
  - destruct (h_login (state c s)) as [|req|v6|] eqn:El; try done. destruct (waiting_core c s (LStale req) El ltac:(done)) as (x&Hx&Lx).
    rewrite probed_storage; [done|done|]. pose proof (so_stage _ _ _ _ Hok c x Hx) as Hs. unfold stage_ok in Hs. rewrite Lx in Hs. apply Hs.
  - destruct (h_login (state c s)) as [|req|v6|] eqn:El; try done. destruct (waiting_core c s (LDialing v6) El ltac:(done)) as (x&Hx&Lx).
    destruct (dialed_shape c v6 probe r6 s x Hok Hx Lx) as (y&s1&Hd&Hc).
    destruct (dialed_ready c v6 s x y s1 Hok Hx Lx Hd) as (Hok1&Hy&Py&Hlen&Es). destruct Hc as [[-> _]|[Hq _]].
    + eapply limited_handShake; [done..|by rewrite Es|by rewrite Es].
    + by rewrite (q_storage _ _ Hq), Es.
  - destruct (h_login (state c s)) as [|req|v6|] eqn:El; try done. by rewrite finish_storage.
  - by rewrite (q_storage _ _ (quiet_tick c now s)).
  - destruct Hp as ([cl Hcl]&Hlo&He). assert (cores s !! c = Some (coreOf cl)) as Hx by (unfold cores; by rewrite lookup_fmap, Hcl).
    pose proof (moves_end c reason s _ Hx) as M. pose proof (core_client c _ _ (moves_at _ _ _ _ M)) as E1.
    pose proof (core_client c s _ Hx) as E2. unfold endRun. set (s2 := onState c _ _) in *.
    apply (limited_release c s); [done|apply M| | | |done].
    + exact (eq_trans (f_equal k_info E1) (eq_sym (f_equal k_info E2))).
    + exact (eq_trans (f_equal k_logged E1) (eq_sym (f_equal k_logged E2))).
    + exact (eq_trans (f_equal k_released E1) (eq_sym (f_equal k_released E2))).
Qed.
End Limit.

(** ** No step changes the settings *)

Lemma tcp_release c s : s_tcp (releaseSession c s) = s_tcp s.
Proof. destruct (h_released (state c s)) eqn:Hr; [unfold releaseSession; by rewrite Hr|apply (release_effect c s Hr)]. Qed.

Lemma tcp_takeover c reason s : s_tcp (releaseSession c (closeClient c reason s)) = s_tcp s.
Proof. rewrite tcp_release. apply quiet_close. Qed.

Lemma tcp_accept c req s : s_tcp (loginAccept c req s) = s_tcp s.
Proof. unfold loginAccept. destruct (if ipv6Enabled s then _ else _) as [v6 capable]. by destruct s. Qed.

Lemma tcp_probed c req s : s_tcp (loginProbed c req s) = s_tcp s.
Proof.
  unfold loginProbed. set (s1 := setLogin c LIdle s). assert (s_tcp s1 = s_tcp s) as <- by by destruct s.
  destruct (negb _); [apply tcp_accept|]. destruct (negb _); [rewrite tcp_accept; by destruct s1|apply refuse_quiet].
Qed.

Lemma tcp_login c payload now s : s_tcp (loginRequest c payload now s) = s_tcp s.
Proof.
  unfold loginRequest. destruct (ParseLoginRequest _) as [b [req| |]]; cbn [snd]; [|done..].
  destruct (ss_logged (client c s)); [apply quiet_close|].
  destruct (match s_Content s with Some _ => _ | None => _ end).
  { rewrite (q_tcp _ _ (quiet_close _ _ _)), (q_tcp _ _ (quiet_message _ _ _)). by destruct s. }
  destruct (_ && _); [|apply tcp_accept]. set (s1 := replaceSameIPSession _ _ s). assert (s_tcp s1 = s_tcp s) as <-.
  { unfold s1, replaceSameIPSession. destruct (sessionByHash _ s); [|done]. destruct (h_peerIP _); [|done].
    destruct (_ || _); [done|apply tcp_takeover]. }
  destruct (dualStackHandoverFrom _ _ _ _); [apply tcp_accept|]. destruct (sessionByHash _ s1) as [old|]; [|apply tcp_probed].
  case_bool_decide; [apply tcp_probed|]. unfold setLogin. rewrite (proj1 (onState_fixed c _ _)). apply quiet_status.
Qed.

Lemma tcp_handShake c s : s_tcp (handShake c s) = s_tcp s.
Proof.
  assert (∀ s, s_tcp (connectSession c s) = s_tcp s) as Hc.
  { intros s1. unfold connectSession.
    assert (∀ s h, s_tcp (beginHandshake h s) = s_tcp s ∧ s_tcp (endHandshake h s) = s_tcp s) as Hbe
      by (intros s' h; unfold beginHandshake, endHandshake; case_bool_decide; [by destruct s'|done]).
    rewrite <- (proj1 (Hbe s1 (ci_Hash (info c s1)))). generalize (beginHandshake (ci_Hash (info c s1)) s1) as s2. intros s2.
    destruct (eng_Connect _ _) as [e [k|err|]]; [by destruct s2| |by destruct s2].
    rewrite (proj2 (Hbe _ _)), (q_tcp _ _ (quiet_close _ _ _)). by destruct s2. }
  unfold handShake, completeDualStackHandover.
  destruct (_ || _); [apply Hc|]. set (s1 := match dualStackHandoverFrom _ _ _ _ with Some _ => _ | None => _ end).
  assert (s_tcp s1 = s_tcp s) as <- by (unfold s1; destruct (dualStackHandoverFrom _ _ _ _); [apply tcp_takeover|done]).
  destruct (eng_IsConnected _ _); [apply refuse_quiet|apply Hc].
Qed.

Lemma tcp_step s ev : consistent s → s_tcp (serverStep s ev) = s_tcp s.
Proof.
  intros Hok. destruct ev as [c ip port|c op payload now|c|c probe r6|c now token|c now|c reason]; cbn [serverStep].
  - by destruct s.
  - unfold serve. destruct (op =? OpLoginRequest); [apply tcp_login|]. destruct (op =? OpDisconnect); [apply quiet_close|].
    pose proof (quiet_gate c op s) as Hq. destruct (gate c op s) as [s1 []]; cbn [fst] in *; [|apply Hq]. rewrite <- (q_tcp _ _ Hq).
    destruct (publishes_request c op payload now s1) as [[_ _ _ _ _ Ht] _]. rewrite <- Ht. by destruct (serveRequest _ _ _ _ _).
  - destruct (h_login (state c s)); [done|apply tcp_probed|done|done].
  - destruct (h_login (state c s)) as [|req|v6|] eqn:El; try done. destruct (waiting_core c s (LDialing v6) El ltac:(done)) as (x&Hx&Lx).
    destruct (dialed_shape c v6 probe r6 s x Hok Hx Lx) as (y&s1&Hd&Hc). rewrite <- (dl_tcp _ _ _ _ _ Hd).
    destruct Hc as [[-> _]|[Hq _]]; [apply tcp_handShake|apply Hq].
  - destruct (h_login (state c s)); [done..|]. unfold finishHandShake. set (s1 := setLogin c LIdle s).
    assert (s_tcp s1 = s_tcp s) as <- by by destruct s. set (s2 := registerSession _ c s1). assert (s_tcp s2 = s_tcp s1) as <-.
    { unfold s2, registerSession. destruct (negb _); [done|]. destruct (ed3kNodeID _ _); [case_bool_decide|]; by destruct s1. }
    match goal with |- s_tcp (endHandshake _ ?z) = _ => assert (quiet s2 z) as Hq by apply quiet_welcome; set (s3 := z) in * end.
    rewrite <- (q_tcp _ _ Hq). unfold endHandshake. case_bool_decide; [by destruct s3|done].
  - apply quiet_tick.
  - unfold endRun. rewrite tcp_release. by destruct s.
Qed.

Lemma served_limited s0 s :
  started s0 → served s0 s → 0 < tc_SoftFileLimit (s_tcp s0) →
  s_tcp s = s_tcp s0 ∧ limited (tc_SoftFileLimit (s_tcp s0)) (s_Storage s).
Proof.
  intros Hst Hr Hpos. induction Hr as [|s ev Hr [IHt IHl] Hp].
  - split; [done|]. intros k i Hi. rewrite (st_sessions _ Hst) in Hi. by rewrite lookup_empty in Hi.
  - pose proof (served_consistent s0 s Hst Hr) as Hok. split; [by rewrite tcp_step|]. apply limited_step; congruence || done.
Qed.

(** C9: the soft limit holds of every session at every moment. Whatever the clients of a
    server send, in whatever order their packets, logins and disconnects are handled, no
    logged-in session is a source of more files than the configured limit; and a file that a
    session already shares is let through whatever the count. *)
Theorem soft_limit s0 s c i :
  started s0 → served s0 s → 0 < tc_SoftFileLimit (s_tcp s0) → loggedIn s c i →
  eng_OfferedCount i (s_Storage s) <= tc_SoftFileLimit (s_tcp s0) ∧
  ∀ batch f, f ∈ batch → eng_HasOffered i [f] (s_Storage s) = [true] →
    f ∈ (withinSoftLimit batch i (tc_SoftFileLimit (s_tcp s)) s).1.
Proof.
  intros Hst Hr Hpos (x&Hx&Ox&<-)%loggedIn_core. pose proof (served_consistent s0 s Hst Hr) as Hok.
  destruct (served_limited s0 s Hst Hr Hpos) as [Ht Hl].
  assert (eng_sessions (s_Storage s) !! storeOf x = Some (k_info x)) as Hi by (apply (so_rows _ _ _ _ Hok); by exists c, x).
  split; [by apply (Hl _ _ Hi)|]. intros batch f Hf Hk. destruct (eng_session_id _ _ _ (so_engine _ _ _ _ Hok) Hi) as [Hp _].
  destruct (eng_offered (k_info x) (s_Storage s) (so_engine _ _ _ _ Hok)) as (known&Hkn); [unfold storeOf in Hp; lia| |].
  { intros i Hi'. unfold storeOf in Hi. congruence. }
  rewrite (proj1 (Hkn [f])) in Hk. injection Hk as Hk. unfold withinSoftLimit. destruct (_ || _); [done|]. destruct (_ <=? _); [done|].
  rewrite (proj1 (Hkn batch)), withKnown_map. destruct (admitOffers _ _ _) as [kept skipped] eqn:Ea.
  by apply (admit_spec known batch _ _ kept skipped Ea).
Qed.
End Offers.

(** ** A run *)

Section Run.
Import Instances.

(** Five files where three are allowed, and the first of them again. *)
Definition fiveFiles : list (bytes * bytes * Z) := map (λ k, (replicate 16 k, str "a file", 700)) [1; 2; 3; 4; 5].
Definition greedyEvents : list serverEvent :=
  [SvAccept 0 ip1 50000; SvPacket 0 OpLoginRequest (loginBytes alice 4662) 0; SvDialed 0 false false; SvRegister 0 1 None;
   SvPacket 0 OpOfferFiles (offerBytes fiveFiles) 2; SvPacket 0 OpOfferFiles (offerBytes (take 1 fiveFiles)) 3].
Definition greedyServer : DemoServer := (play greedyEvents demoServer).1.

Lemma soft_limit_witness :
  eng_OfferedCount (info 0 greedyServer) (s_Storage greedyServer) = 3 ∧
  eng_OfferedCount (info 0 greedyServer) (s_Storage greedyServer) <= tc_SoftFileLimit (s_tcp demoServer).
Proof.
  split; [by vm_compute|]. apply (soft_limit demoServer greedyServer 0 (info 0 greedyServer)).
  - apply demo_started.
  - apply play_served; [constructor|by vm_compute].
  - by vm_compute.
  - apply loggedIn_eval. by vm_compute.
Defined.
End Run.
