(* ===== verification/Paging.v ===== *)
(** * Paging of search results

    What a client that searches and keeps asking for more is sent: the rows of its search in
    order, [MaxSearchPage] to a page, up to the number the server keeps. *)

From S2P Require Import Prelude Buffer Types Address NetIP Packet Builders Framing LowID Text Search SearchParse.
From S2P Require Import FileMeta Servers MemEngine MemInv Engine MemAPI RuntimeState Runtime Demo Sessions.
Local Open Scope Z_scope.
#[local] Set Warnings "-clear-no-such-hyp".

(** ** The pages *)

Definition pageRows : nat := Z.to_nat MaxSearchPage.

(** The first [n] pages of some rows, each with its more-results flag. *)
Fixpoint cutPages (n : nat) (rows : list File) : list (list File * bool) :=
  match n with
  | O => []
  | S n => (take pageRows rows, bool_decide (drop pageRows rows ≠ [])) :: cutPages n (drop pageRows rows)
  end.

Lemma cutPages_concat n rows : concat (map fst (cutPages n rows)) = take (n * pageRows) rows.
Proof.
  revert rows. induction n as [|n IH]; intros rows; [done|]. cbn [cutPages map concat fst]. rewrite IH.
  rewrite take_drop_commute. change (S n * pageRows)%nat with (pageRows + n * pageRows)%nat.
  etransitivity; [|apply (take_drop pageRows)]. f_equal. rewrite take_take. f_equal; lia.
Qed.

Lemma cutPages_bound n rows : Forall (λ p, (length p.1 <= pageRows)%nat) (cutPages n rows).
Proof.
  revert rows. induction n as [|n IH]; intros rows; [constructor|]. cbn [cutPages]. constructor; [|apply IH].
  cbn [fst]. rewrite length_take. lia.
Qed.

Lemma cutPages_nil n : cutPages n [] = replicate n ([], false).
Proof. induction n as [|n IH]; [done|]. cbn [cutPages]. rewrite drop_nil, IH. by destruct pageRows. Qed.

Section Paging.
Context {E F P Q : Type} `{!Engine E} `{!ContentFilter F} `{!SpamObserver P Q} `{!Zlib} `{!Unicode} `{!Charmap} `{!MetaHash}.
Implicit Types (s : ServerRuntime E F P Q) (c : connID).

(** What goes out for a page. *)
Definition pagePackets (p : list File * bool) : list bytes :=
  match BuildSearchResultPacket p.1 p.2 with Ok b => [Bytes b] | _ => [] end.

(** A connection that is open, what it was sent and what is kept for it. *)
Record reader c s (sent : list bytes) (kept : list File) (expires : Z) : Prop := {
  rd_client : is_Some (s_clients s !! c);
  rd_open : ss_closed (client c s) = false;
  rd_sent : ss_sent (client c s) = sent;
  rd_kept : h_pendingResults (state c s) = if bool_decide (kept = []) then None else Some (mkPending kept expires);
}.

Lemma send_open p (cl : Session (handlerState Q)) :
  ss_closed cl = false →
  ss_sent (send p cl) = ss_sent cl ++ match p with Ok b => [Bytes b] | _ => [] end.
Proof. intros Ho. unfold send, writePacket. rewrite Ho. destruct p; [by destruct cl|by rewrite app_nil_r..]. Qed.

Lemma send_reader c p s sent kept expires :
  reader c s sent kept expires →
  reader c (sendClient c p s) (sent ++ match p with Ok b => [Bytes b] | _ => [] end) kept expires.
Proof.
  intros [Hc Ho Hs Hk]. unfold sendClient. split.
  - by apply onClient_some.
  - rewrite client_onClient by done. by rewrite (proj1 (send_fields p _)).
  - rewrite client_onClient by done. by rewrite send_open, Hs.
  - unfold state. rewrite client_onClient by done. destruct (send_fields p (client c s)) as (_&_&_&->). exact Hk.
Qed.

Lemma page_reader c files expires s sent :
  is_Some (s_clients s !! c) → ss_closed (client c s) = false → ss_sent (client c s) = sent →
  let rest := take (Z.to_nat (Z.max (tc_MoreResultsMax (s_tcp s)) 0)) (drop pageRows files) in
  reader c (sendSearchPageUntil c files expires s)
    (sent ++ pagePackets (take pageRows files, bool_decide (rest ≠ []))) rest expires.
Proof.
  intros Hc Ho Hs rest. unfold sendSearchPageUntil, sendSearchResult, keepPendingResults. fold pageRows. fold rest.
  set (s1 := onState c _ s). assert (reader c s1 sent rest expires) as Hr.
  { unfold s1, onState. split.
    - by apply onClient_some.
    - rewrite client_onClient by done. by destruct (client c s).
    - rewrite client_onClient by done. by destruct (client c s).
    - unfold state. rewrite client_onClient by done. by destruct (client c s) as [? ? ? ? ? []]. }
  assert ((0 <? length (pendingRows c s1)) = bool_decide (rest ≠ [])) as Hm.
  { unfold pendingRows. rewrite (rd_kept _ _ _ _ _ Hr). destruct rest; by vm_compute. }
  rewrite Hm. apply (send_reader c _ _ _ _ _ Hr).
Qed.

(** Asking again before the rows expire. *)
Lemma more_reader c now s sent kept expires :
  reader c s sent kept expires → now < expires → withholdFiles kept s = kept →
  (length kept <= Z.to_nat (Z.max (tc_MoreResultsMax (s_tcp s)) 0))%nat →
  reader c (handleQueryMoreResult c now s)
    (sent ++ pagePackets (take pageRows kept, bool_decide (drop pageRows kept ≠ []))) (drop pageRows kept) expires.
Proof.
  intros Hr Hn Hw Hl. unfold handleQueryMoreResult. set (s1 := dropExpiredResults c now s).
  assert (reader c s1 sent kept expires ∧ s_Content s1 = s_Content s ∧ s_tcp s1 = s_tcp s) as (Hr1&Hc1&Ht1).
  { split; [|by destruct s]. destruct Hr as [Hc Ho Hs Hk]. unfold s1, dropExpiredResults, onState. split.
    - by apply onClient_some.
    - rewrite client_onClient by done. by destruct (client c s).
    - rewrite client_onClient by done. by destruct (client c s).
    - unfold state in *. rewrite client_onClient by done. revert Hk. destruct (client c s) as [? ? ? ? ? []]; cbn. intros ->.
      case_bool_decide; [done|]. cbn. by rewrite (proj2 (Z.leb_gt expires now)). }
  rewrite (rd_kept _ _ _ _ _ Hr1). destruct (bool_decide_reflect (kept = [])) as [->|Hne].
  { rewrite drop_nil, take_nil. unfold sendSearchResult. apply (send_reader c _ s1 sent []). done. }
  cbn [ps_rows ps_expires]. rewrite bool_decide_eq_false_2 by done.
  assert (withholdFiles kept s1 = kept) as -> by (rewrite <- Hw at 2; unfold withholdFiles; by rewrite Hc1).
  pose proof (page_reader c kept expires s1 sent (rd_client _ _ _ _ _ Hr1) (rd_open _ _ _ _ _ Hr1) (rd_sent _ _ _ _ _ Hr1)) as Hp. cbn zeta in Hp. rewrite Ht1 in Hp.
  rewrite (take_ge (drop pageRows kept)) in Hp by (rewrite length_drop; lia). exact Hp.
Qed.

Lemma page_same c files expires s :
  s_Content (sendSearchPageUntil c files expires s) = s_Content s ∧ s_tcp (sendSearchPageUntil c files expires s) = s_tcp s.
Proof. by destruct s. Qed.

Lemma more_same c now s : s_Content (handleQueryMoreResult c now s) = s_Content s ∧ s_tcp (handleQueryMoreResult c now s) = s_tcp s.
Proof.
  unfold handleQueryMoreResult. set (s1 := dropExpiredResults c now s).
  assert (s_Content s1 = s_Content s ∧ s_tcp s1 = s_tcp s) as [<- <-] by by destruct s.
  assert (∀ s' files more, s_Content (sendSearchResult c files more s') = s_Content s' ∧ s_tcp (sendSearchResult c files more s') = s_tcp s') as Hs
    by (intros []; done).
  destruct (h_pendingResults _); [case_bool_decide; [apply Hs|apply page_same]|apply Hs].
Qed.

Lemma withhold_filter rows s : withholdFiles (withholdFiles rows s) s = withholdFiles rows s.
Proof.
  unfold withholdFiles. destruct (s_Content s) as [f|]; [|done]. rewrite list_filter_filter. apply list_filter_iff. tauto.
Qed.

Lemma withhold_part rows s n : withholdFiles rows s = rows → withholdFiles (take n rows) s = take n rows ∧ withholdFiles (drop n rows) s = drop n rows.
Proof.
  unfold withholdFiles. destruct (s_Content s) as [f|]; [|done]. intros Hf.
  assert (∀ x, x ∈ rows → Withheld (f_Hash x) (f_Name x) f = false) as Hall by (intros x Hx; rewrite <- Hf in Hx; by apply list_elem_of_filter in Hx as [? _]).
  split; apply filter_all; intros x Hx; apply Hall; rewrite <- (take_drop n rows); apply elem_of_app; [by left|by right].
Qed.

Lemma searchRows_withheld c expr s : withholdFiles (searchRows c expr s) s = searchRows c expr s.
Proof.
  unfold searchRows. destruct (queryBlocked expr s); [unfold withholdFiles; by destruct (s_Content s)|].
  destruct (FindRelated expr); [|apply withhold_filter]. unfold relatedSearch.
  destruct (negb _); [unfold withholdFiles; by destruct (s_Content s)|apply withhold_filter].
Qed.

(** ** Search and more *)

Lemma mores_reader c times s sent kept expires :
  reader c s sent kept expires → Forall (λ t, t < expires) times → withholdFiles kept s = kept →
  (length kept <= Z.to_nat (Z.max (tc_MoreResultsMax (s_tcp s)) 0))%nat →
  ss_sent (client c (fold_left (λ s t, handleQueryMoreResult c t s) times s)) =
    sent ++ flat_map pagePackets (cutPages (length times) kept).
Proof.
  revert s sent kept. induction times as [|t times IH]; intros s sent kept Hr Ht Hw Hl; cbn [fold_left length cutPages flat_map].
  { rewrite app_nil_r. apply Hr. }
  apply Forall_cons in Ht as [Ht Hts]. pose proof (more_reader c t s sent kept expires Hr Ht Hw Hl) as Hr1.
  destruct (more_same c t s) as [Hc1 Ht1]. rewrite (IH _ _ _ Hr1 Hts), app_assoc; [done| |rewrite Ht1, length_drop; lia].
  unfold withholdFiles. rewrite Hc1. by apply (withhold_part kept s pageRows).
Qed.

End Paging.

(** ** A run *)

Section Run.
Import Instances.

(** A catalogue of 600 files of one name, installed before the first login. *)
Definition manyFiles : list File :=
  map (λ k : nat, { emptyFile with f_Hash := le_split 16 (k + 1); f_Name := str "cabinet"; f_Size := 700 }) (seq 0 600).

Definition readerServer : DemoServer :=
  let s := (play [SvAccept 0 ip1 50000] demoServer).1 in
  { s with s_Storage := installFilesLocked manyFiles (s_Storage s) }.

(** A search for one word. *)
Definition wordQuery : bytes := [1] ++ le_split 2 7 ++ str "cabinet".

End Run.
