(* ===== verification/Routing.v ===== *)
(** * LowIDs and callbacks

    Who a LowID leads to. In a run where no login is refused after it was given an
    identifier and retried on the same connection, and where the pool does not run dry, the
    table of LowIDs names exactly the connections that hold one. Both provisos are needed:
    without them the code frees identifiers of others, see [lowid_eviction]. *)

From S2P Require Import Prelude Buffer Types Address NetIP Packet Builders Framing LowID Text Search SearchParse.
From S2P Require Import FileMeta Servers MemEngine MemInv Engine MemAPI RuntimeState Runtime Demo Sessions Offers.
Local Open Scope Z_scope.
#[local] Set Warnings "-clear-no-such-hyp".

Section Routing.
Context {E F P Q : Type} `{!Engine E} `{!EngineLaws E} `{!ContentFilter F} `{!SpamObserver P Q}.
Context `{!Zlib} `{!Unicode} `{!Charmap} `{!MetaHash}.
Implicit Types (s : ServerRuntime E F P Q) (c : connID).

(** ** Orderly runs *)

(** A connection does not ask for a second login after one that came as far as an
    identifier, and the pool has an identifier for every client that is dialled. *)
Definition orderly s (e : serverEvent) : Prop :=
  match e with
  | SvPacket c opcode _ _ => opcode = OpLoginRequest → ss_logged (client c s) = true ∨ ci_ID (info c s) = 0
  | SvDialed c _ _ => (allocateLowID c s).2 ≠ None
  | _ => True
  end.

Inductive servedOrderly (s0 : ServerRuntime E F P Q) : ServerRuntime E F P Q → Prop :=
| orderly_start : servedOrderly s0 s0
| orderly_step s e : servedOrderly s0 s → possible s e → orderly s e → servedOrderly s0 (serverStep s e).

Lemma orderly_served s0 s : servedOrderly s0 s → served s0 s.
Proof. induction 1; [constructor|by apply served_step]. Qed.

(** ** The invariant *)

(** The connection was given [id] and was not released. *)
Definition holdsID (x : core) (id : Z) : Prop :=
  k_released x = false ∧ k_hasLowID x = true ∧ ci_ID (k_info x) = id ∧ id ≠ 0 ∧ (k_login x = LIdle ∨ k_login x = LRegistering).

(** The two flags agree, a login that waits for another session's probe has asked for no
    identifier yet, and one that came through has one. *)
Definition labelled (x : core) : Prop :=
  k_hasLowID x = ci_LowID (k_info x) ∧ (∀ req, k_login x = LStale req → ci_ID (k_info x) = 0) ∧
  (k_logged x = true → k_hasLowID x = true → ci_ID (k_info x) ≠ 0).

Record routes (K : gmap connID core) (l : LowIDClients connID) : Prop := {
  rt_wf : wf_lowid l;
  rt_table : ∀ id c, l_clients l !! id = Some c ↔ ∃ x, K !! c = Some x ∧ holdsID x id;
  rt_flag : ∀ c x, K !! c = Some x → labelled x;
}.

Section Steps.
Context (K : gmap connID core) (l : LowIDClients connID) (HR : routes K l).

(** A connection changes and holds what it held. *)
Lemma routes_same c y :
  (∀ id, holdsID y id ↔ ∃ x, K !! c = Some x ∧ holdsID x id) → labelled y → routes (<[c := y]> K) l.
Proof.
  intros Hy Hf. split; [apply HR| |].
  - intros id d. rewrite (rt_table _ _ HR). destruct (decide (d = c)) as [->|Hne].
    + rewrite lookup_insert_eq, <- Hy. split; [intros ?; by exists y|]. by intros (x&[= <-]&?).
    + by rewrite lookup_insert_ne.
  - intros d x [[<- <-]|[_ Hx]]%lookup_insert_Some; [done|]. by apply (rt_flag _ _ HR d).
Qed.

Lemma routes_alloc c key parity l' y :
  (∀ x id, K !! c = Some x → ¬ holdsID x id) → addByKeyLocked key c parity l = (l', Some (ci_ID (k_info y))) →
  k_released y = false → k_hasLowID y = true → ci_LowID (k_info y) = true → k_login y = LIdle → routes (<[c := y]> K) l'.
Proof.
  intros Hx Ha Ry Hy Fy Ly. destruct (addByKeyLocked_spec key c parity l (rt_wf _ _ HR)) as [Hwf Hs].
  rewrite Ha in Hwf, Hs. cbn [fst] in Hwf. destruct Hs as (Hfree&Hcl&Hrange&_). pose proof (wl_range _ (rt_wf _ _ HR)) as (?&_).
  assert (holdsID y (ci_ID (k_info y))) as Hyy by (split_and!; try done; [lia|by left]). split; [done| |].
  - intros id d. rewrite Hcl, lookup_insert_Some, (rt_table _ _ HR). destruct (decide (d = c)) as [->|Hne].
    + rewrite lookup_insert_eq. split.
      * intros [[<- _]|(_&x&Hk&Hh)]; [by exists y|by destruct (Hx x id Hk)].
      * intros (x&[= <-]&Hh). left. split; [apply Hh|done].
    + rewrite lookup_insert_ne by done. split; [intros [[_ ->]|[_ ?]]; done|]. intros (x&Hk&Hh). right. split; [|by exists x].
      intros <-. assert (l_clients l !! ci_ID (k_info y) = Some d); [|congruence]. apply (rt_table _ _ HR). by exists x.
  - intros d x [[<- <-]|[_ Hk]]%lookup_insert_Some; [split_and!; [congruence..|]; intros; lia|]. by apply (rt_flag _ _ HR d).
Qed.

Lemma Remove_clients id (t : LowIDClients connID) : l_clients (Remove id t) = delete id (l_clients t).
Proof.
  unfold Remove. destruct (l_clients t !! id) eqn:E0; [|by rewrite delete_id]. destruct t; cbn. by case_match.
Qed.

Lemma routes_gone c x y :
  K !! c = Some x → k_released x = false → k_login x = LIdle → k_released y = true → labelled y →
  routes (<[c := y]> K) (if k_hasLowID x then Remove (ci_ID (k_info x)) l else l).
Proof.
  intros Hx Rx Lx Ry Fy. assert (∀ id, ¬ holdsID y id) as Hy by (intros id (?&_); congruence).
  assert (∀ id, holdsID x id → k_hasLowID x = true ∧ id = ci_ID (k_info x)) as Hxi by (intros id (_&?&?&_); done).
  assert (∀ d z, d ≠ c → K !! d = Some z → ∀ id, holdsID z id → k_hasLowID x = true → id ≠ ci_ID (k_info x)) as Hother.
  { intros d z Hne Hd id Hh Hb ->. destruct (decide (ci_ID (k_info x) = 0)) as [E0|N0]; [by destruct Hh as (_&_&_&?&_)|].
    assert (l_clients l !! ci_ID (k_info x) = Some d) as E1 by (apply (rt_table _ _ HR); by exists z).
    assert (l_clients l !! ci_ID (k_info x) = Some c) as E2; [|congruence].
    apply (rt_table _ _ HR). exists x. split; [done|]. split_and!; try done. by left. }
  split.
  - destruct (k_hasLowID x); [apply Remove_wf|]; apply HR.
  - intros id d. assert (l_clients (if k_hasLowID x then Remove (ci_ID (k_info x)) l else l) !! id = Some d ↔
      l_clients l !! id = Some d ∧ (k_hasLowID x = true → id ≠ ci_ID (k_info x))) as ->.
    { destruct (k_hasLowID x); [|naive_solver]. rewrite Remove_clients, lookup_delete_Some. naive_solver. }
    rewrite (rt_table _ _ HR). destruct (decide (d = c)) as [->|Hne].
    + rewrite lookup_insert_eq. split; [|intros (z&[= <-]&Hh); by destruct (Hy id)].
      intros ((z&Hz&Hh)&Hn). assert (z = x) as -> by congruence. destruct (Hxi id Hh) as [Hb ->]. by destruct (Hn Hb).
    + rewrite lookup_insert_ne by done. split; [by intros [? _]|]. intros (z&Hz&Hh). split; [by exists z|]. by eapply Hother.
  - intros d z [[<- <-]|[_ Hd]]%lookup_insert_Some; [done|]. by apply (rt_flag _ _ HR d).
Qed.
End Steps.

Definition routed s : Prop := routes (cores s) (s_LowIDs s).

Lemma routed_quiet s s' : quiet s s' → routed s → routed s'.
Proof. intros Hq. unfold routed. by rewrite (q_cores _ _ Hq), (q_lowids _ _ Hq). Qed.

Lemma routed_moves c x y s s' :
  routed s → cores s !! c = Some x → moves c y s s' → s_LowIDs s' = s_LowIDs s →
  (∀ id, holdsID y id ↔ holdsID x id) → labelled y → routed s'.
Proof.
  intros HR Hx [Hc _ _ _] Hl Hh Hf. unfold routed. rewrite Hc, Hl. apply routes_same; [done| |done].
  intros id. rewrite Hh, Hx. split; [intros ?; by exists x|]. by intros (z&[= ->]&?).
Qed.

Lemma routed_release c s x :
  routed s → cores s !! c = Some x → k_login x = LIdle → routed (releaseSession c s).
Proof.
  intros HR Hx Lx. pose proof (core_client c s x Hx) as Ec. destruct (h_released (state c s)) eqn:Hr; [unfold releaseSession; by rewrite Hr|].
  destruct (release_effect c s Hr) as [Hc _ _ _ _ Hl _]. unfold routed.
  rewrite Hc, (alter_insert_core _ c releasedCore x Hx), Hl, (core_info c s x Hx).
  assert (h_hasLowID (state c s) = k_hasLowID x) as -> by exact (f_equal k_hasLowID Ec).
  apply routes_gone; [done|done|exact (eq_trans (eq_sym (f_equal k_released Ec)) Hr)|done|by destruct x|].
  destruct (rt_flag _ _ HR c x Hx) as (?&_&?). destruct x. split_and!; [done| |done]. cbn in *. congruence.
Qed.

Lemma routed_takeover hash old reason s :
  consistent s → routed s → sessionByHash hash s = Some old → routed (releaseSession old (closeClient old reason s)).
Proof.
  intros Hok HR Hs. destruct (indexed_session hash old s Hok Hs) as (x&Hx&_&_&Lx). pose proof (quiet_close old reason s) as Hq.
  apply (routed_release old _ x); [by eapply routed_quiet|by rewrite (q_cores _ _ Hq)|done].
Qed.

(** A connection that is waiting, or whose identifier is zero, holds nothing. *)
Lemma holds_none x id : ci_ID (k_info x) = 0 ∨ (∃ v6, k_login x = LDialing v6) ∨ (∃ req, k_login x = LStale req) → ¬ holdsID x id.
Proof. intros Hx (_&_&<-&Hz&Hl). destruct Hx as [?|[[v6 El]|[req El]]]; [done|..]; rewrite El in Hl; by destruct Hl. Qed.

Lemma accept_moves c req s x :
  cores s !! c = Some x → s_LowIDs (loginAccept c req s) = s_LowIDs s ∧
  ∃ y v6, moves c y s (loginAccept c req s) ∧ k_login y = LDialing v6 ∧ k_hasLowID y = k_hasLowID x ∧
    ci_LowID (k_info y) = ci_LowID (k_info x) ∧ k_logged y = k_logged x.
Proof.
  intros Hx. unfold loginAccept. destruct (if ipv6Enabled s then _ else _) as [v6 capable]. split; [by destruct s|].
  match goal with |- context [onInfo c ?f s] => pose proof (moves_onInfo c f s x Hx) as H1m; set (s1 := onInfo c f s) in * end.
  match goal with |- context [onState c ?f s1] => assert (quiet s1 (onState c f s1)) as H2m by (apply quiet_onState; by intros []) end.
  pose proof (moves_quiet _ _ _ _ _ H1m H2m) as H3m.
  eexists _, v6. split; [eapply moves_trans; [exact H3m|apply moves_setLogin; by eapply moves_at]|]. by destruct x as [? ? ? ? ? []].
Qed.

Lemma routed_accept c req s x :
  routed s → cores s !! c = Some x → k_logged x = false → (∀ id, ¬ holdsID x id) → routed (loginAccept c req s).
Proof.
  intros HR Hx Gx Hn. destruct (accept_moves c req s x Hx) as (Hl&y&v6&M&Ly&E1&E2&E3). eapply routed_moves; [done|done|exact M|done| |].
  - intros id. split; intros Hh; [|by destruct (Hn id)]. by destruct (holds_none y id ltac:(naive_solver)).
  - split_and!; [rewrite E1, E2; by apply (rt_flag _ _ HR c)|congruence..].
Qed.

Lemma routed_setLogin c p s x :
  routed s → cores s !! c = Some x → (∀ id, holdsID { x with k_login := p } id ↔ holdsID x id) →
  (∀ req, p = LStale req → ci_ID (k_info x) = 0) → routed (setLogin c p s).
Proof.
  intros HR Hx Hh Hp. eapply routed_moves; [done|done|by apply moves_setLogin|apply onState_fixed|done|].
  destruct (rt_flag _ _ HR c x Hx) as (?&_&?). destruct x. by split_and!.
Qed.

Lemma routed_probed c req s x :
  consistent s → routed s → cores s !! c = Some x → k_logged x = false → (∀ id, ¬ holdsID x id) →
  (∀ id, ¬ holdsID { x with k_login := LIdle } id) → length (lr_Hash req) = 16%nat → routed (loginProbed c req s).
Proof.
  intros Hok HR Hx Gx Hn Hn' Hl. unfold loginProbed. assert (routed (setLogin c LIdle s)) as HR1
    by (eapply routed_setLogin; [done|done| |done]; intros id; split; intros Hh; [by destruct (Hn' id)|by destruct (Hn id)]).
  pose proof (moves_at _ _ _ _ (moves_setLogin c LIdle s x Hx)) as Hx1. set (s1 := setLogin c LIdle s) in *.
  assert (s_Storage s1 = s_Storage s ∧ s_sessionsByHash s1 = s_sessionsByHash s ∧ s_handshaking s1 = s_handshaking s) as (Es&Ei&Eh)
    by (unfold s1; by destruct s).
  rewrite Es. destruct (eng_IsConnected _ (s_Storage s)) eqn:Ec; cbn [negb]; [|by apply (routed_accept c req s1 _ HR1 Hx1); [destruct x|]].
  pose proof (connected_held _ s Hok Hl Ec) as Hh. unfold hashHeldLocally in Hh |- *. rewrite Ei, Eh, Hh. cbn [negb].
  eapply routed_quiet; [apply refuse_quiet|done].
Qed.

Lemma routed_login c payload now s x :
  consistent s → routed s → cores s !! c = Some x → k_login x = LIdle → k_ended x = false →
  (ss_logged (client c s) = true ∨ ci_ID (info c s) = 0) → routed (loginRequest c payload now s).
Proof.
  intros Hok HR Hx Lx Ex Ho. unfold loginRequest. destruct (ParseLoginRequest _) as [b [req| |]] eqn:Ep; cbn [snd]; [|done..].
  apply login_hash in Ep. destruct (ss_logged (client c s)) eqn:Eg; [eapply routed_quiet; [apply quiet_close|done]|].
  destruct Ho as [?|Hz]; [done|]. rewrite (core_info c s x Hx) in Hz.
  assert (∀ id, ¬ holdsID x id) as Hn by (intros id; apply holds_none; by left). pose proof (core_client c s x Hx) as Ec.
  assert (k_logged x = false) as Gx by by rewrite <- Ec.
  destruct (match s_Content s with Some _ => _ | None => _ end).
  { eapply routed_quiet; [|exact HR]. etransitivity; [|apply quiet_close]. etransitivity; [|apply quiet_message]. by destruct s. }
  destruct (_ && _); [|by eapply routed_accept].
  assert (pendingLogin x) as Px.
  { pose proof (so_stage _ _ _ _ Hok c x Hx) as Hs. unfold stage_ok in Hs. rewrite Lx in Hs.
    split_and!; [done|rewrite Hs; done|done|congruence]. }
  destruct (replace_consistent c (lr_Hash req) s x Hok Hx Px) as [Hok1 Hx1].
  assert (routed (replaceSameIPSession c (lr_Hash req) s)) as HR1.
  { unfold replaceSameIPSession. destruct (sessionByHash (lr_Hash req) s) as [old|] eqn:Eo; [|done]. destruct (h_peerIP _); [|done].
    destruct (_ || _); [done|by eapply routed_takeover]. }
  assert (∀ p id, ¬ holdsID { x with k_login := p } id) as Hn' by (intros p id; apply holds_none; left; by destruct x).
  set (s1 := replaceSameIPSession _ _ s) in *. destruct (dualStackHandoverFrom _ _ _ _); [by eapply routed_accept|].
  destruct (sessionByHash (lr_Hash req) s1) as [old|]; [|by eapply routed_probed].
  case_bool_decide; [by eapply routed_probed|]. pose proof (quiet_status old now s1) as Hq.
  eapply routed_setLogin; [by eapply routed_quiet|by rewrite (q_cores _ _ Hq)| |done].
  intros id. split; intros Hh; [by destruct (Hn' (LStale req) id)|by destruct (Hn id)].
Qed.

(** *** The handshake *)

Lemma routed_connect c s x :
  routed s → cores s !! c = Some x → k_login x = LIdle → (k_hasLowID x = true → ci_ID (k_info x) ≠ 0) → routed (connectSession c s).
Proof.
  intros HR Hx Lx Hid. unfold connectSession. set (s1 := beginHandshake _ s).
  assert (cores s1 = cores s ∧ s_LowIDs s1 = s_LowIDs s) as [Ec1 El1].
  { unfold s1, beginHandshake, cores. case_bool_decide; [by destruct s|done]. }
  destruct (eng_Connect _ _) as [e [k|err|]].
  - set (s2 := { s1 with s_Storage := e }). assert (cores s2 = cores s1 ∧ s_LowIDs s2 = s_LowIDs s1) as [Ec2 El2] by (unfold s2; by destruct s1).
    assert (routed s2) as HR2 by (unfold routed; by rewrite Ec2, El2, Ec1, El1).
    assert (cores s2 !! c = Some x) as Hx2 by by rewrite Ec2, Ec1.
    eapply routed_moves; [exact HR2|exact Hx2|apply (moves_logged c k s2 x Hx2)|by destruct s2| |].
    + intros id. unfold holdsID. cbn. destruct x as [? ? ? ? ? []]; cbn in *. subst. naive_solver.
    + destruct (rt_flag _ _ HR c x Hx) as (?&_&_). by destruct x as [? ? ? ? ? []].
  - set (s2 := closeClient c _ _). assert (routed s2) as HR2.
    { eapply routed_quiet; [apply quiet_close|]. unfold routed in *. rewrite <- Ec1, <- El1 in HR. by destruct s1. }
    unfold endHandshake. case_bool_decide; [|done]. unfold routed in *. by destruct s2.
  - unfold routed in *. rewrite <- Ec1, <- El1 in HR. by destruct s1.
Qed.

Lemma routed_handShake c s x :
  consistent s → routed s → cores s !! c = Some x → pendingLogin x → k_login x = LIdle → length (hashOf x) = 16%nat →
  eng_fresh (s_Storage s) → (k_hasLowID x = true → ci_ID (k_info x) ≠ 0) → routed (handShake c s).
Proof.
  intros Hok HR Hx Px Lx Hl Hf Hid. unfold handShake. pose proof (handover_consistent c s x Hok Hx Px Hl Hf) as Hh.
  assert (routed (completeDualStackHandover c s).1) as HR1.
  { unfold completeDualStackHandover. destruct (_ || _); [done|]. set (s1 := match dualStackHandoverFrom _ _ _ _ with Some _ => _ | None => _ end).
    assert (routed s1) as Hs1.
    { unfold s1. destruct (dualStackHandoverFrom c (ci_Hash (info c s)) (ci_Port (info c s)) s) as [old|] eqn:Eo; [|done].
      unfold dualStackHandoverFrom in Eo. destruct (h_peerIP _); [|done]. destruct (sessionByHash (ci_Hash (info c s)) s) as [o|] eqn:Es; [|done].
      destruct (_ || _) in Eo; [done|]. injection Eo as <-. by eapply routed_takeover. }
    destruct (eng_IsConnected _ (s_Storage s1)); [|done]. eapply routed_quiet; [apply refuse_quiet|done]. }
  destruct (completeDualStackHandover c s) as [s1 []]; cbn [fst] in HR1; [|done]. destruct Hh as [_ Hh]. destruct (Hh eq_refl) as (Hx1&_).
  by eapply routed_connect.
Qed.

Lemma routed_dialed c v6 probe reachable6 s x :
  consistent s → routed s → cores s !! c = Some x → k_login x = LDialing v6 → eng_fresh (s_Storage s) →
  (allocateLowID c s).2 ≠ None → routed (loginDialed c v6 probe reachable6 s).
Proof.
  intros Hok HR Hx Lx Hf Ha. destruct (dialed_shape c v6 probe reachable6 s x Hok Hx Lx) as (y&s1&Hd&Hc).
  destruct (dialed_ready c v6 s x y s1 Hok Hx Lx Hd) as (Hok1&Hy&Py&Hl&Es). destruct Hd as [M [_ Ly] _ _ Hb]. pose proof Py as (Gy&Ry&_).
  assert (labelled y) as Hly by (split_and!; congruence).
  assert (∀ id, ¬ holdsID x id) as Hn by (intros id; apply holds_none; right; left; by exists v6).
  destruct Hc as [[-> Hc]|[_ Hc]]; [|by rewrite Hc in Ha].
  assert (k_hasLowID y = true → ci_ID (k_info y) ≠ 0) as Hid.
  { destruct Hc as [[? _]|[_ Hal]]; [congruence|]. intros _. unfold allocateLowID, AddByAddress in Hal. pose proof (wl_range _ (rt_wf _ _ HR)) as (?&_).
    destruct (IPv6Bytes _); match type of Hal with addByKeyLocked ?k _ ?p _ = _ => destruct (addByKeyLocked_spec k c p (s_LowIDs s) (rt_wf _ _ HR)) as [_ Hs] end;
      rewrite Hal in Hs; destruct Hs as (_&_&?&_); lia. }
  eapply routed_handShake; [done| |done..|by rewrite Es|done]. destruct Hc as [[Hno El]|[Hyes Hal]].
  - eapply routed_moves; [done|done|exact M|done| |done]. intros id. split; intros Hh; [|by destruct (Hn id)].
    destruct Hh as (_&?&_). congruence.
  - unfold routed. rewrite (mv_cores _ _ _ _ M). unfold allocateLowID, AddByAddress in Hal. 
    destruct (IPv6Bytes _); (eapply routes_alloc; [exact HR|intros z id Hz; assert (z = x) as -> by congruence; apply Hn|exact Hal|done|done|congruence|done]).
Qed.

Lemma routed_finish c now token s x :
  routed s → cores s !! c = Some x → k_login x = LRegistering → routed (finishHandShake c now token s).
Proof.
  intros HR Hx Lx. unfold finishHandShake. assert (routed (setLogin c LIdle s)) as HR1.
  { eapply routed_setLogin; [done|done| |done]. intros id. unfold holdsID. destruct x; cbn in *. subst. naive_solver. }
  set (s1 := setLogin c LIdle s) in *. set (s2 := registerSession _ c s1). assert (routed s2) as HR2.
  { unfold s2, registerSession. destruct (negb _); [done|]. unfold routed in *.
    destruct (ed3kNodeID _ _); [case_bool_decide|]; unfold cores in *; by destruct s1. }
  match goal with |- routed (endHandshake _ ?z) => assert (quiet s2 z) as Hq by apply quiet_welcome; set (s3 := z) in * end.
  pose proof (routed_quiet _ _ Hq HR2) as HR3. unfold endHandshake. case_bool_decide; [|done]. unfold routed in *. by destruct s3.
Qed.

Lemma routed_step s ev : consistent s → routed s → possible s ev → orderly s ev → routed (serverStep s ev).
Proof.
  intros Hok HR Hp Ho. destruct ev as [c ip port|c op payload now|c|c probe r6|c now token|c now|c reason]; cbn [possible serverStep orderly] in *.
  - unfold routed. replace (cores _) with (<[c := coreOf (newTCPClient (Q := Q) ip port)]> (cores s)) by (unfold cores; rewrite <- fmap_insert; by destruct s).
    replace (s_LowIDs _) with (s_LowIDs s) by by destruct s. apply routes_same; [done| |done]. intros id. split.
    + intros Hh. destruct (holds_none (coreOf (newTCPClient (Q := Q) ip port)) id); [by left|done].
    + intros (x&Hx&_). unfold cores in Hx. by rewrite lookup_fmap, Hp in Hx.
  - destruct Hp as ([cl Hcl]&Hlo&He). assert (cores s !! c = Some (coreOf cl)) as Hx by (unfold cores; by rewrite lookup_fmap, Hcl).
    unfold state, client in Hlo, He. rewrite Hcl in Hlo, He. unfold serve. destruct (Z.eqb_spec op OpLoginRequest) as [Eo|_].
    { eapply routed_login; [done|done|exact Hx|done|done|by apply Ho]. }
    destruct (op =? OpDisconnect); [eapply routed_quiet; [apply quiet_close|done]|].
    pose proof (quiet_gate c op s) as Hq. destruct (gate c op s) as [s1 []]; cbn [fst] in *; [|by eapply routed_quiet].
    destruct (publishes_request c op payload now s1) as [Hpq _]. pose proof (routed_quiet _ _ Hpq (routed_quiet _ _ Hq HR)) as HR1.
    unfold routed in *. by destruct (serveRequest _ _ _ _ _).
  - destruct (h_login (state c s)) as [|req|v6|] eqn:El; try done. destruct (waiting_core c s (LStale req) El ltac:(done)) as (x&Hx&Lx).
    pose proof (so_stage _ _ _ _ Hok c x Hx) as Hs. unfold stage_ok in Hs. rewrite Lx in Hs. destruct Hs as (?&_&_&Hl).
    assert (ci_ID (k_info x) = 0) as Hz by (by eapply (proj1 (proj2 (rt_flag _ _ HR c x Hx)))).
    eapply routed_probed; [done|done|exact Hx|done|intros id; apply holds_none; by left| |done]. intros id. apply holds_none. left. by destruct x.
  - destruct (h_login (state c s)) as [|req|v6|] eqn:El; try done. destruct (waiting_core c s (LDialing v6) El ltac:(done)) as (x&Hx&Lx).
    by eapply routed_dialed.
  - destruct (h_login (state c s)) as [|req|v6|] eqn:El; try done. destruct (waiting_core c s LRegistering El ltac:(done)) as (x&Hx&Lx).
    by eapply routed_finish.
  - eapply routed_quiet; [apply quiet_tick|done].
  - destruct Hp as ([cl Hcl]&Hlo&He). assert (cores s !! c = Some (coreOf cl)) as Hx by (unfold cores; by rewrite lookup_fmap, Hcl).
    pose proof (moves_end c reason s _ Hx) as M. unfold endRun. set (s2 := onState c _ _) in *. eapply routed_release; [|by eapply moves_at|].
    + eapply routed_moves; [done|done|exact M|unfold s2; by destruct s|done|]. exact (rt_flag _ _ HR c _ Hx).
    + unfold state, client in Hlo. by rewrite Hcl in Hlo.
Qed.

Lemma served_routed s0 s : started s0 → servedOrderly s0 s → routed s.
Proof.
  intros Hst Hr. induction Hr as [|s e Hr IH Hp Ho].
  - destruct (st_lowids _ Hst) as [Hwf He]. unfold routed, cores. rewrite (st_clients _ Hst), fmap_empty. split; [done| |done].
    intros id c. rewrite He, lookup_empty. split; [done|]. by intros (x&?&_).
  - apply routed_step; try done. by eapply served_consistent, orderly_served.
Qed.

(** ** What the table promises *)

Lemma owner_found s0 s : started s0 → servedOrderly s0 s → ∀ c i, loggedIn s c i → ci_LowID i = true → GetClient (ci_ID i) (s_LowIDs s) = Some c.
Proof.
  intros Hst Hr. pose proof (served_routed s0 s Hst Hr) as HR. pose proof (served_consistent s0 s Hst (orderly_served s0 s Hr)) as Hok.
  intros c i (x&Hx&Ox&<-)%loggedIn_core Hlow. apply (rt_table _ _ HR). exists x. split; [done|].
  destruct (rt_flag _ _ HR c x Hx) as (Hf&_&Hid). pose proof Ox as [Gx Rx]. rewrite <- Hf in Hlow. split_and!; try done; [by apply Hid|].
  by apply (online_stage _ _ _ _ Hok c x Hx).
Qed.

Lemma found_owner s0 s : started s0 → servedOrderly s0 s → ∀ id c, GetClient id (s_LowIDs s) = Some c →
  ∃ cl, s_clients s !! c = Some cl ∧ h_released (ss_app cl) = false ∧ ci_ID (h_info (ss_app cl)) = id ∧ ci_LowID (h_info (ss_app cl)) = true.
Proof.
  intros Hst Hr id c Hg. pose proof (served_routed s0 s Hst Hr) as HR. apply (rt_table _ _ HR) in Hg as (x&Hx&Rx&Hb&Hi&_).
  unfold cores in Hx. rewrite lookup_fmap in Hx. destruct (s_clients s !! c) as [cl|] eqn:E0; [|done]. injection Hx as <-.
  exists cl. split_and!; try done. rewrite <- Hb. symmetry. apply (rt_flag _ _ HR c (coreOf cl)). unfold cores. by rewrite lookup_fmap, E0.
Qed.

(** C15: in an orderly run every LowID leads to its owner. The table has an entry for every
    logged-in session with a LowID, which is the session's connection; every entry belongs
    to a connection that was not released and carries that identifier; and no two sessions
    have the same LowID. *)
Theorem lowids_exact s0 s :
  started s0 → servedOrderly s0 s →
  (∀ c i, loggedIn s c i → ci_LowID i = true → GetClient (ci_ID i) (s_LowIDs s) = Some c) ∧
  (∀ id c, GetClient id (s_LowIDs s) = Some c →
    ∃ cl, s_clients s !! c = Some cl ∧ h_released (ss_app cl) = false ∧ ci_ID (h_info (ss_app cl)) = id ∧
      ci_LowID (h_info (ss_app cl)) = true) ∧
  (∀ c d i j, loggedIn s c i → loggedIn s d j → ci_LowID i = true → ci_LowID j = true → ci_ID i = ci_ID j → c = d).
Proof.
  intros Hst Hr. pose proof (owner_found s0 s Hst Hr) as Hin. split_and!; [exact Hin| |].
  - intros id c (cl&?&?&?&?)%(found_owner s0 s Hst Hr). by exists cl.
  - intros c d i j Hi Hj Li Lj Eid. apply (Hin c i Hi) in Li. apply (Hin d j Hj) in Lj. congruence.
Qed.

(** What [handleCallbackRequest] does with the entry it finds. *)
Lemma callback_delivered c payload lowID t s b :
  (GetUInt32LE (NewBufferFromBytes payload)).2 = Ok lowID → GetClient lowID (s_LowIDs s) = Some t →
  ss_logged (client t s) = true → ss_closed (client t s) = false → ci_LowID (info c s) = false → ci_IPv4 (info c s) ≠ 0 →
  BuildCallbackRequestedPacket (ci_IPv4 (info c s)) (ci_Port (info c s)) (ci_CryptOptions (info c s)) (ci_Hash (info c s)) = Ok b →
  handleCallbackRequest c payload s = onClient t (λ cl, (writePacket b cl).1) s.
Proof.
  intros Hp Ht Hl Hc Hlow Hv4 Hb. unfold handleCallbackRequest. rewrite Hp, Ht, Hl, Hlow. cbn [negb andb].
  destruct (Z.eqb_spec (ci_IPv4 (info c s)) 0); [done|]. cbn [negb]. by rewrite Hb; unfold tryClient; rewrite Hc.
Qed.

Lemma onClient_other c f s d : d ≠ c → s_clients (onClient c f s) !! d = s_clients s !! d.
Proof. intros Hne. destruct s; cbn. by rewrite lookup_alter_ne. Qed.

Lemma try_other t p s d : d ≠ t → s_clients (tryClient t p s).1 !! d = s_clients s !! d.
Proof. intros Hne. destruct p; [by apply onClient_other|done..]. Qed.

Lemma callback_others c payload lowID s d :
  (GetUInt32LE (NewBufferFromBytes payload)).2 = Ok lowID → d ≠ c →
  s_clients (handleCallbackRequest c payload s) !! d ≠ s_clients s !! d →
  GetClient lowID (s_LowIDs s) = Some d ∧ ss_logged (client d s) = true.
Proof.
  intros Hp Hne Hd. unfold handleCallbackRequest in Hd. rewrite Hp in Hd.
  assert (∀ s', s_clients (sendCallbackFailed c s') !! d = s_clients s' !! d) as Hf by (intros; by apply onClient_other).
  destruct (GetClient lowID (s_LowIDs s)) as [t|]; [|by destruct (Hd (Hf s))].
  destruct (ss_logged (client t s)) eqn:El; [|by destruct (Hd (Hf s))]. cbn [negb] in Hd. destruct (decide (d = t)) as [->|Ht]; [done|].
  exfalso. apply Hd. clear Hd. destruct (_ && _).
  1: match goal with |- context [tryClient t ?p s] => pose proof (try_other t p s d Ht) as E0; destruct (tryClient t p s) as [s' []] end; cbn [fst] in E0; [done|by rewrite Hf].
  destruct (_ && _); [|done].
  match goal with |- context [tryClient t ?p s] => pose proof (try_other t p s d Ht) as E0; destruct (tryClient t p s) as [s' []] end; cbn [fst] in E0; [done|by rewrite Hf].
Qed.

End Routing.

(** ** On the concrete server *)

Section Run.
Import Instances.

Definition orderlyb (s : DemoServer) (e : serverEvent) : bool :=
  match e with
  | SvPacket c opcode _ _ => negb (opcode =? OpLoginRequest) || ss_logged (client c s) || (ci_ID (info c s) =? 0)
  | SvDialed c _ _ => match (allocateLowID c s).2 with Some _ => true | None => false end
  | _ => true
  end.

Fixpoint playOrderly (es : list serverEvent) (s : DemoServer) : DemoServer * bool :=
  match es with
  | [] => (s, true)
  | e :: es => let '(s', ok) := playOrderly es (serverStep s e) in (s', possibleb s e && orderlyb s e && ok)
  end.

Lemma play_orderly es s0 s : servedOrderly s0 s → (playOrderly es s).2 = true → servedOrderly s0 (playOrderly es s).1.
Proof.
  revert s. induction es as [|e es IH]; intros s Hs; [done|]. cbn [playOrderly]. specialize (IH (serverStep s e)).
  destruct (playOrderly es (serverStep s e)) as [s' ok]. cbn [fst snd] in *. intros [[Hp Ho]%andb_true_iff Hok]%andb_true_iff. apply IH; [|done].
  apply orderly_step; [done|by apply possibleb_spec|]. destruct e; cbn [orderlyb orderly] in *; try done.
  - intros ->. apply orb_true_iff in Ho as [Ho|Ho]; [left|right; by apply Z.eqb_eq]. by rewrite Z.eqb_refl in Ho.
  - by destruct (allocateLowID _ _).2.
Qed.

(** Alice has a HighID, Bob a LowID. *)
Definition orderlyEvents : list serverEvent :=
  [SvAccept 0 ip1 50000; SvPacket 0 OpLoginRequest (loginBytes alice 4662) 0; SvDialed 0 false false; SvRegister 0 1 None;
   SvAccept 1 ip2 50001; SvPacket 1 OpLoginRequest (loginBytes bob 4662) 3; SvDialed 1 true false; SvRegister 1 4 None].

Definition orderlyServed : DemoServer := (playOrderly orderlyEvents demoServer).1.

Lemma orderly_served_demo : servedOrderly demoServer orderlyServed.
Proof. apply play_orderly; [constructor|by vm_compute]. Qed.

Lemma lowids_exact_witness : ci_ID (info 1 orderlyServed) = 34 ∧ GetClient 34 (s_LowIDs orderlyServed) = Some 1%nat.
Proof.
  split; [by vm_compute|].
  apply (proj1 (lowids_exact demoServer orderlyServed demo_started orderly_served_demo) 1%nat (info 1 orderlyServed)); [|by vm_compute].
  apply loggedIn_eval. by vm_compute.
Defined.


(** A server whose pool has one identifier. Bob logs in behind a firewall and has it. A
    stranger asks for the same identifier, finds the pool empty, and leaves; then they log in
    again. *)
Definition smallServer : DemoServer := { demoServer with s_LowIDs := NewLowIDClients true 1 1 }.

Definition loginClaiming (hash : bytes) (id port : Z) : bytes := hash ++ le_split 4 id ++ le_split 2 port ++ le_split 4 0.
Definition ip3 : bytes := [192; 0; 2; 77].

Definition evictionEvents : list serverEvent :=
  [SvAccept 0 ip2 50001; SvPacket 0 OpLoginRequest (loginBytes bob 4662) 0; SvDialed 0 true false; SvRegister 0 1 None;
   SvAccept 1 ip3 50002; SvPacket 1 OpLoginRequest (loginClaiming alice 1 4662) 2; SvDialed 1 true false; SvEnd 1 "read-loop-ended"%string;
   SvAccept 2 ip3 50003; SvPacket 2 OpLoginRequest (loginBytes alice 4662) 3; SvDialed 2 true false; SvRegister 2 4 None].

Definition evicted : DemoServer := (play evictionEvents smallServer).1.

(** C37: the provisos of an orderly run are needed. When the pool is exhausted the session's
    identifier is still the one its client claimed, and releasing the session frees that
    one, whoever has it: after the run above two logged-in sessions have the LowID 1, and
    callbacks to Bob go to the other. *)
Theorem lowid_eviction :
  started smallServer ∧ served smallServer evicted ∧
  loggedIn evicted 0 (info 0 evicted) ∧ ci_Hash (info 0 evicted) = bob ∧ ci_LowID (info 0 evicted) = true ∧ ci_ID (info 0 evicted) = 1 ∧
  loggedIn evicted 2 (info 2 evicted) ∧ ci_Hash (info 2 evicted) = alice ∧ ci_LowID (info 2 evicted) = true ∧ ci_ID (info 2 evicted) = 1 ∧
  GetClient 1 (s_LowIDs evicted) = Some 2%nat.
Proof.
  split_and!.
  - split; try done. apply wf_new.
  - apply play_served; [constructor|by vm_compute].
  - apply loggedIn_eval. by vm_compute.
  - by vm_compute.
  - by vm_compute.
  - by vm_compute.
  - apply loggedIn_eval. by vm_compute.
  - by vm_compute.
  - by vm_compute.
  - by vm_compute.
  - by vm_compute.
Qed.

(** Two connections log in with the same hash at once. The second is refused after it was
    given an identifier; a further login in the same segment is served, since the read loop
    ends only with the next read, and is given another. Then everybody leaves. *)
Definition leakEvents : list serverEvent :=
  [SvAccept 0 ip2 50001; SvAccept 1 ip3 50002;
   SvPacket 0 OpLoginRequest (loginBytes bob 4662) 0; SvPacket 1 OpLoginRequest (loginBytes bob 4662) 0;
   SvDialed 0 true false; SvRegister 0 1 None; SvDialed 1 true false;
   SvPacket 1 OpLoginRequest (loginBytes alice 4662) 2; SvDialed 1 true false; SvRegister 1 3 None;
   SvEnd 1 "read-loop-ended"%string; SvEnd 0 "read-loop-ended"%string].

Definition leaked : DemoServer := (play leakEvents demoServer).1.

(** C38: an identifier can be lost. After the run above both connections are released, and the
    table still has an entry, for a connection that is gone. *)
Theorem lowid_leak :
  served demoServer leaked ∧ h_released (state 0 leaked) = true ∧ h_released (state 1 leaked) = true ∧
  dom (s_clients leaked) = {[0; 1]}%nat ∧ GetClient 37 (s_LowIDs leaked) = Some 1%nat.
Proof.
  split_and!; [apply play_served; [constructor|by vm_compute]|by vm_compute..].
Qed.
End Run.
