(* ===== verification/NatTraversal.v ===== *)
(** * The NAT rendezvous: [ed2k/nattraversal.go], [ed2k/natwake.go] and the sockets of
    [ed2k/udpserver.go]

    Two clients behind firewalls register their UDP endpoints and are introduced to each
    other. The handler is used with and without a server behind it, so what it asks of the
    server (who is logged in, from where, and the wake-up) is a record of hooks on a state
    of its own.

    A datagram is handled at one instant and in one piece. Times are in nanoseconds. *)

From S2P Require Import Prelude Address NetIP.
Local Open Scope Z_scope.

(** ** Constants *)

Definition PrNat : Z := 0xf1.
Definition OpNatSync : Z := 0xe1.
Definition OpNatPing : Z := 0xe2.
Definition OpNatRegisterEx : Z := 0xe3.
Definition OpNatRegister : Z := 0xe4.
Definition OpNatFailed : Z := 0xe5.
Definition OpNatKeepAlive : Z := 0xe6.
Definition OpNatSyncEx : Z := 0xe7.
Definition OpNatSync2 : Z := 0xe9.
Definition OpNatRegisterIPv6 : Z := 0xec.
Definition OpNatSyncIPv6 : Z := 0xed.

Definition Millisecond : Z := 1000000.
Definition Second : Z := 1000 * Millisecond.

Definition defaultNATRegistryTTL : Z := 90 * Second.
Definition natWakeMaxPending : Z := 4096.
Definition natWakeMaxWaiters : Z := 4.
Definition natWakeTimeout : Z := 3 * Second.
Definition natWakeIPv6Grace : Z := 500 * Millisecond.
Definition NatWakeIPv4 : Z := 0x01.
Definition NatWakeIPv6 : Z := 0x02.
Definition natFailReasonNotRegistered : Z := 0x01.
Definition natFailReasonNoCommonFamily : Z := 0x02.
Definition natFailReasonRendezvousRestricted : Z := 0x03.

(** ** Sockets *)

Record UDPAddr := mkUDPAddr { ua_IP : bytes; ua_Port : Z }.
#[export] Instance UDPAddr_eq_dec : EqDecision UDPAddr.
Proof. solve_decision. Defined.

(** A listener, told from another on the same port by its number. *)
Record listener := mkListener { li_id : nat; li_port : Z }.
#[export] Instance listener_eq_dec : EqDecision listener.
Proof. solve_decision. Defined.

Record udpReplyConn := mkReplyConn { rc_UDPConn : listener; rc_src : option bytes; rc_src4 : option bytes }.

(** What reaches the socket: the listener, the source address asked for and the datagram. *)
Record datagram := mkDatagram { dg_listener : listener; dg_from : option bytes; dg_to : UDPAddr; dg_data : bytes }.

Definition nativeIPv6 (ip : option bytes) : option bytes :=
  match ip with
  | Some ip =>
      match To4 ip, To16 ip with
      | None, Some _ => if IsUnspecified ip then None else Some ip
      | _, _ => None
      end
  | None => None
  end.

Definition plainIPv4 (ip : option bytes) : option bytes :=
  match ip ≫= To4 with
  | Some v4 => if IsUnspecified v4 then None else Some v4
  | None => None
  end.

Definition newUDPReplyConn (conn : listener) (dst src4 : option bytes) : udpReplyConn :=
  mkReplyConn conn (match nativeIPv6 dst with Some ip => Some ip | None => plainIPv4 dst end) src4.

Definition baseReplyConn (conn : udpReplyConn) : udpReplyConn := newUDPReplyConn (rc_UDPConn conn) None (rc_src4 conn).

(** [writeFrom] and [writeFromIPv4], on Linux and on a kernel that takes the source asked
    for. *)
Definition writeFrom (c : udpReplyConn) (b : bytes) (addr : UDPAddr) (src : option bytes) : datagram :=
  let from :=
    match To4 (ua_IP addr) with
    | Some _ => match plainIPv4 src with Some v4 => Some v4 | None => rc_src4 c end
    | None => match nativeIPv6 (Some (ua_IP addr)) with Some _ => nativeIPv6 src | None => None end
    end in
  mkDatagram (rc_UDPConn c) from addr b.

Definition WriteToUDP (c : udpReplyConn) (b : bytes) (addr : UDPAddr) : datagram := writeFrom c b addr (rc_src c).

Definition remoteIsIPv6 (remote : UDPAddr) : bool := bool_decide (is_Some (IPv6Bytes (ua_IP remote))).

(** ** The registry's data *)

Record natEndpoint := mkEndpoint { ep_ip : bytes; ep_port : Z }.
#[export] Instance natEndpoint_eq_dec : EqDecision natEndpoint.
Proof. solve_decision. Defined.
#[export] Program Instance natEndpoint_countable : Countable natEndpoint :=
  inj_countable' (λ e, (ep_ip e, ep_port e)) (λ p, mkEndpoint p.1 p.2) _.
Next Obligation. by intros []. Qed.

Record natSlot := mkSlot { sl_ep : natEndpoint; sl_sock : Z; sl_seen : Z }.
Record natStoredEntry := mkStored { se_v4 : natSlot; se_v6 : natSlot; se_version : Z }.
Record natCandidate := mkCandidate { cd_addr : UDPAddr; cd_lastSeen : Z; cd_sock : Z }.
Record natClientEntry := mkClientEntry {
  ce_hash : bytes; ce_v4 : option natCandidate; ce_v6 : option natCandidate; ce_version : Z }.

Record natOutbound := mkOutbound {
  ob_to : UDPAddr; ob_packet : bytes; ob_via : option udpReplyConn; ob_forward : bool; ob_sock : Z }.

Record natWakeWaiter := mkWaiter { ww_hash : bytes; ww_connAck : bytes; ww_remote : UDPAddr; ww_conn : udpReplyConn }.

(** [wp_id] is the pointer the timer compares, [wp_deadline] the time it is set for. *)
Record natWakePending := mkWakePending {
  wp_id : nat; wp_families : Z; wp_waiters : list natWakeWaiter; wp_deadline : Z; wp_graced : bool }.

Record NATTraversalHandler := mkNAT {
  nt_ttl : Z;
  nt_epoch : Z;
  nt_entries : gmap bytes natStoredEntry;
  nt_byAddr : gmap natEndpoint bytes;
  nt_announceIPv4 : Z;
  nt_announceIPv6 : bytes;
  nt_announcePort : Z;
  nt_announcePortByLocal : gmap Z Z;
  nt_ipv6Enabled : bool;
  nt_pending : gmap bytes natWakePending;
  nt_wakes : nat;
  nt_socks : list udpReplyConn;
  nt_sockByPort : gmap Z Z;
}.

(** What the runtime supplies: membership, liveness, session addresses and the wake. *)
Record natHooks (R : Type) := mkHooks {
  hk_member : option (bytes → R → bool);
  hk_touch : option (bytes → R → R);
  hk_addrs : option (bytes → R → option bytes * option bytes * bool);
  hk_wake : option (bytes → Z → R → R * bool);
}.
Arguments mkHooks {R} _ _ _ _.
Arguments hk_member {R} _.
Arguments hk_touch {R} _.
Arguments hk_addrs {R} _.
Arguments hk_wake {R} _.

Definition emptySlot : natSlot := mkSlot (mkEndpoint (replicate 16 0) 0) 0 0.
Definition emptyEntry : natStoredEntry := mkStored emptySlot emptySlot 0.
Definition noClient : natClientEntry := mkClientEntry (replicate 16 0) None None 0.

Definition NewNATTraversalHandler (registrationTTL now : Z) : NATTraversalHandler :=
  mkNAT (if registrationTTL <=? 0 then defaultNATRegistryTTL else registrationTTL) now
    ∅ ∅ 0 (replicate 16 0) 0 ∅ false ∅ 0 [] ∅.

(** ** Packets *)

Definition be_split (k : nat) (z : Z) : bytes := rev (le_split k z).

Definition encodeNATPacket (opcode : Z) (payload : bytes) : bytes :=
  PrNat :: le_split 4 (u32 (length payload + 1)) ++ opcode :: payload.

Definition decodeNATPacket (raw : bytes) : option (Z * bytes) :=
  if (length raw <? 6) || negb (nth 0 raw 0 =? PrNat) then None
  else
    let sizeWithOpcode := le_combine (take 4 (drop 1 raw)) in
    if sizeWithOpcode =? 0 then None
    else
      let packetEnd := sizeWithOpcode + 5 in
      if length raw <? packetEnd then None
      else Some (nth 5 raw 0, take (Z.to_nat (packetEnd - 6)) (drop 6 raw)).

Definition ipv4ToUint32 (ip : bytes) : Z := match To4 ip with Some v4 => le_combine (rev v4) | None => 0 end.

Definition buildNATSyncPacket (peer : UDPAddr) (peerHash connAck : bytes) (peerVersion receiverVersion : Z) : bytes :=
  let ex := 0 <? receiverVersion in
  encodeNATPacket (if ex then OpNatSyncEx else OpNatSync)
    (be_split 4 (ipv4ToUint32 (ua_IP peer)) ++ be_split 2 (u16 (ua_Port peer)) ++ peerHash ++ connAck ++
     (if ex then [peerVersion] else [])).

Definition buildNATSyncPacketV6 (peer : UDPAddr) (peerHash connAck : bytes) (peerVersion : Z) : bytes :=
  encodeNATPacket OpNatSyncIPv6
    (default (replicate 16 0) (IPv6Bytes (ua_IP peer)) ++ be_split 2 (u16 (ua_Port peer)) ++ peerHash ++ connAck ++ [peerVersion]).

Definition answerTo (remote : UDPAddr) (packet : bytes) : natOutbound := mkOutbound remote packet None false 0.

Definition natFailed (remote : UDPAddr) (targetHash : bytes) (reason : Z) : natOutbound :=
  answerTo remote (encodeNATPacket OpNatFailed (reason :: targetHash)).

(** ** The registry *)

Definition natEndpointOf (addr : UDPAddr) : natEndpoint :=
  mkEndpoint (default (replicate 16 0) (To16 (ua_IP addr))) (u16 (ua_Port addr)).

Definition udpAddr (ep : natEndpoint) : UDPAddr := mkUDPAddr (default (ep_ip ep) (To4 (ep_ip ep))) (ep_port ep).

Definition slot (e : natStoredEntry) (v6 : bool) : natSlot := if v6 then se_v6 e else se_v4 e.
Definition setSlot (e : natStoredEntry) (v6 : bool) (s : natSlot) : natStoredEntry :=
  if v6 then { e with se_v6 := s } else { e with se_v4 := s }.

Definition tick (now : Z) (h : NATTraversalHandler) : Z :=
  let t := u32 ((now - nt_epoch h) `quot` Millisecond) in if t =? 0 then 1 else t.

Definition natAge (now seen : Z) : Z := u32 (now - seen) * Millisecond.

Definition liveSlot (s : natSlot) (nowTick : Z) (h : NATTraversalHandler) : bool :=
  negb (sl_seen s =? 0) && (natAge nowTick (sl_seen s) <? nt_ttl h).

Definition candidate (s : natSlot) (nowTick now : Z) (h : NATTraversalHandler) : option natCandidate :=
  if liveSlot s nowTick h then Some (mkCandidate (udpAddr (sl_ep s)) (now - natAge nowTick (sl_seen s)) (sl_sock s)) else None.

Definition snapshot (e : natStoredEntry) (hash : bytes) (nowTick now : Z) (h : NATTraversalHandler) : natClientEntry :=
  mkClientEntry hash (candidate (se_v4 e) nowTick now h) (candidate (se_v6 e) nowTick now h) (se_version e).

Definition getEntry (hash : bytes) (now : Z) (h : NATTraversalHandler) : option natClientEntry :=
  match nt_entries h !! hash with
  | None => None
  | Some v =>
      let snap := snapshot v hash (tick now h) now h in
      match ce_v4 snap, ce_v6 snap with None, None => None | _, _ => Some snap end
  end.

Definition familySlot (entry : natClientEntry) (remote : UDPAddr) : option natCandidate :=
  if remoteIsIPv6 remote then ce_v6 entry else ce_v4 entry.

(** [h.byAddr[ep] == hash]; a missing entry reads as the hash of zeros. *)
Definition ownedBy (ep : natEndpoint) (hash : bytes) (h : NATTraversalHandler) : bool :=
  bool_decide (default (replicate 16 0) (nt_byAddr h !! ep) = hash).

(** The entry is stored when it has a slot left and deleted when not. *)
Definition putEntry (hash : bytes) (e : natStoredEntry) (h : NATTraversalHandler) : NATTraversalHandler :=
  { h with nt_entries :=
      if (sl_seen (se_v4 e) =? 0) && (sl_seen (se_v6 e) =? 0) then delete hash (nt_entries h) else <[hash := e]> (nt_entries h) }.

(** Returns the entry, which the caller writes back. *)
Definition setSlotLocked (hash : bytes) (entry : natStoredEntry) (v6 : bool) (ep : natEndpoint) (sock now : Z)
    (h : NATTraversalHandler) : NATTraversalHandler * natStoredEntry :=
  let s := slot entry v6 in
  let h := if negb (sl_seen s =? 0) && negb (bool_decide (sl_ep s = ep)) && ownedBy (sl_ep s) hash h
           then { h with nt_byAddr := delete (sl_ep s) (nt_byAddr h) } else h in
  let h :=
    match nt_byAddr h !! ep with
    | Some owner =>
        if bool_decide (owner = hash) then h
        else match nt_entries h !! owner with
             | Some other =>
                 let other := if bool_decide (sl_ep (slot other v6) = ep) then setSlot other v6 emptySlot else other in
                 putEntry owner other h
             | None => h
             end
    | None => h
    end in
  ({ h with nt_byAddr := <[ep := hash]> (nt_byAddr h) }, setSlot entry v6 (mkSlot ep sock now)).

Definition clearSlotLocked (hash : bytes) (entry : natStoredEntry) (v6 : bool) (h : NATTraversalHandler) :
    NATTraversalHandler * natStoredEntry :=
  let s := slot entry v6 in
  (if ownedBy (sl_ep s) hash h then { h with nt_byAddr := delete (sl_ep s) (nt_byAddr h) } else h, setSlot entry v6 emptySlot).

Definition upsert (hash : bytes) (remote : UDPAddr) (version sock now : Z) (h : NATTraversalHandler) : NATTraversalHandler :=
  let entry := default emptyEntry (nt_entries h !! hash) in
  let entry := if 0 <? version then { entry with se_version := version } else entry in
  let '(h, entry) := setSlotLocked hash entry (remoteIsIPv6 remote) (natEndpointOf remote) sock (tick now h) h in
  { h with nt_entries := <[hash := entry]> (nt_entries h) }.

Definition touchByAddr (remote : UDPAddr) (sock now : Z) (h : NATTraversalHandler) : NATTraversalHandler * option bytes :=
  let ep := natEndpointOf remote in
  match nt_byAddr h !! ep with
  | None => (h, None)
  | Some owner =>
      match nt_entries h !! owner with
      | None => (h, None)
      | Some entry =>
          let s := slot entry (remoteIsIPv6 remote) in
          let t := tick now h in
          if negb (liveSlot s t h) || negb (bool_decide (sl_ep s = ep)) then (h, None)
          else
            let s := { s with sl_seen := t; sl_sock := sock } in
            ({ h with nt_entries := <[owner := setSlot entry (remoteIsIPv6 remote) s]> (nt_entries h) }, Some owner)
      end
  end.

(** One entry of the sweep. *)
Definition cleanupEntry (k : bytes) (nowTick : Z) (h : NATTraversalHandler) : NATTraversalHandler :=
  match nt_entries h !! k with
  | None => h
  | Some entry =>
      let '(h, entry) := if negb (sl_seen (se_v4 entry) =? 0) && negb (liveSlot (se_v4 entry) nowTick h)
                         then clearSlotLocked k entry false h else (h, entry) in
      let '(h, entry) := if negb (sl_seen (se_v6 entry) =? 0) && negb (liveSlot (se_v6 entry) nowTick h)
                         then clearSlotLocked k entry true h else (h, entry) in
      putEntry k entry h
  end.

Definition cleanup (now : Z) (h : NATTraversalHandler) : NATTraversalHandler :=
  let t := tick now h in foldl (λ h k, cleanupEntry k t h) h (map_to_list (nt_entries h)).*1.

(** The number of the socket a datagram came in on; it is learned on first sight. *)
Definition socketIndex (conn : udpReplyConn) (localPort : Z) (h : NATTraversalHandler) : NATTraversalHandler * Z :=
  if localPort =? 0 then (h, 0)
  else match nt_sockByPort h !! localPort with
       | Some idx =>
           let i := Z.to_nat (idx - 1) in
           if bool_decide (rc_UDPConn <$> nt_socks h !! i = Some (rc_UDPConn conn)) then (h, idx)
           else ({ h with nt_socks := <[i := baseReplyConn conn]> (nt_socks h) }, idx)
       | None =>
           if 255 <=? length (nt_socks h) then (h, 0)
           else
             let idx := u8 (length (nt_socks h) + 1) in
             ({ h with nt_socks := nt_socks h ++ [baseReplyConn conn]; nt_sockByPort := <[localPort := idx]> (nt_sockByPort h) }, idx)
       end.

Definition socketConn (sock : Z) (h : NATTraversalHandler) : option udpReplyConn :=
  if sock =? 0 then None else nt_socks h !! Z.to_nat (sock - 1).

Definition announcedIPv6 (h : NATTraversalHandler) : option bytes :=
  if bool_decide (nt_announceIPv6 h = replicate 16 0) then None else Some (nt_announceIPv6 h).

(** ** Configuration *)

(** [ParseIP] gives sixteen bytes; an IPv6 address has no place in the IPv4 field. *)
Definition SetRegisterEndpoint (ip : bytes) (port : Z) (h : NATTraversalHandler) : NATTraversalHandler :=
  { h with nt_announceIPv4 := match ParseIP ip with Some parsed => ipv4ToUint32 parsed | None => 0 end; nt_announcePort := port }.

Definition ConfigureRegisterEndpointFromConfig (dynIP address : bytes) (port : Z) (h : NATTraversalHandler) : NATTraversalHandler :=
  SetRegisterEndpoint (if bool_decide (dynIP = []) then address else dynIP) port h.

Definition SetRegisterEndpointForLocalPort (localPort announcePort : Z) (h : NATTraversalHandler) : NATTraversalHandler :=
  if (localPort =? 0) || (announcePort =? 0) then h
  else { h with nt_announcePortByLocal := <[localPort := announcePort]> (nt_announcePortByLocal h) }.

Definition SetRegisterEndpointV6 (ipv6 : bytes) (h : NATTraversalHandler) : NATTraversalHandler :=
  { h with nt_announceIPv6 := if bool_decide (length ipv6 = 16%nat) then ipv6 else replicate 16 0 }.

Definition SetIPv6Enabled (enabled : bool) (h : NATTraversalHandler) : NATTraversalHandler := { h with nt_ipv6Enabled := enabled }.

(** ** Requests *)

(** [pairOutbound]: the answer to [src] and the forward to [dst], or nothing. *)
Definition pairOutbound (src dst : natClientEntry) (connAck : bytes) (v6Enabled : bool) : list natOutbound :=
  match (if v6Enabled then ce_v6 src else None), ce_v6 dst with
  | Some s6, Some d6 =>
      [answerTo (cd_addr s6) (buildNATSyncPacketV6 (cd_addr d6) (ce_hash dst) connAck (ce_version dst));
       mkOutbound (cd_addr d6) (buildNATSyncPacketV6 (cd_addr s6) (ce_hash src) connAck (ce_version src)) None true (cd_sock d6)]
  | _, _ =>
      match ce_v4 src, ce_v4 dst with
      | Some s4, Some d4 =>
          [answerTo (cd_addr s4) (buildNATSyncPacket (cd_addr d4) (ce_hash dst) connAck (ce_version dst) (ce_version src));
           mkOutbound (cd_addr d4) (buildNATSyncPacket (cd_addr s4) (ce_hash src) connAck (ce_version src) (ce_version dst)) None true
             (cd_sock d4)]
      | _, _ => []
      end
  end.

Definition sameIPv6Prefix64 (a b : bytes) : bool :=
  match To16 a, To16 b, To4 a, To4 b with
  | Some a16, Some b16, None, None => EqualIP (take 8 a16) (take 8 b16)
  | _, _, _, _ => false
  end.

(** [p.addWaiter]: a requester that repeats its SYNC2 takes its own place. *)
Fixpoint replaceWaiter (w : natWakeWaiter) (ws : list natWakeWaiter) : option (list natWakeWaiter) :=
  match ws with
  | [] => None
  | x :: ws =>
      if bool_decide (ww_hash x = ww_hash w) then Some (w :: ws)
      else match replaceWaiter w ws with Some ws => Some (x :: ws) | None => None end
  end.

Definition addWaiter (w : natWakeWaiter) (p : natWakePending) : natWakePending * bool :=
  match replaceWaiter w (wp_waiters p) with
  | Some ws => ({ p with wp_waiters := ws }, true)
  | None =>
      if natWakeMaxWaiters <=? length (wp_waiters p) then (p, false)
      else ({ p with wp_waiters := wp_waiters p ++ [w] }, true)
  end.

Section Handler.
Context {R : Type} (hooks : natHooks R).
Implicit Types (h : NATTraversalHandler) (r : R).

Definition registerAllowed (hash : bytes) (remote : UDPAddr) (now : Z) h r : bool :=
  match hk_addrs hooks with
  | None =>
      match getEntry hash now h with
      | Some entry =>
          match familySlot entry remote with
          | Some c => EqualIP (ua_IP (cd_addr c)) (ua_IP remote)
          | None => true
          end
      | None => true
      end
  | Some lookup =>
      let '(v4, v6, local) := lookup hash r in
      if negb local then false
      else if remoteIsIPv6 remote then match v6 with Some v6 => sameIPv6Prefix64 v6 (ua_IP remote) | None => false end
      else match v4 with Some v4 => EqualIP v4 (ua_IP remote) | None => false end
  end.

Definition touchSession (hash : bytes) r : R := match hk_touch hooks with Some fn => fn hash r | None => r end.

(** The answers to the requesters of a finished wait. *)
Definition wakeOutbound (hash : bytes) (p : natWakePending) (now : Z) h : list natOutbound :=
  let dst := getEntry hash now h in
  flat_map (λ w,
    let pair := match getEntry (ww_hash w) now h, dst with
                | Some src, Some dst => pairOutbound src dst (ww_connAck w) (nt_ipv6Enabled h)
                | _, _ => []
                end in
    match pair with
    | [] => [{ natFailed (ww_remote w) hash natFailReasonNotRegistered with ob_via := Some (ww_conn w) }]
    | first :: rest => { first with ob_via := Some (ww_conn w) } :: rest
    end) (wp_waiters p).

Definition completeWake (hash : bytes) (remote : UDPAddr) (now : Z) h : NATTraversalHandler * list natOutbound :=
  let family := if remoteIsIPv6 remote then NatWakeIPv6 else NatWakeIPv4 in
  match nt_pending h !! hash with
  | None => (h, [])
  | Some p =>
      if Z.land (wp_families p) family =? 0 then (h, [])
      else if (family =? NatWakeIPv4) && negb (Z.land (wp_families p) NatWakeIPv6 =? 0) then
        (if wp_graced p then h
         else { h with nt_pending := <[hash := { p with wp_graced := true; wp_deadline := now + natWakeIPv6Grace }]> (nt_pending h) }, [])
      else
        let h := { h with nt_pending := delete hash (nt_pending h) } in (h, wakeOutbound hash p now h)
  end.

(** True when the SYNC2 now waits for the target. The target's session is written to with
    the lock released; nothing else runs meanwhile. *)
Definition wakeTarget (src : natClientEntry) (dstHash connAck : bytes) (remote : UDPAddr) (conn : udpReplyConn) (now : Z) h r :
    NATTraversalHandler * R * bool :=
  match hk_wake hooks with
  | None => (h, r, false)
  | Some wake =>
      if bool_decide (ce_hash src = dstHash) then (h, r, false)
      else
        let families := Z.lor (if bool_decide (is_Some (ce_v4 src)) then NatWakeIPv4 else 0)
                    (if bool_decide (is_Some (ce_v6 src)) && nt_ipv6Enabled h then NatWakeIPv6 else 0) in
        let families := match hk_addrs hooks with
                        | Some lookup => match lookup dstHash r with (_, None, true) => Z.ldiff families NatWakeIPv6 | _ => families end
                        | None => families
                        end in
        if families =? 0 then (h, r, false)
        else if match hk_member hooks with Some member => negb (member (ce_hash src) r) | None => false end then (h, r, false)
        else
          let waiter := mkWaiter (ce_hash src) connAck remote conn in
          match nt_pending h !! dstHash with
          | Some p =>
              let '(p, joined) := addWaiter waiter p in
              let extra := Z.ldiff families (wp_families p) in
              let h := { h with nt_pending := <[dstHash := { p with wp_families := Z.lor (wp_families p) families }]> (nt_pending h) } in
              if negb joined then (h, r, false)
              else (h, (if extra =? 0 then r else (wake dstHash extra r).1), true)
          | None =>
              if natWakeMaxPending <=? size (nt_pending h) then (h, r, false)
              else
                let '(r, woken) := wake dstHash families r in
                if negb woken then (h, r, false)
                else
                  let p := mkWakePending (nt_wakes h) families [waiter] (now + natWakeTimeout) false in
                  ({ h with nt_pending := <[dstHash := p]> (nt_pending h); nt_wakes := S (nt_wakes h) }, r, true)
          end
  end.

Definition handleRegister (remote : UDPAddr) (payload : bytes) (localPort sock : Z) (isEx : bool) (now : Z) h r :
    NATTraversalHandler * list natOutbound :=
  if length payload <? 16 then (h, [])
  else
    let hash := take 16 payload in
    let version := if isEx && (17 <=? length payload) then nth 16 payload 0 else 0 in
    if negb (registerAllowed hash remote now h r) then (h, [])
    else
      let h := upsert hash remote version sock now h in
      let '(h, paired) := completeWake hash remote now h in
      let port := match nt_announcePortByLocal h !! localPort with
                  | Some p => if p =? 0 then nt_announcePort h else p
                  | None => nt_announcePort h
                  end in
      let ack := if nt_ipv6Enabled h && remoteIsIPv6 remote
                 then encodeNATPacket OpNatRegisterIPv6 (be_split 2 port ++ nt_announceIPv6 h)
                 else encodeNATPacket OpNatRegister (be_split 2 port ++ be_split 4 (nt_announceIPv4 h)) in
      (h, answerTo remote ack :: paired).

(** The requester's entry: a SYNC2 registers the family it came over when it has none. *)
Definition syncSource (srcHash : bytes) (remote : UDPAddr) (sock now : Z) h r : NATTraversalHandler * natClientEntry :=
  let src := getEntry srcHash now h in
  if match src with Some src => bool_decide (is_Some (familySlot src remote)) | None => false end
  then (h, default noClient src)
  else if registerAllowed srcHash remote now h r then
    let h := upsert srcHash remote 0 sock now h in (h, default noClient (getEntry srcHash now h))
  else (h, default noClient src).

Definition handleSync2 (remote : UDPAddr) (payload : bytes) (conn : udpReplyConn) (sock now : Z) h r :
    NATTraversalHandler * R * list natOutbound :=
  if length payload <? 36 then (h, r, [])
  else
    let srcHash := take 16 payload in
    let connAck := take 4 (drop 16 payload) in
    let dstHash := take 16 (drop 20 payload) in
    let '(h, src) := syncSource srcHash remote sock now h r in
    match getEntry dstHash now h with
    | None =>
        let '(h, r, waits) := wakeTarget src dstHash connAck remote conn now h r in
        (h, r, if waits then [] else [natFailed remote dstHash natFailReasonNotRegistered])
    | Some dst =>
        if match hk_member hooks with Some member => negb (member srcHash r) || negb (member dstHash r) | None => false end then
          (h, r, [natFailed remote dstHash natFailReasonRendezvousRestricted])
        else
          match pairOutbound src dst connAck (nt_ipv6Enabled h) with
          | [] =>
              let '(h, r, waits) := wakeTarget src dstHash connAck remote conn now h r in
              (h, r, if waits then [] else [natFailed remote dstHash natFailReasonNoCommonFamily])
          | out => (h, r, out)
          end
    end.

Definition handleKeepAlive (remote : UDPAddr) (sock now : Z) h r : NATTraversalHandler * R * list natOutbound :=
  match touchByAddr remote sock now h with
  | (h, Some hash) => (h, touchSession hash r, [answerTo remote (encodeNATPacket OpNatPing [])])
  | (h, None) => (h, r, [])
  end.

Definition processPacketFrom (data : bytes) (remote : UDPAddr) (localPort : Z) (conn : udpReplyConn) (now : Z) h r :
    NATTraversalHandler * R * list natOutbound :=
  if bool_decide (data = []) then (h, r, [])
  else
    let '(h, sock) := socketIndex conn localPort h in
    if bool_decide (length data = 1%nat) then handleKeepAlive remote sock now h r
    else
      match decodeNATPacket data with
      | None => (h, r, [])
      | Some (opcode, payload) =>
          if remoteIsIPv6 remote && negb (nt_ipv6Enabled h) then (h, r, [])
          else if (opcode =? OpNatRegister) || (opcode =? OpNatRegisterEx) then
            let '(h, out) := handleRegister remote payload localPort sock (opcode =? OpNatRegisterEx) now h r in (h, r, out)
          else if opcode =? OpNatKeepAlive then handleKeepAlive remote sock now h r
          else if opcode =? OpNatSync2 then handleSync2 remote payload conn sock now h r
          else (h, r, [])
      end.

Definition sameEndpoint (a b : UDPAddr) : bool := EqualIP (ua_IP a) (ua_IP b) && (ua_Port a =? ua_Port b).

(** [send]; [conn] and [remote] are missing when a wait ran out. *)
Definition sendOutbound (conn fallback : option udpReplyConn) (remote : option UDPAddr) h (outs : list natOutbound) : list datagram :=
  omap (λ out,
    match ob_via out with
    | Some via => Some (WriteToUDP via (ob_packet out) (ob_to out))
    | None =>
        if negb (ob_forward out) || match remote with Some remote => sameEndpoint (ob_to out) remote | None => false end
        then (λ c, WriteToUDP c (ob_packet out) (ob_to out)) <$> conn
        else
          let c := match socketConn (ob_sock out) h with Some c => Some c | None => fallback end in
          (λ c, writeFrom c (ob_packet out) (ob_to out) (announcedIPv6 h)) <$> c
    end) outs.

Definition HandlePacket (data : bytes) (remote : UDPAddr) (conn : udpReplyConn) (now : Z) h r :
    NATTraversalHandler * R * list datagram :=
  let localPort := if 0 <? li_port (rc_UDPConn conn) then u16 (li_port (rc_UDPConn conn)) else 0 in
  let '(h, r, outs) := processPacketFrom data remote localPort conn now h r in
  (h, r, sendOutbound (Some conn) (Some conn) (Some remote) h outs).

(** The timer of the wait [id] fires. *)
Definition expireWake (hash : bytes) (id : nat) (now : Z) h : NATTraversalHandler * list datagram :=
  match nt_pending h !! hash with
  | Some p =>
      if bool_decide (wp_id p = id) then
        let h := { h with nt_pending := delete hash (nt_pending h) } in
        (h, sendOutbound None (ww_conn <$> head (wp_waiters p)) None h (wakeOutbound hash p now h))
      else (h, [])
  | None => (h, [])
  end.
End Handler.
