(* ===== verification/NatRegistry.v ===== *)
(** * The NAT registry and its index

    The registry keeps, per user hash, an endpoint of each address family, and an index
    from endpoints back to hashes. The index is exact after every operation, so that a
    keepalive, which carries no hash, finds by one lookup what a scan of the registry
    would. *)

From S2P Require Import Prelude Address NatTraversal.
Local Open Scope Z_scope.
#[local] Set Warnings "-clear-no-such-hyp".

(** ** Families *)

Definition isV6 (ep : natEndpoint) : bool := bool_decide (To4 (ep_ip ep) = None).

(** The address of a datagram that arrived. *)
Definition validAddr (a : UDPAddr) : Prop := length (ua_IP a) = 4%nat ∨ length (ua_IP a) = 16%nat.

Lemma To4_mapped ip : length ip = 4%nat → To4 (v4InV6Prefix ++ ip) = Some ip.
Proof.
  intros Hl. unfold To4. rewrite length_app, Hl. rewrite bool_decide_false by done.
  by rewrite bool_decide_true by (split; [done|]; by rewrite take_app_le).
Qed.

Lemma family_endpoint a : validAddr a → isV6 (natEndpointOf a) = remoteIsIPv6 a.
Proof.
  intros Hv. unfold isV6, natEndpointOf, remoteIsIPv6, IPv6Bytes, To16. cbn [ep_ip].
  destruct (bool_decide_reflect (length (ua_IP a) = 4%nat)) as [H4|H4].
  - cbn [from_option id]. rewrite To4_mapped by done. unfold To4. rewrite (bool_decide_true (length _ = 4%nat)) by done.
    by rewrite !bool_decide_false by (try done; by intros [? ?]).
  - destruct Hv as [?|H16]; [done|]. rewrite (bool_decide_true (length _ = 16%nat)) by done. cbn [from_option id].
    destruct (To4 (ua_IP a)); [by rewrite !bool_decide_false by (try done; by intros [? ?])|].
    by rewrite !bool_decide_true by (try done; by eexists).
Qed.

(** ** The registry as a table of endpoints *)

Definition slotOf (E : gmap bytes natStoredEntry) (hash : bytes) (v6 : bool) : option natSlot :=
  e ← E !! hash; if sl_seen (slot e v6) =? 0 then None else Some (slot e v6).

Record registered (E : gmap bytes natStoredEntry) (A : gmap natEndpoint bytes) : Prop := {
  rg_index : ∀ ep hash, A !! ep = Some hash ↔ ∃ s, slotOf E hash (isV6 ep) = Some s ∧ sl_ep s = ep;
  rg_family : ∀ hash v6 s, slotOf E hash v6 = Some s → isV6 (sl_ep s) = v6;
  rg_full : ∀ hash e, E !! hash = Some e → ∃ f, sl_seen (slot e f) ≠ 0;
}.

Definition registry_ok (h : NATTraversalHandler) : Prop := registered (nt_entries h) (nt_byAddr h).

Lemma slot_set e v6 s f : slot (setSlot e v6 s) f = if decide (f = v6) then s else slot e f.
Proof. destruct e, v6, f; done. Qed.

Lemma slotOf_insert E hash e hash' f :
  slotOf (<[hash := e]> E) hash' f =
  if decide (hash' = hash) then if sl_seen (slot e f) =? 0 then None else Some (slot e f) else slotOf E hash' f.
Proof. unfold slotOf. case_decide; [subst; by rewrite lookup_insert_eq|by rewrite lookup_insert_ne]. Qed.

Lemma slotOf_delete E hash hash' f : slotOf (delete hash E) hash' f = if decide (hash' = hash) then None else slotOf E hash' f.
Proof. unfold slotOf. case_decide; [subst; by rewrite lookup_delete_eq|by rewrite lookup_delete_ne]. Qed.

(** Storing or deleting an entry comes to the same table. *)
Lemma slotOf_put h hash e hash' f :
  slotOf (nt_entries (putEntry hash e h)) hash' f =
  if decide (hash' = hash) then if sl_seen (slot e f) =? 0 then None else Some (slot e f) else slotOf (nt_entries h) hash' f.
Proof.
  unfold putEntry. replace (nt_entries { h with nt_entries := _ }) with
    (if (sl_seen (se_v4 e) =? 0) && (sl_seen (se_v6 e) =? 0) then delete hash (nt_entries h) else <[hash := e]> (nt_entries h)) by by destruct h.
  destruct (_ && _) eqn:Ez; [|apply slotOf_insert]. rewrite slotOf_delete. case_decide; [|done].
  apply andb_true_iff in Ez as [E4 E6]. destruct f; cbn [slot]; by rewrite ?E4, ?E6.
Qed.

Lemma byAddr_put h hash e : nt_byAddr (putEntry hash e h) = nt_byAddr h.
Proof. by destruct h. Qed.

Lemma full_put h hash e :
  (∀ hash e, nt_entries h !! hash = Some e → ∃ f, sl_seen (slot e f) ≠ 0) →
  ∀ hash' e', nt_entries (putEntry hash e h) !! hash' = Some e' → ∃ f, sl_seen (slot e' f) ≠ 0.
Proof.
  intros Hf hash' e'. unfold putEntry. replace (nt_entries { h with nt_entries := _ }) with
    (if (sl_seen (se_v4 e) =? 0) && (sl_seen (se_v6 e) =? 0) then delete hash (nt_entries h) else <[hash := e]> (nt_entries h)) by by destruct h.
  destruct (_ && _) eqn:Ez; [intros [_ ?]%lookup_delete_Some; by eapply Hf|]. intros [[<- <-]|[_ ?]]%lookup_insert_Some; [|by eapply Hf].
  apply andb_false_iff in Ez as [?%Z.eqb_neq|?%Z.eqb_neq]; [by exists false|by exists true].
Qed.

Section Ok.
Context (h : NATTraversalHandler) (Hok : registry_ok h).

Lemma owner_slot ep hash : nt_byAddr h !! ep = Some hash → ∃ e, nt_entries h !! hash = Some e ∧ sl_seen (slot e (isV6 ep)) ≠ 0 ∧ sl_ep (slot e (isV6 ep)) = ep.
Proof.
  intros (s&Hs&<-)%(rg_index _ _ Hok). unfold slotOf in Hs. destruct (nt_entries h !! hash) as [e|]; [|done]. exists e. cbn in Hs.
  destruct (Z.eqb_spec (sl_seen (slot e (isV6 (sl_ep s)))) 0); [done|]. injection Hs as Hs. by rewrite Hs in *.
Qed.

Lemma slot_owner hash v6 s : slotOf (nt_entries h) hash v6 = Some s → nt_byAddr h !! sl_ep s = Some hash ∧ isV6 (sl_ep s) = v6.
Proof. intros Hs. pose proof (rg_family _ _ Hok _ _ _ Hs) as Hf. split; [|done]. apply (rg_index _ _ Hok). exists s. by rewrite Hf. Qed.

(** The table after [hash] took the endpoint [ep]: whoever had it lost it. *)
Definition takenOver (hash : bytes) (s0 : natSlot) (hash' : bytes) (f : bool) : option natSlot :=
  if decide (hash' = hash ∧ f = isV6 (sl_ep s0)) then Some s0
  else match slotOf (nt_entries h) hash' f with
       | Some s => if decide (sl_ep s = sl_ep s0) then None else Some s
       | None => None
       end.

Lemma takenOver_other hash s0 hash' f :
  ¬ (hash' = hash ∧ f = isV6 (sl_ep s0)) → ¬ (nt_byAddr h !! sl_ep s0 = Some hash' ∧ f = isV6 (sl_ep s0)) →
  takenOver hash s0 hash' f = slotOf (nt_entries h) hash' f.
Proof.
  intros Hn Ho. unfold takenOver. rewrite decide_False by done. destruct (slotOf _ hash' f) as [s|] eqn:Es; [|done].
  destruct (slot_owner _ _ _ Es) as [Ha Hf]. rewrite decide_False; [done|]. intros Ee. rewrite Ee in *. by destruct Ho.
Qed.

Lemma takenOver_owner hash s0 owner :
  nt_byAddr h !! sl_ep s0 = Some owner → owner ≠ hash → takenOver hash s0 owner (isV6 (sl_ep s0)) = None.
Proof.
  intros Ha Hne. unfold takenOver. rewrite decide_False by naive_solver. apply (rg_index _ _ Hok) in Ha as (s&->&Es). by rewrite decide_True.
Qed.
End Ok.

Lemma tick_range now h : 0 < tick now h < 2 ^ 32.
Proof.
  unfold tick, u32. pose proof (Z.mod_pos_bound ((now - nt_epoch h) `quot` Millisecond) (2 ^ 32) ltac:(lia)).
  destruct (Z.eqb_spec (((now - nt_epoch h) `quot` Millisecond) `mod` 2 ^ 32) 0); lia.
Qed.

Lemma slotOf_default E hash f version :
  let e := default emptyEntry (E !! hash) in
  (if sl_seen (slot (if 0 <? version then { e with se_version := version } else e) f) =? 0 then None
   else Some (slot (if 0 <? version then { e with se_version := version } else e) f)) = slotOf E hash f.
Proof.
  cbn zeta. unfold slotOf. destruct (E !! hash) as [e|]; cbn [default from_option id mbind option_bind].
  - destruct (0 <? version); [|done]. by destruct e, f.
  - destruct (0 <? version); by destruct f.
Qed.

Lemma upsert_slots h hash remote version sock now : registry_ok h → validAddr remote →
  ∀ hash' f, slotOf (nt_entries (upsert hash remote version sock now h)) hash' f =
    takenOver h hash (mkSlot (natEndpointOf remote) sock (tick now h)) hash' f.
Proof.
  intros Hok Hv hash' f. pose proof (family_endpoint remote Hv) as Hfam. pose proof (tick_range now h) as Ht. unfold upsert, setSlotLocked.
  set (ep := natEndpointOf remote) in *. set (v6 := remoteIsIPv6 remote) in *. set (s0 := mkSlot ep sock (tick now h)).
  set (entry := if 0 <? version then _ else _). set (h1 := if _ && _ then _ else h).
  assert (nt_entries h1 = nt_entries h) as E1 by (unfold h1; destruct (_ && _); by destruct h).
  assert (nt_byAddr h1 !! ep = nt_byAddr h !! ep) as A1.
  { unfold h1. destruct (bool_decide_reflect (sl_ep (slot entry v6) = ep)) as [|Hne]; [by rewrite andb_false_r|].
    destruct (_ && _); [|done]. replace (nt_byAddr { h with nt_byAddr := _ }) with (delete (sl_ep (slot entry v6)) (nt_byAddr h)) by by destruct h.
    by rewrite lookup_delete_ne. }
  set (h2 := match nt_byAddr h1 !! ep with Some _ => _ | None => h1 end). cbn beta zeta iota.
  match goal with |- slotOf ?E _ _ = _ => replace E with (<[hash := setSlot entry v6 s0]> (nt_entries h2)) by by destruct h2 end.
  assert (isV6 (sl_ep s0) = v6) as Hs0 by exact Hfam.
  rewrite slotOf_insert, slot_set. destruct (decide (hash' = hash)) as [->|Hne].
  { destruct (decide (f = v6)) as [->|Hf].
    - unfold takenOver. rewrite decide_True by (by rewrite Hs0). change (sl_seen s0) with (tick now h). by destruct (Z.eqb_spec (tick now h) 0); [lia|].
    - rewrite takenOver_other by (try done; rewrite Hs0; by intros [? ?]). apply slotOf_default. }
  assert (∀ o, nt_byAddr h !! ep = o → o ≠ Some hash' ∨ f ≠ v6 → takenOver h hash s0 hash' f = slotOf (nt_entries h) hash' f) as Hother.
  { intros o Ea Hor. apply takenOver_other; [done|by intros [? _]|]. change (sl_ep s0) with ep. rewrite Ea, Hfam. intros [? ?]. destruct Hor; congruence. }
  unfold h2. rewrite A1. destruct (nt_byAddr h !! ep) as [owner|] eqn:Ea; [|rewrite (Hother None); [by rewrite E1|done|by left]].
  case_bool_decide as Eo; [rewrite (Hother _ eq_refl); [by rewrite E1|left; congruence]|].
  destruct (owner_slot _ Hok _ _ Ea) as (other&Ho&_&Hep). rewrite E1, Ho. rewrite Hfam in Hep. rewrite (bool_decide_true _ Hep), slotOf_put, slot_set, E1.
  destruct (decide (hash' = owner)) as [->|Hno]; [|rewrite (Hother _ eq_refl); [done|left; congruence]].
  destruct (decide (f = v6)) as [->|Hf]; [by rewrite <- Hs0, (takenOver_owner _ Hok hash s0 owner)|].
  rewrite (Hother _ eq_refl) by by right. unfold slotOf. by rewrite Ho.
Qed.

Lemma slotOf_some E hash f s : slotOf E hash f = Some s ↔ ∃ e, E !! hash = Some e ∧ s = slot e f ∧ sl_seen s ≠ 0.
Proof.
  unfold slotOf. destruct (E !! hash) as [e|]; cbn; [|naive_solver]. destruct (Z.eqb_spec (sl_seen (slot e f)) 0) as [Ez|Ez].
  - split; [done|]. intros (e'&[= <-]&->&?). done.
  - split; [intros [= <-]; by exists e|]. intros (e'&[= <-]&->&?). done.
Qed.

Lemma upsert_index h hash remote version sock now : registry_ok h → validAddr remote →
  ∀ ep, nt_byAddr (upsert hash remote version sock now h) !! ep =
    if decide (ep = natEndpointOf remote) then Some hash
    else match nt_byAddr h !! ep with
         | Some o => if decide (o = hash ∧ isV6 ep = isV6 (natEndpointOf remote)) then None else Some o
         | None => None
         end.
Proof.
  intros Hok Hv ep'. pose proof (family_endpoint remote Hv) as Hfam. unfold upsert, setSlotLocked. rewrite Hfam.
  set (ep := natEndpointOf remote) in *. set (v6 := remoteIsIPv6 remote) in *.
  set (entry := if 0 <? version then _ else _). set (h1 := if _ && _ then _ else h).
  set (h2 := match nt_byAddr h1 !! ep with Some _ => _ | None => h1 end). cbn beta zeta iota.
  match goal with |- ?A !! _ = _ => replace A with (<[ep := hash]> (nt_byAddr h2)) by by destruct h2 end.
  destruct (decide (ep' = ep)) as [->|Hne]; [by rewrite lookup_insert_eq|]. rewrite lookup_insert_ne by done.
  replace (nt_byAddr h2) with (nt_byAddr h1).
  2: { unfold h2. destruct (nt_byAddr h1 !! ep) as [o|]; [|done]. case_bool_decide; [done|]. destruct (nt_entries h1 !! o); [|done]. by rewrite byAddr_put. }
  assert (slotOf (nt_entries h) hash v6 = if sl_seen (slot entry v6) =? 0 then None else Some (slot entry v6)) as Hsl by (by rewrite <- (slotOf_default _ hash v6 version)).
  assert (nt_byAddr h !! ep' = Some hash ∧ isV6 ep' = v6 ↔ sl_seen (slot entry v6) ≠ 0 ∧ sl_ep (slot entry v6) = ep') as Hiff.
  { rewrite (rg_index _ _ Hok). split.
    - intros [(s&Hs&Es) Hf]. rewrite Hf, Hsl in Hs. destruct (Z.eqb_spec (sl_seen (slot entry v6)) 0); [done|]. injection Hs as <-. done.
    - intros [Hz <-]. destruct (Z.eqb_spec (sl_seen (slot entry v6)) 0); [done|]. destruct (slot_owner _ Hok _ _ _ Hsl) as [_ Hf]. split; [|done].
      exists (slot entry v6). by rewrite Hf. }
  unfold h1. destruct (decide (sl_seen (slot entry v6) ≠ 0 ∧ sl_ep (slot entry v6) = ep')) as [Hd|Hd].
  - pose proof (proj2 Hiff Hd) as [Ha Hf]. destruct Hd as [Hz Ee]. rewrite Ha, decide_True by done. apply Z.eqb_neq in Hz. unfold ownedBy.
    rewrite Hz, Ee, Ha, !bool_decide_false, !bool_decide_true by done. cbn.
    destruct h as []. cbn. apply lookup_delete_eq.
  - destruct (nt_byAddr h !! ep') as [o|] eqn:Ea.
    + rewrite decide_False by (intros [-> Hf]; apply Hd, Hiff; done). destruct (negb _ && _ && _) eqn:Eb; [|done].
      apply andb_true_iff in Eb as [[Hz%negb_true_iff%Z.eqb_neq _]%andb_true_iff _]. destruct h as []. cbn in *.
      rewrite lookup_delete_ne by (intros Ee; by apply Hd). done.
    + destruct (negb _ && _ && _) eqn:Eb; [|done]. destruct h as []. cbn in *. destruct (decide (ep' = sl_ep (slot entry v6))) as [->|]; [apply lookup_delete_eq|by rewrite lookup_delete_ne].
Qed.

Lemma registered_upsert h hash remote version sock now :
  registry_ok h → validAddr remote → registry_ok (upsert hash remote version sock now h).
Proof.
  intros Hok Hv. pose proof (upsert_slots h hash remote version sock now Hok Hv) as Hs. pose proof (upsert_index h hash remote version sock now Hok Hv) as Hi.
  set (s0 := mkSlot (natEndpointOf remote) sock (tick now h)) in *. change (natEndpointOf remote) with (sl_ep s0) in Hi. split.
  - intros ep o. rewrite Hi, Hs. unfold takenOver. destruct (decide (ep = sl_ep s0)) as [->|Hne].
    + split.
      * intros [= <-]. exists s0. by rewrite decide_True.
      * case_decide as Hd; [by destruct Hd as [-> _]|]. intros (s&E&Ee). destruct (slotOf _ o _) as [s1|]; [|done]. case_decide; [done|]. congruence.
    + destruct (decide (o = hash ∧ isV6 ep = isV6 (sl_ep s0))) as [Hd|Hd].
      * split; [|intros (s&[= <-]&?); by subst]. destruct (nt_byAddr h !! ep) as [o'|]; [|done]. case_decide as Hd'; [done|]. intros [= ->]. done.
      * transitivity (nt_byAddr h !! ep = Some o).
        { destruct (nt_byAddr h !! ep) as [o'|]; [|done]. case_decide as Hd'; [|done]. split; [done|]. intros [= ->]. done. }
        rewrite (rg_index _ _ Hok). split; intros (s&E&Ee); exists s; [rewrite E, decide_False by congruence; done|].
        destruct (slotOf _ o _) as [s1|]; [|done]. case_decide; [done|]. done.
  - intros o f s. rewrite Hs. unfold takenOver. case_decide as Hd; [intros [= <-]; by destruct Hd|]. destruct (slotOf _ o f) as [s1|] eqn:E; [|done].
    case_decide; [done|]. intros [= <-]. by apply (rg_family _ _ Hok o).
  - intros o e. unfold upsert, setSlotLocked. set (entry := if 0 <? version then _ else _). set (h1 := if _ && _ then _ else h).
    set (h2 := match nt_byAddr h1 !! _ with Some _ => _ | None => h1 end). cbn beta zeta iota.
    match goal with |- ?E !! _ = _ → _ => replace E with (<[hash := setSlot entry (remoteIsIPv6 remote) s0]> (nt_entries h2)) by by destruct h2 end.
    intros [[<- <-]|[_ He]]%lookup_insert_Some.
    + exists (remoteIsIPv6 remote). rewrite slot_set, decide_True by done. change (tick now h ≠ 0). pose proof (tick_range now h). lia.
    + assert (∀ hash e, nt_entries h1 !! hash = Some e → ∃ f, sl_seen (slot e f) ≠ 0) as Hf1.
      { replace (nt_entries h1) with (nt_entries h) by (unfold h1; destruct (_ && _); by destruct h). apply (rg_full _ _ Hok). }
      revert He. unfold h2. destruct (nt_byAddr h1 !! _) as [ow|]; [|apply Hf1]. case_bool_decide; [apply Hf1|].
      destruct (nt_entries h1 !! ow) as [other|]; [by apply full_put|apply Hf1].
Qed.

(** ** The sweep *)

(** The registry once the entry in hand is written back. *)
Definition registeredWith (k : bytes) (e : natStoredEntry) (h : NATTraversalHandler) : Prop :=
  registered (nt_entries (putEntry k e h)) (nt_byAddr h).

Lemma put_same h k e : registry_ok h → nt_entries h !! k = Some e → nt_entries (putEntry k e h) = nt_entries h.
Proof.
  intros Hok He. destruct (rg_full _ _ Hok k e He) as [f Hf]. unfold putEntry. replace ((_ =? 0) && _) with false.
  - destruct h. cbn in *. by apply insert_id.
  - symmetry. apply andb_false_iff. destruct f; [right|left]; by apply Z.eqb_neq.
Qed.


Lemma registered_clear k e f h :
  (∀ hash e, nt_entries h !! hash = Some e → ∃ f, sl_seen (slot e f) ≠ 0) →
  registeredWith k e h → sl_seen (slot e f) ≠ 0 →
  let '(h', e') := clearSlotLocked k e f h in
  nt_entries h' = nt_entries h ∧ registeredWith k e' h'.
Proof.
  intros Hfull Hok Hz. unfold clearSlotLocked. set (s := slot e f) in *.
  assert (slotOf (nt_entries (putEntry k e h)) k f = Some s) as Hs.
  { rewrite slotOf_put, decide_True by done. unfold s in *. by destruct (Z.eqb_spec (sl_seen (slot e f)) 0). }
  assert (nt_byAddr h !! sl_ep s = Some k ∧ isV6 (sl_ep s) = f) as [Ha Hf].
  { pose proof (rg_family _ _ Hok _ _ _ Hs) as Hf. split; [|done]. apply (rg_index _ _ Hok). exists s. by rewrite Hf. }
  unfold ownedBy. rewrite Ha, bool_decide_true by done. split; [by destruct h|]. unfold registeredWith.
  set (h' := { h with nt_byAddr := delete (sl_ep s) (nt_byAddr h) }).
  assert (∀ o f', slotOf (nt_entries (putEntry k (setSlot e f emptySlot) h')) o f' =
    if decide (o = k ∧ f' = f) then None else slotOf (nt_entries (putEntry k e h)) o f') as Hslots.
  { intros o f'. rewrite !slotOf_put, slot_set. replace (nt_entries h') with (nt_entries h) by by destruct h.
    destruct (decide (o = k)) as [->|]; [|by rewrite decide_False by naive_solver].
    destruct (decide (f' = f)) as [->|]; [by rewrite decide_True|by rewrite decide_False by naive_solver]. }
  replace (nt_byAddr h') with (delete (sl_ep s) (nt_byAddr h)) by by destruct h. split.
  - intros ep o. rewrite Hslots, lookup_delete_Some, (rg_index _ _ Hok). case_decide as Hd.
    + destruct Hd as [-> Hf']. rewrite Hf', Hs. naive_solver.
    + split; [naive_solver|]. intros (s1&E1&E2). split; [|by exists s1]. intros Ee. apply Hd. rewrite <- Ee, Hf. split; [|done].
      assert (nt_byAddr h !! ep = Some o) by (apply (rg_index _ _ Hok); by exists s1). congruence.
  - intros o f' s1. rewrite Hslots. case_decide; [done|]. apply (rg_family _ _ Hok).
  - apply full_put. by replace (nt_entries h') with (nt_entries h) by by destruct h.
Qed.

Lemma cleanup_entry_ok k t h : registry_ok h → registry_ok (cleanupEntry k t h).
Proof.
  intros Hok. unfold cleanupEntry. destruct (nt_entries h !! k) as [e|] eqn:He; [|done].
  assert (registeredWith k e h) as Hw by (unfold registeredWith; by rewrite (put_same h k e)).
  pose proof (rg_full _ _ Hok) as Hfull.
  assert (∀ f, let '(h', e') := if negb (sl_seen (slot e f) =? 0) && negb (liveSlot (slot e f) t h) then clearSlotLocked k e f h else (h, e) in
    nt_entries h' = nt_entries h ∧ registeredWith k e' h') as H4.
  { intros f. destruct (Z.eqb_spec (sl_seen (slot e f)) 0); [done|]. destruct (liveSlot _ _ _); [done|]. by apply registered_clear. }
  specialize (H4 false). cbn [slot] in H4. destruct (if _ && _ then clearSlotLocked k e false h else _) as [h1 e1]. destruct H4 as [E1 Hw1].
  rewrite <- E1 in Hfull.
  assert (let '(h', e') := if negb (sl_seen (slot e1 true) =? 0) && negb (liveSlot (slot e1 true) t h1) then clearSlotLocked k e1 true h1 else (h1, e1) in
    nt_entries h' = nt_entries h1 ∧ registeredWith k e' h') as H6.
  { destruct (Z.eqb_spec (sl_seen (slot e1 true)) 0); [done|]. destruct (liveSlot _ _ _); [done|]. by apply registered_clear. }
  cbn [slot] in H6. destruct (if _ && _ then clearSlotLocked k e1 true h1 else _) as [h2 e2]. destruct H6 as [E2 Hw2].
  unfold registry_ok. by rewrite byAddr_put.
Qed.

(** A sweep only takes candidates away. *)
Lemma cleared_slot k e f h : ∀ f', sl_seen (slot (clearSlotLocked k e f h).2 f') ≠ 0 → slot (clearSlotLocked k e f h).2 f' = slot e f'.
Proof. intros f'. unfold clearSlotLocked. cbn [snd]. rewrite slot_set. by case_decide. Qed.

Lemma cleanup_entry_slots k t h hash f s :
  slotOf (nt_entries (cleanupEntry k t h)) hash f = Some s → slotOf (nt_entries h) hash f = Some s.
Proof.
  unfold cleanupEntry. destruct (nt_entries h !! k) as [e|] eqn:He; [|done].
  assert (∀ h e f0 b, nt_entries (if b : bool then clearSlotLocked k e f0 h else (h, e)).1 = nt_entries h ∧
    ∀ f', sl_seen (slot (if b then clearSlotLocked k e f0 h else (h, e)).2 f') ≠ 0 →
      slot (if b then clearSlotLocked k e f0 h else (h, e)).2 f' = slot e f') as Hc.
  { clear. intros h e f0 []; [|done]. split; [|apply cleared_slot]. unfold clearSlotLocked. destruct (ownedBy _ _ _); by destruct h. }
  match goal with |- context [if ?b then clearSlotLocked k e false h else _] => destruct (Hc h e false b) as [E1 S1] end.
  destruct (if _ && _ then clearSlotLocked k e false h else _) as [h1 e1]. cbn [fst snd] in *.
  match goal with |- context [if ?b then clearSlotLocked k e1 true h1 else _] => destruct (Hc h1 e1 true b) as [E2 S2] end.
  destruct (if _ && _ then clearSlotLocked k e1 true h1 else _) as [h2 e2]. cbn [fst snd] in *.
  rewrite slotOf_put, E2, E1. case_decide; [subst|done]. destruct (Z.eqb_spec (sl_seen (slot e2 f)) 0) as [|Hz]; [done|]. intros [= <-].
  pose proof (S2 f Hz) as X2. rewrite X2 in Hz |- *. pose proof (S1 f Hz) as X1. rewrite X1 in Hz |- *. apply slotOf_some. by exists e.
Qed.

Lemma cleanup_slots now h hash f s : slotOf (nt_entries (cleanup now h)) hash f = Some s → slotOf (nt_entries h) hash f = Some s.
Proof.
  unfold cleanup. generalize (map_to_list (nt_entries h)).*1 as ks. generalize (tick now h) as t. intros t ks. revert h.
  induction ks as [|k ks IH]; intros h; [done|]. cbn. intros Hs%IH. by eapply cleanup_entry_slots.
Qed.

Lemma cleanup_ok now h : registry_ok h → registry_ok (cleanup now h).
Proof.
  intros Hok. unfold cleanup. generalize (map_to_list (nt_entries h)).*1 as ks. generalize (tick now h) as t. intros t ks. revert h Hok.
  induction ks as [|k ks IH]; intros h Hok; [done|]. cbn. by apply IH, cleanup_entry_ok.
Qed.

(** ** Keepalives *)

(** The scan the index replaces: refresh the first entry with a live candidate at the
    datagram's source. *)
Definition scanByAddr (remote : UDPAddr) (sock now : Z) (h : NATTraversalHandler) : NATTraversalHandler * option bytes :=
  let v6 := remoteIsIPv6 remote in
  let t := tick now h in
  match List.filter (λ p, liveSlot (slot p.2 v6) t h && bool_decide (sl_ep (slot p.2 v6) = natEndpointOf remote))
          (map_to_list (nt_entries h)) with
  | (hash, e) :: _ =>
      ({ h with nt_entries := <[hash := setSlot e v6 { slot e v6 with sl_seen := t; sl_sock := sock }]> (nt_entries h) }, Some hash)
  | [] => (h, None)
  end.

Lemma live_slotOf h hash e f t : nt_entries h !! hash = Some e → liveSlot (slot e f) t h = true → slotOf (nt_entries h) hash f = Some (slot e f).
Proof. intros He [Hz%negb_true_iff%Z.eqb_neq _]%andb_true_iff. apply slotOf_some. by exists e. Qed.

Lemma touch_is_scan remote sock now h :
  registry_ok h → touchByAddr remote sock now h = scanByAddr remote sock now h.
Proof.
  intros Hok. unfold touchByAddr, scanByAddr. set (ep := natEndpointOf remote). set (v6 := remoteIsIPv6 remote). set (t := tick now h).
  set (P := λ p : bytes * natStoredEntry, liveSlot (slot p.2 v6) t h && bool_decide (sl_ep (slot p.2 v6) = ep)).
  assert (∀ hash e, (hash, e) ∈ List.filter P (map_to_list (nt_entries h)) ↔
    nt_entries h !! hash = Some e ∧ liveSlot (slot e v6) t h = true ∧ sl_ep (slot e v6) = ep ∧ nt_byAddr h !! ep = Some hash) as Hin.
  { intros hash e. rewrite list_elem_of_In, filter_In, <- list_elem_of_In, elem_of_map_to_list. unfold P. cbn [snd].
    rewrite andb_true_iff, bool_decide_eq_true. split; [|naive_solver]. intros (He&Hl&Ee). split_and!; try done.
    pose proof (live_slotOf h hash e v6 t He Hl) as Hs. rewrite <- Ee. by apply (slot_owner _ Hok _ _ _ Hs). }
  destruct (List.filter P _) as [|[hash e] l] eqn:Ef.
  - destruct (nt_byAddr h !! ep) as [owner|] eqn:Ea; [|done]. destruct (nt_entries h !! owner) as [e|] eqn:He; [|done].
    destruct (liveSlot (slot e v6) t h) eqn:El; [|done]. case_bool_decide as Ee; [|done]. exfalso.
    apply (not_elem_of_nil (owner, e)), Hin. by split_and!.
  - destruct (proj1 (Hin hash e)) as (He&Hl&Ee&Ha); [by left|]. rewrite Ha, He, Hl, (bool_decide_true _ Ee). done.
Qed.

Lemma registered_touch remote sock now h : registry_ok h → registry_ok (touchByAddr remote sock now h).1.
Proof.
  intros Hok. unfold touchByAddr. destruct (nt_byAddr h !! _) as [owner|] eqn:Ea; [|done]. destruct (nt_entries h !! owner) as [e|] eqn:He; [|done].
  set (v6 := remoteIsIPv6 remote). destruct (liveSlot (slot e v6) (tick now h) h) eqn:El; [|done]. case_bool_decide as Ee; [|done]. cbn [negb orb fst].
  pose proof (live_slotOf h owner e v6 _ He El) as Hs. set (s := { slot e v6 with sl_seen := _; sl_sock := _ }).
  assert (sl_ep s = sl_ep (slot e v6) ∧ sl_seen s ≠ 0) as [Es Hz] by (unfold s; pose proof (tick_range now h); destruct (slot e v6); cbn; split; [done|lia]).
  unfold registry_ok. replace (nt_entries { h with nt_entries := _ }) with (<[owner := setSlot e v6 s]> (nt_entries h)) by by destruct h.
  replace (nt_byAddr { h with nt_entries := _ }) with (nt_byAddr h) by by destruct h.
  assert (∀ o f, slotOf (<[owner := setSlot e v6 s]> (nt_entries h)) o f = if decide (o = owner ∧ f = v6) then Some s else slotOf (nt_entries h) o f) as Hslots.
  { intros o f. rewrite slotOf_insert, slot_set. destruct (decide (o = owner)) as [->|]; [|by rewrite decide_False by naive_solver].
    destruct (decide (f = v6)) as [->|]; [rewrite (decide_True _ _ (conj eq_refl eq_refl)); by apply Z.eqb_neq in Hz as ->|].
    rewrite decide_False by naive_solver. unfold slotOf. by rewrite He. }
  split.
  - intros ep o. rewrite Hslots, (rg_index _ _ Hok). case_decide as Hd; [|done]. destruct Hd as [-> Hf]. rewrite Hf, Hs. split; intros (?&[= <-]&?); eexists; split; try done; congruence.
  - intros o f s1. rewrite Hslots. case_decide as Hd; [|apply (rg_family _ _ Hok)]. intros [= <-]. rewrite Es. destruct Hd as [_ ->]. by apply (rg_family _ _ Hok owner).
  - intros o e' [[<- <-]|[_ ?]]%lookup_insert_Some; [|by eapply (rg_full _ _ Hok)]. exists v6. by rewrite slot_set, decide_True.
Qed.

Lemma touch_slots remote sock now h hash f s :
  slotOf (nt_entries (touchByAddr remote sock now h).1) hash f = Some s → ∃ s', slotOf (nt_entries h) hash f = Some s' ∧ sl_ep s' = sl_ep s.
Proof.
  unfold touchByAddr. destruct (nt_byAddr h !! _) as [owner|]; [|by exists s]. destruct (nt_entries h !! owner) as [e|] eqn:He; [|by exists s].
  set (v6 := remoteIsIPv6 remote). destruct (liveSlot (slot e v6) _ h) eqn:El; [|by exists s]. case_bool_decide; [|by exists s]. cbn [negb orb fst].
  replace (nt_entries { h with nt_entries := _ }) with
    (<[owner := setSlot e v6 { slot e v6 with sl_seen := tick now h; sl_sock := sock }]> (nt_entries h)) by by destruct h.
  rewrite slotOf_insert, slot_set. destruct (decide (hash = owner)) as [->|]; [|by exists s].
  destruct (decide (f = v6)) as [->|].
  - intros Hs. exists (slot e v6). split; [by eapply live_slotOf|]. destruct (_ =? 0); [done|]. injection Hs as <-. by destruct (slot e v6).
  - intros Hs. exists s. split; [|done]. unfold slotOf. by rewrite He.
Qed.

Lemma registry_new ttl now : registry_ok (NewNATTraversalHandler ttl now).
Proof. split; cbn; intros *; rewrite ?lookup_empty; try done. unfold slotOf. split; [done|]. rewrite lookup_empty. by intros (?&?&?). Qed.
