(* ===== verification/NatRendezvous.v ===== *)
(** * The NAT rendezvous over time

    Datagrams, sweeps and timers in any order, with a server behind the handler whose
    sessions come and go on their own. *)

From S2P Require Import Prelude Address NatTraversal NatRegistry.
Local Open Scope Z_scope.
#[local] Set Warnings "-clear-no-such-hyp".

Inductive natEvent (R : Type) :=
| NtDatagram (data : bytes) (remote : UDPAddr) (conn : udpReplyConn)
| NtSweep
| NtTimer (hash : bytes) (id : nat)
| NtServer (r : R).
Arguments NtDatagram {R} _ _ _.
Arguments NtSweep {R}.
Arguments NtTimer {R} _ _.
Arguments NtServer {R} _.

Section Runs.
Context {R : Type} (hooks : natHooks R).
Implicit Types (h : NATTraversalHandler) (r : R).

Definition natStep (now : Z) h r (ev : natEvent R) : NATTraversalHandler * R * list datagram :=
  match ev with
  | NtDatagram data remote conn => HandlePacket hooks data remote conn now h r
  | NtSweep => (cleanup now h, r, [])
  | NtTimer hash id => let '(h, out) := expireWake hash id now h in (h, r, out)
  | NtServer r => (h, r, [])
  end.

(** What happened: the time, the state of the server and the event. *)
Abbreviation natTrace := (list (Z * R * natEvent R)).

Definition arrives (ev : natEvent R) : Prop := match ev with NtDatagram _ remote _ => validAddr remote | _ => True end.

Inductive natRun h0 r0 : natTrace → NATTraversalHandler → R → Prop :=
| nat_start : natRun h0 r0 [] h0 r0
| nat_step tr h r now ev h' r' out :
    natRun h0 r0 tr h r → arrives ev → natStep now h r ev = (h', r', out) → natRun h0 r0 (tr ++ [(now, r, ev)]) h' r'.

(** ** The registry's parts of a step *)

(** The handler's registry and its configuration; waits and sockets aside. *)
Definition sameRegistry h h' : Prop := nt_entries h' = nt_entries h ∧ nt_byAddr h' = nt_byAddr h.

Lemma socket_registry conn port h : sameRegistry h (socketIndex conn port h).1.
Proof.
  unfold socketIndex. destruct (port =? 0); [done|]. destruct (nt_sockByPort h !! port) as [i|].
  - case_bool_decide; [done|by destruct h].
  - destruct (255 <=? _); [done|by destruct h].
Qed.

Lemma complete_registry hash remote now h : sameRegistry h (completeWake hash remote now h).1.
Proof.
  unfold completeWake. destruct (nt_pending h !! hash) as [p|]; [|done]. destruct (_ =? 0); [done|].
  destruct (_ && _); [destruct (wp_graced p); [done|by destruct h]|by destruct h].
Qed.

Lemma wake_registry src dst ack remote conn now h r : sameRegistry h (wakeTarget hooks src dst ack remote conn now h r).1.1.
Proof.
  unfold wakeTarget. destruct (hk_wake hooks) as [wake|]; [|done]. case_bool_decide; [done|]. set (fam := match hk_addrs hooks with Some _ => _ | None => _ end).
  destruct (fam =? 0); [done|]. destruct (match hk_member hooks with Some _ => _ | None => _ end); [done|].
  destruct (nt_pending h !! dst) as [p|].
  - destruct (addWaiter _ p) as [p' []]; by destruct h.
  - destruct (_ <=? _); [done|]. destruct (wake dst fam r) as [r' []]; by destruct h.
Qed.

Lemma expire_registry hash id now h : sameRegistry h (expireWake hash id now h).1.
Proof. unfold expireWake. destruct (nt_pending h !! hash); [|done]. case_bool_decide; [by destruct h|done]. Qed.

(** What a datagram can do to the registry: refresh a candidate, or enter its own source
    under a hash that may be registered from there. *)
Inductive registryStep (remote : UDPAddr) (now : Z) (r : R) : NATTraversalHandler → NATTraversalHandler → Prop :=
| rs_same h h' : sameRegistry h h' → registryStep remote now r h h'
| rs_touch h sock h' : sameRegistry (touchByAddr remote sock now h).1 h' → registryStep remote now r h h'
| rs_enter h hash version sock h' :
    registerAllowed hooks hash remote now h r = true → sameRegistry (upsert hash remote version sock now h) h' → registryStep remote now r h h'.

Lemma same_trans h1 h2 h3 : sameRegistry h1 h2 → sameRegistry h2 h3 → sameRegistry h1 h3.
Proof. intros [] []. split; congruence. Qed.

Lemma sync_source srcHash remote sock now h r :
  let '(h', _) := syncSource hooks srcHash remote sock now h r in registryStep remote now r h h'.
Proof.
  unfold syncSource. destruct (match getEntry srcHash now h with Some _ => _ | None => _ end); [by apply rs_same|].
  destruct (registerAllowed _ _ _ _ _ _) eqn:Ea; [|by apply rs_same]. by eapply rs_enter.
Qed.

Lemma step_same remote now r h1 h2 h3 : registryStep remote now r h1 h2 → sameRegistry h2 h3 → registryStep remote now r h1 h3.
Proof.
  intros [h h' Hs|h sock h' Hs|h hash version sock h' Ha Hs] Hs'.
  - by eapply rs_same, same_trans.
  - by eapply rs_touch, same_trans.
  - by eapply rs_enter, same_trans.
Qed.

Lemma register_step remote payload port sock ex now h r :
  registryStep remote now r h (handleRegister hooks remote payload port sock ex now h r).1.
Proof.
  unfold handleRegister. destruct (length payload <? 16); [by apply rs_same|]. destruct (registerAllowed _ _ _ _ _ _) eqn:Ea; [|by apply rs_same].
  cbn [negb]. set (h1 := upsert _ _ _ _ _ h). pose proof (complete_registry (take 16 payload) remote now h1) as Hc.
  destruct (completeWake _ _ _ h1) as [h2 out]. by eapply rs_enter.
Qed.

Lemma sync_step remote payload conn sock now h r : registryStep remote now r h (handleSync2 hooks remote payload conn sock now h r).1.1.
Proof.
  unfold handleSync2. destruct (length payload <? 36); [by apply rs_same|].
  pose proof (sync_source (take 16 payload) remote sock now h r) as Hs. destruct (syncSource _ _ _ _ _ _ _) as [h1 src].
  assert (∀ d, registryStep remote now r h (wakeTarget hooks src d (take 4 (drop 16 payload)) remote conn now h1 r).1.1) as Hw.
  { intros d. eapply step_same; [done|apply wake_registry]. }
  destruct (getEntry _ now h1) as [dst|].
  - destruct (match hk_member hooks with Some _ => _ | None => _ end); [done|]. destruct (pairOutbound _ _ _ _); [|done].
    specialize (Hw (take 16 (drop 20 payload))). by destruct (wakeTarget _ _ _ _ _ _ _ _ _) as [[h2 r2] []].
  - specialize (Hw (take 16 (drop 20 payload))). by destruct (wakeTarget _ _ _ _ _ _ _ _ _) as [[h2 r2] []].
Qed.

Lemma keepalive_step remote sock now h r : registryStep remote now r h (handleKeepAlive hooks remote sock now h r).1.1.
Proof. unfold handleKeepAlive. pose proof (rs_touch remote now r h sock) as Ht. destruct (touchByAddr remote sock now h) as [h' [hash|]]; by apply Ht. Qed.

Lemma datagram_registry data remote conn now h r :
  ∃ h1, sameRegistry h h1 ∧ registryStep remote now r h1 (HandlePacket hooks data remote conn now h r).1.1.
Proof.
  unfold HandlePacket. set (port := if 0 <? _ then _ else _). enough (∃ h1, sameRegistry h h1 ∧
    registryStep remote now r h1 (processPacketFrom hooks data remote port conn now h r).1.1) as (h1&?&?).
  { exists h1. by destruct (processPacketFrom _ _ _ _ _ _ _ _) as [[h' r'] out]. }
  unfold processPacketFrom. case_bool_decide; [exists h; split; [done|by apply rs_same]|].
  pose proof (socket_registry conn port h) as Hs. destruct (socketIndex conn port h) as [h1 sock]. exists h1. split; [done|].
  case_bool_decide; [apply keepalive_step|]. destruct (decodeNATPacket data) as [[op payload]|]; [|by apply rs_same].
  destruct (_ && _); [by apply rs_same|]. destruct (_ || _).
  { pose proof (register_step remote payload port sock (op =? OpNatRegisterEx) now h1 r) as Hr. by destruct (handleRegister _ _ _ _ _ _ _ _ _). }
  destruct (op =? OpNatKeepAlive); [apply keepalive_step|]. destruct (op =? OpNatSync2); [apply sync_step|by apply rs_same].
Qed.

Lemma same_ok h h' : sameRegistry h h' → registry_ok h → registry_ok h'.
Proof. unfold registry_ok. intros [-> ->]. done. Qed.

Lemma registry_step remote now r h h' : validAddr remote → registryStep remote now r h h' → registry_ok h → registry_ok h'.
Proof.
  intros Hv [h1 h2 Hs|h1 sock h2 Hs|h1 hash version sock h2 _ Hs] Hok; (eapply same_ok; [exact Hs|]).
  - done.
  - by apply registered_touch.
  - by apply registered_upsert.
Qed.

Lemma run_registry h0 r0 tr h r : registry_ok h0 → natRun h0 r0 tr h r → registry_ok h.
Proof.
  intros H0 Hr. induction Hr as [|tr h r now ev h' r' out Hr IH Ha Hs]; [done|]. destruct ev as [data remote conn| |hash id|r1]; cbn in *.
  - destruct (datagram_registry data remote conn now h r) as (h1&Hsame&Hstep). rewrite Hs in Hstep. cbn in Hstep.
    eapply registry_step; [done|done|by eapply same_ok].
  - injection Hs as <- <- <-. by apply cleanup_ok.
  - pose proof (expire_registry hash id now h) as He. destruct (expireWake _ _ _ _). injection Hs as <- <- <-. by eapply same_ok.
  - injection Hs as <- <- <-. done.
Qed.

(** A handler before its first datagram, however it was configured. *)
Record freshNAT h : Prop := {
  fn_entries : nt_entries h = ∅;
  fn_byAddr : nt_byAddr h = ∅;
  fn_pending : nt_pending h = ∅;
}.

Lemma fresh_registry h : freshNAT h → registry_ok h.
Proof. intros []. eapply same_ok; [|apply (registry_new 0 0)]. by split. Qed.

(** C14: the index is exact. After any run of datagrams, sweeps and timers, every endpoint the
    index knows is the endpoint of exactly the registration it names and no endpoint is
    missing; so a keepalive refreshes, by one lookup, the registration a scan of the whole
    registry would find, and matches nothing when the scan matches nothing. *)
Theorem nat_index h0 r0 tr h r remote sock now :
  freshNAT h0 → natRun h0 r0 tr h r →
  (∀ ep hash, nt_byAddr h !! ep = Some hash ↔ ∃ s, slotOf (nt_entries h) hash (isV6 ep) = Some s ∧ sl_ep s = ep) ∧
  touchByAddr remote sock now h = scanByAddr remote sock now h.
Proof.
  intros H0 Hr. pose proof (run_registry h0 r0 tr h r (fresh_registry h0 H0) Hr) as Hok. split; [apply (rg_index _ _ Hok)|by apply touch_is_scan].
Qed.

(** ** Who may register what *)

(** The address is one of the session's: the IPv4, or the /64 of the IPv6. *)
Definition sessionAddress (addrs : option bytes * option bytes * bool) (remote : UDPAddr) : Prop :=
  ∃ v4 v6, addrs = (v4, v6, true) ∧
    if remoteIsIPv6 remote then ∃ a, v6 = Some a ∧ sameIPv6Prefix64 a (ua_IP remote) = true
    else ∃ a, v4 = Some a ∧ EqualIP a (ua_IP remote) = true.

(** A datagram came from the endpoint while the user's session had its address. *)
Definition boundTo (lookup : bytes → R → option bytes * option bytes * bool) (tr : natTrace) (hash : bytes) (ep : natEndpoint) : Prop :=
  ∃ now r data remote conn, (now, r, NtDatagram data remote conn) ∈ tr ∧ natEndpointOf remote = ep ∧ sessionAddress (lookup hash r) remote.

Lemma bound_app lookup tr tr' hash ep : boundTo lookup tr hash ep → boundTo lookup (tr ++ tr') hash ep.
Proof. intros (now&r&data&remote&conn&Hin&?&?). exists now, r, data, remote, conn. rewrite elem_of_app. eauto. Qed.

Lemma allowed_session lookup hash remote now h r :
  hk_addrs hooks = Some lookup → registerAllowed hooks hash remote now h r = true → sessionAddress (lookup hash r) remote.
Proof.
  intros Hl. unfold registerAllowed, sessionAddress. rewrite Hl. destruct (lookup hash r) as [[v4 v6] []]; [|done]. cbn [negb]. intros Ha. exists v4, v6. split; [done|].
  destruct (remoteIsIPv6 remote); [destruct v6 as [a|]|destruct v4 as [a|]]; try done; by exists a.
Qed.

Lemma run_bound lookup h0 r0 tr h r :
  hk_addrs hooks = Some lookup → freshNAT h0 → natRun h0 r0 tr h r →
  ∀ hash f s, slotOf (nt_entries h) hash f = Some s → boundTo lookup tr hash (sl_ep s).
Proof.
  intros Hl H0 Hr. induction Hr as [|tr h r now ev h' r' out Hr IH Ha Hs].
  { intros hash f s. unfold slotOf. by rewrite (fn_entries _ H0), lookup_empty. }
  pose proof (run_registry h0 r0 tr h r (fresh_registry h0 H0) Hr) as Hok. intros hash f s Hsl.
  destruct ev as [data remote conn| |hash' id|r1]; cbn in *.
  - destruct (datagram_registry data remote conn now h r) as (h1&Hsame&Hstep). rewrite Hs in Hstep. cbn in Hstep.
    pose proof Hsame as [E1 _]. pose proof (same_ok _ _ Hsame Hok) as Hok1. destruct Hstep as [h1 h2 [E2 _]|h1 sock h2 [E2 _]|h1 hash1 version sock h2 Hal [E2 _]]; rewrite E2 in Hsl.
    + rewrite E1 in Hsl. eapply bound_app, IH; done.
    + apply touch_slots in Hsl as (s'&Hs'&<-). rewrite E1 in Hs'. eapply bound_app, IH; done.
    + rewrite (upsert_slots h1) in Hsl by done. unfold takenOver in Hsl. case_decide as Hd.
      * destruct Hd as [-> _]. injection Hsl as <-. exists now, r, data, remote, conn. split; [apply elem_of_app; right; by left|]. split; [done|].
        by eapply allowed_session.
      * destruct (slotOf (nt_entries h1) hash f) as [s1|] eqn:Es1; [|done]. case_decide; [done|]. injection Hsl as <-. rewrite E1 in Es1.
        eapply bound_app, IH; done.
  - injection Hs as <- <- <-. apply cleanup_slots in Hsl. eapply bound_app, IH; done.
  - pose proof (expire_registry hash' id now h) as [E1 _]. destruct (expireWake _ _ _ _). injection Hs as <- <- <-. cbn in E1. rewrite E1 in Hsl.
    eapply bound_app, IH; done.
  - injection Hs as <- <- <-. eapply bound_app, IH; done.
Qed.

(** C7: nobody else can register for a user. With a server behind the handler, every endpoint
    it introduces peers to is one a datagram came from while the session logged in under
    that hash had that IPv4 address, or an IPv6 address of the same /64; in particular a
    user who never logged in is never introduced to anybody. *)
Theorem nat_binding lookup h0 r0 tr h r hash now entry c :
  hk_addrs hooks = Some lookup → freshNAT h0 → natRun h0 r0 tr h r →
  getEntry hash now h = Some entry → ce_v4 entry = Some c ∨ ce_v6 entry = Some c →
  ce_hash entry = hash ∧
  ∃ at_ r1 data remote conn, (at_, r1, NtDatagram data remote conn) ∈ tr ∧ cd_addr c = udpAddr (natEndpointOf remote) ∧
    sessionAddress (lookup hash r1) remote.
Proof.
  intros Hl H0 Hr Hg Hc. pose proof (run_bound lookup h0 r0 tr h r Hl H0 Hr hash) as Hb. unfold getEntry in Hg.
  destruct (nt_entries h !! hash) as [e|] eqn:He; [|done].
  assert (entry = snapshot e hash (tick now h) now h) as ->.
  { destruct (ce_v4 _) in Hg; [congruence|]. destruct (ce_v6 _) in Hg; congruence. }
  split; [done|]. assert (∃ f, candidate (slot e f) (tick now h) now h = Some c) as [f Hf] by (destruct Hc; [exists false|exists true]; done).
  unfold candidate in Hf. destruct (liveSlot (slot e f) (tick now h) h) eqn:El; [|done]. injection Hf as <-.
  destruct (Hb f _ (live_slotOf h hash e f _ He El)) as (at_&r1&data&remote&conn&?&Ee&?). exists at_, r1, data, remote, conn.
  split; [done|]. cbn [cd_addr]. by rewrite Ee.
Qed.

(** ** Waits *)

(** What a step does to the waits: it joins, starts, extends or ends one. *)
Inductive waitStep (now : Z) : NATTraversalHandler → NATTraversalHandler → list natOutbound → Prop :=
| ws_same h h' outs : nt_pending h' = nt_pending h → nt_wakes h' = nt_wakes h → waitStep now h h' outs
| ws_join h h' outs dst p w families :
    nt_pending h !! dst = Some p →
    nt_pending h' = <[dst := { (addWaiter w p).1 with wp_families := families }]> (nt_pending h) → nt_wakes h' = nt_wakes h → waitStep now h h' outs
| ws_begin h h' outs dst w families :
    nt_pending h !! dst = None → size (nt_pending h) < natWakeMaxPending →
    nt_pending h' = <[dst := mkWakePending (nt_wakes h) families [w] (now + natWakeTimeout) false]> (nt_pending h) → nt_wakes h' = S (nt_wakes h) →
    waitStep now h h' outs
| ws_grace h h' outs hash p :
    nt_pending h !! hash = Some p → wp_graced p = false →
    nt_pending h' = <[hash := { p with wp_graced := true; wp_deadline := now + natWakeIPv6Grace }]> (nt_pending h) → nt_wakes h' = nt_wakes h →
    waitStep now h h' outs
| ws_end h h' outs hash p :
    nt_pending h !! hash = Some p → nt_pending h' = delete hash (nt_pending h) → nt_wakes h' = nt_wakes h →
    wakeOutbound hash p now h' `sublist_of` outs → waitStep now h h' outs.

Definition sameWaits h h' : Prop := nt_pending h' = nt_pending h ∧ nt_wakes h' = nt_wakes h.

Lemma wait_before now h h1 h' outs : sameWaits h h1 → waitStep now h1 h' outs → waitStep now h h' outs.
Proof.
  intros [E1 E2] Hw. destruct Hw as [h1 h' outs ? ?|h1 h' outs dst p w fam ? ? ?|h1 h' outs dst w fam ? ? ? ?|h1 h' outs hash p ? ? ? ?|h1 h' outs hash p ? ? ? ?];
    rewrite ?E1, ?E2 in *.
  - by apply ws_same.
  - by eapply ws_join.
  - by eapply ws_begin.
  - by eapply ws_grace.
  - by eapply ws_end.
Qed.

Lemma upsert_waits hash remote version sock now h : sameWaits h (upsert hash remote version sock now h).
Proof.
  unfold upsert, setSlotLocked. set (entry := if 0 <? version then _ else _). set (h1 := if _ && _ then _ else h).
  set (h2 := match nt_byAddr h1 !! _ with Some _ => _ | None => h1 end). assert (sameWaits h h1) as [E1 F1] by (unfold h1; destruct (_ && _); by destruct h).
  assert (sameWaits h1 h2) as [E2 F2].
  { unfold h2. destruct (nt_byAddr h1 !! _); [|done]. case_bool_decide; [done|]. destruct (nt_entries h1 !! _); [|done]. by destruct h1. }
  destruct h2. cbn in *. by split; cbn; congruence.
Qed.

Lemma touch_waits remote sock now h : sameWaits h (touchByAddr remote sock now h).1.
Proof.
  unfold touchByAddr. destruct (nt_byAddr h !! _); [|done]. destruct (nt_entries h !! _); [|done]. destruct (_ || _); [done|]. by destruct h.
Qed.

Lemma socket_waits conn port h : sameWaits h (socketIndex conn port h).1.
Proof.
  unfold socketIndex. destruct (port =? 0); [done|]. destruct (nt_sockByPort h !! port) as [i|].
  - case_bool_decide; [done|by destruct h].
  - destruct (255 <=? _); [done|by destruct h].
Qed.

Lemma complete_waits hash remote now h outs : waitStep now h (completeWake hash remote now h).1 (outs ++ (completeWake hash remote now h).2).
Proof.
  unfold completeWake. destruct (nt_pending h !! hash) as [p|] eqn:Ep; [|by apply ws_same]. destruct (_ =? 0); [by apply ws_same|].
  destruct (_ && _).
  - destruct (wp_graced p) eqn:Eg; [by apply ws_same|]. eapply ws_grace; [done|done|by destruct h..].
  - eapply ws_end; [done|by destruct h..|]. cbn [fst snd]. by apply sublist_inserts_l.
Qed.

Lemma wake_waits src dst ack remote conn now h r outs : waitStep now h (wakeTarget hooks src dst ack remote conn now h r).1.1 outs.
Proof.
  unfold wakeTarget. destruct (hk_wake hooks) as [wake|]; [|by apply ws_same]. case_bool_decide; [by apply ws_same|].
  set (fam := match hk_addrs hooks with Some _ => _ | None => _ end). destruct (fam =? 0); [by apply ws_same|].
  destruct (match hk_member hooks with Some _ => _ | None => _ end); [by apply ws_same|]. destruct (nt_pending h !! dst) as [p|] eqn:Ep.
  - destruct (addWaiter _ p) as [p' joined] eqn:Ea. eapply (ws_join _ _ _ _ _ p (mkWaiter (ce_hash src) ack remote conn)); [done| |].
    + rewrite Ea. destruct joined; by destruct h.
    + destruct joined; by destruct h.
  - destruct (Z.leb_spec natWakeMaxPending (size (nt_pending h))); [by apply ws_same|]. destruct (wake dst fam r) as [r' []]; [|by apply ws_same].
    eapply ws_begin; [done|lia|by destruct h..].
Qed.

Lemma register_waits remote payload port sock ex now h r :
  waitStep now h (handleRegister hooks remote payload port sock ex now h r).1 (handleRegister hooks remote payload port sock ex now h r).2.
Proof.
  unfold handleRegister. destruct (length payload <? 16); [by apply ws_same|]. destruct (negb _); [by apply ws_same|].
  set (h1 := upsert _ _ _ _ _ h). eapply wait_before; [apply upsert_waits|]. fold h1.
  match goal with |- context [completeWake ?k remote now h1] => pose proof (complete_waits k remote now h1) as Hc; destruct (completeWake k remote now h1) as [h2 outs] end.
  cbn [fst snd] in *. match goal with |- context [?a :: outs] => exact (Hc [a]) end.
Qed.

Lemma sync_source_waits srcHash remote sock now h r : sameWaits h (syncSource hooks srcHash remote sock now h r).1.
Proof.
  unfold syncSource. destruct (match getEntry srcHash now h with Some _ => _ | None => _ end); [done|].
  destruct (registerAllowed _ _ _ _ _ _); [apply upsert_waits|done].
Qed.

Lemma sync_waits remote payload conn sock now h r outs : waitStep now h (handleSync2 hooks remote payload conn sock now h r).1.1 outs.
Proof.
  unfold handleSync2. destruct (length payload <? 36); [by apply ws_same|].
  pose proof (sync_source_waits (take 16 payload) remote sock now h r) as Hs. destruct (syncSource _ _ _ _ _ _ _) as [h1 src]. cbn [fst] in Hs.
  eapply wait_before; [exact Hs|]. set (d := take 16 (drop 20 payload)).
  pose proof (wake_waits src d (take 4 (drop 16 payload)) remote conn now h1 r outs) as Hw.
  destruct (getEntry d now h1) as [dst|].
  - destruct (match hk_member hooks with Some _ => _ | None => _ end); [by apply ws_same|]. destruct (pairOutbound _ _ _ _); [|by apply ws_same].
    by destruct (wakeTarget _ _ _ _ _ _ _ _ _) as [[h2 r2] []].
  - by destruct (wakeTarget _ _ _ _ _ _ _ _ _) as [[h2 r2] []].
Qed.

Lemma keepalive_waits remote sock now h r outs : waitStep now h (handleKeepAlive hooks remote sock now h r).1.1 outs.
Proof.
  unfold handleKeepAlive. destruct (touch_waits remote sock now h) as [E1 E2].
  destruct (touchByAddr remote sock now h) as [h' [hash|]]; by apply ws_same.
Qed.

Lemma packet_waits data remote port conn now h r :
  waitStep now h (processPacketFrom hooks data remote port conn now h r).1.1 (processPacketFrom hooks data remote port conn now h r).2.
Proof.
  unfold processPacketFrom. case_bool_decide; [by apply ws_same|].
  pose proof (socket_waits conn port h) as Hs. destruct (socketIndex conn port h) as [h1 sock]. eapply wait_before; [exact Hs|]. cbn [fst].
  case_bool_decide; [apply keepalive_waits|]. destruct (decodeNATPacket data) as [[op payload]|]; [|by apply ws_same].
  destruct (_ && _); [by apply ws_same|]. destruct (_ || _).
  { pose proof (register_waits remote payload port sock (op =? OpNatRegisterEx) now h1 r) as Hr. by destruct (handleRegister _ _ _ _ _ _ _ _ _). }
  destruct (op =? OpNatKeepAlive); [apply keepalive_waits|]. destruct (op =? OpNatSync2); [apply sync_waits|by apply ws_same].
Qed.

(** ** Answers *)

(** The answer to a requester leaves through the socket of its own SYNC2: the target's
    endpoint, sent to the requester's candidate of that family, or a failure. *)
Definition answerFor (hash : bytes) (now : Z) h (w : natWakeWaiter) (d : datagram) : Prop :=
  d = WriteToUDP (ww_conn w) (encodeNATPacket OpNatFailed (natFailReasonNotRegistered :: hash)) (ww_remote w) ∨
  ∃ src dst a, getEntry (ww_hash w) now h = Some src ∧ getEntry hash now h = Some dst ∧
    head (pairOutbound src dst (ww_connAck w) (nt_ipv6Enabled h)) = Some a ∧ d = WriteToUDP (ww_conn w) (ob_packet a) (ob_to a).

Lemma omap_sublist {A B} (f : A → option B) l k : l `sublist_of` k → omap f l `sublist_of` omap f k.
Proof.
  induction 1 as [|x l k _ IH|x l k _ IH]; [done|..]; cbn; destruct (f x); try done; [by apply sublist_skip|by apply sublist_cons].
Qed.

Lemma send_answers hash p now h h1 conn fallback remote outs :
  wakeOutbound hash p now h `sublist_of` outs →
  ∃ answers, answers `sublist_of` sendOutbound conn fallback remote h1 outs ∧ Forall2 (answerFor hash now h) (wp_waiters p) answers.
Proof.
  intros Hs. enough (∃ answers, answers `sublist_of` sendOutbound conn fallback remote h1 (wakeOutbound hash p now h) ∧
    Forall2 (answerFor hash now h) (wp_waiters p) answers) as (answers&Ha&?).
  { exists answers. split; [|done]. etransitivity; [exact Ha|]. by apply omap_sublist. }
  clear Hs outs. unfold wakeOutbound, sendOutbound. induction (wp_waiters p) as [|w ws IH]; [by exists []|]. destruct IH as (answers&Ha&HF).
  cbn [flat_map]. set (pair := match getEntry (ww_hash w) now h with Some _ => _ | None => _ end). rewrite omap_app. destruct pair as [|a rest] eqn:Ep.
  - eexists (_ :: answers). split; [cbn; by apply sublist_skip|]. constructor; [by left|done].
  - eexists (_ :: answers). split; [cbn; by apply sublist_skip, sublist_inserts_l|]. constructor; [|done]. right. unfold pair in Ep.
    destruct (getEntry (ww_hash w) now h) as [src|]; [|done]. destruct (getEntry hash now h) as [dst|]; [|done].
    exists src, dst, a. rewrite Ep. by destruct a.
Qed.

Lemma cleanup_waits now h : sameWaits h (cleanup now h).
Proof.
  unfold cleanup. generalize (map_to_list (nt_entries h)).*1 as ks. generalize (tick now h) as t. intros t ks. revert h.
  induction ks as [|k ks IH]; intros h; [done|]. cbn. destruct (IH (cleanupEntry k t h)) as [X1 X2].
  enough (sameWaits h (cleanupEntry k t h)) as [Y1 Y2] by (split; congruence). clear IH X1 X2. unfold cleanupEntry.
  destruct (nt_entries h !! k) as [e|]; [|done].
  assert (∀ h e f (b : bool), sameWaits h (if b then clearSlotLocked k e f h else (h, e)).1) as Hc.
  { clear. intros h e f []; [|done]. unfold clearSlotLocked. destruct (ownedBy _ _ _); by destruct h. }
  match goal with |- context [if ?b then clearSlotLocked k e false h else _] => pose proof (Hc h e false b) as [E1 F1] end.
  destruct (if _ && _ then clearSlotLocked k e false h else _) as [h1 e1]. cbn [fst] in *.
  match goal with |- context [if ?b then clearSlotLocked k e1 true h1 else _] => pose proof (Hc h1 e1 true b) as [E2 F2] end.
  destruct (if _ && _ then clearSlotLocked k e1 true h1 else _) as [h2 e2]. cbn [fst] in *. destruct h2. cbn in *. by split; cbn; congruence.
Qed.

(** Every step, with what it sent. *)
Lemma step_waits now h r ev h' r' out :
  natStep now h r ev = (h', r', out) →
  ∃ outs, waitStep now h h' outs ∧ ∀ hash p, wakeOutbound hash p now h' `sublist_of` outs →
    ∃ answers, answers `sublist_of` out ∧ Forall2 (answerFor hash now h') (wp_waiters p) answers.
Proof.
  destruct ev as [data remote conn| |hash id|r1]; cbn [natStep]; intros Hs.
  - unfold HandlePacket in Hs. set (port := if 0 <? _ then _ else _) in *.
    pose proof (packet_waits data remote port conn now h r) as Hw. destruct (processPacketFrom _ _ _ _ _ _ _ _) as [[h1 r1] outs]. cbn [fst snd] in Hw.
    injection Hs as <- <- <-. exists outs. split; [done|]. intros hash p Hsub. by apply send_answers.
  - injection Hs as <- <- <-. destruct (cleanup_waits now h) as [E1 E2]. exists []. split; [by apply ws_same|].
    intros hash p Hsub. destruct (send_answers hash p now (cleanup now h) (cleanup now h) None None None [] Hsub) as (answers&Ha&?). by exists answers.
  - unfold expireWake in Hs. destruct (nt_pending h !! hash) as [p|] eqn:Ep; [case_bool_decide|].
    2-3: injection Hs as <- <- <-; exists []; split; [by apply ws_same|]; intros hash' p' Hsub; destruct (send_answers hash' p' now h h None None None [] Hsub) as (answers&Ha&?); by exists answers.
    set (h1 := { h with nt_pending := delete hash (nt_pending h) }) in Hs. assert (nt_pending h1 = delete hash (nt_pending h) ∧ nt_wakes h1 = nt_wakes h) as [E1 E2] by by destruct h.
    clearbody h1. injection Hs as <- <- <-. exists (wakeOutbound hash p now h1). split.
    + by eapply ws_end.
    + intros hash' p' Hsub. by apply send_answers.
  - injection Hs as <- <- <-. exists []. split; [by apply ws_same|].
    intros hash p Hsub. destruct (send_answers hash p now h h None None None [] Hsub) as (answers&Ha&?). by exists answers.
Qed.

(** ** Bounds on the waits *)

Definition wait_ok (n : nat) (p : natWakePending) : Prop :=
  (wp_id p < n)%nat ∧ wp_waiters p ≠ [] ∧ length (wp_waiters p) ≤ natWakeMaxWaiters ∧ NoDup (ww_hash <$> wp_waiters p).

Lemma replace_waiter w ws ws' : replaceWaiter w ws = Some ws' → ww_hash <$> ws' = ww_hash <$> ws ∧ length ws' = length ws.
Proof.
  revert ws'. induction ws as [|x ws IH]; intros ws'; [done|]. cbn. case_bool_decide as Eh; [intros [= <-]; cbn; by rewrite Eh|].
  destruct (replaceWaiter w ws) as [ws1|]; [|done]. intros [= <-]. destruct (IH ws1 eq_refl) as [E1 E2]. cbn. split; congruence.
Qed.

Lemma replace_none w ws : replaceWaiter w ws = None → ww_hash w ∉ ww_hash <$> ws.
Proof.
  induction ws as [|x ws IH]; [intros _; apply not_elem_of_nil|]. cbn. case_bool_decide as Eh; [done|]. destruct (replaceWaiter w ws); [done|].
  intros _. apply not_elem_of_cons. split; [congruence|by apply IH].
Qed.

Lemma add_waiter w p :
  let p' := (addWaiter w p).1 in
  wp_id p' = wp_id p ∧ wp_deadline p' = wp_deadline p ∧ wp_graced p' = wp_graced p ∧ ∀ n, wait_ok n p → wait_ok n p'.
Proof.
  unfold addWaiter. destruct (replaceWaiter w (wp_waiters p)) as [ws|] eqn:Er.
  - apply replace_waiter in Er as [E1 E2]. destruct p as [id fam ws0 dl g]. cbn in *. split_and!; try done. intros n (?&Hne&?&?). unfold wait_ok. cbn in *.
    rewrite E1, E2. split_and!; try done. destruct ws0; [done|]. by destruct ws.
  - destruct (Z.leb_spec natWakeMaxWaiters (length (wp_waiters p))); [done|]. apply replace_none in Er. destruct p as [id fam ws0 dl g]. cbn in *.
    split_and!; try done. intros n (?&Hne&?&?). unfold wait_ok. cbn in *. rewrite length_app. cbn. split_and!; [done|by destruct ws0|lia|].
    rewrite fmap_app. apply NoDup_app. split_and!; [done| |apply NoDup_singleton]. intros x Hx ->%list_elem_of_singleton. done.
Qed.

Lemma wait_more n m p : wait_ok n p → (n ≤ m)%nat → wait_ok m p.
Proof. intros (?&?&?&?) ?. split_and!; try done. lia. Qed.

(** A run on a clock: time does not go back, and a timer fires before anything happens
    past its deadline. [born] says when each wait began. *)
Inductive timely h0 r0 : Z → gmap nat Z → NATTraversalHandler → R → Prop :=
| timely_start now : timely h0 r0 now ∅ h0 r0
| timely_step clock born h r now ev h' r' out :
    timely h0 r0 clock born h r → clock ≤ now → (∀ hash p, nt_pending h !! hash = Some p → now ≤ wp_deadline p) →
    natStep now h r ev = (h', r', out) →
    timely h0 r0 now (if bool_decide (nt_wakes h' = nt_wakes h) then born else <[nt_wakes h := now]> born) h' r'.

(** The wait began at a known time and its timer is set for three seconds after, or half a
    second more. *)
Definition scheduled (clock : Z) (born : gmap nat Z) (p : natWakePending) : Prop :=
  ∃ b, born !! wp_id p = Some b ∧ b ≤ clock ∧ wp_deadline p ≤ b + natWakeTimeout + (if wp_graced p then natWakeIPv6Grace else 0).

Record waits_ok (clock : Z) (born : gmap nat Z) h : Prop := {
  wo_size : size (nt_pending h) ≤ natWakeMaxPending;
  wo_each : ∀ hash p, nt_pending h !! hash = Some p → wait_ok (nt_wakes h) p ∧ scheduled clock born p;
}.

Lemma scheduled_later clock born now p : scheduled clock born p → clock ≤ now → scheduled now born p.
Proof. intros (b&?&?&?) ?. exists b. split_and!; try done. lia. Qed.

Lemma waits_insert clock born h h' hash p :
  waits_ok clock born h → is_Some (nt_pending h !! hash) → nt_pending h' = <[hash := p]> (nt_pending h) → nt_wakes h' = nt_wakes h →
  wait_ok (nt_wakes h) p → scheduled clock born p → waits_ok clock born h'.
Proof.
  intros [Hsz He] Hin E1 E2 Hp Hsch. split.
  - rewrite E1. destruct Hin as [q Hq]. by rewrite map_size_insert_Some by (by exists q).
  - intros hash' p'. rewrite E1, E2. intros [[<- <-]|[_ ?]]%lookup_insert_Some; [done|by eapply He].
Qed.

Lemma waits_later clock born h now : waits_ok clock born h → clock ≤ now → waits_ok now born h.
Proof. intros [Hsz He] Hle. split; [done|]. intros hash p Hp. destruct (He hash p Hp) as [? ?]. split; [done|by eapply scheduled_later]. Qed.

Lemma waits_step clock born h h' now outs :
  waits_ok clock born h → clock ≤ now → (∀ hash p, nt_pending h !! hash = Some p → now ≤ wp_deadline p) → waitStep now h h' outs →
  waits_ok now (if bool_decide (nt_wakes h' = nt_wakes h) then born else <[nt_wakes h := now]> born) h'.
Proof.
  intros Hw0 Hle Hd Hs. pose proof (waits_later _ _ _ now Hw0 Hle) as Hw. clear Hw0. pose proof Hw as [Hsz He].
  destruct Hs as [h h' outs Ep En|h h' outs dst p w fam Hp Ep En|h h' outs dst w fam Hp Hsize Ep En|h h' outs hash p Hp Hg Ep En|h h' outs hash p Hp Ep En _].
  - rewrite bool_decide_true by done. split; rewrite ?Ep, ?En; done.
  - rewrite bool_decide_true by done. destruct (He dst p Hp) as [Hok (b&?&?&?)]. destruct (add_waiter w p) as (E1&E2&E3&E4). cbn zeta in *.
    eapply waits_insert; [done|by exists p|done|done|..].
    + specialize (E4 _ Hok). by destruct (addWaiter w p).1.
    + exists b. destruct (addWaiter w p).1. cbn in *. subst. by split_and!.
  - rewrite bool_decide_false by lia. split.
    + rewrite Ep, map_size_insert_None by done. unfold natWakeMaxPending in *. lia.
    + intros hash q. rewrite Ep, En. intros [[<- <-]|[_ Hq]]%lookup_insert_Some.
      * split; [split_and!; cbn; [lia|done|unfold natWakeMaxWaiters; cbn; lia|apply NoDup_singleton]|].
        exists now. cbn. rewrite lookup_insert_eq. split_and!; [done|lia|lia].
      * destruct (He hash q Hq) as [Hok (b&?&?&?)]. split; [eapply wait_more; [done|lia]|]. exists b. destruct Hok as (?&_). rewrite lookup_insert_ne by lia. done.
  - rewrite bool_decide_true by done. destruct (He hash p Hp) as [Hok (b&?&?&Hdl)]. rewrite Hg in Hdl. pose proof (Hd hash p Hp).
    eapply waits_insert; [done|by exists p|done|done|by destruct p|]. exists b. destruct p. cbn in *. split_and!; [done|done|lia].
  - rewrite bool_decide_true by done. split.
    + rewrite Ep. pose proof (map_size_delete hash (nt_pending h)) as Hsd. rewrite Hp in Hsd. lia.
    + intros hash' q. rewrite Ep, En. intros [_ Hq]%lookup_delete_Some. by apply He in Hq.
Qed.

Lemma timely_ok h0 r0 clock born h r : freshNAT h0 → timely h0 r0 clock born h r → waits_ok clock born h.
Proof.
  intros H0 Ht. induction Ht as [now|clock born h r now ev h' r' out Ht IH Hle Hd Hs].
  - split; rewrite (fn_pending _ H0); [rewrite map_size_empty; unfold natWakeMaxPending; lia|intros hash p; by rewrite lookup_empty].
  - destruct (step_waits _ _ _ _ _ _ _ Hs) as (outs&Hw&_). by eapply waits_step.
Qed.

End Runs.

(** ** A rendezvous *)

Section Example.

(** A server that knows the IPv4 addresses of its sessions. *)
Abbreviation sessions := (list (bytes * bytes)).

Definition sessionAt (hash : bytes) (r : sessions) : option bytes :=
  match List.filter (λ p, bool_decide (p.1 = hash)) r with p :: _ => Some p.2 | [] => None end.

Definition exampleHooks : natHooks sessions :=
  mkHooks (Some (λ hash r, bool_decide (is_Some (sessionAt hash r)))) (Some (λ _ r, r))
    (Some (λ hash r, (sessionAt hash r, None, bool_decide (is_Some (sessionAt hash r)))))
    (Some (λ hash _ r, (r, bool_decide (is_Some (sessionAt hash r))))).

Fixpoint natPlay (evs : list (Z * natEvent sessions)) h (r : sessions) : NATTraversalHandler * sessions :=
  match evs with
  | [] => (h, r)
  | (now, ev) :: evs => let '(h, r, _) := natStep exampleHooks now h r ev in natPlay evs h r
  end.

Lemma play_run evs h0 r0 tr h r :
  Forall (λ p, arrives p.2) evs → natRun exampleHooks h0 r0 tr h r →
  ∃ tr', natRun exampleHooks h0 r0 tr' (natPlay evs h r).1 (natPlay evs h r).2.
Proof.
  revert tr h r. induction evs as [|[now ev] evs IH]; intros tr h r Ha Hr; [by exists tr|]. apply Forall_cons in Ha as [Ha Has]. cbn [natPlay].
  destruct (natStep exampleHooks now h r ev) as [[h' r'] out] eqn:Es. eapply IH; [done|]. by eapply nat_step.
Qed.

Definition natAlice : bytes := replicate 16 0xA1.
Definition natBob : bytes := replicate 16 0xB0.
Definition aliceAt : UDPAddr := mkUDPAddr [203; 0; 113; 7] 4672.
Definition bobAt : UDPAddr := mkUDPAddr [198; 51; 100; 9] 4672.
Definition natSocket : udpReplyConn := mkReplyConn (mkListener 0 2004) None None.
Definition both : sessions := [(natAlice, ua_IP aliceAt); (natBob, ua_IP bobAt)].
Definition emptyNAT : NATTraversalHandler := NewNATTraversalHandler 0 0.

Definition sync2 (src ack dst : bytes) : bytes := encodeNATPacket OpNatSync2 (src ++ ack ++ dst).
Definition register (hash : bytes) : bytes := encodeNATPacket OpNatRegister hash.

(** Alice asks for Bob, who is not registered: Bob is woken, and Alice waits. *)
Definition waitingEvents : list (Z * natEvent sessions) :=
  [(Second, NtDatagram (register natAlice) aliceAt natSocket); (2 * Second, NtDatagram (sync2 natAlice [1; 2; 3; 4] natBob) aliceAt natSocket)].
Definition waiting : NATTraversalHandler := (natPlay waitingEvents emptyNAT both).1.

Lemma empty_fresh : freshNAT emptyNAT.
Proof. done. Qed.

Lemma waiting_run : ∃ tr, natRun exampleHooks emptyNAT both tr waiting both.
Proof.
  destruct (play_run waitingEvents emptyNAT both [] emptyNAT both) as [tr Hr]; [|constructor|].
  - repeat constructor; left; done.
  - exists tr. assert ((natPlay waitingEvents emptyNAT both).2 = both) as E0 by by vm_compute. by rewrite E0 in Hr.
Qed.

(** Alice's keepalive is matched by the index and by the scan. *)
Lemma nat_index_witness : ∃ h', touchByAddr aliceAt 1 (3 * Second) waiting = (h', Some natAlice) ∧ scanByAddr aliceAt 1 (3 * Second) waiting = (h', Some natAlice).
Proof.
  destruct waiting_run as [tr Hr]. destruct (nat_index exampleHooks emptyNAT both tr waiting both aliceAt 1 (3 * Second) empty_fresh Hr) as [_ Hs].
  eexists. rewrite <- Hs. split; by vm_compute.
Defined.

(** Alice's candidate is where her session is. *)
Lemma nat_binding_witness : ∃ r1 remote, mkUDPAddr [203; 0; 113; 7] 4672 = udpAddr (natEndpointOf remote) ∧
  sessionAddress (sessionAt natAlice r1, None, bool_decide (is_Some (sessionAt natAlice r1))) remote.
Proof.
  destruct waiting_run as [tr Hr]. pose (e := default noClient (getEntry natAlice (3 * Second) waiting)).
  destruct (nat_binding exampleHooks _ emptyNAT both tr waiting both natAlice (3 * Second) e
    (mkCandidate (mkUDPAddr [203; 0; 113; 7] 4672) (2 * Second - Second) 1) eq_refl empty_fresh Hr) as (_&at_&r1&data&remote&conn&_&Ea&Hs).
  - by vm_compute.
  - left. by vm_compute.
  - by exists r1, remote.
Defined.

Fixpoint playTimely (evs : list (Z * natEvent sessions)) clock born h (r : sessions) : Z * gmap nat Z * NATTraversalHandler * sessions * bool :=
  match evs with
  | [] => (clock, born, h, r, true)
  | (now, ev) :: evs =>
      let '(h', r', _) := natStep exampleHooks now h r ev in
      let ok := (clock <=? now) && bool_decide (map_Forall (λ _ p, now ≤ wp_deadline p) (nt_pending h)) in
      let '(st, ok') := playTimely evs now (if bool_decide (nt_wakes h' = nt_wakes h) then born else <[nt_wakes h := now]> born) h' r' in
      (st, ok && ok')
  end.

Lemma play_timely evs h0 r0 clock born h r : timely exampleHooks h0 r0 clock born h r →
  let '(clock', born', h', r', ok) := playTimely evs clock born h r in ok = true → timely exampleHooks h0 r0 clock' born' h' r'.
Proof.
  revert clock born h r. induction evs as [|[now ev] evs IH]; intros clock born h r Ht; [by intros _|]. cbn [playTimely].
  destruct (natStep exampleHooks now h r ev) as [[h' r'] out] eqn:Es. pose proof (λ X, IH now _ h' r' (timely_step exampleHooks h0 r0 clock born h r now ev h' r' out Ht (proj1 X) (proj2 X) Es)) as Hn.
  destruct (playTimely evs now _ h' r') as [[[[clock' born'] h1] r1] ok]. intros [[Hle%Z.leb_le Hd%bool_decide_eq_true]%andb_true_iff Hok]%andb_true_iff.
  apply Hn; [|done]. split; [done|]. intros hash p Hp. exact (Hd hash p Hp).
Qed.

End Example.
