(* ===== verification/Gossip.v ===== *)
(** * Server-to-server gossip: [ed2k/gossipoperations.go], [ed2k/gossip.go],
    [ed2k/gossipclient.go]

    The wire codec, the table of peer servers with its admission policy, and the rounds
    that contact the peers. The table's methods run under its lock: each is a function on
    the handler. Where one walks the table, Go's order is arbitrary; the walk is an argument
    (see [Walk]). *)

From S2P Require Import Prelude Buffer Types Address NetIP Packet Builders UDPCrypt Text SortedIDs NatTraversal.
Local Open Scope Z_scope.

(** ** Constants *)

Definition OpServerListReq : Z := 0xa0.
Definition OpServerListRes : Z := 0xa1.
Definition OpServerListReq2 : Z := 0xa4.
Definition OpServerListReqIPv6 : Z := 0xa7.
Definition OpServerListResIPv6 : Z := 0xa8.
Definition OpGlobServStatReq : Z := 0x96.
Definition OpServerDescReq : Z := 0xa2.
Definition FlagIPv6 : Z := 0x4000.
Definition maxGossipPeers : Z := 255.
Definition obfPingMaxPad : Z := 14.
Definition recentClientWindow : Z := 30 * 60 * Second.
Definition parkedRetryRounds : Z := 8.
Definition maxInboundChallenges : Z := 1024.
Definition peerMainUDPOffset : Z := 4.
Definition peerObfPingOffset : Z := 12.
Definition peerGossipOffset : Z := 14.
Definition maxServerSearchURL : Z := 255.
Definition ErrGossipShort : error := ErrNew "gossip frame too short".
Definition ErrGossipTruncated : error := ErrNew "gossip peer list truncated".

(** ** The codec *)

(** A nil address has no bytes. *)
Record PeerAddr := mkPeerAddr { pa_IP : bytes; pa_Port : Z }.
#[export] Instance PeerAddr_eq_dec : EqDecision PeerAddr.
Proof. solve_decision. Defined.

Definition peerString (p : PeerAddr) : bytes := JoinHostPort (IPString (pa_IP p)) (Itoa (pa_Port p)).

Definition BuildServerListReqPacket (ip : bytes) (tcpPort challenge : Z) : result Buffer :=
  match To4 ip with
  | None => Err (ErrNew "OP_SERVER_LIST_REQ requires an IPv4 address")
  | Some v4 => MakeUDPPacket PrED2K [u8_item OpServerListReq; u32_item (uint32FromV4 v4); u16_item tcpPort; u32_item challenge]
  end.

(** The address, the port and the challenge of the longer form. *)
Definition ParseServerListReq : M Buffer (bytes * Z * option Z) :=
  raw ← Get 4;
  if negb (bool_decide (length raw = 4%nat)) then fail ErrGossipShort else
  port ← wrap_err (λ _, ErrGossipShort) GetUInt16LE;
  r ← Remaining;
  if r <? 4 then mret (raw, port, None) else
  challenge ← wrap_err (λ _, ErrGossipShort) GetUInt32LE;
  mret (raw, port, Some challenge).

Definition BuildServerListReq2Packet : result Buffer := MakeUDPPacket PrED2K [u8_item OpServerListReq2].
Definition BuildServerListReqIPv6Packet : result Buffer := MakeUDPPacket PrED2K [u8_item OpServerListReqIPv6].

Definition BuildServerListResPacket (peers : list PeerAddr) : result Buffer :=
  let v4 := take (Z.to_nat maxGossipPeers) (omap (λ p, (λ v4, (v4, pa_Port p)) <$> To4 (pa_IP p)) peers) in
  MakeUDPPacket PrED2K ([u8_item OpServerListRes; u8_item (u8 (length v4))] ++
    flat_map (λ '(ip, port), [u32_item (uint32FromV4 ip); u16_item port]) v4).

Definition BuildServerListResIPv6Packet (peers : list PeerAddr) : result Buffer :=
  let v6 := take (Z.to_nat maxGossipPeers) (omap (λ p, (λ v6, (v6, pa_Port p)) <$> IPv6Bytes (pa_IP p)) peers) in
  MakeUDPPacket PrED2K ([u8_item OpServerListResIPv6; u8_item (u8 (length v6))] ++
    flat_map (λ '(ip, port), [hash_item ip; u16_item port]) v6).

(** One entry of a peer list whose addresses have [k] bytes. *)
Definition getPeerAddr (k : nat) : M Buffer PeerAddr :=
  raw ← Get k;
  if negb (bool_decide (length raw = k)) then fail ErrGossipTruncated else
  port ← wrap_err (λ _, ErrGossipTruncated) GetUInt16LE;
  mret (mkPeerAddr raw port).

Definition parsePeerList (k : nat) : M Buffer (list PeerAddr) :=
  count ← wrap_err (λ _, ErrGossipShort) GetUInt8;
  r ← Remaining;
  if r <? count * (k + 2) then fail ErrGossipTruncated else
  for_collect (Z.to_nat count) 0 (λ _, getPeerAddr k).

Definition ParseServerListRes : M Buffer (list PeerAddr) := parsePeerList 4.
Definition ParseServerListResIPv6 : M Buffer (list PeerAddr) := parsePeerList 16.

(** The ping over the random bytes it draws: eighteen, then single ones until the first
    byte is no protocol; [None] when the draws run out. *)
Fixpoint redraw (b : Z) (draws : bytes) : option Z :=
  if negb (IsProtocol b) then Some b else match draws with [] => None | d :: draws => redraw d draws end.

Definition BuildObfPingRequest (buf draws : bytes) : option (bytes * Z) :=
  match redraw (nth 0 buf 0) draws with
  | None => None
  | Some first =>
      let padLen := nth 4 buf 0 `mod` (obfPingMaxPad + 1) in
      let packet := take (Z.to_nat (4 + padLen)) (first :: drop 1 buf) in
      let challenge := uint32FromV4 (take 4 packet) in
      if challenge =? 0 then
        let b := Z.lor (nth 0 packet 0) 0x01 in
        let b := if IsProtocol b then Z.lxor b 0x80 else b in
        let packet := b :: drop 1 packet in
        Some (packet, uint32FromV4 (take 4 packet))
      else Some (packet, challenge)
  end.

Record StatResFields := mkStatRes {
  sr_Challenge : Z; sr_Users : Z; sr_Files : Z; sr_MaxUsers : Z; sr_SoftFiles : Z; sr_HardFiles : Z; sr_UDPFlags : Z; sr_LowIDUsers : Z;
  sr_UDPPortObf : Z; sr_TCPPortObf : Z; sr_ServerKey : Z; sr_ObservedIP : option bytes; sr_Extended : bool }.

Definition noStatRes : StatResFields := mkStatRes 0 0 0 0 0 0 0 0 0 0 0 None false.

(** [GetUInt32LE] whose error ends the reply where it is. *)
Definition orEnd {A} (m : M Buffer Z) (ended : result A) (k : Z → M Buffer A) : M Buffer A := λ b,
  match m b with
  | (b, Ok v) => k v b
  | (b, Err _) => (b, ended)
  | (b, Panic) => (b, Panic)
  end.

Definition ParseGlobServStatRes : M Buffer StatResFields :=
  let o := noStatRes in
  orEnd GetUInt32LE (Err ErrGossipShort) (λ v, let o := { o with sr_Challenge := v } in
  orEnd GetUInt32LE (Err ErrGossipShort) (λ v, let o := { o with sr_Users := v } in
  orEnd GetUInt32LE (Err ErrGossipShort) (λ v, let o := { o with sr_Files := v } in
  orEnd GetUInt32LE (Ok o) (λ v, let o := { o with sr_MaxUsers := v } in
  orEnd GetUInt32LE (Ok o) (λ v, let o := { o with sr_SoftFiles := v } in
  orEnd GetUInt32LE (Ok o) (λ v, let o := { o with sr_HardFiles := v } in
  orEnd GetUInt32LE (Ok o) (λ v, let o := { o with sr_UDPFlags := v } in
  orEnd GetUInt32LE (Ok o) (λ v, let o := { o with sr_LowIDUsers := v } in
  r ← Remaining;
  if r <? 8 then mret o else
  orEnd GetUInt16LE (Ok o) (λ udpObf,
  orEnd GetUInt16LE (Ok o) (λ tcpObf,
  orEnd GetUInt32LE (Ok o) (λ key,
  let o := { o with sr_UDPPortObf := udpObf; sr_TCPPortObf := tcpObf; sr_ServerKey := key; sr_Extended := true } in
  raw ← Get 4;
  mret (if bool_decide (length raw = 4%nat) then { o with sr_ObservedIP := Some raw } else o)))))))))))).

(** ** The peer table *)

Inductive peerState := peerSeen | peerKeyed | peerDescribed | peerVerified.
#[export] Instance peerState_eq_dec : EqDecision peerState.
Proof. solve_decision. Defined.

Definition stateRank (s : peerState) : Z := match s with peerSeen => 0 | peerKeyed => 1 | peerDescribed => 2 | peerVerified => 3 end.
Definition advertisableState : peerState := peerDescribed.

Record PeerServer := mkPeer {
  p_Addr : PeerAddr; p_Name : bytes; p_Desc : bytes;
  p_ServerKey : Z; p_UDPPortObf : Z; p_TCPPortObf : Z; p_UDPFlags : Z;
  p_ServerSearch : ServerSearchAdvert; p_Ed3k : bytes;
  p_OurChallenge : Z; p_PrevChallenge : Z; p_PlainChallenge : Z; p_RefererIP : option bytes;
  p_State : peerState; p_Users : Z; p_Files : Z; p_LastSeen : Z; p_LastVerified : Z; p_Failures : Z }.

Record GossipConfig := mkGossipConfig {
  gc_SelfIPv4 : option bytes; gc_SelfPort : Z; gc_SelfIPv6 : option bytes; gc_Name : bytes; gc_Desc : bytes;
  gc_MaxServers : Z; gc_MaxFailures : Z; gc_AllowPrivatePeers : bool; gc_PublishIPv6 : bool; gc_UDPPortObf : Z; gc_TCPPortObf : Z }.

Record GossipStats := mkGossipStats {
  gs_Known : Z; gs_Verified : Z; gs_Parked : Z; gs_Admitted : Z; gs_RejectedSelf : Z; gs_RejectedBad : Z; gs_RejectedFull : Z; gs_RejectedPeer : Z;
  gs_RejectedUnsolicited : Z; gs_RejectedPlaintext : Z }.

Record GossipHandler := mkGossip {
  g_cfg : GossipConfig; g_peers : gmap bytes PeerServer; g_clientIPs : gmap bytes Z; g_localIPs : gset bytes;
  g_inboundChallenges : gmap bytes Z; g_stats : GossipStats; g_round : Z }.

(** The order in which [range] visits a map. *)
Definition Walk := ∀ V : Type, gmap bytes V → list (bytes * V).
Definition isWalk (w : Walk) : Prop := ∀ V (m : gmap bytes V), w V m ≡ₚ map_to_list m.

Definition newPeer (addr : PeerAddr) (referer : option bytes) (seen : Z) : PeerServer :=
  mkPeer addr [] [] 0 0 0 0 (mkServerSearchAdvert [] []) [] 0 0 0 referer peerSeen 0 0 seen 0 0.

Definition Parked (maxFailures : Z) (p : PeerServer) : bool := (0 <? maxFailures) && (maxFailures <=? p_Failures p).

(** [NormalizeIP(ip).String()]. *)
Definition ipKey (ip : bytes) : bytes := IPString (default [] (NormalizeIP (Some ip))).
Definition normPeer (a : PeerAddr) : PeerAddr := mkPeerAddr (default [] (NormalizeIP (Some (pa_IP a)))) (pa_Port a).

Definition NewGossipHandler (cfg : GossipConfig) (seeds : list PeerAddr) : GossipHandler :=
  mkGossip cfg
    (foldl (λ m s, if bool_decide (pa_IP s = []) || (pa_Port s =? 0) then m else <[peerString s := newPeer s None 0]> m) ∅ seeds)
    ∅ ∅ ∅ (mkGossipStats 0 0 0 0 0 0 0 0 0 0) 0.

Definition onPeer (key : bytes) (f : PeerServer → PeerServer) (g : GossipHandler) : GossipHandler :=
  { g with g_peers := alter f key (g_peers g) }.
Definition onStats (f : GossipStats → GossipStats) (g : GossipHandler) : GossipHandler := { g with g_stats := f (g_stats g) }.

Definition AddLocalIP (ip : option bytes) (g : GossipHandler) : GossipHandler :=
  match ip with
  | Some ip => if IsUnspecified ip then g else { g with g_localIPs := {[ ipKey ip ]} ∪ g_localIPs g }
  | None => g
  end.

Definition NoteClient (ip : bytes) (now : Z) (g : GossipHandler) : GossipHandler :=
  let clients := <[ipKey ip := now]> (g_clientIPs g) in
  { g with g_clientIPs := if 4096 <? size clients then filter (λ kv, now - recentClientWindow ≤ kv.2) clients else clients }.

Definition advertisableLocked (p : PeerServer) (g : GossipHandler) : bool :=
  (stateRank advertisableState <=? stateRank (p_State p)) && negb (Parked (gc_MaxFailures (g_cfg g)) p).

Definition sharesPingPortLocked (g : GossipHandler) : bool :=
  negb (gc_UDPPortObf (g_cfg g) =? 0) && (gc_UDPPortObf (g_cfg g) =? gc_SelfPort (g_cfg g) + peerObfPingOffset).

Definition isSelfLocked (addr : PeerAddr) (g : GossipHandler) : bool :=
  let ip := IPString (pa_IP addr) in
  match gc_SelfIPv4 (g_cfg g) with Some self => bool_decide (ipKey self = ip) | None => false end ||
  match gc_SelfIPv6 (g_cfg g) with Some self => bool_decide (ipKey self = ip) | None => false end ||
  bool_decide (ip ∈ g_localIPs g).

(** The key of the peer found; the walk stops at the first match. *)
Definition findByIPLocked (w : Walk) (ip : bytes) (g : GossipHandler) : option (bytes * PeerServer) :=
  let want := ipKey ip in
  match List.filter (λ kp, bool_decide (IPString (pa_IP (p_Addr kp.2)) = want)) (w _ (g_peers g)) with
  | kp :: _ => Some kp
  | [] => None
  end.

Definition senderIsKnownLocked (w : Walk) (ip : bytes) (g : GossipHandler) : bool :=
  match findByIPLocked w ip g with Some (_, p) => stateRank peerKeyed <=? stateRank (p_State p) | None => false end.

Definition promoteLocked (to : peerState) (now : Z) (p : PeerServer) : PeerServer :=
  let p := if stateRank (p_State p) <? stateRank to then { p with p_State := to } else p in
  if stateRank advertisableState <=? stateRank to then { p with p_LastVerified := now } else p.

Definition admitLocked (addr : PeerAddr) (referer : option bytes) (now : Z) (g : GossipHandler) : GossipHandler * bool :=
  if bool_decide (pa_IP addr = []) || (pa_Port addr =? 0) then
    (onStats (λ s, { s with gs_RejectedBad := u64 (gs_RejectedBad s + 1) }) g, false)
  else
    let addr := normPeer addr in
    let key := peerString addr in
    if bool_decide (is_Some (g_peers g !! key)) then (g, true)
    else if negb (IsGoodServerEntry (pa_IP addr) (pa_Port addr) false (gc_AllowPrivatePeers (g_cfg g))) then
      (onStats (λ s, { s with gs_RejectedBad := u64 (gs_RejectedBad s + 1) }) g, false)
    else if isSelfLocked addr g then
      (onStats (λ s, { s with gs_RejectedSelf := u64 (gs_RejectedSelf s + 1) }) g, false)
    else if match g_clientIPs g !! IPString (pa_IP addr) with Some seen => now - seen <? recentClientWindow | None => false end then
      (onStats (λ s, { s with gs_RejectedPeer := u64 (gs_RejectedPeer s + 1) }) g, false)
    else if (0 <? gc_MaxServers (g_cfg g)) && (gc_MaxServers (g_cfg g) <=? size (g_peers g)) then
      (onStats (λ s, { s with gs_RejectedFull := u64 (gs_RejectedFull s + 1) }) g, false)
    else
      (onStats (λ s, { s with gs_Admitted := u64 (gs_Admitted s + 1) })
         { g with g_peers := <[key := newPeer addr referer now]> (g_peers g) }, true).

Definition MergePeerList (w : Walk) (from : bytes) (entries : list PeerAddr) (obfuscated : bool) (now : Z) (g : GossipHandler) :
    GossipHandler * Z :=
  if negb obfuscated then (onStats (λ s, { s with gs_RejectedPlaintext := u64 (gs_RejectedPlaintext s + 1) }) g, 0)
  else if negb (senderIsKnownLocked w from g) then
    (onStats (λ s, { s with gs_RejectedUnsolicited := u64 (gs_RejectedUnsolicited s + 1) }) g, 0)
  else
    foldl (λ '(g, n) e, let '(g, ok) := admitLocked e (Some from) now g in (g, if ok : bool then n + 1 else n)) (g, 0) entries.

Definition NoteRegistration (from : bytes) (announcedPort : Z) (obfuscated : bool) (now : Z) (g : GossipHandler) : GossipHandler :=
  let addr := normPeer (mkPeerAddr from announcedPort) in
  let g := if obfuscated then g else onStats (λ s, { s with gs_RejectedPlaintext := u64 (gs_RejectedPlaintext s + 1) }) g in
  let '(g, ok) := admitLocked addr None now g in
  if negb ok then g
  else onPeer (peerString addr) (λ p,
    let p := { p with p_LastSeen := now; p_Failures := 0 } in
    if obfuscated then promoteLocked peerVerified now p else p) g.

Definition NoteStatRes (w : Walk) (from : bytes) (fields : StatResFields) (challengeMatches : bool) (now : Z) (g : GossipHandler) : GossipHandler :=
  match findByIPLocked w from g with
  | None => g
  | Some (key, _) =>
      if negb challengeMatches then g
      else onPeer key (λ p,
        let p := { p with p_LastSeen := now; p_Failures := 0; p_Users := sr_Users fields; p_Files := sr_Files fields } in
        if negb (sr_Extended fields) then p
        else promoteLocked peerKeyed now
               { p with p_ServerKey := sr_ServerKey fields; p_UDPPortObf := sr_UDPPortObf fields; p_TCPPortObf := sr_TCPPortObf fields;
                        p_UDPFlags := sr_UDPFlags fields }) g
  end.

Definition hasControlChars (s : bytes) : bool := existsb (λ r, (r <? 0x20) || (r =? 0x7f)) (runes s).
Definition validServerName (name : bytes) : bool :=
  negb (bool_decide (name = []) || (255 <? length name)) && negb (hasControlChars name).
Definition validServerDesc (desc : bytes) : bool := negb (512 <? length desc) && negb (hasControlChars desc).

Definition NoteDescription (w : Walk) (from name desc : bytes) (now : Z) (g : GossipHandler) : GossipHandler * bool :=
  match findByIPLocked w from g with
  | None => (g, false)
  | Some (key, _) =>
      if negb (validServerName name) || negb (validServerDesc desc) then (g, false)
      else (onPeer key (λ p, promoteLocked peerDescribed now { p with p_Name := name; p_Desc := desc; p_LastSeen := now; p_Failures := 0 }) g, true)
  end.

(** [net/url] and the node links of [ed3k/ident], as far as an advert is checked with them:
    the parts of a URL, and whether a link is one of an index node. *)
Record URLParts := mkURL { url_Scheme : bytes; url_Hostname : bytes; url_User : bool; url_RawQuery : bytes; url_Fragment : bytes }.
Class Adverts := { ParseURL : bytes → option URLParts; ParseNodeLink : bytes → bool }.

Definition validServerSearchAdvert `{Adverts} (a : ServerSearchAdvert) : bool :=
  if bool_decide (ssa_URL a = []) || (maxServerSearchURL <? length (ssa_URL a)) || (64 <? length (ssa_Fingerprint a)) then false
  else match ParseURL (ssa_URL a) with
       | None => false
       | Some u =>
           if negb (bool_decide (url_Scheme u = str "http")) && negb (bool_decide (url_Scheme u = str "https")) ||
              bool_decide (url_Hostname u = []) || url_User u || negb (bool_decide (url_RawQuery u = [])) ||
              negb (bool_decide (url_Fragment u = [])) then false
           else bool_decide (ssa_Fingerprint a = []) || bool_decide (take 7 (ssa_Fingerprint a) = str "sha256/")
       end.

Definition NoteServerSearch `{Adverts} (w : Walk) (from : bytes) (advert : ServerSearchAdvert) (g : GossipHandler) : GossipHandler :=
  let advert := if validServerSearchAdvert advert then advert else mkServerSearchAdvert [] [] in
  match findByIPLocked w from g with
  | Some (key, _) => onPeer key (λ p, { p with p_ServerSearch := advert }) g
  | None => g
  end.

Definition NoteEd3k `{Adverts} (w : Walk) (from link : bytes) (g : GossipHandler) : GossipHandler :=
  let link := if bool_decide (link = []) then link else if negb (ParseNodeLink link) || (256 <? length link) then [] else link in
  match findByIPLocked w from g with
  | Some (key, _) => onPeer key (λ p, { p with p_Ed3k := link }) g
  | None => g
  end.

Definition NoteVerified (w : Walk) (from : bytes) (now : Z) (g : GossipHandler) : GossipHandler :=
  match findByIPLocked w from g with
  | Some (key, _) => onPeer key (λ p, promoteLocked peerVerified now { p with p_LastSeen := now; p_Failures := 0 }) g
  | None => g
  end.

Definition SetOurChallenge (addr : PeerAddr) (challenge : Z) (g : GossipHandler) : GossipHandler :=
  onPeer (peerString addr) (λ p, { p with p_PrevChallenge := p_OurChallenge p; p_OurChallenge := challenge }) g.

Definition SetPlainChallenge (addr : PeerAddr) (challenge : Z) (g : GossipHandler) : GossipHandler :=
  onPeer (peerString addr) (λ p, { p with p_PlainChallenge := challenge }) g.

(** The one dropped from a full map is the first the walk meets. *)
Definition NoteInboundPingChallenge (w : Walk) (from : bytes) (challenge : Z) (g : GossipHandler) : GossipHandler :=
  if (challenge =? 0) || negb (sharesPingPortLocked g) then g
  else
    let key := ipKey from in
    let m := g_inboundChallenges g in
    let m := if negb (bool_decide (is_Some (m !! key))) && (maxInboundChallenges <=? size m)
             then match w _ m with (victim, _) :: _ => delete victim m | [] => m end else m in
    { g with g_inboundChallenges := <[key := challenge]> m }.

Definition ReplyKeyFor (w : Walk) (to : bytes) (g : GossipHandler) : option Z :=
  if negb (sharesPingPortLocked g) then None
  else match findByIPLocked w to g with Some _ => g_inboundChallenges g !! ipKey to | None => None end.

Definition PingChallengesFor (w : Walk) (ip : bytes) (g : GossipHandler) : list Z :=
  match findByIPLocked w ip g with
  | Some (_, p) => List.filter (λ c, negb (c =? 0)) [p_OurChallenge p; p_PrevChallenge p]
  | None => []
  end.

Definition PeerByIP (w : Walk) (ip : bytes) (g : GossipHandler) : option PeerServer := snd <$> findByIPLocked w ip g.

Definition IsServer (w : Walk) (ip : bytes) (g : GossipHandler) : bool :=
  match findByIPLocked w ip g with Some (_, p) => advertisableLocked p g | None => false end.

Definition verifiedFirst (a b : PeerServer) : Prop := p_LastVerified b ≤ p_LastVerified a.
#[export] Instance verifiedFirst_dec : RelDecision verifiedFirst.
Proof. intros a b. unfold verifiedFirst. apply _. Defined.
Definition keyFirst (a b : bytes * PeerServer) : Prop := stringLe a.1 b.1.
#[export] Instance keyFirst_dec : RelDecision keyFirst.
Proof. intros a b. unfold keyFirst. apply _. Defined.

(** [sort.Slice] leaves the order of peers verified at the same time open, as the walk does. *)
Definition Verified (w : Walk) (g : GossipHandler) : list PeerAddr :=
  map p_Addr (merge_sort verifiedFirst
    (List.filter (λ p, advertisableLocked p g) (map snd (w _ (g_peers g))))).

(** Lists of peers sorted by their keys, which are distinct: the walk does not show. *)
Definition sortedPeers (keep : PeerServer → bool) (g : GossipHandler) : list PeerServer :=
  map snd (merge_sort keyFirst (List.filter (λ kp, keep kp.2) (map_to_list (g_peers g)))).

Definition Snapshot (g : GossipHandler) : list PeerServer := sortedPeers (λ _, true) g.
Definition SearchPeers (g : GossipHandler) : list PeerServer :=
  sortedPeers (λ p, negb (bool_decide (ssa_URL (p_ServerSearch p) = [])) && advertisableLocked p g) g.
Definition Ed3kPeers (g : GossipHandler) : list PeerServer :=
  sortedPeers (λ p, negb (bool_decide (p_Ed3k p = [])) && advertisableLocked p g) g.
Definition Contactable (g : GossipHandler) : list PeerServer :=
  sortedPeers (λ p, negb (Parked (gc_MaxFailures (g_cfg g)) p)) g.

Definition contactableForRound (g : GossipHandler) : GossipHandler * list PeerServer :=
  let round := u64 (g_round g + 1) in
  let retryParked := round `mod` parkedRetryRounds =? 0 in
  ({ g with g_round := round }, sortedPeers (λ p, retryParked || negb (Parked (gc_MaxFailures (g_cfg g)) p)) g).

Definition NoteRoundFailure (addr : PeerAddr) (g : GossipHandler) : GossipHandler :=
  onPeer (peerString addr) (λ p, { p with p_Failures := p_Failures p + 1 }) g.

Definition Stats (g : GossipHandler) : GossipStats :=
  let ps := map snd (map_to_list (g_peers g)) in
  { g_stats g with gs_Known := Z.of_nat (size (g_peers g)); gs_Verified := gs_Verified (g_stats g) + length (List.filter (λ p, advertisableLocked p g) ps);
                   gs_Parked := gs_Parked (g_stats g) + length (List.filter (Parked (gc_MaxFailures (g_cfg g))) ps) }.

Definition UpdateConfig (cfg : GossipConfig) (g : GossipHandler) : GossipHandler := { g with g_cfg := cfg }.

Definition AddSeeds (seeds : list PeerAddr) (g : GossipHandler) : GossipHandler * Z :=
  foldl (λ '(g, added) s,
    if bool_decide (pa_IP s = []) || (pa_Port s =? 0) then (g, added)
    else
      let s := normPeer s in
      let key := peerString s in
      if bool_decide (is_Some (g_peers g !! key)) || isSelfLocked s g then (g, added)
      else ({ g with g_peers := <[key := newPeer s None 0]> (g_peers g) }, added + 1)) (g, 0) seeds.

(** ** Rounds *)

Record GossipClientConfig := mkGossipClient { cl_Main : option udpReplyConn; cl_Gossip : option udpReplyConn }.

(** What the machine supplies to one contact: the random numbers of the probes, and whether
    the announced IPv6 address can be sent from. *)
Record contactDraws := mkDraws {
  cdr_plain : Z;
  cdr_ping : bytes;
  cdr_redraws : bytes;
  cdr_marks : nat → Z * Z;
  cdr_selfV6 : bool }.

(** A port past the last is refused by the socket. *)
Definition writeGossip (w : udpReplyConn) (dst : UDPAddr) (data : bytes) (d : contactDraws) (cfg : GossipConfig) : list datagram :=
  if 0xffff <? ua_Port dst then []
  else match nativeIPv6 (Some (ua_IP dst)), nativeIPv6 (gc_SelfIPv6 cfg) with
       | Some _, Some src => [if cdr_selfV6 d then writeFrom w data dst (Some src) else WriteToUDP w data dst]
       | _, _ => [WriteToUDP w data dst]
       end.

Definition built (packet : result Buffer) (f : bytes → list datagram) : list datagram :=
  match packet with Ok b => f (Bytes b) | _ => [] end.

Definition sendPhase1 (cfg : GossipClientConfig) (p : PeerServer) (d : contactDraws) (g : GossipHandler) : GossipHandler * list datagram :=
  let self := g_cfg g in
  match cl_Main cfg, gc_SelfIPv4 self with
  | Some main, Some selfIPv4 =>
      let dst := mkUDPAddr (pa_IP (p_Addr p)) (pa_Port (p_Addr p) + peerMainUDPOffset) in
      let challenge := Z.lor 0x55AA0000 (u32 (cdr_plain d)) in
      let out := built (BuildServerListReqPacket selfIPv4 (gc_SelfPort self) challenge) (λ b, writeGossip main dst b d self) in
      match MakeUDPPacket PrED2K [u8_item OpGlobServStatReq; u32_item challenge] with
      | Ok b => (SetPlainChallenge (p_Addr p) challenge g, out ++ writeGossip main dst (Bytes b) d self)
      | _ => (g, out)
      end
  | _, _ => (g, [])
  end.

Definition sendPhase2 (cfg : GossipClientConfig) (p : PeerServer) (d : contactDraws) (g : GossipHandler) : GossipHandler * list datagram :=
  match cl_Gossip cfg with
  | None => (g, [])
  | Some sock =>
      match BuildObfPingRequest (cdr_ping d) (cdr_redraws d) with
      | None => (g, [])
      | Some (packet, challenge) =>
          let obfPort := pa_Port (p_Addr p) + peerObfPingOffset in
          if 65535 <? obfPort then (g, [])
          else (SetOurChallenge (p_Addr p) challenge g, writeGossip sock (mkUDPAddr (pa_IP (p_Addr p)) obfPort) packet d (g_cfg g))
      end
  end.

Definition gossipDestPort (p : PeerServer) : Z :=
  if p_UDPPortObf p =? 0 then u16 (pa_Port (p_Addr p) + peerGossipOffset) else p_UDPPortObf p.

Definition sendPhase3 (cfg : GossipClientConfig) (p : PeerServer) (d : contactDraws) (g : GossipHandler) : list datagram :=
  match cl_Gossip cfg with
  | None => []
  | Some sock =>
      let dst := mkUDPAddr (pa_IP (p_Addr p)) (gossipDestPort p) in
      let crypt := NewUDPCrypt true (p_ServerKey p) in
      let self := g_cfg g in
      let obf n b := writeGossip sock dst (EncryptAsClient crypt b (cdr_marks d n).1 (cdr_marks d n).2) d self in
      (match gc_SelfIPv4 self with
       | Some selfIPv4 => built (BuildServerListReqPacket selfIPv4 (gc_SelfPort self) (p_OurChallenge p)) (obf 0%nat)
       | None => []
       end) ++
      built BuildServerListReq2Packet (obf 1%nat) ++
      (if gc_PublishIPv6 self && negb (Z.land (p_UDPFlags p) FlagIPv6 =? 0) then built BuildServerListReqIPv6Packet (obf 2%nat) else [])
  end.

Definition sendPhase4 (cfg : GossipClientConfig) (p : PeerServer) (d : contactDraws) (g : GossipHandler) : list datagram :=
  match cl_Gossip cfg with
  | None => []
  | Some sock =>
      built (MakeUDPPacket PrED2K [u8_item OpServerDescReq; u32_item (p_OurChallenge p)]) (λ b,
        writeGossip sock (mkUDPAddr (pa_IP (p_Addr p)) (gossipDestPort p))
          (EncryptAsClient (NewUDPCrypt true (p_ServerKey p)) b (cdr_marks d 3%nat).1 (cdr_marks d 3%nat).2) d (g_cfg g))
  end.

(** [p] is the copy taken when the round began. *)
Definition contactPeer (cfg : GossipClientConfig) (p : PeerServer) (d : contactDraws) (g : GossipHandler) : GossipHandler * list datagram :=
  let '(g, out1) := if stateRank (p_State p) <? stateRank peerKeyed then sendPhase1 cfg p d g else (g, []) in
  let '(g, out2) := sendPhase2 cfg p d g in
  let out34 := if (stateRank peerKeyed <=? stateRank (p_State p)) && negb (p_ServerKey p =? 0)
               then sendPhase3 cfg p d g ++ sendPhase4 cfg p d g else [] in
  (NoteRoundFailure (p_Addr p) g, out1 ++ out2 ++ out34).

Definition RunRound (cfg : GossipClientConfig) (draws : PeerAddr → contactDraws) (g : GossipHandler) : GossipHandler * list datagram :=
  let '(g, peers) := contactableForRound g in
  foldl (λ '(g, out) p, let '(g, o) := contactPeer cfg p (draws (p_Addr p)) g in (g, out ++ o)) (g, []) peers.
