(* ===== verification/UDPPorts.v ===== *)
(** * Where clients send their UDP from: [ed2k/udpports.go]

    The table of the source port last seen of each address. Times are nanoseconds since the
    program started. The keys of [netip.Addr] are the bytes of the address without the IPv4
    prefix. *)

From stdpp Require Import gmap.
From S2P Require Import Prelude Address NatTraversal.
Local Open Scope Z_scope.

Definition clientUDPPortTTL : Z := 30 * 60 * Second.
Definition clientUDPPortMaxEntries : Z := 16384.
Definition clientUDPPortRefresh : Z := 10 * Second.
Definition clientUDPPortSweepInterval : Z := 5 * 60 * Second.

Record udpPortEntry := mkPortEntry { pe_seen : Z; pe_port : Z }.
Record udpPortTable := mkPortTable { pt_m : gmap bytes udpPortEntry; pt_lastSweep : Z }.

(** [netip.AddrFromSlice] takes four or sixteen bytes; [Unmap] drops the IPv4 prefix. *)
Definition udpPortKey (ip : bytes) : option bytes :=
  if bool_decide (length ip = 4%nat) || bool_decide (length ip = 16%nat) then
    Some (match To4 ip with Some v4 => v4 | None => ip end)
  else None.

Definition sweepPorts (now : Z) (t : udpPortTable) : udpPortTable :=
  mkPortTable (filter (λ ke, now - pe_seen ke.2 ≤ clientUDPPortTTL) (pt_m t)) now.

Definition note (addr : bytes) (port now : Z) (t : udpPortTable) : udpPortTable :=
  if match pt_m t !! addr with
     | Some e => (pe_port e =? port) && (now - pe_seen e <? clientUDPPortRefresh)
     | None => false
     end then t
  else
    let t := if clientUDPPortSweepInterval <=? now - pt_lastSweep t then sweepPorts now t else t in
    if negb (bool_decide (is_Some (pt_m t !! addr))) && (clientUDPPortMaxEntries <=? size (pt_m t)) then t
    else { t with pt_m := <[addr := mkPortEntry now port]> (pt_m t) }.

Definition NoteClientUDPPort (remote : UDPAddr) (now : Z) (t : option udpPortTable) : option udpPortTable :=
  match t with
  | None => None
  | Some t =>
      if (ua_Port remote <=? 0) || (0xffff <? ua_Port remote) then Some t
      else Some (match udpPortKey (ua_IP remote) with Some addr => note addr (ua_Port remote) now t | None => t end)
  end.

Definition ClientUDPPort (ip : bytes) (now : Z) (t : option udpPortTable) : option (Z * Z) :=
  match t, udpPortKey ip with
  | Some t, Some addr =>
      match pt_m t !! addr with
      | Some e => if clientUDPPortTTL <? now - pe_seen e then None else Some (pe_port e, pe_seen e)
      | None => None
      end
  | _, _ => None
  end.

Definition setUDPPortTracking (on : bool) (t : option udpPortTable) : option udpPortTable :=
  if on then Some (default (mkPortTable ∅ 0) t) else None.

(** ** Properties *)

Definition ports_ok (t : udpPortTable) : Prop := size (pt_m t) ≤ clientUDPPortMaxEntries.

Lemma sweepPorts_ok now t : ports_ok t → ports_ok (sweepPorts now t).
Proof. unfold ports_ok. intros H. etrans; [|apply H]. apply inj_le, map_subseteq_size, map_filter_subseteq. Qed.

Lemma note_ok addr port now t : ports_ok t → ports_ok (note addr port now t).
Proof.
  intros Ht. unfold note. destruct (match pt_m t !! addr with Some e => _ | None => _ end); [done|]. set (t' := if clientUDPPortSweepInterval <=? _ then _ else _).
  assert (ports_ok t') as Ht' by (unfold t'; destruct (_ <=? _); [by apply sweepPorts_ok|done]). clearbody t'.
  unfold ports_ok in *. destruct t' as [m ls]. cbn in *.
  destruct (bool_decide_reflect (is_Some (m !! addr))); cbn [negb andb]; [cbn; by rewrite map_size_insert_Some|].
  destruct (Z.leb_spec clientUDPPortMaxEntries (size m)); [done|]. cbn.
  rewrite map_size_insert_None by (by apply eq_None_not_Some). lia.
Qed.

(** A port handed out is one a datagram of that address came from, at most the time to live
    ago: [seenFrom] holds of what the table was told, in order. *)
Lemma note_lookup addr port now t a e : pt_m (note addr port now t) !! a = Some e →
  pt_m t !! a = Some e ∨ a = addr ∧ e = mkPortEntry now port.
Proof.
  unfold note. destruct (match pt_m t !! addr with Some e => _ | None => _ end); [by left|]. set (t' := if clientUDPPortSweepInterval <=? _ then _ else _).
  assert (pt_m t' !! a = Some e → pt_m t !! a = Some e) as Ht'.
  { unfold t'. destruct (_ <=? _); [|done]. unfold sweepPorts. cbn. by intros [? _]%map_lookup_filter_Some. }
  clearbody t'. case_match; [auto|]. destruct t' as [m ls]; cbn in *. intros Ha.
  destruct (decide (a = addr)) as [->|]; [rewrite lookup_insert_eq in Ha|rewrite lookup_insert_ne in Ha by done]; naive_solver.
Qed.
