(* ===== verification/NatCallback.v ===== *)
(** * The state of the NAT callback: [ed2k/natcallback.go]

    The recent requesters, the foreign requesters waiting for their target, and what is
    remembered of keepalives. The state a session has of its own, [natSessionState], is in
    the runtime. [now] is the clock; the maps that Go makes on first use start out empty. *)

From stdpp Require Import gmap.
From S2P Require Import Prelude Buffer Types Address NetIP Packet Builders Crypt UDPCrypt Sha256 Float64 RateLimit NatTraversal RuntimeState Runtime.
Local Open Scope Z_scope.

(** ** Constants *)

Definition OpNatCallbackRequest : Z := 0xa6.
Definition OpNatCallbackRequestedUDP : Z := 0xa7.
Definition OpNatCallbackRequested : Z := 0x37.
Definition OpNatKeepalive : Z := 0x9f.
Definition natCallbackWindow : Z := 19 * Second.
Definition natCallbackPerRequesterPerMinute : Z := 60.
Definition natForeignPerTargetPerMinute : Z := 6.
Definition natForeignMaxTargetsPerAddress : Z := 60.
Definition natForeignTargetWindow : Z := 10 * 60 * Second.
Definition natForeignMaxPerTarget : Z := 4.
Definition natForeignFallback : Z := 3 * Second.
Definition natKeepaliveTTL : Z := 10 * 60 * Second.
Definition natProofLen : Z := 36.
Definition natForeignResends : list Z := [1200 * Millisecond; 3 * Second].
Definition natCryptSupport : Z := 0x01.
Definition natCryptRequest : Z := 0x02.
Definition natCryptRequire : Z := 0x04.
Definition natCallbackNoticeFlagHash : Z := 0x80.

(** ** State *)

Record natCallbackRecent := mkRecent { re_ipv4 : Z; re_port : Z; re_at : Z; re_owner : option connID; re_proven : bool }.
Record natForeignPending := mkForeign { fp_ipv4 : Z; fp_port : Z; fp_crypt : Z; fp_at : Z; fp_conn : udpReplyConn }.
Record natForeignWait := mkForeignWait { fw_list : list natForeignPending; fw_gen : Z }.

Record natCallbackState := mkCallback {
  nc_limiter : option Limiter;
  nc_recent : gmap Z natCallbackRecent;
  nc_lastSweep : Z;
  nc_foreignAddr : option Limiter;
  nc_foreignAddrRate : Z;
  nc_foreignAddrBurst : Z;
  nc_foreignTarget : option Limiter;
  nc_foreign : gmap Z natForeignWait;
  nc_foreignGen : Z;
  nc_foreignNamed : gmap bytes (gmap Z Z);
  nc_keepalives : gmap Z natCallbackRecent;
  nc_foreignSweep : Z;
}.

Definition newCallbackState : natCallbackState := mkCallback None ∅ 0 None 0 0 None ∅ 0 ∅ ∅ 0.

(** ** Packets *)

Definition BuildNatCallbackNotice (requesterIPv4 requesterPort requesterID cryptFlags : Z) (hash : bytes) : bytes :=
  let has := bool_decide (length hash = 16%nat) in
  le_split 4 requesterIPv4 ++ le_split 2 requesterPort ++ le_split 4 requesterID ++
  [Z.lor (Z.land cryptFlags 0x07) (if has then natCallbackNoticeFlagHash else 0)] ++ (if has then hash else []).

Definition BuildNatCallbackRequestedPacket (requesterIPv4 requesterPort requesterID cryptFlags : Z) (hash : bytes) : result Buffer :=
  let has := bool_decide (length hash = 16%nat) in
  let flags := Z.lor (Z.land cryptFlags 0x07) (if has then natCallbackNoticeFlagHash else 0) in
  MakePacket PrED2K ([u8_item OpNatCallbackRequested; u32_item requesterIPv4; u16_item requesterPort; u32_item requesterID; u8_item flags] ++
    (if has then [hash_item hash] else [])).

(** The flags, whether the hash goes along, and whether a notice is sent at all. *)
Definition NatCallbackCrypt (requester target : Z) : Z * bool * bool :=
  let flags := Z.land requester 0x07 in
  let withHash := hasFlag requester natCryptSupport && hasFlag target natCryptSupport &&
                  (hasFlag requester natCryptRequest || hasFlag target natCryptRequest) in
  if negb withHash && (hasFlag requester natCryptRequire || hasFlag target natCryptRequire) then (flags, false, false)
  else (flags, withHash, true).

Definition natCryptCompatible (a b : Z) : bool :=
  negb (hasFlag a natCryptRequire && negb (hasFlag b natCryptSupport) || hasFlag b natCryptRequire && negb (hasFlag a natCryptSupport)).

Definition natProofMAC (token hash : bytes) (counter : Z) : bytes :=
  take 16 (HMAC_SHA256 token (hash ++ le_split 4 counter)).

(** ** Limits and recent requesters *)

(** [strconv.FormatUint(uint64(id), 10)]. *)
Definition allow (requesterID now : Z) (n : natCallbackState) : natCallbackState * bool :=
  let '(l, ok) := Allow (Itoa requesterID) now (default (NewLimiter natCallbackPerRequesterPerMinute) (nc_limiter n)) in
  ({ n with nc_limiter := Some l }, ok).

Definition remember (id : Z) (r : natCallbackRecent) (n : natCallbackState) : natCallbackState :=
  let n := if natCallbackWindow <=? re_at r - nc_lastSweep n
           then { n with nc_recent := filter (λ kv, re_at r - re_at kv.2 ≤ natCallbackWindow) (nc_recent n); nc_lastSweep := re_at r }
           else n in
  { n with nc_recent := <[id := r]> (nc_recent n) }.

Definition recentFor (id now : Z) (n : natCallbackState) : option natCallbackRecent :=
  match nc_recent n !! id with
  | Some r => if natCallbackWindow <? now - re_at r then None else Some r
  | None => None
  end.

Definition allowForeignAddress (key : bytes) (perMinute burst now : Z) (n : natCallbackState) : natCallbackState * bool :=
  let l := match nc_foreignAddr n with
           | None => NewBurst perMinute burst
           | Some l => if negb (perMinute =? nc_foreignAddrRate n) || negb (burst =? nc_foreignAddrBurst n)
                       then SetLimits perMinute burst l else l
           end in
  let '(l, ok) := Allow key now l in
  ({ n with nc_foreignAddr := Some l; nc_foreignAddrRate := perMinute; nc_foreignAddrBurst := burst }, ok).

Definition allowForeignTarget (target now : Z) (n : natCallbackState) : natCallbackState * bool :=
  let '(l, ok) := Allow (Itoa target) now (default (NewLimiter natForeignPerTargetPerMinute) (nc_foreignTarget n)) in
  ({ n with nc_foreignTarget := Some l }, ok).

(** ** Waiting requesters *)

Definition liveForeign (now : Z) (waiting : list natForeignPending) : list natForeignPending :=
  List.filter (λ e, now - fp_at e <=? natCallbackWindow) waiting.

Definition liveNamed (now : Z) (named : gmap Z Z) : gmap Z Z := filter (λ kv, now - kv.2 ≤ natForeignTargetWindow) named.

Definition sweepForeign (now : Z) (n : natCallbackState) : natCallbackState :=
  if now - nc_foreignSweep n <? natCallbackWindow then n
  else { n with
    nc_foreignSweep := now;
    nc_foreign := omap (λ w, match liveForeign now (fw_list w) with [] => None | live => Some (mkForeignWait live (fw_gen w)) end) (nc_foreign n);
    nc_foreignNamed := omap (λ named, let live := liveNamed now named in if bool_decide (live = ∅) then None else Some live) (nc_foreignNamed n);
    nc_keepalives := filter (λ kr, now - re_at kr.2 ≤ natKeepaliveTTL) (nc_keepalives n) }.

Definition allowForeignNamed (key : bytes) (target now : Z) (n : natCallbackState) : natCallbackState * bool :=
  let n := sweepForeign now n in
  let named := liveNamed now (default ∅ (nc_foreignNamed n !! key)) in
  if negb (bool_decide (is_Some (named !! target))) && (natForeignMaxTargetsPerAddress <=? size named) then
    ({ n with nc_foreignNamed := <[key := named]> (nc_foreignNamed n) }, false)
  else ({ n with nc_foreignNamed := <[key := <[target := now]> named]> (nc_foreignNamed n) }, true).

Definition rememberKeepalive (id : Z) (r : natCallbackRecent) (n : natCallbackState) : natCallbackState :=
  let n := sweepForeign (re_at r) n in
  { n with nc_keepalives := <[id := r]> (nc_keepalives n) }.

Definition keepaliveFor (id now : Z) (n : natCallbackState) : option natCallbackRecent :=
  match nc_keepalives n !! id with
  | Some r => if natKeepaliveTTL <? now - re_at r then None else Some r
  | None => None
  end.

(** The list without the first entry of a requester. *)
Fixpoint withoutRequester (ipv4 port : Z) (waiting : list natForeignPending) : list natForeignPending :=
  match waiting with
  | [] => []
  | e :: rest => if (fp_ipv4 e =? ipv4) && (fp_port e =? port) then rest else e :: withoutRequester ipv4 port rest
  end.

Definition addForeign (target : Z) (p : natForeignPending) (n : natCallbackState) : natCallbackState * Z * bool :=
  let n := sweepForeign (fp_at p) n in
  let live := match nc_foreign n !! target with Some w => liveForeign (fp_at p) (fw_list w) | None => [] end in
  let first := bool_decide (length live = 0%nat) in
  let gen := if first then u64 (nc_foreignGen n + 1) else match nc_foreign n !! target with Some w => fw_gen w | None => 0 end in
  let others := withoutRequester (fp_ipv4 p) (fp_port p) live in
  let others := drop (length others - Z.to_nat (natForeignMaxPerTarget - 1)) others in
  ({ n with nc_foreign := <[target := mkForeignWait (others ++ [p]) gen]> (nc_foreign n);
            nc_foreignGen := if first then gen else nc_foreignGen n }, gen, first).

Definition takeForeign (target now : Z) (n : natCallbackState) : natCallbackState * list natForeignPending :=
  match nc_foreign n !! target with
  | Some w => ({ n with nc_foreign := delete target (nc_foreign n) }, liveForeign now (fw_list w))
  | None => (n, [])
  end.

Definition takeForeignGen (target gen now : Z) (n : natCallbackState) : natCallbackState * list natForeignPending :=
  match nc_foreign n !! target with
  | Some w => if fw_gen w =? gen then takeForeign target now n else (n, [])
  | None => (n, [])
  end.

(** ** Keepalives *)

(** What [checkKeepalive] makes of a keepalive: the session's new state, or why it is
    ignored; with it whether a token vouched for a foreign address. *)
Definition checkKeepalive (st : option natSessionState) (hash rest : bytes) (obfuscated sameIP : bool) :
    option natSessionState * (bool + string) :=
  let isProof := 16 + length rest =? natProofLen in
  let counter := le_combine (take 4 rest) in
  let bad := if isProof then
               match st ≫= ns_token with
               | None => Some "proof-without-token"%string
               | Some token =>
                   if negb (bool_decide (natProofMAC token hash counter = take 16 (drop 4 rest))) then Some "proof-bad"%string
                   else if counter <=? from_option ns_counter 0 st then Some "proof-replay"%string
                   else None
               end
             else None in
  match bad with
  | Some why => (st, inr why)
  | None =>
      if negb obfuscated && negb isProof && from_option ns_obfuscated false st then (st, inr "plain-after-obfuscated"%string)
      else if negb sameIP && negb isProof then (st, inr "wrong-address"%string)
      else
        let proven := isProof && negb sameIP in
        match st with
        | None => if negb obfuscated then (None, inl false) else (Some (mkNatSession None 0 true), inl proven)
        | Some st => (Some (mkNatSession (ns_token st) (if isProof then counter else ns_counter st) (ns_obfuscated st || obfuscated)), inl proven)
        end
  end.
