(* ===== verification/UDPState.v ===== *)
(** * The server's UDP side: its state, and what a datagram may do to it

    Beside the sessions ([ServerRuntime]) the UDP handlers use the rendezvous registry, the
    table of peer servers, the callback state, the limiter, the bot detector and the table of
    client ports: [ed2k/server_runtime.go]. A handler answers through [udpStep], which
    collects what it sends and the timers it arms. *)

From stdpp Require Import gmap.
From S2P Require Import Prelude Buffer Types Address NetIP Packet Builders Framing Crypt UDPCrypt LowID Text Search SearchParse FileMeta.
From S2P Require Import RateLimit BotDetector Engine RuntimeState Runtime NatTraversal Gossip UDPPorts NatCallback.
Local Open Scope Z_scope.

(** [AccessFilter]: whether an address is refused. *)
Class AccessFilter (A : Type) := { Blocked : bytes → A → A * bool }.

(** What a handler leaves for later: the fallback of a foreign callback, and its resends. *)
Inductive natTimer :=
  | FallbackTimer (at_ targetID gen : Z)
  | ResendTimer (at_ : Z) (outs : list (natForeignPending * bytes)).

(** One datagram as the socket gives it: who sent it, the conn to answer through, the clock,
    the random numbers of the n-th answer, and the orders in which maps are walked. *)
Record udpEnv := mkUDPEnv {
  ev_remote : UDPAddr;
  ev_conn : udpReplyConn;
  ev_now : Z;
  ev_marks : nat → Z * Z * Z;
  ev_walk : nat → Walk;
}.

Record UDPState {E F P Q A : Type} := mkUDPState {
  u_rt : ServerRuntime E F P Q;
  u_filter : option A;
  u_nat : option NATTraversalHandler;
  u_gossip : option GossipHandler;
  u_callback : natCallbackState;
  u_limiter : Limiter;
  u_bots : botDetector;
  u_ports : option udpPortTable;
  u_started : Z;
  u_connsPerIP : gmap bytes Z;
  u_rateLimited : Z;
  u_botHits : Z;
  u_parking : bool;
}.
Arguments UDPState : clear implicits.
Arguments mkUDPState {_ _ _ _ _}.

Record udpStep {E F P Q A : Type} := mkStep { x_u : UDPState E F P Q A; x_sent : list datagram; x_timers : list natTimer }.
Arguments udpStep : clear implicits.
Arguments mkStep {_ _ _ _ _}.

Section State.
Context {E F P Q A : Type} `{!Engine E} `{!ContentFilter F} `{!SpamObserver P Q} `{!AccessFilter A}.
Context `{!Zlib} `{!Unicode} `{!Charmap} `{!MetaHash}.
Implicit Types (x : udpStep E F P Q A) (env : udpEnv).

Definition rt x : ServerRuntime E F P Q := u_rt (x_u x).
Definition onU (f : UDPState E F P Q A → UDPState E F P Q A) x : udpStep E F P Q A := { x with x_u := f (x_u x) }.
Definition onRt (f : ServerRuntime E F P Q → ServerRuntime E F P Q) x : udpStep E F P Q A :=
  onU (λ u, { u with u_rt := f (u_rt u) }) x.
Definition onGossip (f : GossipHandler → GossipHandler) x : udpStep E F P Q A :=
  onU (λ u, { u with u_gossip := f <$> u_gossip u }) x.
Definition setCallback (n : natCallbackState) x : udpStep E F P Q A := onU (λ u, { u with u_callback := n }) x.
Definition emit (d : list datagram) x : udpStep E F P Q A := { x with x_sent := x_sent x ++ d }.
Definition arm (t : list natTimer) x : udpStep E F P Q A := { x with x_timers := x_timers x ++ t }.
Definition countLimited x : udpStep E F P Q A := onU (λ u, { u with u_rateLimited := u64 (u_rateLimited u + 1) }) x.

(** ** Keys *)

Definition LegacyUDPSecret (serverKey : Z) : bytes := le_split 4 serverKey.

Definition udpSecret (s : ServerRuntime E F P Q) : bytes :=
  if bool_decide (RuntimeState.uc_UDPSecret (s_udp s) = []) then LegacyUDPSecret (RuntimeState.uc_UDPServerKey (s_udp s))
  else RuntimeState.uc_UDPSecret (s_udp s).

(** [ip.Mask(net.CIDRMask(64, 128))] is nil unless the address has sixteen bytes. *)
Definition addressKey (ip : bytes) : bytes :=
  match To4 ip with
  | Some v4 => IPString v4
  | None => IPString (if bool_decide (length ip = 16%nat) then take 8 ip ++ replicate 8 0 else [])
  end.

(** ** Connection slots *)

Definition acquireConnSlot (key : bytes) (limit : Z) (u : UDPState E F P Q A) : UDPState E F P Q A * bool :=
  let n := default 0 (u_connsPerIP u !! key) in
  if (0 <? limit) && (limit <=? n) then (u, false)
  else ({ u with u_connsPerIP := <[key := n + 1]> (u_connsPerIP u) }, true).

Definition releaseConnSlot (key : bytes) (u : UDPState E F P Q A) : UDPState E F P Q A :=
  let n := default 0 (u_connsPerIP u !! key) in
  { u with u_connsPerIP := if n <=? 1 then delete key (u_connsPerIP u) else <[key := n - 1]> (u_connsPerIP u) }.

Definition hasConnectionFrom (ip : bytes) (u : UDPState E F P Q A) : bool :=
  0 <? default 0 (u_connsPerIP u !! addressKey (default [] (NormalizeIP (Some ip)))).

(** ** Filters and limits *)

Definition blockedPeer (ip : option bytes) x : udpStep E F P Q A * bool :=
  match u_filter (x_u x), ip with
  | Some f, Some ip => let '(f, blocked) := Blocked ip f in (onU (λ u, { u with u_filter := Some f }) x, blocked)
  | _, _ => (x, false)
  end.

Definition observeUDPQuerier (key : bytes) (now : Z) x : udpStep E F P Q A :=
  let '(bots, flagged) := record key (RuntimeState.uc_BotDetection (s_udp (rt x))) now (u_bots (x_u x)) in
  onU (λ u, { u with u_bots := bots; u_botHits := if flagged : bool then u64 (u_botHits u + 1) else u_botHits u }) x.

Definition udpOpcodeEnabled (enabled : bool) env x : udpStep E F P Q A * bool :=
  if negb enabled then (x, false)
  else
    let key := addressKey (ua_IP (ev_remote env)) in
    let x := observeUDPQuerier key (ev_now env) x in
    let '(l, ok) := Allow key (ev_now env) (u_limiter (x_u x)) in
    let x := onU (λ u, { u with u_limiter := l }) x in
    if ok then (x, true) else (countLimited x, false).

Definition gossipOpcodeEnabled (needIPv6 : bool) x : bool :=
  match u_gossip (x_u x) with
  | None => false
  | Some g => negb (needIPv6 && negb (gc_PublishIPv6 (g_cfg g)))
  end.

(** ** Answers *)

Definition markOf env x : Z * Z * Z := ev_marks env (length (x_sent x)).

Definition udpSend env (data : bytes) (crypt : UDPCrypt) x : udpStep E F P Q A :=
  let '(marker, key, _) := markOf env x in
  let data := if uc_Status crypt =? CsEncrypting then Encrypt crypt data marker key else data in
  emit [WriteToUDP (ev_conn env) data (ev_remote env)] x.

(** A reply that could not be built is not sent. *)
Definition udpReply env (packet : result Buffer) (crypt : UDPCrypt) x : udpStep E F P Q A :=
  match packet with Ok b => udpSend env (Bytes b) crypt x | _ => x end.

Definition peerReplyCrypt env (crypt : UDPCrypt) x : UDPCrypt :=
  if negb (uc_Status crypt =? CsEncrypting) then crypt
  else match u_gossip (x_u x) ≫= ReplyKeyFor (ev_walk env 0) (ua_IP (ev_remote env)) with
       | Some key => NewUDPCrypt true key
       | None => crypt
       end.

(** ** What the rendezvous asks of the sessions *)

Definition OpNatWake : Z := 0x46.

Definition BuildNatWakePacket (families : Z) : result Buffer := MakePacket PrED2K [u8_item OpNatWake; u8_item families].

Definition sessionAddrs (hash : bytes) (s : ServerRuntime E F P Q) : option bytes * option bytes * bool :=
  match sessionByHash hash s with
  | None => (None, None, false)
  | Some c =>
      if h_connectedV6 (state c s) then (None, h_peerIP (state c s), true)
      else (h_peerIP (state c s) ≫= To4, if is16 (ci_IPv6 (info c s)) then Some (ci_IPv6 (info c s)) else None, true)
  end.

Definition wakeNatSession (parking : bool) (hash : bytes) (families : Z) (s : ServerRuntime E F P Q) : ServerRuntime E F P Q * bool :=
  if parking then (s, false)
  else match sessionByHash hash s with
       | None => (s, false)
       | Some c =>
           if negb (ss_logged (client c s) && h_natWakeCapable (state c s)) then (s, false)
           else tryClient c (BuildNatWakePacket families) s
       end.

(** [SetNATHandler]. A keepalive moves the read deadline of the session's socket, which is
    not part of the state. *)
Definition runtimeHooks (parking : bool) : natHooks (ServerRuntime E F P Q) :=
  mkHooks (Some (λ hash s, bool_decide (is_Some (sessionByHash hash s)))) (Some (λ _ s, s)) (Some sessionAddrs)
    (Some (wakeNatSession parking)).

End State.
