(* ===== verification/UDPHandler.v ===== *)
(** * The datagram handlers: [ed2k/server_runtime.go], [gossipdispatch.go], [natcallback.go]

    [UDPHandler] with everything it dispatches to, and the timers that handlers arm. *)

From stdpp Require Import gmap.
From S2P Require Import Prelude Buffer Types Address NetIP Packet Builders Framing Crypt UDPCrypt LowID Text Search SearchParse FileMeta.
From S2P Require Import RateLimit BotDetector Servers Engine RuntimeState Runtime NatTraversal Gossip UDPPorts NatCallback UDPState.
Local Open Scope Z_scope.

(** ** Constants *)

Definition OpGlobSearchReq3 : Z := 0x90.
Definition OpGlobSearchReq2 : Z := 0x92.
Definition OpGlobGetSources2 : Z := 0x94.
Definition OpGlobSearchReq : Z := 0x98.
Definition OpGlobGetSources : Z := 0x9a.
Definition OpGlobGetSourcesIPv6 : Z := 0xa5.
Definition maxUDPGetSourcesHashes : nat := 35.
Definition maxUDPSearchResults : nat := 100.
Definition cryptPingMaxLen : Z := 4 + 15.
Definition SrvCapUDPMetaSearch : Z := 0x02.
Definition SrvCapUDPNoMeta : Z := 0x04.

Definition isCryptPing (data : bytes) : bool := (4 <=? length data) && (length data <=? cryptPingMaxLen).

Definition udpSearchFlags (tags : list NamedTag) : Z :=
  match firstTag (tagName TagSearchTree) tags with
  | Some t => match nt_Value t with AUint64 v => u32 v | _ => 0 end
  | None => 0
  end.

Definition capUDPSearchResults (files : list File) : list File := take maxUDPSearchResults files.

(** ** Descriptions of peer servers *)

Record ServerDesc := mkServerDesc { sd_Name : bytes; sd_Desc : bytes; sd_ServerSearch : ServerSearchAdvert; sd_Ed3k : bytes }.

(** The loop over the tags of the extended form. *)
Definition descTag (d : ServerDesc * bool) (t : NamedTag) : ServerDesc * bool :=
  let '(d, gotName) := d in
  match nt_Value t with
  | AString s =>
      if bool_decide (nt_Name t = str "name") then ({ d with sd_Name := s }, true)
      else if bool_decide (nt_Name t = str "description") then ({ d with sd_Desc := s }, gotName)
      else if bool_decide (nt_Name t = tagName TagServerSearch) then
        ({ d with sd_ServerSearch := mkServerSearchAdvert s (ssa_Fingerprint (sd_ServerSearch d)) }, gotName)
      else if bool_decide (nt_Name t = tagName TagServerSearchFingerprint) then
        ({ d with sd_ServerSearch := mkServerSearchAdvert (ssa_URL (sd_ServerSearch d)) s }, gotName)
      else if bool_decide (nt_Name t = tagName TagEd3k) then ({ d with sd_Ed3k := s }, gotName)
      else (d, gotName)
  | _ => (d, gotName)
  end.

Definition noDesc : ServerDesc := mkServerDesc [] [] (mkServerSearchAdvert [] []) [].

(** What the extended form says, if it reads as one with a name. *)
Definition extendedDesc (b : Buffer) : option ServerDesc :=
  if Remaining_of b <? 8 then None
  else match GetUInt32LE b with
       | (b, Ok _) =>
           match GetTags b with
           | (_, Ok tags) => let '(d, gotName) := foldl descTag (noDesc, false) tags in if gotName : bool then Some d else None
           | _ => None
           end
       | _ => None
       end.

Definition ParseServerDesc (b : Buffer) : result ServerDesc :=
  match extendedDesc b with
  | Some d => Ok d
  | None =>
      match GetString b with
      | (b, Ok name) => Ok (mkServerDesc name (match (GetString b).2 with Ok desc => desc | _ => [] end) (mkServerSearchAdvert [] []) [])
      | (_, Err e) => Err e
      | (_, Panic) => Panic
      end
  end.

Definition withoutPeerIP (peers : list PeerAddr) (ip : bytes) : list PeerAddr :=
  List.filter (λ p, negb (bool_decide (ipKey (pa_IP p) = ipKey ip))) peers.

Definition GossipSeedsFromServers (servers : list Server) : list PeerAddr :=
  omap (λ sv, match ParseIP (sv_IP sv) with
              | Some ip => if sv_Port sv =? 0 then None else Some (mkPeerAddr (default [] (NormalizeIP (Some ip))) (sv_Port sv))
              | None => None
              end) servers.

Section Handlers.
Context {E F P Q A : Type} `{!Engine E} `{!ContentFilter F} `{!SpamObserver P Q} `{!AccessFilter A}.
Context `{!Zlib} `{!Unicode} `{!Charmap} `{!MetaHash} `{!Adverts}.
Implicit Types (x : udpStep E F P Q A) (env : udpEnv).

(** ** Sources *)

Definition udpSourceFormat env x : SourceFormat :=
  if publishV6Sources (rt x) && remoteIsIPv6 (ev_remote env) then FormatSentinel else FormatClassic.

(** The loop over the files asked for; [need] is what the source checks is left. *)
Fixpoint eachFile (n : nat) (need : Z) (read : M Buffer (bytes * Z)) (answer : bytes → Z → udpStep E F P Q A → udpStep E F P Q A) (b : Buffer) x :
    udpStep E F P Q A :=
  match n with
  | O => x
  | S n =>
      if pointer b + need <=? length (Bytes b) then
        match read b with
        | (b, Ok (hash, fileSize)) => eachFile n need read answer b (answer hash fileSize x)
        | _ => x
        end
      else x
  end.

Definition readHash : M Buffer (bytes * Z) :=
  hash ← Get 16;
  if negb (bool_decide (length hash = 16%nat)) then fail (ErrNew "short") else mret (hash, 0).

Definition readHashSize : M Buffer (bytes * Z) :=
  hash ← Get 16;
  if negb (bool_decide (length hash = 16%nat)) then fail (ErrNew "short") else
  size ← GetUInt32LE;
  if size =? 0 then large ← GetUInt64LE; mret (hash, large) else mret (hash, size).

Definition answerSources env (crypt : UDPCrypt) (lookup : bytes → Z → list Source) (build : bytes → list Source → result Buffer)
    (hash : bytes) (fileSize : Z) x : udpStep E F P Q A :=
  if withheldHash hash (rt x) then x
  else match lookup hash fileSize with
       | [] => x
       | sources => udpReply env (build hash sources) crypt x
       end.

Definition udpGlobGetSources (b : Buffer) env (crypt : UDPCrypt) x : udpStep E F P Q A :=
  let format := udpSourceFormat env x in
  eachFile maxUDPGetSourcesHashes 16 readHash (λ hash size x,
    answerSources env crypt (λ hash _, eng_GetSourcesByHash hash (s_Storage (rt x))) (λ hash sources, buildGlobFoundSources hash sources format)
      hash size x) b x.

Definition udpGlobGetSources2 (b : Buffer) env (crypt : UDPCrypt) x : udpStep E F P Q A :=
  let format := udpSourceFormat env x in
  eachFile maxUDPGetSourcesHashes 20 readHashSize (λ hash size x,
    answerSources env crypt (λ hash size, eng_GetSources hash size (s_Storage (rt x))) (λ hash sources, buildGlobFoundSources hash sources format)
      hash size x) b x.

Definition udpGlobGetSourcesIPv6 (b : Buffer) env (crypt : UDPCrypt) x : udpStep E F P Q A :=
  eachFile maxUDPGetSourcesHashes 20 readHashSize (λ hash size x,
    answerSources env crypt (λ hash size, v6PublishableSources (eng_GetSources hash size (s_Storage (rt x))) (rt x))
      BuildGlobFoundSourcesIPv6Packet hash size x) b x.

(** ** Status and description *)

Definition buildStatRes (challenge udpKey : Z) env x : udpStep E F P Q A * result Buffer :=
  let '(s, (clients, files)) := counts (ev_now env) (rt x) in
  let x := onRt (λ _, s) x in
  let cfg := s_udp s in
  let observed := default [] (NormalizeIP (Some (ua_IP (ev_remote env)))) in
  (x, BuildGlobServStatResPacket challenge
    (mkUDPConfig (RuntimeState.uc_Name cfg) (RuntimeState.uc_Description cfg) (RuntimeState.uc_DynIP cfg) (RuntimeState.uc_UDPFlags cfg)
       (RuntimeState.uc_UDPPortObf cfg) (RuntimeState.uc_TCPPortObf cfg) udpKey (RuntimeState.uc_MaxConnections cfg)
       (RuntimeState.uc_SoftFiles cfg) (RuntimeState.uc_HardFiles cfg) observed (mkServerSearchAdvert [] []) [])
    (advertisedUsers s clients) (advertisedFiles s files) (advertisedLowIDs s (l_count (s_LowIDs s)))).

Definition udpGlobServStatReq (b : Buffer) env (crypt : UDPCrypt) x : udpStep E F P Q A :=
  match (GetUInt32LE b).2 with
  | Ok challenge =>
      let '(x, packet) := buildStatRes challenge (uc_ServerKey crypt) env x in
      udpReply env packet (peerReplyCrypt env crypt x) x
  | _ => x
  end.

Definition udpCryptPingReply (data : bytes) env (udpKey : Z) x : udpStep E F P Q A :=
  match (GetUInt32LE (NewBufferFromBytes data)).2 with
  | Ok challenge =>
      if challenge =? 0 then x
      else
        let '(x, packet) := buildStatRes challenge udpKey env x in
        match packet with
        | Ok p =>
            let x := onGossip (NoteInboundPingChallenge (ev_walk env 0) (ua_IP (ev_remote env)) challenge) x in
            let '(marker, key, _) := markOf env x in
            emit [WriteToUDP (ev_conn env) (Encrypt (NewUDPCrypt true challenge) (Bytes p) marker key) (ev_remote env)] x
        | _ => x
        end
  | _ => x
  end.

Definition udpServDescResOld env (crypt : UDPCrypt) x : udpStep E F P Q A :=
  let cfg := s_udp (rt x) in
  udpReply env (BuildServerDescResOldPacket (RuntimeState.uc_Name cfg) (RuntimeState.uc_Description cfg)) (peerReplyCrypt env crypt x) x.

Definition udpServDescRes (b : Buffer) env (crypt : UDPCrypt) x : udpStep E F P Q A :=
  match (GetUInt32LE b).2 with
  | Ok challenge =>
      let cfg := s_udp (rt x) in
      udpReply env (BuildServerDescResPacket challenge
        (mkUDPConfig (RuntimeState.uc_Name cfg) (RuntimeState.uc_Description cfg) (RuntimeState.uc_DynIP cfg) 0 0 0 0 0 0 0 []
           (RuntimeState.uc_ServerSearch cfg) (RuntimeState.uc_Ed3k cfg))) (peerReplyCrypt env crypt x) x
  | _ => x
  end.

(** ** Searches *)

Definition udpAnswerSearch (expr : SearchExpr) (rows : option (list File)) env (crypt : UDPCrypt) x : udpStep E F P Q A :=
  let files := capUDPSearchResults (withholdFiles (mergeMetaResults (eng_FindBySearch (Some expr) (s_Storage (rt x))) rows) (rt x)) in
  if bool_decide (files = []) then x
  else match BuildGlobSearchResPackets files with
       | Ok packets => foldl (λ x p, udpSend env (Bytes p) crypt x) x packets
       | _ => x
       end.

Definition isRelatedSearch (expr : SearchExpr) : bool := bool_decide (is_Some (FindRelated expr)).

Definition udpGlobSearchReq (b : Buffer) env (crypt : UDPCrypt) x : udpStep E F P Q A :=
  match (ParseSearchExpr b).2 with
  | Ok expr =>
      if queryBlocked expr (rt x) || isRelatedSearch expr then x
      else udpAnswerSearch expr (startMetaSearch expr false true (rt x)) env crypt x
  | _ => x
  end.

Definition udpGlobSearchReq3 (b : Buffer) env (crypt : UDPCrypt) x : udpStep E F P Q A :=
  match GetTags b with
  | (b, Ok tags) =>
      match (ParseSearchExpr b).2 with
      | Ok expr =>
          let flags := udpSearchFlags tags in
          if queryBlocked expr (rt x) || isRelatedSearch expr then x
          else udpAnswerSearch expr
                 (if hasFlag flags SrvCapUDPNoMeta then None else startMetaSearch expr (hasFlag flags SrvCapUDPMetaSearch) true (rt x)) env crypt x
      | _ => x
      end
  | _ => x
  end.

(** ** The NAT callback *)

Record natCallbackPeerView := mkPeerView {
  pv_client : connID; pv_ipv4 : Z; pv_sessionIP : option bytes; pv_crypt : Z; pv_natt : bool; pv_holePunch : bool; pv_hash : bytes }.

Definition natCallbackPeer (id : Z) (s : ServerRuntime E F P Q) : option natCallbackPeerView :=
  if (id =? 0) || HasHighID id then None
  else match GetClient id (s_LowIDs s) with
       | None => None
       | Some c =>
           let h := state c s in
           let i := info c s in
           if negb (ss_logged (client c s)) || negb (h_hasLowID h) || negb (ci_ID i =? id) then None
           else Some (mkPeerView c (default (ci_IPv4 i) (h_peerIP h ≫= IPv4ToUint32LE)) (h_peerIP h) (ci_CryptOptions i)
                        (h_nattCapable h) (h_holePunchExt h) (ci_Hash i))
       end.

Definition v4FromUint32 (v : Z) : bytes := le_split 4 v.

Definition sendNatCallbackUDP (conn : udpReplyConn) (ipv4 port : Z) (notice : bytes) env x : udpStep E F P Q A :=
  let ip := v4FromUint32 ipv4 in
  let '(marker, key, csMarker) := markOf env x in
  emit [WriteToUDP conn (EncryptForClientSocket (NewUDPCrypt true (deriveUDPKey (udpSecret (rt x)) ip))
          ([PrED2K; OpNatCallbackRequestedUDP] ++ notice) marker key csMarker) (mkUDPAddr ip port)] x.

(** The notice goes over UDP to a target that asked itself a moment ago, from its session's
    address, and over its TCP session otherwise. *)
Definition notifyTarget (targetID : Z) (target : natCallbackPeerView) (srcIPv4 port requesterID flags : Z) (hash : bytes) env x : udpStep E F P Q A :=
  let viaTCP :=
    if u_parking (x_u x) then x
    else match BuildNatCallbackRequestedPacket srcIPv4 port requesterID flags hash with
         | Ok b => onRt (λ s, (tryClient (pv_client target) (Ok b) s).1) x
         | _ => x
         end in
  match recentFor targetID (ev_now env) (u_callback (x_u x)) with
  | Some recent =>
      if re_ipv4 recent =? pv_ipv4 target then
        sendNatCallbackUDP (ev_conn env) (re_ipv4 recent) (re_port recent) (BuildNatCallbackNotice srcIPv4 port requesterID flags hash) env x
      else viaTCP
  | None => viaTCP
  end.

Definition udpForeignCallbackRequest (b : Buffer) (srcIPv4 targetID : Z) env x : udpStep E F P Q A :=
  let remote := ev_remote env in
  if negb (foreignCallbackEnabled (rt x)) || hasConnectionFrom (ua_IP remote) (x_u x) then x
  else
    let crypt := match (GetUInt8 b).2 with Ok c => Z.land c 0x07 | _ => 0 end in
    let key := addressKey (ua_IP remote) in
    let x := observeUDPQuerier key (ev_now env) x in
    let cfg := s_udp (rt x) in
    let '(n, ok) := allowForeignAddress key (uc_ForeignPerMinute cfg) (uc_ForeignBurst cfg) (ev_now env) (u_callback (x_u x)) in
    let x := setCallback n x in
    if negb ok then countLimited x
    else match natCallbackPeer targetID (rt x) with
    | None => x
    | Some target =>
        if negb (pv_natt target) ||
           (pv_holePunch target && negb (natCryptCompatible crypt (pv_crypt target))) ||
           (negb (pv_holePunch target) && hasFlag (Z.lor crypt (pv_crypt target)) natCryptRequire) then x
        else
          let '(n, ok) := allowForeignNamed key targetID (ev_now env) (u_callback (x_u x)) in
          let x := setCallback n x in
          if negb ok then countLimited x
          else
            let '(n, ok) := allowForeignTarget targetID (ev_now env) (u_callback (x_u x)) in
            let x := setCallback n x in
            if negb ok then countLimited x
            else
              let port := u16 (ua_Port remote) in
              let x := if pv_holePunch target then
                         let '(n, gen, first) := addForeign targetID (mkForeign srcIPv4 port crypt (ev_now env) (ev_conn env)) (u_callback (x_u x)) in
                         let x := setCallback n x in
                         if first : bool then arm [FallbackTimer (ev_now env + natForeignFallback) targetID gen] x else x
                       else x in
              notifyTarget targetID target srcIPv4 port 0 crypt [] env x
    end.

Definition udpNatCallbackRequest (b : Buffer) (obfuscated : bool) env x : udpStep E F P Q A :=
  let remote := ev_remote env in
  if negb (natCallbackEnabled (rt x)) || negb obfuscated then x
  else match NormalizeIP (Some (ua_IP remote)) ≫= IPv4ToUint32LE with
  | None => x
  | Some srcIPv4 =>
      if (ua_Port remote <=? 0) || (0xffff <? ua_Port remote) then x
      else match GetUInt32LE b with
      | (b, Ok targetID) =>
          match GetUInt32LE b with
          | (b, Ok requesterID) =>
              if requesterID =? 0 then udpForeignCallbackRequest b srcIPv4 targetID env x
              else match natCallbackPeer requesterID (rt x) with
              | None => x
              | Some requester =>
                  if negb (pv_ipv4 requester =? srcIPv4) then x
                  else
                    let '(n, ok) := allow requesterID (ev_now env) (u_callback (x_u x)) in
                    let x := setCallback n x in
                    if negb ok then countLimited x
                    else
                      let x := setCallback (remember requesterID (mkRecent srcIPv4 (u16 (ua_Port remote)) (ev_now env) None false)
                                              (u_callback (x_u x))) x in
                      if targetID =? requesterID then x
                      else match natCallbackPeer targetID (rt x) with
                      | None => x
                      | Some target =>
                          if negb (pv_natt target) then x
                          else
                            let '(flags, withHash, ok) := NatCallbackCrypt (pv_crypt requester) (pv_crypt target) in
                            if negb ok then x
                            else notifyTarget targetID target srcIPv4 (u16 (ua_Port remote)) requesterID flags
                                   (if withHash : bool then pv_hash requester else []) env x
                      end
              end
          | _ => x
          end
      | _ => x
      end
  end.

(** The notices of [sendForeignNotices], in order. *)
Definition foreignNotices (target : natCallbackPeerView) (targetID : Z) (endpoint : natCallbackRecent) (pending : list natForeignPending) :
    list (natForeignPending * bytes) :=
  omap (λ p,
    let '(flags, useCrypt, ok) := NatCallbackCrypt (pv_crypt target) (fp_crypt p) in
    if negb ok then None
    else
      let notice := BuildNatCallbackNotice (re_ipv4 endpoint) (re_port endpoint) targetID flags (pv_hash target) in
      Some (p, if useCrypt : bool then notice else <[10%nat := Z.ldiff (nth 10 notice 0) natCallbackNoticeFlagHash]> notice)) pending.

Definition sendNotices (outs : list (natForeignPending * bytes)) env x : udpStep E F P Q A :=
  foldl (λ x o, sendNatCallbackUDP (fp_conn o.1) (fp_ipv4 o.1) (fp_port o.1) o.2 env x) x outs.

Definition sendForeignNotices (target : natCallbackPeerView) (targetID : Z) (endpoint : natCallbackRecent) (pending : list natForeignPending) env x :
    udpStep E F P Q A :=
  match foreignNotices target targetID endpoint pending with
  | [] => x
  | outs => arm (map (λ d, ResendTimer (ev_now env + d) outs) natForeignResends) (sendNotices outs env x)
  end.

Definition udpNatKeepalive (b : Buffer) (obfuscated : bool) env x : udpStep E F P Q A :=
  let remote := ev_remote env in
  if negb (foreignCallbackEnabled (rt x)) || (ua_Port remote <=? 0) || (0xffff <? ua_Port remote) then x
  else match Get 16 b with
  | (b, Ok hash) =>
      if negb (bool_decide (length hash = 16%nat)) then x
      else
        let rest := match (Get (Remaining_of b) b).2 with Ok rest => rest | _ => [] end in
        match sessionByHash hash (rt x) with
        | None => x
        | Some c =>
            let id := ci_ID (info c (rt x)) in
            match natCallbackPeer id (rt x) with
            | None => x
            | Some target =>
                if negb (bool_decide (pv_client target = c)) then x
                else
                  let ip := default [] (NormalizeIP (Some (ua_IP remote))) in
                  let src := IPv4ToUint32LE ip in
                  let sameIP := match src with
                                | Some src => src =? pv_ipv4 target
                                | None => EqualIP (default [] (pv_sessionIP target)) ip
                                end in
                  let '(st, verdict) := checkKeepalive (s_natSessions (rt x) !! c) hash rest obfuscated sameIP in
                  let x := onRt (λ s, { s with s_natSessions := partial_alter (λ _, st) c (s_natSessions s) }) x in
                  match verdict, src with
                  | inl proven, Some src =>
                      let endpoint := mkRecent src (u16 (ua_Port remote)) (ev_now env) (Some c) proven in
                      let '(n, pending) := takeForeign id (ev_now env) (rememberKeepalive id endpoint (u_callback (x_u x))) in
                      sendForeignNotices target id endpoint pending env (setCallback n x)
                  | _, _ => x
                  end
            end
        end
  | _ => x
  end.

Definition foreignFallback (targetID gen : Z) env x : udpStep E F P Q A :=
  let '(n, pending) := takeForeignGen targetID gen (ev_now env) (u_callback (x_u x)) in
  let x := setCallback n x in
  if bool_decide (pending = []) then x
  else match natCallbackPeer targetID (rt x) with
  | None => x
  | Some target =>
      let own := match recentFor targetID (ev_now env) n with
                 | Some r => if re_ipv4 r =? pv_ipv4 target then Some r else None
                 | None => None
                 end in
      let endpoint := match own with
                      | Some r => Some r
                      | None =>
                          match keepaliveFor targetID (ev_now env) n with
                          | Some r => if bool_decide (re_owner r = Some (pv_client target)) && ((re_ipv4 r =? pv_ipv4 target) || re_proven r)
                                      then Some r else None
                          | None => None
                          end
                      end in
      match endpoint with
      | Some r => sendForeignNotices target targetID r pending env x
      | None => x
      end
  end.

(** A timer fires; [ev_now] is the time it does. *)
Definition fireTimer (t : natTimer) env x : udpStep E F P Q A :=
  match t with
  | FallbackTimer _ targetID gen => foreignFallback targetID gen env x
  | ResendTimer _ outs => sendNotices outs env x
  end.

(** ** Gossip *)

(** Decryption does not panic, see [udp_decrypt_total]; what cannot be read comes back as it is. *)
Definition opened (r : result bytes) (data : bytes) : bytes := match r with Ok d => d | _ => data end.
Definition startsED2K (data : bytes) : bool := bool_decide (head data = Some PrED2K).

Definition decryptPeerReply (data from : bytes) env x : bytes :=
  match u_gossip (x_u x) with
  | None => data
  | Some g =>
      let tries := match PeerByIP (ev_walk env 0) from g with
                   | Some peer => if p_ServerKey peer =? 0 then [] else [p_ServerKey peer]
                   | None => []
                   end ++ PingChallengesFor (ev_walk env 1) from g in
      default data (find startsED2K (map (λ key, opened (DecryptFromServer (NewUDPCrypt true key) data) data) tries))
  end.

Definition sendPeerList (wantIPv6 : bool) env x : udpStep E F P Q A :=
  match u_gossip (x_u x) with
  | None => x
  | Some g =>
      let remote := ua_IP (ev_remote env) in
      let peers := withoutPeerIP (Verified (ev_walk env 1) g) remote in
      udpReply env (if wantIPv6 then BuildServerListResIPv6Packet peers else BuildServerListResPacket peers)
        (peerReplyCrypt env (NewUDPCrypt true (deriveUDPKey (udpSecret (rt x)) remote)) x) x
  end.

Definition udpServerListReq (b : Buffer) (obfuscated : bool) env x : udpStep E F P Q A :=
  match (ParseServerListReq b).2 with
  | Ok (_, port, _) =>
      match u_gossip (x_u x) with
      | None => x
      | Some _ =>
          let x := onGossip (NoteRegistration (ua_IP (ev_remote env)) port obfuscated (ev_now env)) x in
          if obfuscated then sendPeerList false env x else x
      end
  | _ => x
  end.

Definition udpServerListReq2 (wantIPv6 obfuscated : bool) env x : udpStep E F P Q A :=
  if negb obfuscated then x else sendPeerList wantIPv6 env x.

Definition udpServerListRes (b : Buffer) (isIPv6 obfuscated : bool) env x : udpStep E F P Q A :=
  match (if isIPv6 then ParseServerListResIPv6 b else ParseServerListRes b).2 with
  | Ok entries => onGossip (λ g, (MergePeerList (ev_walk env 0) (ua_IP (ev_remote env)) entries obfuscated (ev_now env) g).1) x
  | _ => x
  end.

Definition udpGlobServStatRes (b : Buffer) env x : udpStep E F P Q A :=
  match (ParseGlobServStatRes b).2 with
  | Ok fields =>
      onGossip (λ g,
        match PeerByIP (ev_walk env 0) (ua_IP (ev_remote env)) g with
        | None => g
        | Some peer =>
            let matches := (sr_Challenge fields =? p_OurChallenge peer) ||
                           (negb (p_PlainChallenge peer =? 0) && (sr_Challenge fields =? p_PlainChallenge peer)) in
            NoteStatRes (ev_walk env 1) (ua_IP (ev_remote env)) fields matches (ev_now env) g
        end) x
  | _ => x
  end.

Definition udpServerDescRes (b : Buffer) env x : udpStep E F P Q A :=
  match ParseServerDesc b with
  | Ok d =>
      let from := ua_IP (ev_remote env) in
      onGossip (λ g,
        let '(g, ok) := NoteDescription (ev_walk env 0) from (sd_Name d) (sd_Desc d) (ev_now env) g in
        if ok : bool then NoteEd3k (ev_walk env 2) from (sd_Ed3k d) (NoteServerSearch (ev_walk env 1) from (sd_ServerSearch d) g) else g) x
  | _ => x
  end.

(** ** The dispatcher *)

(** The handler of an opcode over the rest of the datagram; [len] is its length decrypted. *)
Definition udpDispatch (code : Z) (len : nat) (b : Buffer) (obfuscated : bool) (crypt : UDPCrypt) env x : udpStep E F P Q A :=
  let cfg := s_udp (rt x) in
  let gated (enabled : bool) (f : udpStep E F P Q A → udpStep E F P Q A) :=
    let '(x, ok) := udpOpcodeEnabled enabled env x in if ok : bool then f x else x in
  let gossip (needIPv6 : bool) (f : udpStep E F P Q A → udpStep E F P Q A) := if gossipOpcodeEnabled needIPv6 x then f x else x in
  if code =? OpGlobGetSources then gated (uc_GetSources cfg) (udpGlobGetSources b env crypt)
  else if code =? OpGlobGetSources2 then gated (uc_GetSources cfg) (udpGlobGetSources2 b env crypt)
  else if code =? OpGlobGetSourcesIPv6 then
    if negb (ipv6Enabled (rt x)) then x else gated (uc_GetSources cfg) (udpGlobGetSourcesIPv6 b env crypt)
  else if code =? OpGlobServStatReq then udpGlobServStatReq b env crypt x
  else if code =? OpNatCallbackRequest then udpNatCallbackRequest b obfuscated env x
  else if code =? OpNatKeepalive then udpNatKeepalive b obfuscated env x
  else if code =? OpServerDescReq then if (len <? 6)%nat then udpServDescResOld env crypt x else udpServDescRes b env crypt x
  else if (code =? OpGlobSearchReq) || (code =? OpGlobSearchReq2) then gated (uc_GetFiles cfg) (udpGlobSearchReq b env crypt)
  else if code =? OpGlobSearchReq3 then gated (uc_GetFiles cfg) (udpGlobSearchReq3 b env crypt)
  else if code =? OpServerListReq then gossip false (udpServerListReq b obfuscated env)
  else if code =? OpServerListRes then gossip false (udpServerListRes b false obfuscated env)
  else if code =? OpServerListReq2 then gossip false (udpServerListReq2 false obfuscated env)
  else if code =? OpServerListReqIPv6 then gossip true (udpServerListReq2 true obfuscated env)
  else if code =? OpServerListResIPv6 then gossip true (udpServerListRes b true obfuscated env)
  else if code =? OpGlobServStatRes then gossip false (udpGlobServStatRes b env)
  else if code =? OpServerDescRes then gossip false (udpServerDescRes b env)
  else x.

Definition natDatagram (data : bytes) (h : NATTraversalHandler) env x : udpStep E F P Q A :=
  let '(h, s, out) := HandlePacket (runtimeHooks (u_parking (x_u x))) data (ev_remote env) (ev_conn env) (ev_now env) h (rt x) in
  emit out (onU (λ u, { u with u_nat := Some h; u_rt := s }) x).

(** The plaintext of a datagram, and whether it came obfuscated. *)
Definition openDatagram (enableCrypt : bool) (data : bytes) (crypt : UDPCrypt) env x : bytes * bool :=
  let arrivedPlaintext := startsED2K data in
  let data := if uc_Status crypt =? CsEncrypting then opened (Decrypt crypt data) data else data in
  let data := if enableCrypt && negb arrivedPlaintext && negb (startsED2K data) then decryptPeerReply data (ua_IP (ev_remote env)) env x else data in
  (data, enableCrypt && negb arrivedPlaintext && startsED2K data).

Definition UDPHandler (enableCrypt : bool) (data : bytes) env x : udpStep E F P Q A :=
  if bool_decide (data = []) then x
  else
    let remote := ua_IP (ev_remote env) in
    let '(x, blocked) := blockedPeer (NormalizeIP (Some remote)) x in
    if blocked : bool then x
    else match u_nat (x_u x), bool_decide (head data = Some PrNat) || bool_decide (length data = 1%nat) with
    | Some h, true => natDatagram data h env x
    | _, _ =>
        let crypt := NewUDPCrypt enableCrypt (deriveUDPKey (udpSecret (rt x)) remote) in
        let '(data, obfuscated) := openDatagram enableCrypt data crypt env x in
        match data with
        | protocol :: code :: _ =>
            if negb (protocol =? PrED2K) then
              if enableCrypt && isCryptPing data then udpCryptPingReply data env (uc_ServerKey crypt) x else x
            else
              let x := onU (λ u, { u with u_ports := NoteClientUDPPort (ev_remote env) (ev_now env - u_started u) (u_ports u) }) x in
              udpDispatch code (length data) (mkBuffer data 2) obfuscated crypt env x
        | _ => x
        end
    end.

End Handlers.
