(* ===== verification/GossipTable.v ===== *)
(** * What a frame can do to the table of peer servers

    [frameFrom ip g g']: the table moved from [g] to [g'] as a frame sent from [ip] may move
    it. Every method that handles a frame moves it so. Nobody but a server itself can have
    it listed: a frame of a third party changes no peer and adds only unproved ones. *)

From stdpp Require Import gmap.
From S2P Require Import Prelude Buffer Types Address NetIP Packet Builders UDPCrypt Text SortedIDs NatTraversal Gossip.
Local Open Scope Z_scope.

(** The address of a peer as the table compares it. *)
Definition peerHost (p : PeerServer) : bytes := IPString (pa_IP (p_Addr p)).

(** ** Keys name addresses *)

Lemma Itoa_no_colon n : 58 ∉ Itoa n.
Proof.
  unfold Itoa. generalize 20%nat. intros fuel H. apply list_elem_of_fmap in H as (d&Hd&Hin).
  assert (0 <= d < 10) as Hr.
  { clear Hd. revert n Hin. induction fuel as [|fuel IH]; intros n Hin; cbn [digitsOf] in Hin; [by apply not_elem_of_nil in Hin|].
    apply elem_of_app in Hin as [Hin|Hin%list_elem_of_singleton]; [|subst; apply Z.mod_pos_bound; lia].
    destruct (n <? 10); [by apply not_elem_of_nil in Hin|by eapply IH]. }
  unfold digitChar in Hd. rewrite (proj2 (Z.ltb_lt d 10)) in Hd by lia. lia.
Qed.

Lemma last_sep_inj {A} (c : A) a a' p p' : c ∉ p → c ∉ p' → a ++ c :: p = a' ++ c :: p' → a = a'.
Proof.
  intros Hp Hp'. revert a'. induction a as [|x a IH]; intros [|x' a'] Heq; cbn in Heq; try done; injection Heq as Hx Heq.
  - subst p. exfalso. apply Hp, elem_of_app. right. apply list_elem_of_here.
  - subst p'. exfalso. apply Hp', elem_of_app. right. apply list_elem_of_here.
  - subst x'. f_equal. by apply IH.
Qed.

Definition bracketed (host : bytes) : bytes := if bool_decide (58 ∈ host) || bool_decide (37 ∈ host) then 91 :: host ++ [93] else host.

Lemma JoinHostPort_bracketed host port : JoinHostPort host port = bracketed host ++ 58 :: port.
Proof. unfold JoinHostPort, bracketed. destruct (_ || _); [|done]. cbn. by rewrite <- app_assoc. Qed.

Lemma bracketed_inj h h' : bracketed h = bracketed h' → h = h'.
Proof.
  assert (∀ a b, bool_decide (58 ∈ a) || bool_decide (37 ∈ a) = true → bool_decide (58 ∈ b) || bool_decide (37 ∈ b) = false →
            91 :: a ++ [93] ≠ b) as Hmix.
  { intros a b Ha Hb <-. apply orb_false_iff in Hb as [H1 H2]. rewrite bool_decide_eq_false in H1, H2.
    rewrite elem_of_cons, elem_of_app in H1, H2. apply orb_true_iff in Ha as [Ha|Ha]; apply bool_decide_eq_true in Ha; naive_solver. }
  unfold bracketed. destruct (_ || _) eqn:E1, (bool_decide (58 ∈ h') || _) eqn:E2; [|by intros ?%Hmix|by intros H; symmetry in H; apply Hmix in H|done].
  intros [= H]. by apply app_inj_tail in H as [? _].
Qed.

Lemma peerString_host a b : peerString a = peerString b → IPString (pa_IP a) = IPString (pa_IP b).
Proof.
  unfold peerString. rewrite !JoinHostPort_bracketed. intros H. apply bracketed_inj.
  eapply last_sep_inj; [..|exact H]; apply Itoa_no_colon.
Qed.

(** Every peer is stored under its own address. *)
Definition keyed (g : GossipHandler) : Prop := map_Forall (λ k p, peerString (p_Addr p) = k) (g_peers g).

(** What may happen to one entry of the table. *)
Definition entryMove (ip : bytes) (o o' : option PeerServer) : Prop :=
  match o, o' with
  | Some p, Some p' => p' = p ∨ peerHost p = ipKey ip ∧ p_Addr p' = p_Addr p ∧ stateRank (p_State p) ≤ stateRank (p_State p')
  | None, Some p' => p_State p' = peerSeen ∨ peerHost p' = ipKey ip
  | Some _, None => False
  | None, None => True
  end.

Record frameFrom (ip : bytes) (g g' : GossipHandler) : Prop := {
  ff_cfg : g_cfg g' = g_cfg g;
  ff_peers : ∀ k, entryMove ip (g_peers g !! k) (g_peers g' !! k);
  ff_keyed : keyed g → keyed g';
  ff_size : 0 < gc_MaxServers (g_cfg g) → size (g_peers g') ≤ Z.max (size (g_peers g)) (gc_MaxServers (g_cfg g));
  ff_challenges : size (g_inboundChallenges g) ≤ maxInboundChallenges → size (g_inboundChallenges g') ≤ maxInboundChallenges;
}.

Lemma entryMove_refl ip o : entryMove ip o o.
Proof. destruct o; cbn; auto. Qed.

Lemma entryMove_trans ip o1 o2 o3 : entryMove ip o1 o2 → entryMove ip o2 o3 → entryMove ip o1 o3.
Proof.
  destruct o1 as [p1|], o2 as [p2|], o3 as [p3|]; cbn; try done.
  - intros [->|(?&?&?)] [->|(?&?&?)]; auto; right; unfold peerHost in *; split_and!; congruence || lia.
  - intros [Hs|Hh] [->|(Hh'&Ha&_)]; auto; right; unfold peerHost in *; congruence.
Qed.

#[export] Instance frameFrom_preorder ip : PreOrder (frameFrom ip).
Proof.
  split.
  - intros g. split; [done| |done|lia|done]. intros k. apply entryMove_refl.
  - intros g1 g2 g3 [Hc1 Hp1 Hk1 Hs1 Hi1] [Hc2 Hp2 Hk2 Hs2 Hi2]. split; [congruence| |auto| |auto].
    + intros k. by eapply entryMove_trans.
    + rewrite Hc1 in Hs2. lia.
Qed.

(** ** The building blocks *)

Lemma onStats_move ip f g : frameFrom ip g (onStats f g).
Proof. destruct g. split; [done| |done|cbn; lia|done]. intros k. apply entryMove_refl. Qed.

Lemma onPeer_move ip key f g :
  (∀ p, g_peers g !! key = Some p → entryMove ip (Some p) (Some (f p))) → frameFrom ip g (onPeer key f g).
Proof.
  intros Hf. destruct g as [cfg peers cl lo inb st ro]. cbn in *.
  assert (∀ k, entryMove ip (peers !! k) (alter f key peers !! k)) as Hm.
  { intros k. destruct (decide (k = key)) as [->|]; [|rewrite lookup_alter_ne by done; apply entryMove_refl].
    rewrite lookup_alter_eq. destruct (peers !! key) as [p|] eqn:Hp; cbn; [by apply (Hf p)|done]. }
  split; [done|exact Hm| |cbn; rewrite <- !size_dom, dom_alter_L; lia|done]. intros Hk k p' Hp'. specialize (Hm k). cbn in Hp'. rewrite Hp' in Hm.
  destruct (peers !! k) as [p|] eqn:Hp; [|assert (alter f key peers !! k = None) by (by apply lookup_alter_None); congruence].
  pose proof (Hk k p Hp) as Hkp. destruct Hm as [->|(_&->&_)]; done.
Qed.

Lemma findByIP_host w ip g key p : isWalk w → findByIPLocked w ip g = Some (key, p) → g_peers g !! key = Some p ∧ peerHost p = ipKey ip.
Proof.
  intros Hw. unfold findByIPLocked. destruct (List.filter _ _) as [|kp l] eqn:Hf; [done|]. intros [= ->].
  assert ((key, p) ∈ List.filter (λ kp, bool_decide (IPString (pa_IP (p_Addr kp.2)) = ipKey ip)) (w _ (g_peers g))) as Hin
    by (rewrite Hf; apply list_elem_of_here).
  apply list_elem_of_In, filter_In in Hin as [Hin Hb]. apply list_elem_of_In in Hin. rewrite (Hw _ (g_peers g)) in Hin.
  apply elem_of_map_to_list in Hin. by apply bool_decide_eq_true in Hb.
Qed.

(** An update of the peer a walk finds by its address. *)
Lemma onFound_move w ip f g key p : isWalk w → findByIPLocked w ip g = Some (key, p) →
  (∀ p, p_Addr (f p) = p_Addr p ∧ stateRank (p_State p) ≤ stateRank (p_State (f p))) → frameFrom ip g (onPeer key f g).
Proof.
  intros Hw Hfind Hf. destruct (findByIP_host _ _ _ _ _ Hw Hfind) as [Hk Hh].
  apply onPeer_move. intros p' Hp'. right. split; [congruence|]. apply Hf.
Qed.

Lemma promote_rank to now p : p_Addr (promoteLocked to now p) = p_Addr p ∧ stateRank (p_State p) ≤ stateRank (p_State (promoteLocked to now p)) ∧
  stateRank to ≤ stateRank (p_State (promoteLocked to now p)).
Proof.
  unfold promoteLocked. destruct p as [ad na de sk uo to' uf ss ed oc pc pl ri st us fi ls lv fa]. cbn [p_State].
  destruct (Z.ltb_spec (stateRank st) (stateRank to)); destruct (_ <=? _); cbn; split_and!; try done; lia.
Qed.

Lemma ipKey_norm ip : IPString (pa_IP (normPeer (mkPeerAddr ip 0))) = ipKey ip.
Proof. done. Qed.

Lemma admit_move ip addr referer now g : frameFrom ip g (admitLocked addr referer now g).1.
Proof.
  unfold admitLocked. destruct (bool_decide _ || _); [apply onStats_move|].
  destruct (bool_decide_reflect (is_Some (g_peers g !! peerString (normPeer addr)))) as [|Hn]; [done|].
  destruct (negb _); [apply onStats_move|]. destruct (isSelfLocked _ _); [apply onStats_move|].
  destruct (match g_clientIPs g !! _ with Some _ => _ | None => _ end); [apply onStats_move|].
  destruct (_ && _) eqn:Hroom; [apply onStats_move|]. cbn [fst].
  etrans; [|apply onStats_move]. destruct g as [cfg peers cl lo inb st ro]. cbn in *. split; [done|intros k|intros Hk|intros Hmax|done]; cbn.
  - destruct (decide (k = peerString (normPeer addr))) as [->|]; [|rewrite lookup_insert_ne by done; apply entryMove_refl].
    rewrite lookup_insert_eq. apply eq_None_not_Some in Hn. rewrite Hn. by left.
  - by apply map_Forall_insert_2.
  - rewrite map_size_insert_None by (by apply eq_None_not_Some). cbn in *. lia.
Qed.

(** ** The methods *)

Section Methods.
Context (w : Walk) (Hw : isWalk w) (ip : bytes).
Implicit Types (g : GossipHandler).

Lemma MergePeerList_move entries obfuscated now g : frameFrom ip g (MergePeerList w ip entries obfuscated now g).1.
Proof.
  unfold MergePeerList. destruct (negb obfuscated); [apply onStats_move|]. destruct (negb _); [apply onStats_move|].
  generalize 0 at 1. intros n. revert n g. induction entries as [|e entries IH]; intros n g; [done|]. cbn [foldl].
  pose proof (admit_move ip e (Some ip) now g) as Ha. destruct (admitLocked e (Some ip) now g) as [g1 ok]. cbn [fst] in Ha.
  etrans; [exact Ha|]. apply IH.
Qed.

Lemma NoteRegistration_move port obfuscated now g : keyed g → frameFrom ip g (NoteRegistration ip port obfuscated now g).
Proof.
  intros Hk. unfold NoteRegistration. set (addr := normPeer (mkPeerAddr ip port)). set (g0 := if obfuscated then g else _).
  assert (frameFrom ip g g0) as H0 by (unfold g0; destruct obfuscated; [done|apply onStats_move]). clearbody g0.
  pose proof (admit_move ip addr None now g0) as Ha. destruct (admitLocked addr None now g0) as [g1 ok]. cbn [fst] in Ha.
  destruct ok; cbn [negb]; [|by etrans]. etrans; [exact H0|]. etrans; [exact Ha|].
  assert (keyed g1) as Hk1 by (eapply ff_keyed; [exact Ha|]; by eapply ff_keyed).
  apply onPeer_move. intros p Hp. right. split; [by apply (peerString_host (p_Addr p) addr), Hk1|].
  destruct p. destruct obfuscated; [|done]. match goal with |- context [promoteLocked ?a ?b ?p] => destruct (promote_rank a b p) as (?&?&_) end. done.
Qed.

Lemma NoteStatRes_move fields ok now g : frameFrom ip g (NoteStatRes w ip fields ok now g).
Proof.
  unfold NoteStatRes. destruct (findByIPLocked w ip g) as [[key p]|] eqn:Hf; [|done]. destruct (negb ok); [done|].
  eapply onFound_move; [done|exact Hf|]. intros q. destruct q. destruct (negb _); [done|].
  match goal with |- context [promoteLocked ?a ?b ?p] => destruct (promote_rank a b p) as (?&?&_) end. done.
Qed.

Lemma NoteDescription_move name desc now g : frameFrom ip g (NoteDescription w ip name desc now g).1.
Proof.
  unfold NoteDescription. destruct (findByIPLocked w ip g) as [[key p]|] eqn:Hf; [|done]. destruct (_ || _); [done|].
  eapply onFound_move; [done|exact Hf|]. intros q. destruct q.
  match goal with |- context [promoteLocked ?a ?b ?p] => destruct (promote_rank a b p) as (?&?&_) end. done.
Qed.

Lemma NoteServerSearch_move `{!Adverts} advert g : frameFrom ip g (NoteServerSearch w ip advert g).
Proof.
  unfold NoteServerSearch. destruct (findByIPLocked w ip g) as [[key p]|] eqn:Hf; [|done].
  eapply onFound_move; [done|exact Hf|]. intros q. by destruct q.
Qed.

Lemma NoteEd3k_move `{!Adverts} link g : frameFrom ip g (NoteEd3k w ip link g).
Proof.
  unfold NoteEd3k. destruct (findByIPLocked w ip g) as [[key p]|] eqn:Hf; [|done].
  eapply onFound_move; [done|exact Hf|]. intros q. by destruct q.
Qed.

Lemma NoteInboundPingChallenge_move challenge g : frameFrom ip g (NoteInboundPingChallenge w ip challenge g).
Proof.
  unfold NoteInboundPingChallenge. destruct (_ || _); [done|]. set (m := if negb _ && _ then _ else _).
  assert (size (g_inboundChallenges g) ≤ maxInboundChallenges → size (<[ipKey ip := challenge]> m) ≤ maxInboundChallenges) as Hm.
  { unfold m. clear m. destruct g as [cfg peers cl lo inb st ro]. cbn. intros Hs.
    destruct (bool_decide_reflect (is_Some (inb !! ipKey ip))) as [Hin|Hin%eq_None_not_Some]; cbn [negb andb];
      [by rewrite map_size_insert_Some|].
    destruct (Z.leb_spec maxInboundChallenges (size inb)); [|rewrite map_size_insert_None by done; lia].
    destruct (w Z inb) as [|[victim v] l] eqn:Hwl.
    { assert (map_to_list inb = []) as Hnil by (apply Permutation_nil_r; by rewrite <- (Hw _ inb), Hwl).
      apply map_to_list_empty_iff in Hnil. subst inb. rewrite map_size_empty in *. unfold maxInboundChallenges in *. lia. }
    assert (inb !! victim = Some v) as Hv.
    { apply elem_of_map_to_list. rewrite <- (Hw _ inb), Hwl. apply list_elem_of_here. }
    rewrite map_size_insert_None by (apply lookup_delete_None; auto). rewrite map_size_delete_Some by (by exists v).
    assert (size inb ≠ 0%nat) by (intros Hz%map_size_empty_inv; set_solver). lia. }
  destruct g. split; [done| |done|cbn; lia|done]. intros k. apply entryMove_refl.
Qed.
End Methods.

(** ** Who is listed *)

Lemma elem_of_Verified w g a : isWalk w →
  a ∈ Verified w g ↔ ∃ k p, g_peers g !! k = Some p ∧ p_Addr p = a ∧ advertisableLocked p g = true.
Proof.
  intros Hw. unfold Verified. rewrite list_elem_of_fmap. split.
  - intros (p&->&Hin). rewrite merge_sort_Permutation in Hin. apply list_elem_of_In, filter_In in Hin as [Hin Ha].
    apply in_map_iff in Hin as ([k q]&<-&Hin). apply list_elem_of_In in Hin. rewrite (Hw _ (g_peers g)) in Hin.
    apply elem_of_map_to_list in Hin. by exists k, q.
  - intros (k&p&Hk&<-&Ha). exists p. split; [done|]. rewrite merge_sort_Permutation. apply list_elem_of_In, filter_In. split; [|done].
    apply in_map_iff. exists (k, p). split; [done|]. apply list_elem_of_In. rewrite (Hw _ (g_peers g)). by apply elem_of_map_to_list.
Qed.

Lemma frameFrom_listed ip g g' w w' a : isWalk w → isWalk w' → frameFrom ip g g' →
  a ∈ Verified w' g' → a ∈ Verified w g ∨ IPString (pa_IP a) = ipKey ip.
Proof.
  intros Hw Hw' [Hc Hp _ _ _]. rewrite !elem_of_Verified by done. intros (k&p'&Hk&<-&Ha). specialize (Hp k). rewrite Hk in Hp.
  unfold advertisableLocked in *. rewrite Hc in Ha. destruct (g_peers g !! k) as [p|] eqn:Hg; cbn in Hp.
  - destruct Hp as [->|(Hh&Hadr&_)]; [left; by exists k, p|]. right. unfold peerHost in Hh. by rewrite Hadr.
  - destruct Hp as [Hs|Hh]; [|by right]. rewrite Hs in Ha. done.
Qed.

(** ** What happens between frames *)

Definition entryStill (o o' : option PeerServer) : Prop :=
  match o, o' with
  | Some p, Some p' => p_Addr p' = p_Addr p ∧ p_State p' = p_State p
  | None, Some p' => p_State p' = peerSeen
  | Some _, None => False
  | None, None => True
  end.

(** The table keeps its peers where they are, or takes new ones it knows nothing of. *)
Record tableStill (g g' : GossipHandler) : Prop := {
  ts_peers : ∀ k, entryStill (g_peers g !! k) (g_peers g' !! k);
  ts_keyed : keyed g → keyed g';
}.

#[export] Instance tableStill_preorder : PreOrder tableStill.
Proof.
  split.
  - intros g. split; [|done]. intros k. by destruct (g_peers g !! k).
  - intros g1 g2 g3 [H1 K1] [H2 K2]. split; [|auto]. intros k. specialize (H1 k). specialize (H2 k).
    destruct (g_peers g1 !! k), (g_peers g2 !! k), (g_peers g3 !! k); cbn in *; try done; [split; destruct H1, H2; congruence|destruct H2; congruence].
Qed.

Lemma onPeer_still key f g : (∀ p, p_Addr (f p) = p_Addr p ∧ p_State (f p) = p_State p) → tableStill g (onPeer key f g).
Proof.
  intros Hf. destruct g as [cfg peers cl lo inb st ro]. split; cbn.
  - intros k. destruct (decide (k = key)) as [->|]; [rewrite lookup_alter_eq|rewrite lookup_alter_ne by done]; destruct (peers !! _); cbn; try done; apply Hf.
  - intros Hk k p' Hp'. destruct (decide (k = key)) as [->|]; cbn in Hp';
      [rewrite lookup_alter_eq in Hp'|rewrite lookup_alter_ne in Hp' by done; by apply Hk].
    apply fmap_Some in Hp' as (p&Hp&->). destruct (Hf p) as [-> _]. by apply Hk.
Qed.

Lemma same_peers_still g g' : g_peers g' = g_peers g → tableStill g g'.
Proof. intros Eq. split; [intros k; rewrite Eq; by destruct (g_peers g !! k)|unfold keyed; by rewrite Eq]. Qed.

Lemma AddSeeds_still seeds g : tableStill g (AddSeeds seeds g).1.
Proof.
  unfold AddSeeds. match goal with |- context [foldl ?f _ _] => set (F := f) end. generalize 0. intros n. revert n g.
  induction seeds as [|s seeds IH]; intros n g; [done|]. cbn [foldl]. destruct (F (g, n) s) as [g' n'] eqn:HF. etrans; [|apply IH]. clear IH. unfold F in HF.
  destruct (bool_decide (pa_IP s = []) || _); [by simplify_eq|].
  destruct (bool_decide_reflect (is_Some (g_peers g !! peerString (normPeer s)))) as [|Hn]; [by simplify_eq/=|].
  destruct (isSelfLocked _ _); [by simplify_eq/=|]. cbn [orb] in HF. apply pair_eq in HF as [<- _].
  destruct g as [cfg peers cl lo inb st ro]. cbn in *. split; cbn.
  - intros k. destruct (decide (k = peerString (normPeer s))) as [->|]; [|rewrite lookup_insert_ne by done; by destruct (peers !! k)].
    rewrite lookup_insert_eq. apply eq_None_not_Some in Hn. by rewrite Hn.
  - intros Hk. by apply map_Forall_insert_2.
Qed.

Lemma contactPeer_still cfg p d g : tableStill g (contactPeer cfg p d g).1.
Proof.
  unfold contactPeer. set (r1 := if _ <? _ then sendPhase1 cfg p d g else (g, [])).
  assert (tableStill g r1.1) as H1.
  { unfold r1. destruct (_ <? _); [|done]. unfold sendPhase1. destruct (cl_Main cfg), (gc_SelfIPv4 (g_cfg g)); try done.
    destruct (MakeUDPPacket _ _); try done. apply onPeer_still. by intros []. }
  destruct r1 as [g1 out1]. cbn [fst] in H1. assert (tableStill g1 (sendPhase2 cfg p d g1).1) as H2.
  { unfold sendPhase2. destruct (cl_Gossip cfg); [|done]. destruct (BuildObfPingRequest _ _) as [[packet challenge]|]; [|done].
    destruct (_ <? _); [done|]. apply onPeer_still. by intros []. }
  destruct (sendPhase2 cfg p d g1) as [g2 out2]. cbn [fst] in *. etrans; [exact H1|]. etrans; [exact H2|]. apply onPeer_still. by intros [].
Qed.

Lemma RunRound_still cfg draws g : tableStill g (RunRound cfg draws g).1.
Proof.
  unfold RunRound. assert (tableStill g (contactableForRound g).1) as Hc by (apply same_peers_still; by destruct g).
  destruct (contactableForRound g) as [g1 peers]. cbn [fst] in Hc. etrans; [exact Hc|]. clear Hc. generalize (@nil datagram). intros out.
  revert g1 out. induction peers as [|p peers IH]; intros g1 out; [done|]. cbn [foldl].
  pose proof (contactPeer_still cfg p (draws (p_Addr p)) g1) as Hp. destruct (contactPeer _ _ _ g1) as [g2 o]. etrans; [exact Hp|apply IH].
Qed.

(** A table of hosts nothing is known of: what the server starts with. *)
Definition freshTable (g : GossipHandler) : Prop := keyed g ∧ map_Forall (λ _ p, p_State p = peerSeen) (g_peers g).

Lemma NewGossipHandler_fresh cfg seeds : freshTable (NewGossipHandler cfg seeds).
Proof.
  unfold NewGossipHandler, freshTable, keyed. cbn.
  assert (∀ m : gmap bytes PeerServer, map_Forall (λ k p, peerString (p_Addr p) = k) m ∧ map_Forall (λ _ p, p_State p = peerSeen) m →
    let m' := foldl (λ m s, if bool_decide (pa_IP s = []) || (pa_Port s =? 0) then m else <[peerString s := newPeer s None 0]> m) m seeds in
    map_Forall (λ k p, peerString (p_Addr p) = k) m' ∧ map_Forall (λ _ p, p_State p = peerSeen) m') as Hf.
  { induction seeds as [|s seeds IH]; intros m Hm; [done|]. cbn [foldl]. apply IH. destruct (_ || _); [done|].
    destruct Hm. split; by apply map_Forall_insert_2. }
  apply Hf. split; apply map_Forall_empty.
Qed.

(** [spoken H g]: a peer past the first state is on a host of [H]. *)
Definition spoken (H : bytes → Prop) (g : GossipHandler) : Prop := map_Forall (λ _ p, p_State p = peerSeen ∨ H (peerHost p)) (g_peers g).

Lemma frame_spoken (H : bytes → Prop) ip g g' : frameFrom ip g g' → H (ipKey ip) → spoken H g → spoken H g'.
Proof.
  intros [_ Hp _ _ _] Hip Hs k p' Hk. specialize (Hp k). rewrite Hk in Hp. destruct (g_peers g !! k) as [p|] eqn:Hg; cbn in Hp.
  - destruct Hp as [->|(Hh&Ha&_)]; [by apply (Hs k)|]. right. unfold peerHost in *. by rewrite Ha, Hh.
  - destruct Hp as [Hseen|Hh]; [by left|right; by rewrite Hh].
Qed.

Lemma still_spoken (H : bytes → Prop) g g' : tableStill g g' → spoken H g → spoken H g'.
Proof.
  intros [Hp _] Hs k p' Hk. specialize (Hp k). rewrite Hk in Hp. destruct (g_peers g !! k) as [p|] eqn:Hg; cbn in Hp; [|auto].
  destruct Hp as [Ha Hst]. unfold peerHost. rewrite Ha, Hst. by apply (Hs k).
Qed.
