(* ===== verification/NatReach.v ===== *)
(** * Whom the rendezvous writes to

    [natHeard S h]: every endpoint the handler keeps, registered or waiting, is in [S]. A
    datagram adds its own source to [S] and nothing else, and what is sent goes to members of
    [S], in a bounded number. *)

From stdpp Require Import gmap.
From S2P Require Import Prelude Address NatTraversal NatRegistry NatRendezvous.
Local Open Scope Z_scope.

(** ** Endpoints *)

Definition wfEndpoint (ep : natEndpoint) : Prop := length (ep_ip ep) = 16%nat ∧ 0 <= ep_port ep < 2 ^ 16.

Lemma endpoint_wf a : wfEndpoint (natEndpointOf a).
Proof.
  split; [|apply Z.mod_pos_bound; lia]. cbn. unfold To16.
  destruct (bool_decide_reflect (length (ua_IP a) = 4%nat)) as [H4|]; [cbn; by rewrite H4|].
  by destruct (bool_decide_reflect (length (ua_IP a) = 16%nat)).
Qed.

Lemma To4_inv ip v4 : To4 ip = Some v4 → To16 v4 = To16 ip ∧ length v4 = 4%nat.
Proof.
  unfold To4. destruct (bool_decide_reflect (length ip = 4%nat)) as [H4|H4]; [by intros [= <-]|].
  case_bool_decide as Hm; [|done]. destruct Hm as [H16 Hp]. intros [= <-]. unfold To16.
  rewrite (bool_decide_true (length (drop 12 ip) = 4%nat)) by (rewrite length_drop; lia).
  rewrite (bool_decide_false (length ip = 4%nat)), (bool_decide_true (length ip = 16%nat)) by done.
  split; [|rewrite length_drop; lia]. f_equal. rewrite <- (take_drop 12 ip) at 2. by rewrite Hp.
Qed.

Lemma endpoint_back ep : wfEndpoint ep → natEndpointOf (udpAddr ep) = ep.
Proof.
  intros [Hl Hp]. destruct ep as [ip port]. cbn in *. unfold natEndpointOf, udpAddr. cbn. f_equal; [|by apply Z.mod_small].
  assert (To16 ip = Some ip) as E.
  { unfold To16. rewrite bool_decide_false, bool_decide_true by lia. done. }
  destruct (To4 ip) as [v4|] eqn:E4; cbn; [|by rewrite E]. apply To4_inv in E4 as [-> _]. by rewrite E.
Qed.

Lemma length_omap_le {X Y} (f : X → option Y) l : (length (omap f l) ≤ length l)%nat.
Proof. induction l as [|x l IH]; cbn; [lia|]. destruct (f x); cbn; lia. Qed.

(** ** What the handler keeps *)

Section Heard.
Context (S : gset natEndpoint).
Implicit Types (h : NATTraversalHandler).

Definition reached (a : UDPAddr) : Prop := natEndpointOf a ∈ S.

Definition slotsHeard h : Prop := ∀ hash f s, slotOf (nt_entries h) hash f = Some s → sl_ep s ∈ S ∧ wfEndpoint (sl_ep s).
Definition waitersHeard (ws : list natWakeWaiter) : Prop := Forall (λ w, reached (ww_remote w)) ws ∧ length ws ≤ natWakeMaxWaiters.
Definition waitsHeard h : Prop := map_Forall (λ _ p, waitersHeard (wp_waiters p)) (nt_pending h).
Definition entryHeard (e : natClientEntry) : Prop := ∀ c, ce_v4 e = Some c ∨ ce_v6 e = Some c → reached (cd_addr c).
Definition allReached (outs : list natOutbound) : Prop := Forall (λ o, reached (ob_to o)) outs.

Lemma get_heard h hash now e : slotsHeard h → getEntry hash now h = Some e → entryHeard e.
Proof.
  intros Hs. unfold getEntry. destruct (nt_entries h !! hash) as [v|] eqn:Hv; [|done]. intros Hget.
  assert (e = snapshot v hash (tick now h) now h) as -> by (repeat case_match; congruence). clear Hget.
  assert (∀ f c, candidate (slot v f) (tick now h) now h = Some c → reached (cd_addr c)) as Hc.
  { intros f c. unfold candidate. destruct (liveSlot _ _ _) eqn:El; [|done]. intros [= <-]. cbn.
    destruct (Hs hash f (slot v f)) as [Hin Hwf]; [by eapply live_slotOf|]. unfold reached. by rewrite endpoint_back. }
  intros c [Hc4|Hc6]; [by apply (Hc false)|by apply (Hc true)].
Qed.

Lemma pair_heard src dst ack v6 : entryHeard src → entryHeard dst → allReached (pairOutbound src dst ack v6) ∧ length (pairOutbound src dst ack v6) ≤ 2.
Proof.
  intros Hs Hd. unfold pairOutbound, allReached.
  destruct v6; [destruct (ce_v6 src) as [s6|] eqn:Es6; [destruct (ce_v6 dst) as [d6|] eqn:Ed6|]|].
  { split; [|cbn; lia]. repeat constructor; cbn; [apply Hs|apply Hd]; auto. }
  all: destruct (ce_v4 src) as [s4|] eqn:Es4; [destruct (ce_v4 dst) as [d4|] eqn:Ed4|]; (split; [|cbn; lia]); repeat constructor; cbn;
    [apply Hs|apply Hd]; auto.
Qed.

Lemma flat_map_bound {X Y} (f : X → list Y) (n : Z) l : (∀ x, x ∈ l → length (f x) ≤ n) → 0 ≤ n → length (flat_map f l) ≤ n * length l.
Proof.
  intros Hf Hn. induction l as [|x l IH]; [cbn; lia|]. cbn [flat_map length]. rewrite length_app.
  specialize (IH (λ y Hy, Hf y (list_elem_of_further _ _ _ Hy))). specialize (Hf x (list_elem_of_here _ _)). lia.
Qed.

Lemma wake_out_heard hash p now h : slotsHeard h → waitersHeard (wp_waiters p) →
  allReached (wakeOutbound hash p now h) ∧ length (wakeOutbound hash p now h) ≤ 2 * natWakeMaxWaiters.
Proof.
  intros Hs [Hw Hlen]. unfold wakeOutbound.
  assert (∀ w, w ∈ wp_waiters p → let out := match match getEntry (ww_hash w) now h, getEntry hash now h with
      | Some src, Some dst => pairOutbound src dst (ww_connAck w) (nt_ipv6Enabled h) | _, _ => [] end with
    | [] => [{ natFailed (ww_remote w) hash natFailReasonNotRegistered with ob_via := Some (ww_conn w) }]
    | first :: rest => { first with ob_via := Some (ww_conn w) } :: rest end in allReached out ∧ length out ≤ 2) as Hone.
  { intros w Hin. cbn zeta. assert (reached (ww_remote w)) as Hr by (rewrite Forall_forall in Hw; by apply Hw).
    set (pair := match getEntry (ww_hash w) now h with Some _ => _ | None => _ end).
    assert (allReached pair ∧ length pair ≤ 2) as [Hp Hl].
    { unfold pair. destruct (getEntry (ww_hash w) now h) as [src|] eqn:E1; [|split; [constructor|cbn; lia]].
      destruct (getEntry hash now h) as [dst|] eqn:E2; [|split; [constructor|cbn; lia]]. apply pair_heard; by eapply get_heard. }
    destruct pair as [|o rest]; [split; [by repeat constructor|cbn; lia]|]. apply Forall_cons in Hp as [Ho Hrest].
    destruct o. split; [by constructor|done]. }
  split.
  - unfold allReached. rewrite Forall_forall. intros o Ho. apply list_elem_of_In, in_flat_map in Ho as (w&Hin&Ho). apply list_elem_of_In in Hin, Ho.
    destruct (Hone w Hin) as [Hall _]. unfold allReached in Hall. rewrite Forall_forall in Hall. by apply Hall.
  - etrans; [apply (flat_map_bound _ 2); [intros w Hin; apply (Hone w Hin)|lia]|]. lia.
Qed.

(** ** One datagram *)

Section Datagram.
Context {R : Type} (hooks : natHooks R) (remote : UDPAddr) (Hr : reached remote) (Hv : validAddr remote).

Lemma same_slots h h' : sameRegistry h h' → slotsHeard h → slotsHeard h'.
Proof. intros [E _] H. unfold slotsHeard. rewrite E. exact H. Qed.

Lemma same_waits h h' : sameWaits h h' → waitsHeard h → waitsHeard h'.
Proof. intros [E _] H. unfold waitsHeard. rewrite E. exact H. Qed.

Lemma upsert_heard hash version sock now h : registry_ok h → slotsHeard h → slotsHeard (upsert hash remote version sock now h).
Proof.
  intros Hok Hs hash' f s. rewrite upsert_slots by done. unfold takenOver. case_decide; [intros [= <-]; cbn; split; [done|apply endpoint_wf]|].
  destruct (slotOf (nt_entries h) hash' f) as [s'|] eqn:E; [|done]. case_decide; [done|]. intros [= <-]. by eapply Hs.
Qed.

Lemma touch_heard sock now h : slotsHeard h → slotsHeard (touchByAddr remote sock now h).1.
Proof. intros Hs hash f s (s'&E&<-)%touch_slots. by eapply Hs. Qed.

Lemma add_waiter_heard w p : reached (ww_remote w) → waitersHeard (wp_waiters p) → waitersHeard (wp_waiters (addWaiter w p).1).
Proof.
  intros Hw [Hp Hl]. unfold addWaiter. destruct (replaceWaiter w (wp_waiters p)) as [ws|] eqn:E.
  - pose proof (replace_waiter _ _ _ E) as [_ Hlen]. destruct p as [id fam ws0 dl g]. cbn in *. split; [|lia].
    clear Hl Hlen. revert ws E. induction ws0 as [|x ws0 IH]; intros ws E; [done|]. cbn in E. apply Forall_cons in Hp as [Hx Hp].
    case_bool_decide; [injection E as <-; by constructor|]. destruct (replaceWaiter w ws0) as [ws1|]; [|done]. injection E as <-. constructor; auto.
  - destruct (Z.leb_spec natWakeMaxWaiters (length (wp_waiters p))); [done|]. destruct p. cbn in *. split.
    + apply Forall_app. by repeat constructor.
    + rewrite length_app. cbn. lia.
Qed.

Lemma wake_heard src dst ack conn now h r : waitsHeard h → waitsHeard (wakeTarget hooks src dst ack remote conn now h r).1.1.
Proof.
  intros Hw. unfold wakeTarget. destruct (hk_wake hooks) as [wake|]; [|done]. case_bool_decide; [done|].
  set (fam := match hk_addrs hooks with Some _ => _ | None => _ end). destruct (fam =? 0); [done|].
  destruct (match hk_member hooks with Some _ => _ | None => _ end); [done|]. destruct (nt_pending h !! dst) as [p|] eqn:Ep.
  - pose proof (add_waiter_heard (mkWaiter (ce_hash src) ack remote conn) p Hr (Hw _ _ Ep)) as Ha.
    destruct (addWaiter _ p) as [p' joined]. cbn [fst] in Ha.
    assert (waitsHeard { h with nt_pending := <[dst := { p' with wp_families := Z.lor (wp_families p') fam }]> (nt_pending h) }) as H'.
    { destruct h. cbn in *. apply map_Forall_insert_2; [by destruct p'|done]. }
    by destruct joined.
  - destruct (_ <=? _); [done|]. destruct (wake dst fam r) as [r' []]; [|done]. destruct h. cbn in *. apply map_Forall_insert_2; [|done].
    split; [by repeat constructor|cbn; unfold natWakeMaxWaiters; lia].
Qed.

Definition outOk (n : Z) (outs : list natOutbound) : Prop := allReached outs ∧ length outs ≤ n.

Lemma complete_heard hash now h : slotsHeard h → waitsHeard h →
  waitsHeard (completeWake hash remote now h).1 ∧ outOk (2 * natWakeMaxWaiters) (completeWake hash remote now h).2.
Proof.
  intros Hs Hw. assert (outOk (2 * natWakeMaxWaiters) []) as Hnil by (split; [constructor|unfold natWakeMaxWaiters; cbn; lia]).
  unfold completeWake. destruct (nt_pending h !! hash) as [p|] eqn:Ep; [|done]. destruct (_ =? 0); [done|]. destruct (_ && _).
  - split; [|done]. destruct (wp_graced p); [done|]. destruct h. cbn in *. apply map_Forall_insert_2; [|done]. specialize (Hw _ _ Ep). by destruct p.
  - cbn [fst snd]. split; [destruct h; by apply map_Forall_delete|]. apply wake_out_heard; [by destruct h|by apply (Hw _ _ Ep)].
Qed.

Lemma register_heard payload port sock ex now h r : registry_ok h → slotsHeard h → waitsHeard h →
  let '(h', outs) := handleRegister hooks remote payload port sock ex now h r in slotsHeard h' ∧ waitsHeard h' ∧ outOk 9 outs.
Proof.
  intros Hok Hs Hw. unfold handleRegister. assert (outOk 9 []) by (split; [constructor|cbn; lia]).
  destruct (length payload <? 16); [done|]. destruct (registerAllowed _ _ _ _ _ _); [|done]. cbn [negb].
  match goal with |- context [upsert ?a remote ?b sock now h] => pose proof (upsert_heard a b sock now h Hok Hs) as Hs1;
    pose proof (same_waits _ _ (upsert_waits a remote b sock now h) Hw) as Hw1; set (h1 := upsert a remote b sock now h) in * end.
  pose proof (complete_heard (take 16 payload) now h1 Hs1 Hw1) as [Hw2 [Hout Hl]].
  pose proof (same_slots _ _ (complete_registry (take 16 payload) remote now h1) Hs1) as Hs2.
  destruct (completeWake (take 16 payload) remote now h1) as [h2 paired]. cbn [fst snd] in *. split_and!; [done..|].
  split; [by constructor|]. unfold natWakeMaxWaiters in Hl. cbn [length]. lia.
Qed.

Lemma sync_heard payload conn sock now h r : registry_ok h → slotsHeard h → waitsHeard h →
  let '(h', _, outs) := handleSync2 hooks remote payload conn sock now h r in slotsHeard h' ∧ waitsHeard h' ∧ outOk 9 outs.
Proof.
  intros Hok Hs Hw. unfold handleSync2. assert (outOk 9 []) as Hnil by (split; [constructor|cbn; lia]).
  assert (∀ d reason, outOk 9 [natFailed remote d reason]) as Hfail by (intros; split; [by repeat constructor|cbn; lia]).
  destruct (length payload <? 36); [done|]. set (d := take 16 (drop 20 payload)).
  assert (let '(h1, src) := syncSource hooks (take 16 payload) remote sock now h r in slotsHeard h1 ∧ waitsHeard h1 ∧ entryHeard src) as H1.
  { unfold syncSource. assert (∀ h e, slotsHeard h → e = default noClient (getEntry (take 16 payload) now h) → entryHeard e) as Hd.
    { intros h0 e H0 ->. destruct (getEntry _ now h0) as [e|] eqn:E; cbn; [by eapply get_heard|]. by intros c [?|?]. }
    destruct (match getEntry _ now h with Some _ => _ | None => _ end); [split_and!; try done; by eapply Hd|].
    destruct (registerAllowed _ _ _ _ _ _); [|split_and!; try done; by eapply Hd].
    pose proof (upsert_heard (take 16 payload) 0 sock now h Hok Hs) as Hs1. split_and!; [done| |by eapply Hd].
    by apply (same_waits _ _ (upsert_waits (take 16 payload) remote 0 sock now h)). }
  destruct (syncSource _ _ _ _ _ _ _) as [h1 src]. destruct H1 as (Hs1&Hw1&Hsrc).
  pose proof (wake_heard src d (take 4 (drop 16 payload)) conn now h1 r Hw1) as Hw2.
  pose proof (same_slots _ _ (wake_registry hooks src d (take 4 (drop 16 payload)) remote conn now h1 r) Hs1) as Hs2.
  assert (∀ reason, let '(h', _, waits) := wakeTarget hooks src d (take 4 (drop 16 payload)) remote conn now h1 r in
    slotsHeard h' ∧ waitsHeard h' ∧ outOk 9 (if waits : bool then [] else [natFailed remote d reason])) as Hwake.
  { intros reason. destruct (wakeTarget _ _ _ _ _ _ _ _ _) as [[h2 r2] []]; cbn in *; done. }
  destruct (getEntry d now h1) as [dst|] eqn:Ed.
  - destruct (match hk_member hooks with Some _ => _ | None => _ end); [done|].
    pose proof (pair_heard src dst (take 4 (drop 16 payload)) (nt_ipv6Enabled h1) Hsrc (get_heard _ _ _ _ Hs1 Ed)) as [Hp Hl].
    specialize (Hwake natFailReasonNoCommonFamily). destruct (pairOutbound _ _ _ _) as [|o outs]; [by destruct (wakeTarget _ _ _ _ _ _ _ _ _) as [[h2 r2] waits]|].
    split_and!; try done. split; [done|lia].
  - specialize (Hwake natFailReasonNotRegistered). by destruct (wakeTarget _ _ _ _ _ _ _ _ _) as [[h2 r2] waits].
Qed.

Lemma keepalive_heard sock now h r : slotsHeard h → waitsHeard h →
  let '(h', _, outs) := handleKeepAlive hooks remote sock now h r in slotsHeard h' ∧ waitsHeard h' ∧ outOk 9 outs.
Proof.
  intros Hs Hw. unfold handleKeepAlive. pose proof (touch_heard sock now h Hs) as Hs1. pose proof (same_waits _ _ (touch_waits remote sock now h) Hw) as Hw1.
  destruct (touchByAddr remote sock now h) as [h' [hash|]]; cbn in *; split_and!; try done; (split; [by repeat constructor|cbn; lia]).
Qed.

Lemma send_reached n conn fallback rem h outs : outOk n outs →
  Forall (λ d, reached (dg_to d)) (sendOutbound conn fallback rem h outs) ∧ length (sendOutbound conn fallback rem h outs) ≤ n.
Proof.
  intros [Ha Hl]. split.
  - apply Forall_forall. intros d Hd. apply list_elem_of_omap in Hd as (o&Ho&Hd). unfold allReached in Ha. rewrite Forall_forall in Ha. specialize (Ha o Ho).
    destruct (ob_via o); [by injection Hd as <-|]. destruct (_ || _); apply fmap_Some in Hd as (c&_&->); done.
  - etrans; [|exact Hl]. apply inj_le, length_omap_le.
Qed.

Lemma packet_heard data conn now h r : registry_ok h → slotsHeard h → waitsHeard h →
  let '(h', _, out) := HandlePacket hooks data remote conn now h r in
  registry_ok h' ∧ slotsHeard h' ∧ waitsHeard h' ∧ Forall (λ d, reached (dg_to d)) out ∧ length out ≤ 9.
Proof.
  intros Hok Hs Hw. destruct (datagram_registry hooks data remote conn now h r) as (h0&Hsame0&Hstep).
  pose proof (registry_step hooks remote now r _ _ Hv Hstep (same_ok _ _ Hsame0 Hok)) as Hok'. clear Hstep Hsame0 h0. revert Hok'.
  unfold HandlePacket. set (port := if 0 <? _ then _ else _).
  assert (let '(h', _, outs) := processPacketFrom hooks data remote port conn now h r in slotsHeard h' ∧ waitsHeard h' ∧ outOk 9 outs) as Hp.
  { unfold processPacketFrom. assert (outOk 9 []) by (split; [constructor|cbn; lia]). case_bool_decide; [done|].
    pose proof (socket_registry conn port h) as Hsame. pose proof (socket_waits conn port h) as Hwait.
    destruct (socketIndex conn port h) as [h1 sock]. cbn [fst] in *.
    pose proof (same_slots _ _ Hsame Hs) as Hs1. pose proof (same_waits _ _ Hwait Hw) as Hw1. pose proof (same_ok _ _ Hsame Hok) as Hok1.
    case_bool_decide; [by apply keepalive_heard|]. destruct (decodeNATPacket data) as [[op payload]|]; [|done].
    destruct (_ && _); [done|]. destruct (_ || _).
    { pose proof (register_heard payload port sock (op =? OpNatRegisterEx) now h1 r Hok1 Hs1 Hw1). by destruct (handleRegister _ _ _ _ _ _ _ _ _). }
    destruct (op =? OpNatKeepAlive); [by apply keepalive_heard|]. destruct (op =? OpNatSync2); [by apply sync_heard|done]. }
  destruct (processPacketFrom _ _ _ _ _ _ _ _) as [[h' r'] outs]. destruct Hp as (Hs'&Hw'&Hout). intros Hok'.
  destruct (send_reached 9 (Some conn) (Some conn) (Some remote) h' outs Hout). split_and!; done.
Qed.
End Datagram.
End Heard.
