(* ===== verification/UDPReach.v ===== *)
(** * Whom the UDP server writes to

    [answers S n x x']: from [x] to [x'] a handler sent at most [n] datagrams, all to
    endpoints of [S], armed timers that will send to [S] only, kept in the callback state
    endpoints of [S] only, and moved the table of peers as a frame from its sender may. *)

From stdpp Require Import gmap.
From S2P Require Import Prelude Buffer Types Address NetIP Packet Builders Framing Crypt UDPCrypt LowID Text Search SearchParse FileMeta.
From S2P Require Import RateLimit BotDetector Engine RuntimeState Runtime NatTraversal NatRegistry NatRendezvous Gossip UDPPorts NatCallback UDPState UDPHandler.
From S2P Require Import GossipTable NatReach.
Local Open Scope Z_scope.

(** ** Endpoints given as a packed IPv4 address *)

Lemma To4_4 ip : length ip = 4%nat → To4 ip = Some ip.
Proof. intros H. unfold To4. by rewrite bool_decide_true. Qed.

Lemma packed_endpoint ip v port : wf_bytes ip → NormalizeIP (Some ip) ≫= IPv4ToUint32LE = Some v →
  natEndpointOf (mkUDPAddr (v4FromUint32 v) (u16 port)) = natEndpointOf (mkUDPAddr ip port).
Proof.
  intros Hw. cbn. destruct (To4 ip) as [v4|] eqn:E4; cbn.
  - pose proof (To4_inv _ _ E4) as [E16 Hl]. unfold IPv4ToUint32LE. rewrite (To4_4 v4 Hl). intros [= <-].
    unfold natEndpointOf. cbn. unfold v4FromUint32. rewrite <- Hl, le_split_combine by (by eapply To4_wf). rewrite E16.
    f_equal. unfold u16. by rewrite Z.mod_mod.
  - unfold To16. destruct (bool_decide_reflect (length ip = 4%nat)) as [H4|]; [by rewrite To4_4 in E4|].
    destruct (bool_decide_reflect (length ip = 16%nat)); [|done]. cbn. unfold IPv4ToUint32LE. by rewrite E4.
Qed.

Section Reach.
Context (S : gset natEndpoint).

Definition reached4 (ipv4 port : Z) : Prop := reached S (mkUDPAddr (v4FromUint32 ipv4) port).

Definition pendingHeard (l : list natForeignPending) : Prop :=
  Forall (λ p, reached4 (fp_ipv4 p) (fp_port p)) l ∧ length l ≤ natForeignMaxPerTarget.

Record callbackHeard (n : natCallbackState) : Prop := {
  ch_recent : map_Forall (λ _ r, reached4 (re_ipv4 r) (re_port r)) (nc_recent n);
  ch_foreign : map_Forall (λ _ w, pendingHeard (fw_list w)) (nc_foreign n);
}.

Definition timerHeard (t : natTimer) : Prop :=
  match t with
  | FallbackTimer _ _ _ => True
  | ResendTimer _ outs => Forall (λ o, reached4 (fp_ipv4 o.1) (fp_port o.1)) outs ∧ length outs ≤ natForeignMaxPerTarget
  end.

(** ** The callback state *)

Lemma remember_heard id r n : reached4 (re_ipv4 r) (re_port r) → callbackHeard n → callbackHeard (remember id r n).
Proof.
  intros Hr [Hre Hf]. unfold remember. destruct (_ <=? _); destruct n; split; cbn in *; try done; apply map_Forall_insert_2; try done.
  intros k v [Hk _]%map_lookup_filter_Some. by apply (Hre k).
Qed.

Lemma live_heard now l : pendingHeard l → pendingHeard (liveForeign now l).
Proof.
  intros [Hl Hn]. unfold liveForeign. split.
  - apply Forall_forall. intros p Hp. apply list_elem_of_In, filter_In in Hp as [Hp _]. apply list_elem_of_In in Hp.
    rewrite Forall_forall in Hl. by apply Hl.
  - etrans; [|exact Hn]. apply inj_le, List.filter_length_le.
Qed.

Lemma sweep_heard now n : callbackHeard n → callbackHeard (sweepForeign now n).
Proof.
  intros [Hre Hf]. unfold sweepForeign. destruct (_ <? _); [done|]. destruct n. split; cbn in *; [done|].
  intros k w Hk. rewrite lookup_omap in Hk. apply bind_Some in Hk as (w0&Hk&Hw). pose proof (live_heard now _ (Hf k w0 Hk)) as Hl.
  destruct (liveForeign now (fw_list w0)); [done|]. injection Hw as <-. done.
Qed.

Lemma allow_heard id now n : callbackHeard n → callbackHeard (allow id now n).1.
Proof. intros H. unfold allow. destruct (Allow _ _ _). destruct n, H; by split. Qed.

Lemma allowAddress_heard key a b now n : callbackHeard n → callbackHeard (allowForeignAddress key a b now n).1.
Proof. intros H. unfold allowForeignAddress. destruct (Allow _ _ _). destruct n, H; by split. Qed.

Lemma allowTarget_heard id now n : callbackHeard n → callbackHeard (allowForeignTarget id now n).1.
Proof. intros H. unfold allowForeignTarget. destruct (Allow _ _ _). destruct n, H; by split. Qed.

Lemma allowNamed_heard key id now n : callbackHeard n → callbackHeard (allowForeignNamed key id now n).1.
Proof.
  intros H. unfold allowForeignNamed. apply (sweep_heard now) in H. destruct (sweepForeign now n). destruct (_ && _); destruct H; by split.
Qed.

Lemma keepalive_kept id r n : callbackHeard n → callbackHeard (rememberKeepalive id r n).
Proof. intros H. unfold rememberKeepalive. apply (sweep_heard (re_at r)) in H. destruct (sweepForeign _ n), H. by split. Qed.

Lemma without_heard ipv4 port l : pendingHeard l → pendingHeard (withoutRequester ipv4 port l).
Proof.
  intros [Hl Hn]. assert (withoutRequester ipv4 port l `sublist_of` l) as Hs.
  { clear. induction l as [|e l IH]; [done|]. cbn. destruct (_ && _); [by apply sublist_cons|by apply sublist_skip]. }
  split; [rewrite Forall_forall in *; intros p Hp; apply Hl; by eapply elem_of_sublist|]. apply sublist_length in Hs. lia.
Qed.

Lemma addForeign_heard target p n : reached4 (fp_ipv4 p) (fp_port p) → callbackHeard n → callbackHeard (addForeign target p n).1.1.
Proof.
  intros Hp Hn. unfold addForeign. apply (sweep_heard (fp_at p)) in Hn. destruct Hn as [Hre Hf].
  set (n1 := sweepForeign (fp_at p) n) in *. clearbody n1. set (live := match nc_foreign n1 !! target with Some _ => _ | None => _ end).
  assert (pendingHeard live) as Hlive.
  { unfold live. destruct (nc_foreign n1 !! target) as [w|] eqn:E; [apply live_heard, (Hf _ _ E)|]. split; [constructor|cbn; unfold natForeignMaxPerTarget; lia]. }
  pose proof (without_heard (fp_ipv4 p) (fp_port p) live Hlive) as [Ho Hlo]. set (others := withoutRequester _ _ _) in *. clearbody others live.
  destruct n1. split; cbn in *; [done|]. apply map_Forall_insert_2; [|done]. cbn. split.
  - apply Forall_app. split; [by apply Forall_drop|by repeat constructor].
  - rewrite length_app, length_drop. unfold natForeignMaxPerTarget in *. cbn. lia.
Qed.

Lemma takeForeign_heard target now n : callbackHeard n →
  callbackHeard (takeForeign target now n).1 ∧ pendingHeard (takeForeign target now n).2.
Proof.
  intros Hn. assert (pendingHeard []) by (split; [constructor|cbn; unfold natForeignMaxPerTarget; lia]). destruct Hn as [Hre Hf].
  unfold takeForeign. destruct (nc_foreign n !! target) as [w|] eqn:E; [|by split].
  split; [|by apply live_heard, (Hf _ _ E)]. destruct n. split; cbn in *; [done|by apply map_Forall_delete].
Qed.

(** ** Handlers *)

(** What a frame from [ip] may do to the table, if there is one. *)
Definition gossipMove (ip : bytes) (o o' : option GossipHandler) : Prop :=
  match o, o' with
  | Some g, Some g' => keyed g → frameFrom ip g g'
  | None, None => True
  | _, _ => False
  end.

Lemma gossipMove_refl ip o : gossipMove ip o o.
Proof. destruct o; [intros _; reflexivity|done]. Qed.

Lemma gossipMove_trans ip o1 o2 o3 : gossipMove ip o1 o2 → gossipMove ip o2 o3 → gossipMove ip o1 o3.
Proof.
  destruct o1 as [g1|], o2 as [g2|], o3 as [g3|]; cbn; try done. intros H1 H2 Hk. specialize (H1 Hk). etrans; [exact H1|]. apply H2. by eapply ff_keyed.
Qed.

Section Env.
Context {E F P Q A : Type} `{!Engine E} `{!ContentFilter F} `{!SpamObserver P Q} `{!AccessFilter A}.
Context `{!Zlib} `{!Unicode} `{!Charmap} `{!MetaHash} `{!Adverts}.
Context (env : udpEnv) (Hr : reached S (ev_remote env)) (Hwf : wf_bytes (ua_IP (ev_remote env))) (Hwalk : ∀ n, isWalk (ev_walk env n)).
Implicit Types (x : udpStep E F P Q A).

Abbreviation sender := (ua_IP (ev_remote env)).

Record answers (n : Z) x x' : Prop := {
  an_sent : ∃ out, x_sent x' = x_sent x ++ out ∧ Forall (λ d, reached S (dg_to d)) out ∧ length out ≤ n;
  an_timers : ∃ ts, x_timers x' = x_timers x ++ ts ∧ Forall timerHeard ts;
  an_callback : callbackHeard (u_callback (x_u x)) → callbackHeard (u_callback (x_u x'));
  an_nat : u_nat (x_u x') = u_nat (x_u x);
  an_gossip : gossipMove sender (u_gossip (x_u x)) (u_gossip (x_u x'));
}.

Lemma answers_intro n out ts x x' :
  x_sent x' = x_sent x ++ out → Forall (λ d, reached S (dg_to d)) out → length out ≤ n → x_timers x' = x_timers x ++ ts → Forall timerHeard ts →
  (callbackHeard (u_callback (x_u x)) → callbackHeard (u_callback (x_u x'))) → u_nat (x_u x') = u_nat (x_u x) →
  gossipMove sender (u_gossip (x_u x)) (u_gossip (x_u x')) → answers n x x'.
Proof. intros. split; eauto. Qed.

Ltac answers_by out ts :=
  apply (answers_intro _ out ts); cbn; rewrite ?app_nil_r; first [done | lia | by repeat constructor | apply gossipMove_refl | idtac].

Lemma answers_refl n x : 0 ≤ n → answers n x x.
Proof. intros. answers_by (@nil datagram) (@nil natTimer). Qed.

Lemma answers_trans n m x1 x2 x3 : answers n x1 x2 → answers m x2 x3 → answers (n + m) x1 x3.
Proof.
  intros [(o1&Es1&Hf1&Hl1) (t1&Et1&Ht1) Hc1 Hn1 Hg1] [(o2&Es2&Hf2&Hl2) (t2&Et2&Ht2) Hc2 Hn2 Hg2]. split.
  - exists (o1 ++ o2). rewrite Es2, Es1, app_assoc. split_and!; [done|by apply Forall_app|]. rewrite length_app. lia.
  - exists (t1 ++ t2). rewrite Et2, Et1, app_assoc. split; [done|by apply Forall_app].
  - auto.
  - congruence.
  - by eapply gossipMove_trans.
Qed.

Lemma answers_more n m x x' : answers n x x' → n ≤ m → answers m x x'.
Proof. intros [(o&Es&Hf&Hl) Ht Hc Hn Hg] ?. split; try done. exists o. split_and!; try done. lia. Qed.

(** Changes that none of this sees. *)
Record quiet x x' : Prop := {
  qu_sent : x_sent x' = x_sent x; qu_timers : x_timers x' = x_timers x; qu_callback : u_callback (x_u x') = u_callback (x_u x);
  qu_nat : u_nat (x_u x') = u_nat (x_u x); qu_gossip : u_gossip (x_u x') = u_gossip (x_u x) }.

Lemma quiet_answers n x x' : quiet x x' → 0 ≤ n → answers n x x'.
Proof.
  intros [Es Et Ec En Eg] Hn. apply (answers_intro _ [] []); rewrite ?app_nil_r, ?Ec, ?Eg; first [done|by constructor|apply gossipMove_refl].
Qed.

Lemma quiet_then n x x1 x' : quiet x x1 → answers n x1 x' → answers n x x'.
Proof. intros Hq Ha. rewrite <- (Z.add_0_l n). eapply answers_trans; [by apply quiet_answers|done]. Qed.

Lemma emit_answers d x : reached S (dg_to d) → answers 1 x (emit [d] x).
Proof.
  intros Hd. destruct x as [u s t]. answers_by [d] (@nil natTimer).
Qed.

Lemma arm_answers ts x : Forall timerHeard ts → answers 0 x (arm ts x).
Proof.
  intros Ht. destruct x as [u s t]. answers_by (@nil datagram) ts.
Qed.

Lemma setCallback_answers n x : (callbackHeard (u_callback (x_u x)) → callbackHeard n) → answers 0 x (setCallback n x).
Proof.
  intros Hn. destruct x as [u s t], u. cbn in *. answers_by (@nil datagram) (@nil natTimer).
Qed.

Lemma onGossip_answers f x : (∀ g, keyed g → frameFrom sender g (f g)) → answers 0 x (onGossip f x).
Proof.
  intros Hf. destruct x as [u s t], u. answers_by (@nil datagram) (@nil natTimer).
  match goal with |- gossipMove _ ?o _ => destruct o; cbn; [apply Hf|done] end.
Qed.

Lemma onRt_quiet f x : quiet x (onRt f x).
Proof. by destruct x as [u s t], u. Qed.

Lemma countLimited_quiet x : quiet x (countLimited x).
Proof. by destruct x as [u s t], u. Qed.

Lemma observe_quiet key now x : quiet x (observeUDPQuerier key now x).
Proof. unfold observeUDPQuerier. destruct (record _ _ _ _). by destruct x as [u s t], u. Qed.

Lemma opcode_quiet enabled x : quiet x (udpOpcodeEnabled enabled env x).1.
Proof.
  unfold udpOpcodeEnabled. destruct (negb enabled); [done|]. set (key := addressKey _).
  pose proof (observe_quiet key (ev_now env) x) as [E1 E2 E3 E4 E5]. set (x1 := observeUDPQuerier key (ev_now env) x) in *. clearbody x1.
  destruct (Allow _ _ _) as [l []]; destruct x1 as [u s t], u; split; cbn in *; done.
Qed.

Lemma udpSend_answers data crypt x : answers 1 x (udpSend env data crypt x).
Proof. unfold udpSend. destruct (markOf env x) as [[m k] c]. by apply emit_answers. Qed.

Lemma udpReply_answers packet crypt x : answers 1 x (udpReply env packet crypt x).
Proof. destruct packet; cbn; [apply udpSend_answers|by apply answers_refl..]. Qed.

(** *** Sources, status, searches *)

Lemma answerSources_answers crypt lookup build hash size x : answers 1 x (answerSources env crypt lookup build hash size x).
Proof.
  unfold answerSources. destruct (withheldHash _ _); [by apply answers_refl|]. destruct (lookup hash size); [by apply answers_refl|apply udpReply_answers].
Qed.

Lemma eachFile_answers (n : nat) need read answer b x : (∀ hash size x, answers 1 x (answer hash size x)) → answers n x (eachFile n need read answer b x).
Proof.
  intros Ha. revert b x. induction n as [|n IH]; intros b x; [by apply answers_refl|]. cbn [eachFile].
  destruct (_ <=? _); [|by apply answers_refl; lia]. destruct (read b) as [b' [[hash size]|e|]]; [|apply answers_refl; lia..].
  replace (Z.of_nat (Datatypes.S n)) with (1 + n) by lia. eapply answers_trans; [apply Ha|apply IH].
Qed.

Lemma buildStatRes_quiet challenge key x : quiet x (buildStatRes challenge key env x).1.
Proof. unfold buildStatRes. destruct (counts _ _) as [s [c f]]. apply onRt_quiet. Qed.

Lemma udpGlobServStatReq_answers b crypt x : answers 1 x (udpGlobServStatReq b env crypt x).
Proof.
  unfold udpGlobServStatReq. destruct (GetUInt32LE b).2 as [challenge| |]; [|by apply answers_refl..].
  pose proof (buildStatRes_quiet challenge (uc_ServerKey crypt) x) as Hq. destruct (buildStatRes _ _ _ _) as [x1 packet].
  eapply quiet_then; [exact Hq|apply udpReply_answers].
Qed.

Lemma udpCryptPingReply_answers data key x : answers 1 x (udpCryptPingReply data env key x).
Proof.
  unfold udpCryptPingReply. destruct (GetUInt32LE _).2 as [challenge| |]; [|by apply answers_refl..]. destruct (challenge =? 0); [by apply answers_refl|].
  pose proof (buildStatRes_quiet challenge key x) as Hq. destruct (buildStatRes _ _ _ _) as [x1 packet]. cbn [fst] in Hq.
  destruct packet as [p| |]; [|by apply quiet_answers..]. eapply quiet_then; [exact Hq|].
  change 1 with (0 + 1). eapply answers_trans; [apply onGossip_answers; intros g _; by apply NoteInboundPingChallenge_move|].
  destruct (markOf _ _) as [[m k] c]. by apply emit_answers.
Qed.

Lemma pack_length files out pend packets : packRecords files out pend = Ok packets →
  (length packets ≤ length out + length files + (if nonempty pend then 1 else 0))%nat.
Proof.
  revert out pend. induction files as [|f files IH]; intros out pend; cbn [packRecords].
  - intros [= <-]. destruct (nonempty pend); rewrite ?length_app; cbn; lia.
  - destruct (globSearchRecord f) as [b| |]; [|done..]. destruct (nonempty pend && _) eqn:Ep.
    + apply andb_true_iff in Ep as [-> _]. intros Hpk%IH. rewrite length_app in Hpk. cbn in *. destruct (nonempty (Bytes b)); lia.
    + intros Hpk%IH. cbn. destruct (nonempty (pend ++ Bytes b)), (nonempty pend); lia.
Qed.

Lemma sends_answers packets crypt x : answers (length packets) x (foldl (λ x p, udpSend env (Bytes p) crypt x) x packets).
Proof.
  revert x. induction packets as [|p packets IH]; intros x; [by apply answers_refl|]. cbn [foldl length].
  replace (Z.of_nat (Datatypes.S (length packets))) with (1 + length packets) by lia. eapply answers_trans; [apply udpSend_answers|apply IH].
Qed.

Lemma udpAnswerSearch_answers expr rows crypt x : answers maxUDPSearchResults x (udpAnswerSearch expr rows env crypt x).
Proof.
  unfold udpAnswerSearch. set (files := capUDPSearchResults _).
  assert (length files ≤ maxUDPSearchResults)%nat as Hmax by (unfold files, capUDPSearchResults; rewrite length_take; lia). clearbody files.
  case_bool_decide; [by apply answers_refl|].
  destruct (BuildGlobSearchResPackets files) as [packets| |] eqn:Ep; [|by apply answers_refl..].
  eapply answers_more; [apply sends_answers|]. apply pack_length in Ep. cbn [nonempty length] in Ep. lia.
Qed.

(** *** The NAT callback *)

(** Answers given what the callback state keeps. *)
Definition heardThen (n : Z) x x' : Prop := callbackHeard (u_callback (x_u x)) → answers n x x'.

Lemma heard_refl n x : 0 ≤ n → heardThen n x x.
Proof. intros ? _. by apply answers_refl. Qed.

Lemma heard_then n m x1 x2 x3 : answers n x1 x2 → heardThen m x2 x3 → heardThen (n + m) x1 x3.
Proof. intros Ha Hb Hc. eapply answers_trans; [exact Ha|]. apply Hb, (an_callback _ _ _ Ha), Hc. Qed.

Lemma heard_quiet n x x1 x' : quiet x x1 → heardThen n x1 x' → heardThen n x x'.
Proof. intros Hq. rewrite <- (Z.add_0_l n) at 2. apply heard_then. by apply quiet_answers. Qed.

Lemma heard_set m n x x' : (callbackHeard (u_callback (x_u x)) → callbackHeard n) → heardThen m (setCallback n x) x' → heardThen m x x'.
Proof. intros Hn. rewrite <- (Z.add_0_l m) at 2. apply heard_then. by apply setCallback_answers. Qed.

Lemma notice_answers conn ipv4 port notice x : reached4 ipv4 port → answers 1 x (sendNatCallbackUDP conn ipv4 port notice env x).
Proof. intros Hp. unfold sendNatCallbackUDP. destruct (markOf env x) as [[m k] c]. by apply emit_answers. Qed.

Lemma notifyTarget_heard id target ip port req flags hash x : heardThen 1 x (notifyTarget id target ip port req flags hash env x).
Proof.
  intros Hc. unfold notifyTarget. set (tcp := if u_parking (x_u x) then x else _).
  assert (answers 1 x tcp) as Ht.
  { unfold tcp. destruct (u_parking _); [by apply answers_refl|]. destruct (BuildNatCallbackRequestedPacket _ _ _ _ _); [|by apply answers_refl..].
    apply quiet_answers; [apply onRt_quiet|done]. }
  destruct (recentFor id (ev_now env) (u_callback (x_u x))) as [r|] eqn:Er; [|done]. destruct (_ =? _); [|done].
  apply notice_answers. unfold recentFor in Er. destruct (nc_recent _ !! id) as [r'|] eqn:El; [|done]. destruct (_ <? _); [done|]. injection Er as <-.
  by apply (ch_recent _ Hc id).
Qed.

Lemma source_reached v : NormalizeIP (Some sender) ≫= IPv4ToUint32LE = Some v → reached4 v (u16 (ua_Port (ev_remote env))).
Proof. intros Hv. unfold reached4, reached. rewrite (packed_endpoint sender v (ua_Port (ev_remote env)) Hwf Hv). by destruct (ev_remote env). Qed.

Lemma foreign_heard b v id x : NormalizeIP (Some sender) ≫= IPv4ToUint32LE = Some v →
  heardThen 1 x (udpForeignCallbackRequest b v id env x).
Proof.
  intros Hv. pose proof (source_reached v Hv) as Hsrc. unfold udpForeignCallbackRequest. destruct (_ || _); [by apply heard_refl|].
  set (key := addressKey _). eapply heard_quiet; [apply (observe_quiet key (ev_now env))|]. set (x1 := observeUDPQuerier key (ev_now env) x). clearbody x1.
  match goal with |- context [allowForeignAddress ?a ?b ?c ?d ?n] => pose proof (allowAddress_heard a b c d n) as Ha; destruct (allowForeignAddress a b c d n) as [n1 []] end; cbn [fst] in Ha.
  2: { eapply heard_set; [exact Ha|]. eapply heard_quiet; [apply countLimited_quiet|by apply heard_refl]. }
  cbn [negb]. eapply heard_set; [exact Ha|]. clear Ha. set (x2 := setCallback n1 x1). clearbody x2.
  destruct (natCallbackPeer id (rt x2)) as [target|]; [|by apply heard_refl]. destruct (_ || _); [by apply heard_refl|].
  match goal with |- context [allowForeignNamed ?a ?b ?c ?n] => pose proof (allowNamed_heard a b c n) as Ha; destruct (allowForeignNamed a b c n) as [n2 []] end; cbn [fst] in Ha.
  2: { eapply heard_set; [exact Ha|]. eapply heard_quiet; [apply countLimited_quiet|by apply heard_refl]. }
  cbn [negb]. eapply heard_set; [exact Ha|]. clear Ha. set (x3 := setCallback n2 x2). clearbody x3.
  match goal with |- context [allowForeignTarget ?a ?b ?n] => pose proof (allowTarget_heard a b n) as Ha; destruct (allowForeignTarget a b n) as [n3 []] end; cbn [fst] in Ha.
  2: { eapply heard_set; [exact Ha|]. eapply heard_quiet; [apply countLimited_quiet|by apply heard_refl]. }
  cbn [negb]. eapply heard_set; [exact Ha|]. clear Ha. set (x4 := setCallback n3 x3). clearbody x4.
  destruct (pv_holePunch target); [|apply notifyTarget_heard].
  match goal with |- context [addForeign ?a ?p ?n] => pose proof (addForeign_heard a p n Hsrc) as Ha; destruct (addForeign a p n) as [[n4 gen] first] end; cbn [fst] in Ha.
  eapply heard_set; [exact Ha|]. destruct first; [|apply notifyTarget_heard].
  change 1 with (0 + 1). eapply heard_then; [|apply notifyTarget_heard]. apply arm_answers. by repeat constructor.
Qed.

Lemma callback_heard b obf x : heardThen 1 x (udpNatCallbackRequest b obf env x).
Proof.
  unfold udpNatCallbackRequest. destruct (_ || _); [by apply heard_refl|].
  destruct (NormalizeIP (Some sender) ≫= IPv4ToUint32LE) as [v|] eqn:Hv; [|by apply heard_refl]. destruct (_ || _); [by apply heard_refl|].
  destruct (GetUInt32LE b) as [b1 [target| |]]; [|by apply heard_refl..]. destruct (GetUInt32LE b1) as [b2 [req| |]]; [|by apply heard_refl..].
  destruct (req =? 0); [by apply foreign_heard|]. destruct (natCallbackPeer req (rt x)) as [requester|]; [|by apply heard_refl].
  destruct (negb _); [by apply heard_refl|].
  match goal with |- context [allow ?a ?b ?n] => pose proof (allow_heard a b n) as Ha; destruct (allow a b n) as [n1 []] end; cbn [fst] in Ha.
  2: { eapply heard_set; [exact Ha|]. eapply heard_quiet; [apply countLimited_quiet|by apply heard_refl]. }
  cbn [negb]. eapply heard_set; [exact Ha|]. clear Ha. set (x1 := setCallback n1 x). clearbody x1.
  pose proof (remember_heard req (mkRecent v (u16 (ua_Port (ev_remote env))) (ev_now env) None false) (u_callback (x_u x1)) (source_reached v Hv)) as Ha.
  eapply heard_set; [exact Ha|]. set (x2 := setCallback _ x1). clearbody x2.
  destruct (target =? req); [by apply heard_refl|]. destruct (natCallbackPeer target (rt x2)) as [tv|]; [|by apply heard_refl].
  destruct (negb _); [by apply heard_refl|]. destruct (NatCallbackCrypt _ _) as [[flags wh] []]; [|by apply heard_refl]. apply notifyTarget_heard.
Qed.

Lemma sendNotices_answers outs x : Forall (λ o, reached4 (fp_ipv4 o.1) (fp_port o.1)) outs → answers (length outs) x (sendNotices outs env x).
Proof.
  unfold sendNotices. revert x. induction outs as [|o outs IH]; intros x Ho; [by apply answers_refl|]. apply Forall_cons in Ho as [Ho Hos].
  cbn [foldl length]. replace (Z.of_nat (Datatypes.S (length outs))) with (1 + length outs) by lia. eapply answers_trans; [by apply notice_answers|by apply IH].
Qed.

Lemma sendForeign_answers target id endpoint pending x : pendingHeard pending →
  answers natForeignMaxPerTarget x (sendForeignNotices target id endpoint pending env x).
Proof.
  intros [Hp Hl]. unfold sendForeignNotices. set (outs := foreignNotices target id endpoint pending).
  assert (Forall (λ o, reached4 (fp_ipv4 o.1) (fp_port o.1)) outs ∧ length outs ≤ natForeignMaxPerTarget) as [Ho Hlo].
  { unfold outs, foreignNotices. split; [|etrans; [apply inj_le, length_omap_le|done]]. apply Forall_forall. intros o Hin.
    apply list_elem_of_omap in Hin as (p&Hin&Ho). destruct (NatCallbackCrypt _ _) as [[fl uc] []]; [|done]. injection Ho as <-. rewrite Forall_forall in Hp. by apply Hp. }
  clearbody outs. destruct outs as [|o outs']; [apply answers_refl; done|]. set (outs := o :: outs') in *.
  eapply answers_more; [|exact Hlo]. rewrite <- (Z.add_0_r (length outs)). eapply answers_trans; [by apply sendNotices_answers|].
  apply arm_answers, Forall_forall. intros t Ht. apply list_elem_of_fmap in Ht as (d&->&_). done.
Qed.

Lemma keepalive_answers b obf x : heardThen natForeignMaxPerTarget x (udpNatKeepalive b obf env x).
Proof.
  assert (0 ≤ natForeignMaxPerTarget) as H4 by done.
  unfold udpNatKeepalive. destruct (_ || _); [by apply heard_refl|]. destruct (Get 16 b) as [b1 [hash| |]]; [|by apply heard_refl..].
  destruct (negb _); [by apply heard_refl|]. destruct (sessionByHash hash (rt x)) as [c|]; [|by apply heard_refl].
  destruct (natCallbackPeer _ (rt x)) as [target|]; [|by apply heard_refl]. destruct (negb _); [by apply heard_refl|].
  match goal with |- context [checkKeepalive ?a ?b ?c ?d ?e] => destruct (checkKeepalive a b c d e) as [st verdict] end.
  set (f := λ s : ServerRuntime E F P Q, _). eapply heard_quiet; [apply (onRt_quiet f)|]. set (x1 := onRt f x). clearbody x1. clear f.
  destruct verdict as [proven|]; [|by apply heard_refl]. destruct (IPv4ToUint32LE _) as [src|]; [|by apply heard_refl].
  match goal with |- context [takeForeign ?a ?b (rememberKeepalive ?i ?r ?n)] =>
    pose proof (λ H, takeForeign_heard a b _ (keepalive_kept i r n H)) as Ht; destruct (takeForeign a b (rememberKeepalive i r n)) as [n1 pending] end.
  intros Hc. destruct (Ht Hc) as [Hn Hp]. cbn [fst snd] in *. rewrite <- (Z.add_0_l natForeignMaxPerTarget).
  eapply answers_trans; [apply (setCallback_answers n1); intros _; exact Hn|by apply sendForeign_answers].
Qed.

Lemma fallback_answers id gen x : heardThen natForeignMaxPerTarget x (foreignFallback id gen env x).
Proof.
  assert (0 ≤ natForeignMaxPerTarget) as H4 by done. unfold foreignFallback.
  assert (callbackHeard (u_callback (x_u x)) → callbackHeard (takeForeignGen id gen (ev_now env) (u_callback (x_u x))).1 ∧
    pendingHeard (takeForeignGen id gen (ev_now env) (u_callback (x_u x))).2) as Ht.
  { intros Hc. unfold takeForeignGen. assert (pendingHeard []) by (split; [constructor|done]).
    destruct (nc_foreign _ !! id); [|done]. destruct (_ =? _); [by apply takeForeign_heard|done]. }
  destruct (takeForeignGen _ _ _ _) as [n pending]. cbn [fst snd] in Ht. intros Hc. destruct (Ht Hc) as [Hn Hp].
  rewrite <- (Z.add_0_l natForeignMaxPerTarget). eapply answers_trans; [apply (setCallback_answers n); intros _; exact Hn|]. set (x1 := setCallback n x). clearbody x1.
  case_bool_decide; [by apply answers_refl|]. destruct (natCallbackPeer id (rt x1)) as [target|]; [|by apply answers_refl].
  match goal with |- answers _ _ (match ?o with Some r => _ | None => _ end) => destruct o; [by apply sendForeign_answers|by apply answers_refl] end.
Qed.

Lemma fireTimer_answers t x : timerHeard t → heardThen natForeignMaxPerTarget x (fireTimer t env x).
Proof.
  destruct t as [at_ id gen|at_ outs]; [intros _; apply fallback_answers|]. intros [Ho Hl] _. eapply answers_more; [by apply sendNotices_answers|done].
Qed.

End Env.
End Reach.
