(* ===== verification/UDPRuns.v ===== *)
(** * Runs of the UDP server

    Datagrams arrive, timers fire, and meanwhile sessions, settings and gossip rounds move
    on. Whatever arrives: the server writes only to those it has heard from, answers one
    datagram with a bounded number, and lists as servers only hosts that spoke for
    themselves. *)

From stdpp Require Import gmap.
From S2P Require Import Prelude Buffer Types Address NetIP Packet Builders Framing Crypt UDPCrypt LowID Text Search SearchParse FileMeta.
From S2P Require Import RateLimit BotDetector Engine RuntimeState Runtime NatTraversal NatRegistry NatRendezvous Gossip UDPPorts NatCallback UDPState UDPHandler.
From S2P Require Import GossipTable NatReach UDPReach MemEngine MemAPI Demo.
Local Open Scope Z_scope.

Section Dispatch.
Context {E F P Q A : Type} `{!Engine E} `{!ContentFilter F} `{!SpamObserver P Q} `{!AccessFilter A}.
Context `{!Zlib} `{!Unicode} `{!Charmap} `{!MetaHash} `{!Adverts}.
Implicit Types (x : udpStep E F P Q A) (u : UDPState E F P Q A).

(** What an arriving datagram is known to have: an address the socket gave. *)
Record arrived (env : udpEnv) : Prop := {
  ar_wf : wf_bytes (ua_IP (ev_remote env));
  ar_valid : validAddr (ev_remote env);
  ar_walk : ∀ n, isWalk (ev_walk env n);
}.

Section Env.
Context (S : gset natEndpoint) (env : udpEnv) (Harr : arrived env) (Hr : reached S (ev_remote env)).
#[local] Abbreviation sender := (ua_IP (ev_remote env)).
#[local] Abbreviation answers := (answers S env).
#[local] Abbreviation heardThen := (heardThen S env).

Lemma sendPeerList_answers wantIPv6 x : answers 1 x (sendPeerList wantIPv6 env x).
Proof. unfold sendPeerList. destruct (u_gossip (x_u x)); [by apply udpReply_answers|by apply answers_refl]. Qed.

Lemma listReq_answers b obf x : answers 1 x (udpServerListReq b obf env x).
Proof.
  unfold udpServerListReq. destruct (ParseServerListReq b).2 as [[[ip port] c]| |]; [|by apply answers_refl..].
  destruct (u_gossip (x_u x)); [|by apply answers_refl]. change 1 with (0 + 1).
  eapply answers_trans; [apply onGossip_answers; intros g0 Hk; by apply NoteRegistration_move|].
  destruct obf; [apply sendPeerList_answers|by apply answers_refl].
Qed.

Lemma listRes_answers b v6 obf x : answers 0 x (udpServerListRes b v6 obf env x).
Proof.
  unfold udpServerListRes. destruct (_.2); [|by apply answers_refl..]. apply onGossip_answers. intros g _. apply MergePeerList_move.
Qed.

Lemma statRes_answers b x : answers 0 x (udpGlobServStatRes b env x).
Proof.
  unfold udpGlobServStatRes. destruct (_.2) as [fields| |]; [|by apply answers_refl..]. apply onGossip_answers. intros g _.
  destruct (PeerByIP _ _ _); [|done]. apply NoteStatRes_move, Harr.
Qed.

Lemma descRes_answers b x : answers 0 x (udpServerDescRes b env x).
Proof.
  unfold udpServerDescRes. destruct (ParseServerDesc b) as [d| |]; [|by apply answers_refl..]. apply onGossip_answers. intros g _.
  pose proof (NoteDescription_move (ev_walk env 0) (ar_walk _ Harr 0%nat) sender (sd_Name d) (sd_Desc d) (ev_now env) g) as Hd.
  destruct (NoteDescription _ _ _ _ _ _) as [g1 []]; [|done]. etrans; [exact Hd|].
  etrans; [apply NoteServerSearch_move, Harr|apply NoteEd3k_move, Harr].
Qed.

Lemma dispatch_heard code len b obf crypt x : heardThen 100 x (udpDispatch code len b obf crypt env x).
Proof.
  unfold udpDispatch.
  assert (∀ n x', answers n x x' → n ≤ 100 → heardThen 100 x x') as Hmore by (intros n x' Ha Hn _; by eapply answers_more).
  assert (∀ enabled f, (∀ y, answers 100 y (f y)) → heardThen 100 x (let '(y, ok) := udpOpcodeEnabled enabled env x in if ok : bool then f y else y)) as Hgated.
  { intros enabled f Hf _. pose proof (opcode_quiet (A := A) env enabled x) as Hq. destruct (udpOpcodeEnabled enabled env x) as [y ok]. cbn [fst] in Hq.
    destruct ok; [by eapply quiet_then|by apply quiet_answers]. }
  assert (∀ v6 f n, (∀ y, answers n y (f y)) → 0 ≤ n ≤ 100 → heardThen 100 x (if gossipOpcodeEnabled v6 x then f x else x)) as Hgossip.
  { intros v6 f n Hf Hn. destruct (gossipOpcodeEnabled v6 x); [eapply Hmore; [apply Hf|lia]|by apply heard_refl]. }
  assert (∀ need read answer (y : udpStep E F P Q A), (∀ hash size z, answers 1 z (answer hash size z)) → answers 100 y (eachFile maxUDPGetSourcesHashes need read answer b y)) as Hfiles.
  { intros need read answer y Ha. eapply answers_more; [by apply eachFile_answers|done]. }
  destruct (code =? OpGlobGetSources); [apply Hgated; intros y; apply Hfiles; intros; by apply answerSources_answers|].
  destruct (code =? OpGlobGetSources2); [apply Hgated; intros y; apply Hfiles; intros; by apply answerSources_answers|].
  destruct (code =? OpGlobGetSourcesIPv6).
  { destruct (negb _); [by apply heard_refl|]. apply Hgated. intros y. apply Hfiles. intros. by apply answerSources_answers. }
  destruct (code =? OpGlobServStatReq); [eapply Hmore; [by apply udpGlobServStatReq_answers|lia]|].
  destruct (code =? OpNatCallbackRequest); [intros Hc; eapply answers_more; [apply callback_heard; [done|apply Harr|done]|lia]|].
  destruct (code =? OpNatKeepalive); [intros Hc; eapply answers_more; [by apply keepalive_answers|done]|].
  destruct (code =? OpServerDescReq).
  { destruct (len <? 6)%nat; [eapply Hmore; [by apply udpReply_answers|lia]|]. unfold udpServDescRes.
    destruct (GetUInt32LE b).2; [|by apply heard_refl..]. eapply Hmore; [by apply udpReply_answers|lia]. }
  assert (∀ expr rows (y : udpStep E F P Q A), answers 100 y (udpAnswerSearch expr rows env crypt y)) as Hsearch by (intros; by apply udpAnswerSearch_answers).
  destruct (_ || _).
  { apply Hgated. intros y. unfold udpGlobSearchReq. destruct (ParseSearchExpr b).2; [|by apply answers_refl..]. destruct (_ || _); [by apply answers_refl|apply Hsearch]. }
  destruct (code =? OpGlobSearchReq3).
  { apply Hgated. intros y. unfold udpGlobSearchReq3. destruct (GetTags b) as [b' [tags| |]]; [|by apply answers_refl..].
    destruct (ParseSearchExpr b').2; [|by apply answers_refl..]. destruct (_ || _); [by apply answers_refl|apply Hsearch]. }
  destruct (code =? OpServerListReq); [eapply Hgossip; [intros; apply listReq_answers|lia]|].
  destruct (code =? OpServerListRes); [eapply Hgossip; [intros; apply listRes_answers|lia]|].
  assert (∀ v6 (y : udpStep E F P Q A), answers 1 y (udpServerListReq2 v6 obf env y)) as Hreq2.
  { intros v6 y. unfold udpServerListReq2. destruct obf; [apply sendPeerList_answers|by apply answers_refl]. }
  destruct (code =? OpServerListReq2); [eapply Hgossip; [intros; apply Hreq2|lia]|].
  destruct (code =? OpServerListReqIPv6); [eapply Hgossip; [intros; apply Hreq2|lia]|].
  destruct (code =? OpServerListResIPv6); [eapply Hgossip; [intros; apply listRes_answers|lia]|].
  destruct (code =? OpGlobServStatRes); [eapply Hgossip; [intros; apply statRes_answers|lia]|].
  destruct (code =? OpServerDescRes); [eapply Hgossip; [intros; apply descRes_answers|lia]|by apply heard_refl].
Qed.

(** Everything the state keeps is an endpoint of [S]. *)
Record udpHeard u : Prop := {
  uh_callback : callbackHeard S (u_callback u);
  uh_nat : match u_nat u with Some h => registry_ok h ∧ slotsHeard S h ∧ waitsHeard S h | None => True end;
}.

(** What a datagram does. *)
Record handled (ip : bytes) x x' : Prop := {
  hd_state : udpHeard (x_u x');
  hd_sent : ∃ out, x_sent x' = x_sent x ++ out ∧ Forall (λ d, reached S (dg_to d)) out ∧ length out ≤ 100;
  hd_timers : ∃ ts, x_timers x' = x_timers x ++ ts ∧ Forall (timerHeard S) ts;
  hd_gossip : gossipMove ip (u_gossip (x_u x)) (u_gossip (x_u x'));
}.

Lemma answers_handled x x' : udpHeard (x_u x) → answers 100 x x' → handled sender x x'.
Proof. intros [Hc Hn] [Hs Ht Hc' Hn' Hg]. split; try done. split; [auto|by rewrite Hn']. Qed.

Lemma blocked_quiet ip x : quiet x (blockedPeer ip x).1.
Proof. unfold blockedPeer. destruct (u_filter _), ip; try done. destruct (Blocked _ _). by destruct x as [u s t], u. Qed.

Lemma nat_handled data h x : udpHeard (x_u x) → u_nat (x_u x) = Some h → handled sender x (natDatagram data h env x).
Proof.
  intros [Hc Hn] Hh. rewrite Hh in Hn. destruct Hn as (Hok&Hs&Hw). unfold natDatagram.
  pose proof (packet_heard S (runtimeHooks (u_parking (x_u x))) (ev_remote env) Hr (ar_valid _ Harr) data (ev_conn env) (ev_now env) h (rt x) Hok Hs Hw) as Hp.
  destruct (HandlePacket _ _ _ _ _ _ _) as [[h' s'] out]. destruct Hp as (Hok'&Hs'&Hw'&Hf&Hl).
  destruct x as [u s t], u. split; cbn in *.
  - by split.
  - exists out. split_and!; try done. lia.
  - exists []. by rewrite app_nil_r.
  - apply gossipMove_refl.
Qed.

Lemma quiet_heard x x1 : quiet x x1 → udpHeard (x_u x) → udpHeard (x_u x1).
Proof. intros [_ _ Ec En _] [Hc Hn]. split; [by rewrite Ec|by rewrite En]. Qed.

Lemma handler_handled enc data x : udpHeard (x_u x) → handled sender x (UDPHandler enc data env x).
Proof.
  intros Hu. unfold UDPHandler. case_bool_decide; [by apply answers_handled, answers_refl|].
  pose proof (blocked_quiet (NormalizeIP (Some sender)) x) as Hq. destruct (blockedPeer _ x) as [x1 blocked]. cbn [fst] in Hq.
  destruct blocked; [by apply answers_handled, quiet_answers|]. pose proof (quiet_heard _ _ Hq Hu) as Hu1.
  assert (∀ x', answers 100 x1 x' → handled sender x x') as Hdone by (intros x' Ha; apply answers_handled; [done|by eapply quiet_then]).
  destruct (u_nat (x_u x1)) as [h|] eqn:Hnat; [destruct (_ || _)|].
  1: { destruct (nat_handled data h x1 Hu1 Hnat) as [Ha Hb Hc Hd]. destruct Hq as [E1 E2 _ _ E5].
       rewrite E1 in Hb. rewrite E2 in Hc. rewrite E5 in Hd. by split. }
  all: set (crypt := NewUDPCrypt _ _); destruct (openDatagram enc data crypt env x1) as [[|protocol [|code rest]] obf];
    [by apply Hdone, answers_refl|by apply Hdone, answers_refl|].
  all: destruct (negb _);
    [destruct (_ && _); [apply Hdone; eapply answers_more; [apply udpCryptPingReply_answers; [done|apply Harr]|lia]|by apply Hdone, answers_refl]|].
  all: set (f := λ u : UDPState E F P Q A, _); assert (quiet x1 (onU f x1)) as Hf by (by destruct x1 as [[] ? ?]).
  all: apply Hdone; eapply quiet_then; [exact Hf|]; apply dispatch_heard; destruct Hf as [_ _ -> _ _]; apply Hu1.
Qed.
End Env.

(** ** Runs *)

(** What the server hears, and what it writes in answer; the probes of a gossip round go to
    servers of the table and are not answers. *)
Inductive udpEvent :=
| Heard (a : UDPAddr)
| Wrote (d : datagram).

Definition heardIn (log : list udpEvent) : gset natEndpoint :=
  list_to_set (omap (λ e, match e with Heard a => Some (natEndpointOf a) | Wrote _ => None end) log).

(** Between datagrams, gossip rounds, seeds and settings leave the peers where they are; a
    new table starts with hosts nothing is known of. *)
Definition gossipStill (o o' : option GossipHandler) : Prop :=
  match o, o' with
  | Some g, Some g' => tableStill g g' ∨ freshTable g'
  | None, Some g' => freshTable g'
  | _, None => True
  end.

(** Settings leave the NAT registry and its waits alone. *)
Definition natStill (o o' : option NATTraversalHandler) : Prop :=
  match o, o' with
  | Some h, Some h' => sameRegistry h h' ∧ sameWaits h h' ∨ freshNAT h'
  | None, Some h' => freshNAT h'
  | _, None => True
  end.

Record freshUDP u : Prop := {
  fu_callback : nc_recent (u_callback u) = ∅ ∧ nc_foreign (u_callback u) = ∅;
  fu_nat : match u_nat u with Some h => freshNAT h | None => True end;
  fu_gossip : match u_gossip u with Some g => freshTable g | None => True end;
}.

Definition start u : udpStep E F P Q A := mkStep u [] [].

Inductive udpRun : list udpEvent → UDPState E F P Q A → list natTimer → Prop :=
| run_start u : freshUDP u → udpRun [] u []
| run_datagram log u ts enc data env x' :
    udpRun log u ts → arrived env → UDPHandler enc data env (start u) = x' →
    udpRun ((log ++ [Heard (ev_remote env)]) ++ map Wrote (x_sent x')) (x_u x') (ts ++ x_timers x')
| run_timer log u ts t env x' :
    udpRun log u ts → t ∈ ts → fireTimer t env (start u) = x' →
    udpRun (log ++ map Wrote (x_sent x')) (x_u x') (ts ++ x_timers x')
| run_wait log u ts h hash id now h' out :
    udpRun log u ts → u_nat u = Some h → expireWake hash id now h = (h', out) →
    udpRun (log ++ map Wrote out) { u with u_nat := Some h' } ts
| run_sweep log u ts h now :
    udpRun log u ts → u_nat u = Some h → udpRun log { u with u_nat := Some (cleanup now h) } ts
| run_other log u ts u' :
    udpRun log u ts → u_callback u' = u_callback u → natStill (u_nat u) (u_nat u') → gossipStill (u_gossip u) (u_gossip u') →
    udpRun log u' ts.

(** Every datagram of the log answers an earlier one from where it goes. *)
Definition answered (log : list udpEvent) : Prop :=
  ∀ l1 d l2, log = l1 ++ Wrote d :: l2 → reached (heardIn l1) (dg_to d).

Definition spokeIn (log : list udpEvent) (host : bytes) : Prop := ∃ a, Heard a ∈ log ∧ ipKey (ua_IP a) = host.

Record runOk (log : list udpEvent) u (ts : list natTimer) : Prop := {
  ro_heard : udpHeard (heardIn log) u;
  ro_timers : Forall (timerHeard (heardIn log)) ts;
  ro_log : answered log;
  ro_gossip : match u_gossip u with Some g => keyed g ∧ spoken (spokeIn log) g | None => True end;
}.

Lemma heardIn_app l1 l2 : heardIn (l1 ++ l2) = heardIn l1 ∪ heardIn l2.
Proof. unfold heardIn. by rewrite omap_app, list_to_set_app_L. Qed.

Lemma heardIn_wrote out : heardIn (map Wrote out) = ∅.
Proof. unfold heardIn. by induction out. Qed.

Lemma elem_of_heardIn log ep : ep ∈ heardIn log → ∃ a, Heard a ∈ log ∧ ep = natEndpointOf a.
Proof.
  unfold heardIn. rewrite elem_of_list_to_set, list_elem_of_omap. intros ([a|d]&Hin&Heq); [|done]. exists a. by injection Heq as <-.
Qed.

(** ** More endpoints *)

Section More.
Context (S S' : gset natEndpoint) (Hsub : S ⊆ S').

Lemma reached_more a : reached S a → reached S' a.
Proof. apply Hsub. Qed.

Lemma pending_more (l : list (natForeignPending)) : pendingHeard S l → pendingHeard S' l.
Proof. intros [Hf Hl]. split; [|done]. eapply Forall_impl; [exact Hf|]. intros p. apply reached_more. Qed.

Lemma timer_more t : timerHeard S t → timerHeard S' t.
Proof. destruct t; [done|]. intros [Hf Hl]. split; [|done]. eapply Forall_impl; [exact Hf|]. intros o. apply reached_more. Qed.

Lemma udpHeard_more u : udpHeard S u → udpHeard S' u.
Proof.
  intros [[Hr Hf] Hn]. split; [split|].
  - eapply map_Forall_impl; [exact Hr|]. intros k r. apply reached_more.
  - eapply map_Forall_impl; [exact Hf|]. intros k w. apply pending_more.
  - destruct (u_nat u) as [h|]; [|done]. destruct Hn as (Hok&Hs&Hw). split_and!; [done| |].
    + intros hash f s Hsl. destruct (Hs hash f s Hsl). auto.
    + eapply map_Forall_impl; [exact Hw|]. intros k p [Hws Hl]. split; [|done]. eapply Forall_impl; [exact Hws|]. intros w. apply reached_more.
Qed.
End More.

Lemma answered_more log out : answered log → Forall (λ d, reached (heardIn log) (dg_to d)) out → answered (log ++ map Wrote out).
Proof.
  intros Ha Ho l1 d l2 Heq. apply app_eq_inv in Heq as [(k&->&Hk)|(k&->&Hk)].
  - destruct k as [|e k]; [|injection Hk as <- ->; by eapply Ha]. rewrite app_nil_r in *.
    destruct out as [|o out]; [done|]. injection Hk as -> _. by apply Forall_cons in Ho as [Ho _].
  - apply List.map_eq_app in Hk as (o1&o2&->&<-&Hk2). destruct o2 as [|o o2]; [done|]. injection Hk2 as -> _.
    rewrite heardIn_app, heardIn_wrote. rewrite union_empty_r_L. rewrite Forall_app, Forall_cons in Ho. apply Ho.
Qed.

Lemma answered_heard log a : answered log → answered (log ++ [Heard a]).
Proof.
  intros Ha l1 d l2 Heq. destruct l2 as [|e l2 _] using rev_ind.
  - apply app_inj_tail in Heq as [_ Heq]. done.
  - rewrite app_comm_cons, app_assoc in Heq. apply app_inj_tail in Heq as [-> _]. by eapply Ha.
Qed.

Lemma timer_gossip t env x : u_gossip (x_u (fireTimer t env x)) = u_gossip (x_u x).
Proof.
  assert (∀ outs (y : udpStep E F P Q A), u_gossip (x_u (sendNotices outs env y)) = u_gossip (x_u y)) as Hs.
  { induction outs as [|o outs IH]; intros y; [done|]. unfold sendNotices in *. cbn [foldl]. rewrite IH. unfold sendNatCallbackUDP. by destruct (markOf env y) as [[]]. }
  destruct t as [at_ id gen|at_ outs]; [|apply Hs]. cbn [fireTimer]. unfold foreignFallback. destruct (takeForeignGen _ _ _ _) as [n pending].
  assert (u_gossip (x_u (setCallback n x)) = u_gossip (x_u x)) as Hn by (by destruct x as [[] ? ?]).
  case_bool_decide; [done|]. destruct (natCallbackPeer _ _) as [target|]; [|done].
  match goal with |- context [match ?o with Some r => sendForeignNotices _ _ r _ _ _ | None => _ end] => destruct o as [r|]; [|done] end.
  unfold sendForeignNotices. destruct (foreignNotices _ _ _ _) as [|o outs]; [done|]. rewrite <- Hn. etrans; [|apply (Hs (o :: outs) (setCallback n x))]. unfold arm. by destruct (sendNotices _ _ _).
Qed.

Lemma expire_heard S hash id now h : registry_ok h → slotsHeard S h → waitsHeard S h →
  let '(h', out) := expireWake hash id now h in
  (registry_ok h' ∧ slotsHeard S h' ∧ waitsHeard S h') ∧ Forall (λ d, reached S (dg_to d)) out.
Proof.
  intros Hok Hs Hw. pose proof (expire_registry hash id now h) as Hsame. unfold expireWake in *.
  destruct (nt_pending h !! hash) as [p|] eqn:Hp; [|done]. case_bool_decide; [|done]. cbn [fst] in Hsame.
  set (h' := { h with nt_pending := _ }) in *. pose proof (same_slots S _ _ Hsame Hs) as Hs'. split.
  - split_and!; [by eapply same_ok|done|]. subst h'. destruct h. cbn in *. by apply map_Forall_delete.
  - eapply send_reached. apply wake_out_heard; [done|]. by apply (Hw hash).
Qed.

Lemma nat_kept log u ts h h' : runOk log u ts → u_nat u = Some h → (registry_ok h' ∧ slotsHeard (heardIn log) h' ∧ waitsHeard (heardIn log) h') →
  runOk log { u with u_nat := Some h' } ts.
Proof. intros [[Hc Hn] Ht Hl Hg] Hu Hh'. destruct u. by split. Qed.

Lemma runOk_wrote log u ts out : runOk log u ts → Forall (λ d, reached (heardIn log) (dg_to d)) out → runOk (log ++ map Wrote out) u ts.
Proof.
  intros [Hh Ht Hl Hg] Ho. assert (heardIn (log ++ map Wrote out) = heardIn log) as Heq by (by rewrite heardIn_app, heardIn_wrote, union_empty_r_L).
  split; rewrite ?Heq; try done; [by apply answered_more|]. destruct (u_gossip u) as [g|]; [|done]. destruct Hg as [Hk Hg]. split; [done|].
  eapply map_Forall_impl; [exact Hg|]. intros k p [?|(a&Ha&He)]; [by left|right]. exists a. split; [|done]. apply elem_of_app. by left.
Qed.

Lemma runOk_heard log u ts a : runOk log u ts → runOk (log ++ [Heard a]) u ts.
Proof.
  intros [Hh Ht Hl Hg]. assert (heardIn log ⊆ heardIn (log ++ [Heard a])) as Hsub by (rewrite heardIn_app; set_solver). split.
  - by eapply udpHeard_more.
  - eapply Forall_impl; [exact Ht|]. intros t. by apply timer_more.
  - by apply answered_heard.
  - destruct (u_gossip u) as [g|]; [|done]. destruct Hg as [Hk Hg]. split; [done|].
    eapply map_Forall_impl; [exact Hg|]. intros k p [?|(b&Hb&He)]; [by left|right]. exists b. split; [|done]. apply elem_of_app. by left.
Qed.

Lemma gossip_spoke log ip o o' : gossipMove ip o o' → spokeIn log (ipKey ip) →
  match o with Some g => keyed g ∧ spoken (spokeIn log) g | None => True end →
  match o' with Some g => keyed g ∧ spoken (spokeIn log) g | None => True end.
Proof.
  intros Hm Hip Hg. destruct o as [g|], o' as [g'|]; try done. destruct Hg as [Hk Hs]. specialize (Hm Hk). split; [by eapply ff_keyed|by eapply frame_spoken].
Qed.

Lemma datagram_handled log u ts enc data env : arrived env → runOk log u ts →
  handled (heardIn (log ++ [Heard (ev_remote env)])) (ua_IP (ev_remote env)) (start u) (UDPHandler enc data env (start u)).
Proof.
  intros Harr Hok. apply (runOk_heard _ _ _ (ev_remote env)) in Hok. apply handler_handled; [done| |apply (ro_heard _ _ _ Hok)].
  unfold reached. rewrite heardIn_app. set_solver.
Qed.

Lemma datagram_ok log u ts enc data env : arrived env → runOk log u ts →
  let x' := UDPHandler enc data env (start u) in
  runOk ((log ++ [Heard (ev_remote env)]) ++ map Wrote (x_sent x')) (x_u x') (ts ++ x_timers x').
Proof.
  intros Harr Hok x'. destruct (datagram_handled log u ts enc data env Harr Hok) as [Hs (out&Hout&Ho&_) (ts'&Hts&Htf) Hgm].
  apply (runOk_heard _ _ _ (ev_remote env)) in Hok. set (log' := log ++ [Heard (ev_remote env)]) in *. destruct Hok as [Hh Ht Hl Hg].
  fold x' in Hs, Hout, Hts, Hgm. cbn in Hout, Hts, Hgm. subst out ts'. apply runOk_wrote; [|done]. split; try done.
  - by apply Forall_app.
  - eapply gossip_spoke; [exact Hgm| |exact Hg]. exists (ev_remote env). split; [|done]. apply elem_of_app. right. by apply list_elem_of_singleton.
Qed.

Lemma timer_ok log u ts t env : t ∈ ts → runOk log u ts →
  let x' := fireTimer t env (start u) in runOk (log ++ map Wrote (x_sent x')) (x_u x') (ts ++ x_timers x').
Proof.
  intros Hin [[Hc Hn] Ht Hl Hg] x'. rewrite Forall_forall in Ht.
  destruct (fireTimer_answers (heardIn log) env t (start u) (Ht t Hin) Hc) as [(out&Hout&Ho&_) (ts'&Hts&Htf) Hc' Hn' _].
  fold x' in Hout, Hts, Hc', Hn'. cbn in Hout, Hts. subst out ts'. apply runOk_wrote; [|done]. split; try done.
  - split; [by apply Hc'|by rewrite Hn'].
  - apply Forall_app. split; [by apply Forall_forall|done].
  - unfold x'. by rewrite timer_gossip.
Qed.

Lemma fresh_heard S h : freshNAT h → registry_ok h ∧ slotsHeard S h ∧ waitsHeard S h.
Proof.
  intros Hn. split_and!; [by apply fresh_registry|intros hash f s|unfold waitsHeard; rewrite (fn_pending _ Hn); apply map_Forall_empty].
  unfold slotOf. by rewrite (fn_entries _ Hn), lookup_empty.
Qed.

Lemma fresh_ok u : freshUDP u → runOk [] u [].
Proof.
  intros [[Hr Hf] Hn Hg]. split.
  - split; [split; [rewrite Hr|rewrite Hf]; apply map_Forall_empty|]. destruct (u_nat u) as [h|]; [|done]. by apply fresh_heard.
  - done.
  - intros [|] ? ? ?; done.
  - destruct (u_gossip u) as [g|]; [|done]. destruct Hg as [Hk Hs]. split; [done|]. eapply map_Forall_impl; [exact Hs|]. by left.
Qed.

Lemma run_ok log u ts : udpRun log u ts → runOk log u ts.
Proof.
  induction 1 as [u Hu|log u ts enc data env x' _ IH Harr <-|log u ts t env x' _ IH Hin <-|log u ts h hash id now h' out _ IH Hu Hx|log u ts h now _ IH Hu|log u ts u' _ IH Hc Hn Hg].
  - by apply fresh_ok.
  - by apply datagram_ok.
  - by apply timer_ok.
  - pose proof (uh_nat _ _ (ro_heard _ _ _ IH)) as Hnat. rewrite Hu in Hnat. destruct Hnat as (Hok&Hs&Hw).
    pose proof (expire_heard _ hash id now h Hok Hs Hw) as He. rewrite Hx in He. destruct He as [He Ho]. apply runOk_wrote; [|done]. by eapply nat_kept.
  - pose proof (uh_nat _ _ (ro_heard _ _ _ IH)) as Hnat. rewrite Hu in Hnat. destruct Hnat as (Hok&Hs&Hw). eapply nat_kept; [done..|]. split_and!.
    + by apply cleanup_ok.
    + intros k f s Hsl%cleanup_slots. by eapply Hs.
    + eapply same_waits; [apply cleanup_waits|done].
  - destruct IH as [[Hc0 Hn0] Ht Hl Hg0]. split; try done.
    { split; [by rewrite Hc|]. destruct (u_nat u) as [h|], (u_nat u') as [h'|]; cbn in Hn; try done; [|by apply fresh_heard].
      destruct Hn as [[Hr Hw]|Hf]; [|by apply fresh_heard]. destruct Hn0 as (Hok&Hs0&Hw0). split_and!; [by eapply same_ok|by eapply same_slots|by eapply same_waits]. }
    destruct (u_gossip u) as [g|], (u_gossip u') as [g'|]; cbn in Hg; try done.
    + destruct Hg as [Hst|[Hk Hs]]; [destruct Hg0; split; [by eapply ts_keyed|by eapply still_spoken]|].
      split; [done|]. eapply map_Forall_impl; [exact Hs|]. by left.
    + destruct Hg as [Hk Hs]. split; [done|]. eapply map_Forall_impl; [exact Hs|]. by left.
Qed.

Lemma advertised_known p g : advertisableLocked p g = true → p_State p ≠ peerSeen.
Proof. unfold advertisableLocked. intros [Hs _]%andb_true_iff Heq. by rewrite Heq in Hs. Qed.

(** ** What the server never does *)

(** C1: whatever datagrams arrive, in whatever order, and whichever timers, waits, sweeps,
    settings and gossip rounds run in between, an answer only goes to an endpoint a datagram
    came from before it: nobody can have the server write to a third party that has not
    written to it. *)
Theorem no_reflection log u ts l1 d l2 : udpRun log u ts → log = l1 ++ Wrote d :: l2 →
  ∃ a, Heard a ∈ l1 ∧ natEndpointOf (dg_to d) = natEndpointOf a.
Proof. intros Hrun Heq. apply elem_of_heardIn. by apply (ro_log _ _ _ (run_ok _ _ _ Hrun) l1 d l2). Qed.

(** C8: in every state a run reaches, one datagram is answered with at most a hundred, and
    firing a timer writes at most four; so the answers of a run are bounded by what it
    heard and by the timers that fired. *)
Theorem udp_amplification log u ts : udpRun log u ts →
  (∀ enc data env, arrived env → length (x_sent (UDPHandler enc data env (start u))) ≤ 100) ∧
  (∀ t env, t ∈ ts → length (x_sent (fireTimer t env (start u))) ≤ natForeignMaxPerTarget).
Proof.
  intros Hrun%run_ok. split.
  - intros enc data env Harr. by destruct (hd_sent _ _ _ _ (datagram_handled log u ts enc data env Harr Hrun)) as (out&->&_&Hl).
  - intros t env Hin. destruct Hrun as [[Hc _] Ht _ _]. rewrite Forall_forall in Ht.
    by destruct (an_sent _ _ _ _ _ (fireTimer_answers (heardIn log) env t (start u) (Ht t Hin) Hc)) as (out&->&_&Hl).
Qed.

(** C6: a server the gossip table advertises, to clients and to other servers, is on a host
    a datagram came from; what other servers list, seeds and rounds never put one there. *)
Theorem listed_spoke log u ts g w a : udpRun log u ts → u_gossip u = Some g → isWalk w → a ∈ Verified w g →
  ∃ b, Heard b ∈ log ∧ ipKey (ua_IP b) = IPString (pa_IP a).
Proof.
  intros Hrun%run_ok Hg Hw. rewrite elem_of_Verified by done. intros (k&p&Hk&<-&Ha). pose proof (ro_gossip _ _ _ Hrun) as Hs. rewrite Hg in Hs.
  destruct Hs as [_ Hs]. destruct (Hs k p Hk) as [Hseen|Hh]; [|done]. by apply advertised_known in Ha.
Qed.


(** ** A listing without proof *)

(** A registration (0xA0) and a description (0xA3) as plain datagrams; the announced address is not read. *)
Definition announcement : bytes := [PrED2K; OpServerListReq; 0; 0; 0; 0; 0x35; 0x12].
Definition selfDescription : bytes := [PrED2K; OpServerDescRes; 2; 0] ++ str "me" ++ [0; 0].

(** The tables after a plain datagram of an opcode, from a host that is let in. *)
Lemma plain_datagram enc code rest env u : u_filter u = None →
  ∃ ports, UDPHandler enc (PrED2K :: code :: rest) env (start u) =
    udpDispatch code (length (PrED2K :: code :: rest)) (mkBuffer (PrED2K :: code :: rest) 2) false
      (NewUDPCrypt enc (deriveUDPKey (udpSecret (u_rt u)) (ua_IP (ev_remote env)))) env (start { u with u_ports := ports }).
Proof.
  intros Hf. unfold UDPHandler. rewrite bool_decide_eq_false_2 by done. unfold blockedPeer. cbn [start x_u]. rewrite Hf.
  set (crypt := NewUDPCrypt _ _).
  assert (openDatagram enc (PrED2K :: code :: rest) crypt env (start u) = (PrED2K :: code :: rest, false)) as ->.
  { unfold openDatagram. assert (startsED2K (PrED2K :: code :: rest) = true) as Hs by (by apply bool_decide_eq_true_2).
    rewrite Hs. cbn [negb]. rewrite !andb_false_r. cbn [andb].
    destruct (uc_Status crypt =? CsEncrypting) eqn:Hc; [|done]. unfold Decrypt, decrypt. by rewrite Hc. }
  exists (NoteClientUDPPort (ev_remote env) (ev_now env - u_started u) (u_ports u)). by destruct u as [? ? [] ? ? ? ? ? ? ? ? ? ?].
Qed.

Lemma norm_twice a : normPeer (normPeer a) = normPeer a.
Proof.
  unfold normPeer, NormalizeIP. cbn. destruct (To4 (pa_IP a)) as [v4|] eqn:H4; cbn.
  - destruct (To4_inv _ _ H4) as [_ Hl]. by rewrite (To4_4 _ Hl).
  - destruct (To16 (pa_IP a)) as [ip|] eqn:H16; cbn; [|done]. assert (ip = pa_IP a) as ->; [|by rewrite H4, H16].
    unfold To16 in H16. destruct (bool_decide_reflect (length (pa_IP a) = 4%nat)) as [Hl|_]; [by rewrite (To4_4 _ Hl) in H4|]. by case_bool_decide; simplify_eq.
Qed.

(** The peers of a host. *)
Definition knownAt (ip : bytes) (g : GossipHandler) : Prop := map_Exists (λ _ p, peerHost p = ipKey ip) (g_peers g).
Definition listedAt (ip : bytes) (g : GossipHandler) : Prop := map_Exists (λ _ p, peerHost p = ipKey ip ∧ advertisableLocked p g = true) (g_peers g).

Lemma registered_known ip port obf now g : keyed g → (admitLocked (normPeer (mkPeerAddr ip port)) None now g).2 = true →
  knownAt ip (NoteRegistration ip port obf now g).
Proof.
  intros Hk Ha. set (addr := normPeer (mkPeerAddr ip port)) in *. unfold NoteRegistration. fold addr.
  set (g0 := if obf then g else _). assert (keyed g0 ∧ (admitLocked addr None now g0).2 = true) as [Hk0 Ha0].
  { unfold g0. destruct obf; [done|]. destruct g as [cfg peers cl lo inb st ro]. split; [done|]. revert Ha. unfold admitLocked, isSelfLocked. cbn.
    destruct (bool_decide _ || _); [done|]. destruct (bool_decide (is_Some _)); [done|]. destruct (negb _); [done|]. destruct (_ || _); [done|].
    destruct (match cl !! _ with Some _ => _ | None => _ end); [done|]. by destruct (_ && _). }
  clearbody g0. pose proof (admit_move ip addr None now g0) as Hm.
  assert (∃ p, g_peers (admitLocked addr None now g0).1 !! peerString addr = Some p) as [p Hp].
  { revert Ha0. unfold admitLocked. destruct (bool_decide (_ = []) || _); [done|]. assert (normPeer addr = addr) as -> by apply norm_twice.
    destruct (bool_decide_reflect (is_Some (g_peers g0 !! peerString addr))) as [Hs|]; [done|].
    destruct (negb _); [done|]. destruct (isSelfLocked _ _); [done|]. destruct (match g_clientIPs g0 !! _ with Some _ => _ | None => _ end); [done|].
    destruct (_ && _); [done|]. intros _. destruct g0 as [cfg peers cl lo inb st ro]. cbn. rewrite lookup_insert_eq. by eexists. }
  destruct (admitLocked addr None now g0) as [g1 ok]. cbn in *. subst ok. cbn [negb].
  assert (keyed g1) as Hk1 by (by eapply ff_keyed).
  destruct g1 as [cfg peers cl lo inb st ro]. unfold knownAt, onPeer. cbn in *. eapply map_Exists_lookup_2; [rewrite lookup_alter_eq, Hp; done|].
  etrans; [|apply (peerString_host (p_Addr p) addr), (Hk1 _ _ Hp)]. unfold peerHost. f_equal. f_equal. destruct p. destruct obf; [|done].
  unfold promoteLocked. cbn. by destruct (_ <? _).
Qed.

Lemma find_known w ip g : isWalk w → knownAt ip g → ∃ k p, findByIPLocked w ip g = Some (k, p) ∧ g_peers g !! k = Some p ∧ peerHost p = ipKey ip.
Proof.
  intros Hw (k&p&Hk&Hp)%map_Exists_lookup_1. destruct (findByIPLocked w ip g) as [[k' p']|] eqn:Hf; [exists k', p'; split; [done|by eapply findByIP_host]|].
  unfold findByIPLocked in Hf. destruct (List.filter _ _) eqn:Hl; [|done]. exfalso. eapply (in_nil (a := (k, p))). rewrite <- Hl.
  apply filter_In. split; [|by apply bool_decide_eq_true]. apply list_elem_of_In. rewrite (Hw _ (g_peers g)). by apply elem_of_map_to_list.
Qed.

Lemma onPeer_listed ip key f g :
  (∀ p, p_Addr (f p) = p_Addr p ∧ p_State (f p) = p_State p ∧ p_Failures (f p) = p_Failures p) → listedAt ip g → listedAt ip (onPeer key f g).
Proof.
  intros Hf (k&p&Hk&Hp&Ha)%map_Exists_lookup_1. destruct g as [cfg peers cl lo inb st ro]. destruct (decide (k = key)) as [->|Hne].
  - destruct (Hf p) as (Ea&Es&Ef). eapply map_Exists_lookup_2; [cbn in *; rewrite lookup_alter_eq, Hk; done|].
    unfold peerHost, advertisableLocked, Parked in *. by rewrite Ea, Es, Ef.
  - eapply map_Exists_lookup_2; [cbn in *; by rewrite lookup_alter_ne|done].
Qed.

Lemma described_listed w ip name desc now g : isWalk w → validServerName name = true → validServerDesc desc = true → knownAt ip g →
  let '(g', ok) := NoteDescription w ip name desc now g in ok = true ∧ listedAt ip g'.
Proof.
  intros Hw Hn Hd Hg. destruct (find_known w ip g Hw Hg) as (k&p&Hf&Hk&Hp). unfold NoteDescription. rewrite Hf, Hn, Hd. cbn [negb orb].
  split; [done|]. destruct g as [cfg peers cl lo inb st ro]. eapply map_Exists_lookup_2; [cbn in *; rewrite lookup_alter_eq, Hk; done|].
  destruct p as [ad na de sk uo to uf ss ed oc pc pl ri ps us fi ls lv fa]. unfold promoteLocked, advertisableLocked, Parked, peerHost in *. cbn [p_State p_Addr] in *.
  assert ((0 <? gc_MaxFailures cfg) && (gc_MaxFailures cfg <=? 0) = false) as Hpark by lia. destruct ps; cbn; split; try done; by rewrite Hpark.
Qed.

Lemma listed_Verified w ip g : isWalk w → listedAt ip g → ∃ a, a ∈ Verified w g ∧ IPString (pa_IP a) = ipKey ip.
Proof. intros Hw (k&p&Hk&Hp&Ha)%map_Exists_lookup_1. exists (p_Addr p). split; [|done]. apply elem_of_Verified; [done|]. by exists k, p. Qed.

(** C39: two plain datagrams, a registration and a description, and a host the table would
    take a hint about is advertised: the description is not asked to be obfuscated, or to
    answer anything, although the admission sequence is documented to need an answer to a
    frame encrypted with the key the host issued. *)
Theorem plaintext_listed log u ts g enc env1 env2 w :
  udpRun log u ts → u_gossip u = Some g → u_filter u = None → (∀ n, isWalk (ev_walk env2 n)) → isWalk w →
  ua_IP (ev_remote env2) = ua_IP (ev_remote env1) →
  (admitLocked (normPeer (mkPeerAddr (ua_IP (ev_remote env1)) 4661)) None (ev_now env1) g).2 = true →
  let u1 := x_u (UDPHandler enc announcement env1 (start u)) in
  ∃ g', u_gossip (x_u (UDPHandler enc selfDescription env2 (start u1))) = Some g' ∧
    ∃ a, a ∈ Verified w g' ∧ IPString (pa_IP a) = ipKey (ua_IP (ev_remote env1)).
Proof.
  intros Hrun%run_ok Hg Hf Hw2 Hw Hip Ha. set (ip := ua_IP (ev_remote env1)) in *. pose proof (ro_gossip _ _ _ Hrun) as Hk. rewrite Hg in Hk. destruct Hk as [Hk _].
  destruct (plain_datagram enc OpServerListReq [0; 0; 0; 0; 0x35; 0x12] env1 u Hf) as [ports1 E1]. fold announcement in E1. intros u1.
  assert (u_gossip u1 = Some (NoteRegistration ip 4661 false (ev_now env1) g) ∧ u_filter u1 = None) as [Hg1 Hf1].
  { unfold u1. rewrite E1. destruct u. cbn in *. subst. done. }
  destruct (plain_datagram enc OpServerDescRes [2; 0; 109; 101; 0; 0] env2 u1 Hf1) as [ports2 E2].
  change (PrED2K :: OpServerDescRes :: [2; 0; 109; 101; 0; 0]) with selfDescription in E2. rewrite E2.
  pose proof (registered_known ip 4661 false (ev_now env1) g Hk Ha) as Hkn. set (g1 := NoteRegistration _ _ _ _ _) in *.
  pose proof (described_listed (ev_walk env2 0) ip (str "me") [] (ev_now env2) g1 (Hw2 _) eq_refl eq_refl Hkn) as Hd.
  destruct (NoteDescription (ev_walk env2 0) ip (str "me") [] (ev_now env2) g1) as [g2 ok] eqn:En. destruct Hd as [-> Hl].
  exists (NoteEd3k (ev_walk env2 2) ip [] (NoteServerSearch (ev_walk env2 1) ip (mkServerSearchAdvert [] []) g2)). split.
  - rewrite <- Hip in En |- *. set (x := start _).
    assert (ParseServerDesc (mkBuffer selfDescription 2) = Ok (mkServerDesc (str "me") [] (mkServerSearchAdvert [] []) [])) as Hp by by vm_compute.
    transitivity (u_gossip (x_u (udpServerDescRes (mkBuffer selfDescription 2) env2 x))); [subst x; destruct u1; cbn in Hg1; by subst|].
    unfold udpServerDescRes. rewrite Hp. assert (∀ f, u_gossip (x_u (onGossip f x)) = f <$> u_gossip (x_u x)) as -> by (by destruct x as [[] ? ?]).
    assert (u_gossip (x_u x) = Some g1) as -> by (subst x; by destruct u1). cbn [fmap option_fmap option_map sd_Name sd_Desc]. by rewrite En.
  - apply listed_Verified; [done|]. unfold NoteEd3k, NoteServerSearch.
    assert (listedAt ip (match findByIPLocked (ev_walk env2 1) ip g2 with
      | Some (key, _) => onPeer key (λ p, { p with p_ServerSearch := mkServerSearchAdvert [] [] }) g2 | None => g2 end)) as Hl2.
    { destruct (findByIPLocked _ _ _) as [[k p]|]; [|done]. apply onPeer_listed; [by intros []|done]. }
    destruct (findByIPLocked (ev_walk env2 2) _ _) as [[k p]|]; [|done]. apply onPeer_listed; [by intros []|done].
Qed.
End Dispatch.

(** ** An example *)

Section Example.
Import Instances.
#[local] Instance noAdverts : Adverts := {| ParseURL := λ _, None; ParseNodeLink := λ _, false |}.
#[local] Instance openAccess : AccessFilter unit := {| Blocked := λ _ a, (a, false) |}.

Abbreviation DemoUDP := (UDPState MemoryEngine unit unit unit unit).

Definition demoGossip : GossipHandler :=
  NewGossipHandler (mkGossipConfig (Some [192; 0; 2; 1]) 4661 None (str "demo") (str "a demo server") 50 3 false false 0 0)
    [mkPeerAddr [85; 17; 3; 4] 4661].

Definition demoState : DemoUDP :=
  mkUDPState demoServer None (Some emptyNAT) (Some demoGossip) newCallbackState (NewLimiter 0) (newBotDetector) None 0 ∅ 0 0 false.

Definition sortedWalk : Walk := λ V m, map_to_list m.
Lemma sorted_walk : isWalk sortedWalk.
Proof. intros V m. reflexivity. Qed.

Definition demoEnv (ip : bytes) (port now : Z) : udpEnv := mkUDPEnv (mkUDPAddr ip port) natSocket now (λ _, (1, 2, 3)) (λ _, sortedWalk).
Definition asker : udpEnv := demoEnv [81; 2; 69; 142] 4672 Second.
Definition newcomer : udpEnv := demoEnv [81; 2; 69; 160] 4665 (2 * Second).
Definition statQuery : bytes := [PrED2K; OpGlobServStatReq; 1; 2; 3; 4].

Lemma demo_fresh : freshUDP demoState.
Proof. split; [done|done|apply NewGossipHandler_fresh]. Qed.

Definition asked := UDPHandler true statQuery asker (start demoState).
Definition announced := UDPHandler true announcement newcomer (start (x_u asked)).
Definition described := UDPHandler true selfDescription newcomer (start (x_u announced)).

Lemma demo_arrived ip port now : length ip = 4%nat → wf_bytes ip → arrived (demoEnv ip port now).
Proof. intros Hl Hw. split; [done|by left|intros n; apply sorted_walk]. Qed.

Definition demoLog : list udpEvent :=
  [Heard (ev_remote asker)] ++ map Wrote (x_sent asked) ++ [Heard (ev_remote newcomer)] ++ map Wrote (x_sent announced) ++
  [Heard (ev_remote newcomer)] ++ map Wrote (x_sent described).

Lemma asked_run : udpRun ([Heard (ev_remote asker)] ++ map Wrote (x_sent asked)) (x_u asked) [].
Proof.
  apply (run_datagram [] demoState [] true statQuery asker asked); [apply run_start, demo_fresh| |done]. apply demo_arrived; [done|by repeat constructor].
Qed.

Lemma announced_run : udpRun (([Heard (ev_remote asker)] ++ map Wrote (x_sent asked)) ++ [Heard (ev_remote newcomer)] ++ map Wrote (x_sent announced)) (x_u announced) [].
Proof.
  rewrite app_assoc. apply (run_datagram _ (x_u asked) [] true announcement newcomer announced asked_run); [|done]. apply demo_arrived; [done|by repeat constructor].
Qed.

Lemma described_run : udpRun demoLog (x_u described) [].
Proof.
  pose proof (run_datagram _ (x_u announced) [] true selfDescription newcomer described announced_run) as Hr.
  unfold demoLog. rewrite !app_assoc in *. apply Hr; [|done]. apply demo_arrived; [done|by repeat constructor].
Qed.

(** The statistics go back to who asked for them. *)
Lemma no_reflection_witness : ∃ d, x_sent asked = [d] ∧ ∃ a, a = ev_remote asker ∧ natEndpointOf (dg_to d) = natEndpointOf a.
Proof.
  assert (map (λ _, tt) (x_sent asked) = [tt]) as Hs by (vm_compute; reflexivity).
  pose (rest := [Heard (ev_remote newcomer)] ++ map Wrote (x_sent announced) ++ [Heard (ev_remote newcomer)] ++ map Wrote (x_sent described)).
  pose proof (λ d H, no_reflection demoLog (x_u described) [] [Heard (ev_remote asker)] d rest described_run H) as Hr. unfold demoLog in Hr. fold rest in Hr.
  clearbody rest. revert Hs Hr. generalize (x_sent asked) as out. intros [|d [|d' out]] Hs Hr; [discriminate| |discriminate]. exists d. split; [reflexivity|].
  destruct (Hr d eq_refl) as (a&Ha&Heq). exists a. split; [|exact Heq]. apply list_elem_of_singleton in Ha. congruence.
Defined.

Lemma udp_amplification_witness : length (x_sent (UDPHandler true statQuery asker (start (x_u described)))) = 1%nat ∧
  length (x_sent (UDPHandler true statQuery asker (start (x_u described)))) ≤ 100.
Proof.
  split; [by vm_compute|]. destruct (udp_amplification demoLog (x_u described) [] described_run) as [Hb _]. apply Hb, demo_arrived; [done|by repeat constructor].
Defined.

Lemma listed_spoke_witness : ∃ b, Heard b ∈ demoLog ∧ ipKey (ua_IP b) = str "81.2.69.160".
Proof.
  destruct (u_gossip (x_u described)) as [g|] eqn:Hg; [|by vm_compute in Hg].
  apply (listed_spoke demoLog (x_u described) [] g sortedWalk (mkPeerAddr [81; 2; 69; 160] 4661) described_run Hg); [apply sorted_walk|].
  assert (g = default demoGossip (u_gossip (x_u described))) as -> by by rewrite Hg. vm_compute. apply list_elem_of_here.
Defined.


(** The newcomer is advertised after two plain datagrams. *)
Lemma plaintext_listed_witness : ∃ g' a, u_gossip (x_u described) = Some g' ∧ a ∈ Verified sortedWalk g' ∧ IPString (pa_IP a) = str "81.2.69.160".
Proof.
  assert ((λ g, (admitLocked (normPeer (mkPeerAddr (ua_IP (ev_remote newcomer)) 4661)) None (ev_now newcomer) g).2) <$> u_gossip (x_u asked) = Some true) as Ha
    by (vm_compute; reflexivity).
  assert (ipKey (ua_IP (ev_remote newcomer)) = str "81.2.69.160") as Hk by (vm_compute; reflexivity).
  pose proof (λ g H, plaintext_listed _ (x_u asked) [] g true newcomer newcomer sortedWalk asked_run H eq_refl (λ _, sorted_walk) sorted_walk eq_refl) as Hr.
  cbn zeta in Hr. fold announced described in Hr. revert Ha Hr. generalize (u_gossip (x_u asked)) as o, (u_gossip (x_u described)) as o'.
  intros o o' (g&->&Ha)%fmap_Some Hr. destruct (Hr g eq_refl (eq_sym Ha)) as (g'&Hg'&a&Hin&Hs). exists g', a. split; [exact Hg'|]. split; [exact Hin|congruence].
Defined.
End Example.
