(* ===== verification/GossipWire.v ===== *)
(** * The frames of gossip, read back

    What one server puts into a peer list or a statistics reply, another reads out of it:
    [ed2k/gossipoperations.go] against [ed2k/udpoperations.go]. *)

From S2P Require Import Prelude Buffer Types Address Packet Builders Search SearchParse NatTraversal Gossip.
Local Open Scope Z_scope.

Definition wirePeer (a : PeerAddr) : Prop := wf_bytes (pa_IP a) ∧ fits 16 (pa_Port a).

(** The entries of a list that have an address of the family. *)
Definition familyPeers (addr : bytes → option bytes) (peers : list PeerAddr) : list PeerAddr :=
  omap (λ p, (λ ip, mkPeerAddr ip (pa_Port p)) <$> addr (pa_IP p)) peers.

Definition encPeer (p : PeerAddr) : bytes := pa_IP p ++ le_split 2 (pa_Port p).
Definition sizedPeer (k : nat) (p : PeerAddr) : Prop := length (pa_IP p) = k ∧ wirePeer p.

Lemma reads_getPeerAddr k p : sizedPeer k p → reads (getPeerAddr k) (encPeer p) p.
Proof.
  intros [Hl [Hw Hp]]. unfold getPeerAddr, encPeer. eapply reads_bind; [rewrite <- Hl; apply reads_Get|].
  rewrite bool_decide_eq_true_2 by done. cbn [negb]. rewrite <- (app_nil_r (le_split _ _)). eapply reads_bind; [apply reads_wrap, (reads_le 2), Hp|].
  destruct p. apply reads_ret.
Qed.

Lemma length_encPeers k peers : Forall (sizedPeer k) peers → length (concat (map encPeer peers)) = (length peers * (k + 2))%nat.
Proof.
  induction 1 as [|p peers [Hl _] _ IH]; [done|]. cbn [map concat length]. unfold encPeer at 1. rewrite !length_app, length_le_split, IH. lia.
Qed.

Lemma reads_parsePeerList (k : nat) peers : Forall (sizedPeer k) peers → length peers < 2 ^ 8 →
  reads (parsePeerList k) (le_split 1 (length peers) ++ concat (map encPeer peers)) peers.
Proof.
  intros Hp Hn. unfold parsePeerList. eapply reads_bind; [apply reads_wrap, (reads_le 1); solve_range|].
  apply reads_remaining. intros r Hr. rewrite (length_encPeers k) in Hr by done. destruct (Z.ltb_spec r (length peers * (k + 2))); [lia|].
  rewrite Nat2Z.id. apply reads_for_collect. apply Forall2_fmap_l, Forall_Forall2_diag. eapply Forall_impl; [exact Hp|]. intros p Hs i. by apply reads_getPeerAddr.
Qed.

Lemma family_sized addr (k : nat) peers : (∀ ip ip', wf_bytes ip → addr ip = Some ip' → wf_bytes ip' ∧ length ip' = k) → Forall wirePeer peers →
  Forall (sizedPeer k) (take 255 (familyPeers addr peers)).
Proof.
  intros Ha Hp. apply Forall_take. apply Forall_forall. intros p Hin. apply list_elem_of_omap in Hin as (q&Hq&Hs). apply fmap_Some in Hs as (ip&Hip&->).
  rewrite Forall_forall in Hp. destruct (Hp q Hq) as [Hw Hport]. destruct (Ha _ _ Hw Hip) as [Hw' Hl]. by split; [exact Hl|split].
Qed.

Lemma To4_sized ip v4 : wf_bytes ip → To4 ip = Some v4 → wf_bytes v4 ∧ length v4 = 4%nat.
Proof. intros Hw Hv. split; [by eapply To4_wf|by eapply To4_length]. Qed.

Lemma IPv6Bytes_wf ip v6 : wf_bytes ip → IPv6Bytes ip = Some v6 → wf_bytes v6 ∧ length v6 = 16%nat.
Proof.
  intros Hw. unfold IPv6Bytes, To4, To16. case_bool_decide as Hl; [done|]. case_bool_decide; [done|]. case_bool_decide; [|done]. by intros [= <-].
Qed.

(** The list a packet carries is read back from behind its opcode. *)
Lemma list_delivered (k : nat) op items peers : fits 8 op → Forall (sizedPeer k) peers → length peers < 2 ^ 8 →
  Forall itemInRange (flat_map items peers) → (∀ p, p ∈ peers → encItems (items p) = encPeer p) →
  ∃ b, MakeUDPPacket PrED2K ([u8_item op; u8_item (u8 (length peers))] ++ flat_map items peers) = Ok b ∧
    take 2 (data b) = [PrED2K; op] ∧ (parsePeerList k (mkBuffer (data b) 2)).2 = Ok peers.
Proof.
  intros Hop Hp Hn Hi He. assert (u8 (length peers) = length peers) as -> by solve_range.
  rewrite MakeUDPPacket_items by (constructor; [done|constructor; [split; [done|solve_range]|done]]).
  eexists. split; [done|]. cbn [data]. rewrite encItems_app, encItems_flat_map, !encItems_cons.
  change (encItem (u8_item op)) with (le_split 1 op). change (encItem (u8_item (length peers))) with (le_split 1 (length peers)). change (encItems []) with (@nil Z).
  assert (concat (map (λ p, encItems (items p)) peers) = concat (map encPeer peers)) as ->.
  { f_equal. apply map_ext_in. intros p Hin. apply He. by apply list_elem_of_In. }
  rewrite (le_split_byte op) by done. change (le_split 1 PrED2K) with [PrED2K]. split; [done|].
  pose proof (reads_parsePeerList k peers Hp Hn [PrED2K; op] []) as Hr. rewrite app_nil_r in Hr. cbn [app] in *. rewrite <- app_assoc in *. cbn [app length] in *.
  by rewrite Hr.
Qed.

Lemma reads_orEnd {A} (m : M Buffer Z) (e : result A) (f : Z → M Buffer A) bs1 bs2 v a :
  reads m bs1 v → reads (f v) bs2 a → reads (orEnd m e f) (bs1 ++ bs2) a.
Proof. intros Hm Hf pre post. pose proof (reads_bind m f bs1 bs2 v a Hm Hf pre post) as Hb. unfold mbind, M_bind in Hb. unfold orEnd. by destruct (m _) as [b []]. Qed.

(** What a server tells in its statistics. *)
Record wireStats (challenge : Z) (cfg : UDPConfig) : Prop := {
  ws_challenge : fits 32 challenge;
  ws_limits : fits 32 (uc_MaxConnections cfg) ∧ fits 32 (uc_SoftFiles cfg) ∧ fits 32 (uc_HardFiles cfg);
  ws_flags : fits 32 (uc_UDPFlags cfg) ∧ fits 32 (uc_UDPServerKey cfg);
  ws_ports : fits 16 (uc_UDPPortObf cfg) ∧ fits 16 (uc_TCPPortObf cfg);
  ws_observed : wf_bytes (uc_ObservedIP cfg);
}.

Definition toldStats (challenge : Z) (cfg : UDPConfig) (users files lowIDs : Z) (seen : bytes) : StatResFields :=
  mkStatRes challenge (u32 users) (u32 files) (uc_MaxConnections cfg) (uc_SoftFiles cfg) (uc_HardFiles cfg) (uc_UDPFlags cfg) (u32 lowIDs)
    (uc_UDPPortObf cfg) (uc_TCPPortObf cfg) (uc_UDPServerKey cfg) (Some seen) true.

Lemma u32_fits z : fits 32 (u32 z).
Proof. solve_range. Qed.

(** Items whose values are known to fit. *)
Ltac solve_items := cbn [app]; repeat (apply Forall_cons; split; [split; [done|first [done|apply u32_fits|solve_range]]|]); apply Forall_nil_2.

Lemma v4_bytes v4 : wf_bytes v4 → length v4 = 4%nat → fits 32 (uint32FromV4 v4) ∧ le_split 4 (uint32FromV4 v4) = v4.
Proof.
  intros Hw Hl. assert (uint32FromV4 v4 = le_combine v4) as ->.
  { destruct v4 as [|a [|b [|c [|d [|? ?]]]]]; try done. apply Forall_cons in Hw as [Ha Hw]. apply Forall_cons in Hw as [Hb Hw].
    apply Forall_cons in Hw as [Hc Hw]. apply Forall_cons in Hw as [Hd _]. unfold is_byte in *. cbn [uint32FromV4 le_combine].
    rewrite (lor_add a b 8), (lor_add _ c 16), (lor_add _ d 24) by lia. lia. }
  pose proof (le_combine_bound v4 Hw) as Hb. rewrite Hl in Hb. split; [done|]. rewrite <- Hl at 1. by apply le_split_combine.
Qed.

Lemma stats_delivered challenge cfg users files lowIDs seen : wireStats challenge cfg → To4 (uc_ObservedIP cfg) = Some seen →
  ∃ b, BuildGlobServStatResPacket challenge cfg users files lowIDs = Ok b ∧ take 2 (data b) = [PrED2K; OpGlobServStatRes] ∧
    (ParseGlobServStatRes (mkBuffer (data b) 2)).2 = Ok (toldStats challenge cfg users files lowIDs seen).
Proof.
  intros [Hc (Hm&Hs&Hh) [Hf Hk] [Hu Ht] Ho] H4. destruct (To4_sized _ _ Ho H4) as [Hw Hl]. destruct (v4_bytes seen Hw Hl) as [Hfit Hback].
  unfold BuildGlobServStatResPacket. rewrite H4. rewrite MakeUDPPacket_items;  [|solve_items].
  eexists. split; [done|]. split; [done|]. cbn [data].
  set (body := le_split 4 challenge ++ le_split 4 (u32 users) ++ le_split 4 (u32 files) ++ le_split 4 (uc_MaxConnections cfg) ++ le_split 4 (uc_SoftFiles cfg) ++
    le_split 4 (uc_HardFiles cfg) ++ le_split 4 (uc_UDPFlags cfg) ++ le_split 4 (u32 lowIDs) ++ le_split 2 (uc_UDPPortObf cfg) ++ le_split 2 (uc_TCPPortObf cfg) ++
    le_split 4 (uc_UDPServerKey cfg) ++ seen ++ []).
  assert (reads ParseGlobServStatRes body (toldStats challenge cfg users files lowIDs seen)) as Hr.
  { unfold ParseGlobServStatRes, body, toldStats. do 8 (eapply reads_orEnd; [apply (reads_le 4); first [done|apply u32_fits]|]).
    apply reads_remaining. intros n Hn. rewrite !length_app, !length_le_split in Hn. destruct (Z.ltb_spec n 8); [lia|].
    eapply reads_orEnd; [by apply (reads_le 2)|]. eapply reads_orEnd; [by apply (reads_le 2)|]. eapply reads_orEnd; [by apply (reads_le 4)|].
    eapply reads_bind; [replace 4 with (Z.of_nat (length seen)) by lia; apply reads_Get|].
    rewrite bool_decide_eq_true_2 by done. apply reads_ret. }
  specialize (Hr [PrED2K; OpGlobServStatRes] []). rewrite app_nil_r in Hr. cbn [length] in Hr.
  match goal with |- (_ (mkBuffer ?d 2)).2 = _ => assert (d = [PrED2K; OpGlobServStatRes] ++ body) as -> end; [|by rewrite Hr].
  unfold body. rewrite !encItems_app, !encItems_cons. rewrite <- Hback at 2. cbn [app]. by rewrite <- ?app_assoc.
Qed.

Lemma length_first addr peers : length (take 255 (familyPeers addr peers)) < 2 ^ 8.
Proof. rewrite length_take. lia. Qed.

(** The items of a list are those of its entries. *)
Lemma family_items addr items peers :
  flat_map (λ '(ip, port), items ip port) (take (Z.to_nat maxGossipPeers) (omap (λ p, (λ ip, (ip, pa_Port p)) <$> addr (pa_IP p)) peers)) =
    flat_map (λ p, items (pa_IP p) (pa_Port p)) (take 255 (familyPeers addr peers)) :> list PacketItem ∧
  length (take (Z.to_nat maxGossipPeers) (omap (λ p, (λ ip, (ip, pa_Port p)) <$> addr (pa_IP p)) peers)) = length (take 255 (familyPeers addr peers)).
Proof.
  assert (familyPeers addr peers = map (λ q, mkPeerAddr q.1 q.2) (omap (λ p, (λ ip, (ip, pa_Port p)) <$> addr (pa_IP p)) peers)) as ->.
  { unfold familyPeers. induction peers as [|p peers IH]; [done|]. cbn. rewrite IH. by destruct (addr (pa_IP p)). }
  change (Z.to_nat maxGossipPeers) with 255%nat. rewrite firstn_map, length_map. split; [|done].
  generalize (take 255 (omap (λ p, (λ ip, (ip, pa_Port p)) <$> addr (pa_IP p)) peers)). induction l as [|[ip port] l IH]; [done|]. cbn. by rewrite IH.
Qed.

(** Gossip frames are read back. A peer list carries the first 255 peers of its family,
    in order and with their ports, and the statistics of a server asked over IPv4 carry every
    count, limit, flag, port and key it told, with the counts as 32-bit numbers. *)
Lemma gossip_read_back peers challenge cfg users files lowIDs seen :
  Forall wirePeer peers → wireStats challenge cfg → To4 (uc_ObservedIP cfg) = Some seen →
  (∃ b, BuildServerListResPacket peers = Ok b ∧ take 2 (data b) = [PrED2K; OpServerListRes] ∧
     (ParseServerListRes (mkBuffer (data b) 2)).2 = Ok (take 255 (familyPeers To4 peers))) ∧
  (∃ b, BuildServerListResIPv6Packet peers = Ok b ∧ take 2 (data b) = [PrED2K; OpServerListResIPv6] ∧
     (ParseServerListResIPv6 (mkBuffer (data b) 2)).2 = Ok (take 255 (familyPeers IPv6Bytes peers))) ∧
  (∃ b, BuildGlobServStatResPacket challenge cfg users files lowIDs = Ok b ∧ take 2 (data b) = [PrED2K; OpGlobServStatRes] ∧
     (ParseGlobServStatRes (mkBuffer (data b) 2)).2 = Ok (toldStats challenge cfg users files lowIDs seen)).
Proof.
  intros Hp Hst Hs. split_and!; [| |by apply stats_delivered].
  - unfold BuildServerListResPacket. destruct (family_items To4 (λ ip port, [u32_item (uint32FromV4 ip); u16_item port]) peers) as [-> ->].
    pose proof (family_sized To4 4 peers To4_sized Hp) as Hsz. apply list_delivered; [done|done|apply length_first|..].
    + apply Forall_flat_map. eapply Forall_impl; [exact Hsz|]. intros p (Hl&Hw&Hport). destruct (v4_bytes _ Hw Hl). solve_items.
    + intros p Hin. rewrite Forall_forall in Hsz. destruct (Hsz p Hin) as (Hl&Hw&Hport). destruct (v4_bytes _ Hw Hl) as [_ Hb].
      unfold encPeer. rewrite !encItems_cons. unfold encItem. cbn [pi_Value u32_item u16_item]. rewrite Hb. by rewrite app_nil_r.
  - unfold BuildServerListResIPv6Packet. destruct (family_items IPv6Bytes (λ ip port, [hash_item ip; u16_item port]) peers) as [-> ->].
    pose proof (family_sized IPv6Bytes 16 peers IPv6Bytes_wf Hp) as Hsz. apply list_delivered; [done|done|apply length_first|..].
    + apply Forall_flat_map. eapply Forall_impl; [exact Hsz|]. intros p (Hl&Hw&Hport). solve_items.
    + intros p Hin. unfold encPeer. rewrite !encItems_cons. by rewrite app_nil_r.
Qed.

