(* ===== verification/NatProof.v ===== *)
(** * Keepalives that prove themselves

    A foreign callback hands out the address a keepalive came from. [checkKeepalive] of
    [ed2k/natcallback.go] decides which keepalives are believed: those from the session's own
    address, and those with a proof, the HMAC of a growing counter under the session's token. *)

From S2P Require Import Prelude Types RuntimeState Sha256 NatCallback.
Local Open Scope Z_scope.

(** A keepalive as it arrives: hash, rest, whether obfuscated, whether from the session's address. *)
Record keepalive := mkKeepalive { ka_hash : bytes; ka_rest : bytes; ka_obfuscated : bool; ka_sameIP : bool }.

Definition check (st : option natSessionState) (k : keepalive) : option natSessionState * (bool + string) :=
  checkKeepalive st (ka_hash k) (ka_rest k) (ka_obfuscated k) (ka_sameIP k).

Definition checks (st : option natSessionState) (ks : list keepalive) : option natSessionState := foldl (λ st k, (check st k).1) st ks.

Definition isProof (k : keepalive) : bool := 16 + length (ka_rest k) =? natProofLen.
Definition believed (r : option natSessionState * (bool + string)) : bool := match r.2 with inl _ => true | inr _ => false end.

(** The counter of a session never goes back, and its token stays. *)
Definition later (st st' : option natSessionState) : Prop :=
  from_option ns_counter 0 st ≤ from_option ns_counter 0 st' ∧ st' ≫= ns_token = st ≫= ns_token ∧
  (from_option ns_obfuscated false st = true → from_option ns_obfuscated false st' = true).

#[export] Instance later_preorder : PreOrder later.
Proof. split; [by intros st|]. intros st1 st2 st3 (H1&H2&H3) (H4&H5&H6). split_and!; [lia|congruence|auto]. Qed.

(** What a keepalive that is believed has shown. *)
Lemma check_believed st k : believed (check st k) = true →
  if isProof k then
    ∃ s token, st = Some s ∧ ns_token s = Some token ∧ let counter := le_combine (take 4 (ka_rest k)) in
      natProofMAC token (ka_hash k) counter = take 16 (drop 4 (ka_rest k)) ∧ ns_counter s < counter ∧
      (check st k).1 = Some (mkNatSession (Some token) counter (ns_obfuscated s || ka_obfuscated k))
  else ka_sameIP k = true ∧ (ka_obfuscated k = true ∨ from_option ns_obfuscated false st = false).
Proof.
  unfold check, checkKeepalive, believed. fold (isProof k). destruct (isProof k) eqn:Hp.
  - destruct st as [s|]; [|done]. destruct s as [[token|] counter obf]; [|done]. cbn [mbind option_bind ns_token from_option ns_counter ns_obfuscated].
    case_bool_decide as Hm; [|done]. cbn [negb]. destruct (Z.leb_spec (le_combine (take 4 (ka_rest k))) counter); [done|].
    rewrite !andb_false_r. cbn [andb negb]. intros _. by eexists _, token.
  - destruct (ka_obfuscated k) eqn:Ho, (ka_sameIP k) eqn:Hs, (from_option ns_obfuscated false st) eqn:Hst; cbn; try done; auto.
Qed.

Lemma check_later st k : later st (check st k).1.
Proof.
  destruct (believed (check st k)) eqn:Hb.
  - apply check_believed in Hb as Hc. destruct (isProof k) eqn:Hp.
    + destruct Hc as (s&token&->&Ht&Hm&Hlt&->). unfold later. cbn [from_option ns_counter ns_token ns_obfuscated mbind option_bind]. split_and!; [lia|by rewrite Ht|]. by intros ->.
    + unfold check, checkKeepalive in *. fold (isProof k) in *. rewrite Hp in *. cbn [andb negb] in *. destruct Hc as [-> Hc].
      destruct (negb _ && _ && _); [done|]. cbn [negb andb]. destruct st as [[token counter obf]|]; [|unfold later; destruct (ka_obfuscated k); by split_and!].
      unfold later. cbn [fst from_option ns_counter ns_token ns_obfuscated mbind option_bind]. split_and!; [lia|done|by intros ->].
  - assert ((check st k).1 = st) as ->; [|done]. revert Hb. unfold believed, check, checkKeepalive. fold (isProof k).
    destruct (if isProof k then _ else None) as [why|]; [done|]. destruct (_ && _); [done|]. destruct (_ && _); [done|]. by destruct st, (negb _).
Qed.

Lemma checks_later st ks : later st (checks st ks).
Proof. revert st. induction ks as [|k ks IH]; intros st; [done|]. etrans; [apply check_later|apply IH]. Qed.

(** C11: a keepalive is believed from another address than the session's only with the HMAC,
    under the session's token, of a counter above every counter believed before; once a
    proof was believed, the same proof is refused whatever keepalives come in between, from
    wherever it is replayed; and once an obfuscated keepalive was believed, a plain one
    without a proof is refused. *)
Theorem keepalive_proofs st k ks : believed (check st k) = true →
  let st' := checks (check st k).1 ks in
  (ka_sameIP k = false → ∃ s token, st = Some s ∧ ns_token s = Some token ∧ length (ka_rest k) = 20%nat ∧
     drop 4 (ka_rest k) = natProofMAC token (ka_hash k) (le_combine (take 4 (ka_rest k))) ∧ ns_counter s < le_combine (take 4 (ka_rest k))) ∧
  (∀ again, ka_rest again = ka_rest k → ka_hash again = ka_hash k → isProof k = true → (check st' again).2 = inr "proof-replay"%string) ∧
  (∀ plain, ka_obfuscated k = true → ka_obfuscated plain = false → isProof plain = false → (check st' plain).2 = inr "plain-after-obfuscated"%string).
Proof.
  intros Hb st'. pose proof (check_believed st k Hb) as Hk. pose proof (checks_later (check st k).1 ks) as (Hc&Ht&Ho). fold st' in Hc, Ht, Ho. split_and!.
  - intros Hip. destruct (isProof k) eqn:Hp; [|destruct Hk as [Hk _]; congruence]. destruct Hk as (s&token&->&Htk&Hm&Hlt&_).
    exists s, token. unfold isProof, natProofLen in Hp. apply Z.eqb_eq in Hp. assert (length (ka_rest k) = 20%nat) by lia. split_and!; try done.
    rewrite Hm. symmetry. apply take_ge. rewrite length_drop. lia.
  - intros again Hr Hh Hp. rewrite Hp in Hk. destruct Hk as (s&token&->&Htk&Hm&Hlt&Hst). rewrite Hst in Hc, Ht.
    unfold check, checkKeepalive. rewrite Hr, Hh. fold (isProof k). rewrite Hp, Ht. cbn [mbind option_bind ns_token].
    rewrite Hm, bool_decide_eq_true_2 by done. cbn [negb from_option ns_counter] in *. by rewrite (proj2 (Z.leb_le _ _) Hc).
  - intros plain Hob Hpl Hp. assert (from_option ns_obfuscated false (check st k).1 = true) as Hmark.
    { destruct (isProof k) eqn:Hpk; [destruct Hk as (s&token&->&_&_&_&->); cbn [from_option ns_obfuscated]; by rewrite Hob, orb_true_r|].
      unfold check, checkKeepalive in *. fold (isProof k) in *. rewrite Hpk, Hob in *. destruct Hk as [-> _]. cbn. destruct st; cbn; [by rewrite orb_true_r|done]. }
    unfold check, checkKeepalive. fold (isProof plain). rewrite Hp, Hpl, (Ho Hmark). done.
Qed.

(** A proof with counter five, believed from another address once. *)
Lemma keepalive_proofs_witness :
  let token := replicate 16 9 in let hash := replicate 16 3 in
  let k := mkKeepalive hash (le_split 4 5 ++ natProofMAC token hash 5) false false in
  let st := Some (mkNatSession (Some token) 4 false) in
  believed (check st k) = true ∧ (check (checks (check st k).1 [mkKeepalive hash [] true true]) k).2 = inr "proof-replay"%string.
Proof.
  intros token hash k st. assert (believed (check st k) = true) as Hb by (vm_compute; reflexivity). split; [exact Hb|].
  destruct (keepalive_proofs st k [mkKeepalive hash [] true true] Hb) as (_&Hr&_). apply Hr; reflexivity.
Defined.
