(* ===== verification/IPFilter.v ===== *)
(** * The list of blocked addresses: [netfilter/ipfilter.go]

    Address ranges are read from a file, sorted, merged and searched by bisection. The proofs
    show that the search answers what the lines of the file say. *)

From stdpp Require Import gmap sorting.
From S2P Require Import Prelude Types Address NetIP Text.
Local Open Scope Z_scope.

(** ** From the standard library *)

(** [sort.Slice]: some order that agrees with [less]. *)
Class GoSort := sort_Slice : ∀ {A}, (A → A → bool) → list A → list A.
Class GoSortLaws `{GoSort} : Prop := {
  sort_Slice_perm : ∀ {A} (less : A → A → bool) l, sort_Slice less l ≡ₚ l;
  sort_Slice_sorted : ∀ {A} (less : A → A → bool) l,
    (∀ a b, less a b = true → less b a = false) → (∀ a b c, less b a = false → less c b = false → less c a = false) →
    Sorted (λ a b, less b a = false) (sort_Slice less l);
}.

(** [sort.Search]: the loop, which halves [j - i]. *)
Fixpoint searchLoop (fuel i j : nat) (f : nat → bool) : nat :=
  match fuel with
  | O => i
  | S fuel =>
      if (i <? j)%nat then
        let h := Nat.div2 (i + j) in
        if negb (f h) then searchLoop fuel (S h) j f else searchLoop fuel i h f
      else i
  end.
Definition sortSearch (n : nat) (f : nat → bool) : nat := searchLoop n 0 n f.

(** [strings.Cut] at a byte. *)
Definition Cut (s : bytes) (sep : Z) : option (bytes * bytes) :=
  match IndexByte s sep with Some i => Some (take i s, drop (S i) s) | None => None end.

Definition decValue (s : bytes) : Z := fold_left (λ n c, n * 10 + (c - 48)) s 0.

(** [strconv.Atoi]. *)
Definition Atoi (s : bytes) : option Z :=
  let '(neg, ds) := match s with 45 :: r => (true, r) | 43 :: r => (false, r) | _ => (false, s) end in
  if bool_decide (ds = []) || negb (forallb is_digit ds) then None
  else let n := decValue ds in
       if neg then if 2 ^ 63 <? n then None else Some (- n) else if 2 ^ 63 <=? n then None else Some n.

(** [binary.BigEndian.Uint32]. *)
Definition bigEndian (b : bytes) : Z := le_combine (rev b).

(** The lines [bufio.Scanner] yields: without their line end, and nothing after the last one.
    A line that fills its buffer stops it. *)
Definition scanLines (content : bytes) : list bytes :=
  let lines := split_on 10 content in
  let lines := if bool_decide (last lines = Some []) then removelast lines else lines in
  map (λ l, match last l with Some 13 => removelast l | _ => l end) lines.
Definition scanMax : Z := 1024 * 1024.
Definition tooLong (content : bytes) : bool := existsb (λ l, scanMax <=? length l) (split_on 10 content).

(** ** Ranges *)

Record ipRange := mkRange { rg_lo : Z; rg_hi : Z; rg_desc : bytes }.

Record IPFilter := mkIPFilter { if_ranges : list ipRange; if_Parsed : Z; if_Blocking : Z; if_Skipped : Z }.

Definition DefaultMinLevel : Z := 100.

Definition parseV4 (s : bytes) : option bytes :=
  let octetOf p := if bool_decide (p = []) || (3 <? length p) then None else ParseUint8 p in
  match split_on 46 s with
  | [a; b; c; d] =>
      match octetOf a, octetOf b, octetOf c, octetOf d with
      | Some a, Some b, Some c, Some d => Some [a; b; c; d]
      | _, _, _, _ => None
      end
  | _ => None
  end.

Section Parse.
Context `{!Unicode}.

(** [^uint32(0) << (32 - bits)] for [bits > 0]. *)
Definition prefixMask (bits : Z) : Z := if 0 <? bits then u32 (Z.shiftl 0xffffffff (32 - bits)) else 0.

Definition parseMask (suffix : bytes) : option Z :=
  if Contains suffix [46] then bigEndian <$> parseV4 suffix
  else match Atoi suffix with
       | Some bits => if (bits <? 0) || (32 <? bits) then None else Some (prefixMask bits)
       | None => None
       end.

Definition parseRangeField (field : bytes) : option (Z * Z) :=
  if bool_decide (field = []) then None
  else match Cut field 45 with
  | Some (loStr, hiStr) =>
      match parseV4 (TrimSpace loStr), parseV4 (TrimSpace hiStr) with
      | Some loIP, Some hiIP =>
          let l := bigEndian loIP in
          let h := bigEndian hiIP in
          Some (if h <? l then (h, l) else (l, h))
      | _, _ => None
      end
  | None =>
      match Cut field 47 with
      | Some (baseStr, suffixStr) =>
          match parseV4 (TrimSpace baseStr), parseMask (TrimSpace suffixStr) with
          | Some base, Some mask =>
              let n := bigEndian base in
              Some (Z.land n mask, Z.lor (Z.land n mask) (Z.lxor 0xffffffff mask))
          | _, _ => None
          end
      | None => match parseV4 field with Some single => let n := bigEndian single in Some (n, n) | None => None end
      end
  end.

(** [strings.Join(fields, SPACE)]. *)
Fixpoint joinSpace (fields : list bytes) : bytes :=
  match fields with
  | [] => []
  | [f] => f
  | f :: rest => f ++ 32 :: joinSpace rest
  end.

(** The first field after the address that is a number is the level. *)
Fixpoint levelField (before : list bytes) (fields : list bytes) : option (bytes * bytes * bytes) :=
  match fields with
  | [] => None
  | f :: rest =>
      match Atoi f with
      | Some _ => Some (joinSpace before, f, joinSpace rest)
      | None => levelField (before ++ [f]) rest
      end
  end.

Definition splitWhitespaceForm (line : bytes) : bytes * bytes * bytes :=
  match Fields line with
  | [] => (line, [], [])
  | first :: rest => default (line, [], []) (levelField [first] rest)
  end.

(** [strings.IndexAny(line, CHARS)] for the two comment signs. *)
Fixpoint stripComment (line : bytes) : option bytes :=
  match line with
  | [] => None
  | c :: rest => if (c =? 35) || (c =? 59) then Some [] else (λ s, c :: s) <$> stripComment rest
  end.

Definition commaForm (line : bytes) : option (bytes * bytes * bytes) :=
  match Cut line 44 with
  | Some (before, rest) =>
      match parseRangeField (TrimSpace before) with
      | Some _ => let '(level, desc) := default (rest, []) (Cut rest 44) in Some (TrimSpace before, TrimSpace level, TrimSpace desc)
      | None => None
      end
  | None => None
  end.

Definition parseIPFilterLine (line : bytes) : option (ipRange * Z) :=
  let line := match stripComment line with Some s => TrimSpace s | None => line end in
  if bool_decide (line = []) then None
  else
    let '(addrField, levelField, descField) := default (splitWhitespaceForm line) (commaForm line) in
    match parseRangeField addrField with
    | None => None
    | Some (lo, hi) =>
        if bool_decide (levelField = []) then Some (mkRange lo hi descField, 0)
        else match Atoi levelField with Some level => Some (mkRange lo hi descField, level) | None => None end
    end.

Definition isComment (line : bytes) : bool :=
  bool_decide (line = []) || bool_decide (head line = Some 35) || bool_decide (head line = Some 59) || HasPrefix line [47; 47].

(** ** Merging *)

Context `{!GoSort}.

Definition rangeLess (a b : ipRange) : bool :=
  if negb (rg_lo a =? rg_lo b) then rg_lo a <? rg_lo b else rg_hi a <? rg_hi b.

Fixpoint mergeFrom (cur : ipRange) (rest : list ipRange) : list ipRange :=
  match rest with
  | [] => [cur]
  | rng :: rest =>
      let adjacent := (rg_hi cur <? 0xffffffff) && (rg_lo rng =? u32 (rg_hi cur + 1)) in
      if (rg_lo rng <=? rg_hi cur) || adjacent then
        mergeFrom (if rg_hi cur <? rg_hi rng then { cur with rg_hi := rg_hi rng } else cur) rest
      else cur :: mergeFrom rng rest
  end.

Definition mergeRanges (ranges : list ipRange) : list ipRange :=
  match sort_Slice rangeLess ranges with
  | [] => []
  | cur :: rest => mergeFrom cur rest
  end.

Definition ErrIPFilter : error := ErrNew "read ipfilter".

(** The loop over the lines: the counts, and the ranges that block. *)
Definition noteLine (minLevel : Z) (acc : IPFilter * list ipRange) (raw : bytes) : IPFilter * list ipRange :=
  let '(out, blocking) := acc in
  let line := TrimSpace raw in
  if isComment line then acc
  else match parseIPFilterLine line with
       | None => ({ out with if_Skipped := if_Skipped out + 1 }, blocking)
       | Some (rng, level) =>
           ({ out with if_Parsed := if_Parsed out + 1 }, if level <? minLevel then blocking ++ [rng] else blocking)
       end.

Definition ParseIPFilter (content : bytes) (minLevel : Z) : result IPFilter :=
  let minLevel := if minLevel <=? 0 then DefaultMinLevel else minLevel in
  let '(out, blocking) := foldl (noteLine minLevel) (mkIPFilter [] 0 0 0, []) (scanLines content) in
  if tooLong content then Err ErrIPFilter
  else Ok { out with if_Blocking := Z.of_nat (length blocking); if_ranges := mergeRanges blocking }.
End Parse.

(** [IPFilter.Len]; nil has none. *)
Definition filterLen (f : IPFilter) : Z := length (if_ranges f).

Definition be4 (z : Z) : bytes := rev (le_split 4 z).

Definition describe (r : ipRange) : bytes :=
  let span := IPString (be4 (rg_lo r)) ++ 45 :: IPString (be4 (rg_hi r)) in
  if bool_decide (rg_desc r = []) then span else span ++ 32 :: rg_desc r.

(** [IPFilter.Blocked]. *)
Definition rangeBlocked (f : IPFilter) (ip : bytes) : bool * bytes :=
  match if_ranges f, To4 ip with
  | [], _ | _, None => (false, [])
  | ranges, Some v4 =>
      let addr := bigEndian v4 in
      match sortSearch (length ranges) (λ k, match ranges !! k with Some r => addr <? rg_lo r | None => false end) with
      | O => (false, [])
      | S i => match ranges !! i with
               | Some rng => if rg_hi rng <? addr then (false, []) else (true, describe rng)
               | None => (false, [])
               end
      end
  end.

(** ** Bisection *)

Lemma searchLoop_spec fuel i j f : (i ≤ j)%nat → (j - i ≤ fuel)%nat → (∀ a b, (i ≤ a ≤ b)%nat → (b < j)%nat → f a = true → f b = true) →
  let k := searchLoop fuel i j f in
  (i ≤ k ≤ j)%nat ∧ (∀ a, (i ≤ a < k)%nat → f a = false) ∧ (∀ a, (k ≤ a < j)%nat → f a = true).
Proof.
  revert i j. induction fuel as [|fuel IH]; intros i j Hij Hf Hmono; cbn [searchLoop]; [repeat split; intros; lia|].
  destruct (Nat.ltb_spec i j); [|repeat split; intros; lia].
  assert (i ≤ Nat.div2 (i + j) < j)%nat as Hh by (rewrite Nat.div2_div; split; [apply Nat.div_le_lower_bound|apply Nat.Div0.div_lt_upper_bound]; lia).
  set (h := Nat.div2 (i + j)) in *. destruct (f h) eqn:Hfh; cbn [negb].
  - destruct (IH i h) as (Hk&Hlo&Hhi); [lia..|intros a b ? ?; apply Hmono; lia|]. split_and!; [lia|lia|done|].
    intros a Ha. destruct (decide (a < h)%nat); [apply Hhi; lia|]. apply (Hmono h a); [lia..|done].
  - destruct (IH (S h) j) as (Hk&Hlo&Hhi); [lia..|intros a b ? ?; apply Hmono; lia|]. split_and!; [lia|lia| |done].
    intros a Ha. destruct (decide (h < a)%nat); [apply Hlo; lia|]. destruct (f a) eqn:Hfa; [|done]. rewrite (Hmono a h) in Hfh; [done|lia..|done].
Qed.

Lemma sortSearch_spec n f : (∀ a b, (a ≤ b < n)%nat → f a = true → f b = true) →
  (sortSearch n f ≤ n)%nat ∧ (∀ a, (a < sortSearch n f)%nat → f a = false) ∧ (∀ a, (sortSearch n f ≤ a < n)%nat → f a = true).
Proof.
  intros Hm. destruct (searchLoop_spec n 0 n f) as (Hk&Hlo&Hhi); [lia..|intros; eapply Hm; [|done]; lia|].
  unfold sortSearch. split_and!; [lia|intros a Ha; apply Hlo; lia|done].
Qed.

(** ** Merged ranges *)

Definition inRange (addr : Z) (r : ipRange) : Prop := rg_lo r ≤ addr ≤ rg_hi r.
Definition wfRange (r : ipRange) : Prop := 0 ≤ rg_lo r ∧ rg_lo r ≤ rg_hi r ∧ rg_hi r < 2 ^ 32.

(** Disjoint and not even adjacent, in ascending order. *)
Definition apart (a b : ipRange) : Prop := rg_hi a + 1 < rg_lo b.

Lemma mergeFrom_spec cur rest : wfRange cur → Forall wfRange rest → Sorted (λ a b, rg_lo a ≤ rg_lo b) (cur :: rest) →
  let out := mergeFrom cur rest in
  (∀ addr, Exists (inRange addr) out ↔ Exists (inRange addr) (cur :: rest)) ∧ Forall wfRange out ∧
  StronglySorted apart out ∧ Forall (λ r, rg_lo cur ≤ rg_lo r) out.
Proof.
  revert cur. induction rest as [|r rest IH]; intros cur Hcur Hrest Hs; cbn [mergeFrom].
  { split_and!; [done|by constructor|by repeat constructor|by constructor]. }
  apply Forall_cons in Hrest as [Hr Hrest]. apply Sorted_inv in Hs as [Hs Hhd]. apply HdRel_inv in Hhd.
  assert (u32 (rg_hi cur + 1) = rg_hi cur + 1 ∨ rg_hi cur = 0xffffffff) as Hu by (unfold wfRange, u32 in *; destruct (decide (rg_hi cur = 0xffffffff)); [auto|left; apply Z.mod_small; lia]).
  destruct ((rg_lo r <=? rg_hi cur) || _) eqn:Hj.
  - set (cur' := if rg_hi cur <? rg_hi r then _ else cur).
    assert (rg_lo cur' = rg_lo cur ∧ rg_hi cur' = Z.max (rg_hi cur) (rg_hi r)) as [Elo Ehi].
    { unfold cur'. destruct (Z.ltb_spec (rg_hi cur) (rg_hi r)), cur; cbn in *; split; lia. }
    assert (wfRange cur') as Hcur' by (unfold wfRange in *; rewrite Elo, Ehi; lia).
    destruct (IH cur' Hcur' Hrest) as (Hin&Hwf&Hap&Hlo).
    { constructor; [by apply Sorted_inv in Hs as [? _]|]. destruct rest as [|r2 rest]; [constructor|]. apply Sorted_inv in Hs as [_ Hs]. apply HdRel_inv in Hs.
      constructor. rewrite Elo. lia. }
    split_and!; [|done|done|by rewrite <- Elo]. intros addr. rewrite Hin, !Exists_cons. unfold inRange. rewrite Elo, Ehi.
    assert (rg_lo r ≤ rg_hi cur + 1) as Hjoin by lia. unfold wfRange in *. split; intros [Ha|Ha]; [|by right; right| |].
    + destruct (decide (addr ≤ rg_hi cur)); [left; lia|right; left; lia].
    + left; lia.
    + destruct Ha as [Ha|Ha]; [left; lia|by right].
  - destruct (IH r Hr Hrest Hs) as (Hin&Hwf&Hap&Hlo). assert (apart cur r) as Hgap by (unfold apart, wfRange in *; lia). split_and!.
    + intros addr. rewrite !Exists_cons, Hin, Exists_cons. done.
    + by constructor.
    + constructor; [done|]. eapply Forall_impl; [exact Hlo|]. intros x Hx. unfold apart in *. cbn in Hx. lia.
    + constructor; [done|]. eapply Forall_impl; [exact Hlo|]. intros x Hx. cbn in *. lia.
Qed.

Lemma rangeLess_total a b : rangeLess b a = false → rg_lo a ≤ rg_lo b.
Proof. unfold rangeLess. destruct (Z.eqb_spec (rg_lo b) (rg_lo a)); cbn [negb]; lia. Qed.

Lemma mergeRanges_spec `{!GoSort, !GoSortLaws} ranges : Forall wfRange ranges →
  (∀ addr, Exists (inRange addr) (mergeRanges ranges) ↔ Exists (inRange addr) ranges) ∧ Forall wfRange (mergeRanges ranges) ∧
  StronglySorted apart (mergeRanges ranges).
Proof.
  intros Hwf. unfold mergeRanges. pose proof (sort_Slice_perm rangeLess ranges) as Hp.
  assert (Sorted (λ a b, rangeLess b a = false) (sort_Slice rangeLess ranges)) as Hs.
  { apply sort_Slice_sorted; unfold rangeLess; [intros a b|intros a b c];
      repeat match goal with |- context [?x =? ?y] => destruct (Z.eqb_spec x y) end; cbn [negb]; lia. }
  destruct (sort_Slice rangeLess ranges) as [|cur rest].
  { apply Permutation_nil_l in Hp. subst. split_and!; [done|constructor..]. }
  rewrite <- Hp in Hwf. apply Forall_cons in Hwf as [Hcur Hrest].
  destruct (mergeFrom_spec cur rest Hcur Hrest) as (Hin&Hw&Hap&_).
  { clear -Hs. induction Hs as [|x l Hs IH Hd]; constructor; [done|]. destruct Hd; constructor. by apply rangeLess_total. }
  split_and!; [|done|done]. intros addr. rewrite Hin. by rewrite Hp.
Qed.

(** ** The search *)

Lemma sorted_lookup {A} (R : A → A → Prop) l i j x y : StronglySorted R l → l !! i = Some x → l !! j = Some y → (i < j)%nat → R x y.
Proof.
  intros Hs. revert i j. induction Hs as [|a l Hs IH Hf]; intros i j Hi Hj Hlt; [done|]. destruct j as [|j]; [lia|]. cbn in Hj.
  destruct i as [|i]; [injection Hi as <-; rewrite Forall_forall in Hf; apply Hf; by eapply list_elem_of_lookup_2|]. eapply IH; [done|done|lia].
Qed.

Lemma rangeBlocked_spec f ip v4 : StronglySorted apart (if_ranges f) → Forall wfRange (if_ranges f) → To4 ip = Some v4 →
  (rangeBlocked f ip).1 = true ↔ Exists (inRange (bigEndian v4)) (if_ranges f).
Proof.
  intros Hs Hw H4. unfold rangeBlocked. rewrite H4. set (ranges := if_ranges f) in *. set (addr := bigEndian v4).
  set (g := λ k, match ranges !! k with Some r => addr <? rg_lo r | None => false end).
  assert (∀ i j x y, ranges !! i = Some x → ranges !! j = Some y → (i < j)%nat → apart x y) as Hap by (intros; by eapply sorted_lookup).
  assert (∀ i x, ranges !! i = Some x → wfRange x) as Hwf by (intros i x Hx; eapply Forall_lookup_1; [exact Hw|exact Hx]).
  destruct (sortSearch_spec (length ranges) g) as (Hle&Hlo&Hhi).
  { intros a b [Hab Hb] Ha. unfold g in *. destruct (lookup_lt_is_Some_2 ranges b Hb) as [y Hy]. rewrite Hy. destruct (ranges !! a) as [x|] eqn:Hx; [|done].
    destruct (decide (a = b)) as [->|]; [congruence|]. pose proof (Hap a b x y Hx Hy ltac:(lia)) as Hxy. pose proof (Hwf a x Hx). unfold apart, wfRange in *. lia. }
  assert ((match sortSearch (length ranges) g with O => (false, []) | S i => match ranges !! i with
      | Some rng => if rg_hi rng <? addr then (false, []) else (true, describe rng) | None => (false, []) end end).1 = true ↔ Exists (inRange addr) ranges) as Hmain.
  { rewrite Exists_exists. destruct (sortSearch (length ranges) g) as [|i] eqn:Hi.
    - split; [done|]. intros (r&[k Hk]%list_elem_of_lookup_1&Hr). specialize (Hhi k). assert (g k = true) as Hg by (apply Hhi; split; [lia|by eapply lookup_lt_Some]).
      unfold g in Hg. rewrite Hk in Hg. unfold inRange in Hr. lia.
    - destruct (lookup_lt_is_Some_2 ranges i ltac:(lia)) as [x Hx]. rewrite Hx. pose proof (Hlo i ltac:(lia)) as Hgi. unfold g in Hgi. rewrite Hx in Hgi.
      destruct (Z.ltb_spec (rg_hi x) addr) as [Hlt|Hge]; cbn.
      + split; [done|]. intros (r&[k Hk]%list_elem_of_lookup_1&Hr). unfold inRange in Hr. destruct (decide (k ≤ i)%nat).
        * destruct (decide (k = i)) as [->|]; [rewrite Hx in Hk; injection Hk as ->; lia|]. pose proof (Hap k i r x Hk Hx ltac:(lia)).
          pose proof (Hwf i x Hx). unfold apart, wfRange in *. lia.
        * assert (g k = true) as Hg by (apply Hhi; split; [lia|by eapply lookup_lt_Some]). unfold g in Hg. rewrite Hk in Hg. lia.
      + split; [|done]. intros _. exists x. split; [by eapply list_elem_of_lookup_2|]. unfold inRange. lia. }
  destruct ranges; [by rewrite Exists_nil|exact Hmain].
Qed.

(** ** What a line says *)

Lemma high_bits m i : 0 ≤ m < 2 ^ 32 → 32 ≤ i → Z.testbit m i = false.
Proof. intros Hm Hi. rewrite <- (Z.mod_small m (2 ^ 32)) by done. by apply Z.mod_pow2_bits_high. Qed.

(** A bitwise identity of 32-bit numbers holds when it holds of each of their bits. *)
Ltac solve_bits :=
  apply Z.bits_inj'; intros i Hi; repeat first [rewrite Z.lxor_spec|rewrite Z.land_spec|rewrite Z.lor_spec|rewrite Z.ldiff_spec|rewrite Z.bits_0];
  destruct (decide (i < 32));
    [rewrite ?Z.ones_spec_low by lia|rewrite ?Z.ones_spec_high by lia; rewrite ?high_bits by lia];
  repeat match goal with |- context [Z.testbit ?x i] => destruct (Z.testbit x i) end; done.

Lemma mask_complement mask : 0 ≤ mask < 2 ^ 32 → Z.lxor 0xffffffff mask = 0xffffffff - mask.
Proof.
  intros Hm. change 0xffffffff with (Z.ones 32). assert (Z.land mask (Z.lxor (Z.ones 32) mask) = 0) as H0 by solve_bits.
  apply Z.add_nocarry_lxor in H0 as Hs. assert (Z.lxor mask (Z.lxor (Z.ones 32) mask) = Z.ones 32) as E by solve_bits. lia.
Qed.

(** The addresses of [n] under a mask: from its network up by what the mask leaves open. *)
Lemma land_lxor_sum n mask : 0 ≤ n < 2 ^ 32 → 0 ≤ mask < 2 ^ 32 →
  0 ≤ Z.land n mask ∧ Z.land n mask ≤ mask ∧ Z.lor (Z.land n mask) (Z.lxor 0xffffffff mask) = Z.land n mask + (0xffffffff - mask).
Proof.
  intros Hn Hm. split_and!; [apply Z.land_nonneg; lia| |].
  - assert (Z.land (Z.land n mask) (Z.ldiff mask n) = 0) as H0 by solve_bits. apply Z.add_nocarry_lxor in H0 as Hs.
    assert (Z.lxor (Z.land n mask) (Z.ldiff mask n) = mask) as E by solve_bits. assert (0 ≤ Z.ldiff mask n) by (apply Z.ldiff_nonneg; lia). lia.
  - rewrite <- mask_complement by done. pose proof (Z.add_lor_land (Z.land n mask) (Z.lxor 0xffffffff mask)) as Hs.
    assert (Z.land (Z.land n mask) (Z.lxor 0xffffffff mask) = 0) as H0 by (change 0xffffffff with (Z.ones 32); solve_bits). lia.
Qed.

Lemma bigEndian_bound b : wf_bytes b → length b = 4%nat → 0 ≤ bigEndian b < 2 ^ 32.
Proof. intros Hw Hl. pose proof (le_combine_bound (rev b)) as Hb. rewrite length_rev, Hl in Hb. apply Hb. by apply Forall_rev. Qed.

Lemma parseV4_wf s ip : parseV4 s = Some ip → wf_bytes ip ∧ length ip = 4%nat.
Proof.
  assert (∀ p v, ParseUint8 p = Some v → is_byte v) as Hb.
  { intros p v. unfold ParseUint8. destruct p as [|c p]; [done|]. destruct (forallb is_digit (c :: p)) eqn:Hd; [|done].
    destruct (Z.leb_spec (fold_left (λ n c, n * 10 + (c - 48)) (c :: p) 0) 255) as [Hle|]; [|done]. intros [= Hv]. assert (v ≤ 255) by (rewrite <- Hv; exact Hle). split; [|lia]. rewrite <- Hv.
    assert (∀ l acc, forallb is_digit l = true → 0 ≤ acc → 0 ≤ fold_left (λ n c, n * 10 + (c - 48)) l acc) as Hpos.
    { clear. induction l as [|c l IH]; intros acc Hl Ha; [done|]. cbn in *. apply andb_true_iff in Hl as [Hc Hl]. unfold is_digit in Hc. apply IH; [done|lia]. }
    apply (Hpos (c :: p) 0); [done|lia]. }
  unfold parseV4. destruct (split_on 46 s) as [|a [|b [|c [|d [|? ?]]]]]; try done.
  destruct (_ || _); [done|]. destruct (ParseUint8 a) eqn:Ha; [|done]. destruct (_ || _); [done|]. destruct (ParseUint8 b) eqn:Hb'; [|done].
  destruct (_ || _); [done|]. destruct (ParseUint8 c) eqn:Hc; [|done]. destruct (_ || _); [done|]. destruct (ParseUint8 d) eqn:Hd; [|done].
  intros [= <-]. split; [|done]. repeat (apply Forall_cons; split; [by eapply Hb|]). apply Forall_nil_2.
Qed.

Section Lines.
Context `{!Unicode}.

Lemma parseMask_bound suffix mask : parseMask suffix = Some mask → 0 ≤ mask < 2 ^ 32.
Proof.
  unfold parseMask. destruct (Contains _ _).
  - intros (ip&Hip&->)%fmap_Some. destruct (parseV4_wf _ _ Hip). by apply bigEndian_bound.
  - destruct (Atoi suffix) as [bits|]; [|done]. destruct (_ || _); [done|]. intros [= <-]. unfold prefixMask. destruct (0 <? bits); [solve_range|lia].
Qed.

Lemma parseRangeField_wf field lo hi : parseRangeField field = Some (lo, hi) → 0 ≤ lo ∧ lo ≤ hi ∧ hi < 2 ^ 32.
Proof.
  unfold parseRangeField. case_bool_decide; [done|]. assert (∀ s ip, parseV4 s = Some ip → 0 ≤ bigEndian ip < 2 ^ 32) as Hv.
  { intros s ip Hip. destruct (parseV4_wf _ _ Hip). by apply bigEndian_bound. }
  destruct (Cut field 45) as [[l h]|].
  - destruct (parseV4 (TrimSpace l)) eqn:Hl; [|done]. destruct (parseV4 (TrimSpace h)) eqn:Hh; [|done]. apply Hv in Hl, Hh.
    destruct (Z.ltb_spec (bigEndian l1) (bigEndian l0)); intros [= <- <-]; lia.
  - destruct (Cut field 47) as [[base suffix]|].
    + destruct (parseV4 (TrimSpace base)) eqn:Hb; [|done]. destruct (parseMask _) as [mask|] eqn:Hm; [|done]. apply Hv in Hb. apply parseMask_bound in Hm.
      destruct (land_lxor_sum _ mask Hb Hm) as (Hpos&Hle&->). intros [= <- <-]. lia.
    + destruct (parseV4 field) eqn:Hf; [|done]. apply Hv in Hf. intros [= <- <-]. lia.
Qed.

Lemma parseLine_wf line rng level : parseIPFilterLine line = Some (rng, level) → wfRange rng.
Proof.
  unfold parseIPFilterLine. case_bool_decide; [done|]. destruct (default _ _) as [[addr lvl] desc]. destruct (parseRangeField addr) as [[lo hi]|] eqn:Hr; [|done].
  apply parseRangeField_wf in Hr. case_bool_decide; [by intros [= <- <-]|]. destruct (Atoi lvl); [|done]. by intros [= <- <-].
Qed.

(** The range a line of the file blocks, if it is one of the blocking lines. *)
Definition blockingRange (minLevel : Z) (raw : bytes) : option ipRange :=
  let line := TrimSpace raw in
  if isComment line then None
  else match parseIPFilterLine line with Some (rng, level) => if level <? minLevel then Some rng else None | None => None end.

Lemma noteLines_spec minLevel lines out blocking :
  (foldl (noteLine minLevel) (out, blocking) lines).2 = blocking ++ omap (blockingRange minLevel) lines.
Proof.
  revert out blocking. induction lines as [|raw lines IH]; intros out blocking; [by rewrite app_nil_r|]. cbn [foldl omap list_omap]. unfold blockingRange at 1, noteLine at 2.
  destruct (isComment _); [apply IH|]. destruct (parseIPFilterLine _) as [[rng level]|]; [|apply IH]. rewrite IH. destruct (level <? minLevel); [|done].
  by rewrite <- app_assoc.
Qed.

Definition effectiveLevel (minLevel : Z) : Z := if minLevel <=? 0 then DefaultMinLevel else minLevel.

Lemma parsed_ranges `{!GoSort, !GoSortLaws} content minLevel f : ParseIPFilter content minLevel = Ok f →
  if_ranges f = mergeRanges (omap (blockingRange (effectiveLevel minLevel)) (scanLines content)) ∧
  Forall wfRange (omap (blockingRange (effectiveLevel minLevel)) (scanLines content)).
Proof.
  unfold ParseIPFilter. fold (effectiveLevel minLevel). pose proof (noteLines_spec (effectiveLevel minLevel) (scanLines content) (mkIPFilter [] 0 0 0) []) as Hn.
  destruct (foldl _ _ _) as [out blocking]. cbn in Hn. subst blocking. destruct (tooLong content); [done|]. intros [= <-]. destruct out. split; [done|].
  apply Forall_forall. intros r Hr. apply list_elem_of_omap in Hr as (raw&_&Hb). unfold blockingRange in Hb. destruct (isComment _); [done|].
  destruct (parseIPFilterLine _) as [[rng level]|] eqn:Hp; [|done]. destruct (_ <? _); [|done]. injection Hb as <-. by eapply parseLine_wf.
Qed.

(** What the filter answers is what the lines of its file say. *)
Lemma ipfilter_exact `{!GoSort, !GoSortLaws} content minLevel f ip v4 : ParseIPFilter content minLevel = Ok f → To4 ip = Some v4 →
  (rangeBlocked f ip).1 = true ↔
  ∃ raw rng, raw ∈ scanLines content ∧ blockingRange (effectiveLevel minLevel) raw = Some rng ∧ rg_lo rng ≤ bigEndian v4 ≤ rg_hi rng.
Proof.
  intros Hp H4. destruct (parsed_ranges content minLevel f Hp) as [Hr Hw]. destruct (mergeRanges_spec _ Hw) as (Hin&Hwf&Hs). rewrite <- Hr in *.
  rewrite (rangeBlocked_spec f ip v4 Hs Hwf H4), Hin, Exists_exists. split.
  - intros (r&(raw&Hraw&Hb)%list_elem_of_omap&Hi). by exists raw, r.
  - intros (raw&r&Hraw&Hb&Hi). exists r. split; [|done]. apply list_elem_of_omap. by exists raw.
Qed.
End Lines.
