(* ===== verification/NetFilter.v ===== *)
(** * The access filter at work: [netfilter/filter.go], [netfilter/geoip.go]

    The two halves of the filter, their reloads, and the filter in front of the UDP server:
    an address a line of the list blocks gets no answer and changes nothing. The country
    database is third-party code, an interface; the files are what the system reads. *)

From stdpp Require Import gmap sorting.
From S2P Require Import Prelude Buffer Types Address NetIP Packet Builders Framing Crypt UDPCrypt LowID Text Search SearchParse FileMeta IPFilter.
From S2P Require Import MemEngine MemAPI RateLimit BotDetector Engine RuntimeState Runtime Demo NatTraversal Gossip UDPPorts NatCallback UDPState UDPHandler.
Local Open Scope Z_scope.

(** ** Countries *)

(** The reader of [geoip2-golang]: the ISO code an address resolves to, [None] on an error. *)
Class CountryDB (D : Type) := CountryOf : D → bytes → option bytes.

(** [strings.ToUpper] over the upper case of a rune. *)
Class UpperTables := UpperRune : Z → Z.
Definition ToUpper `{UpperTables} (s : bytes) : bytes := encode (map UpperRune (runes s)).

Record WebServiceAccount := mkAccount { wa_AccountID : bytes; wa_LicenseKey : bytes }.

Record GeoIP {D : Type} := mkGeoIP {
  ge_db : option D; ge_denied : gset bytes; ge_file : bytes; ge_account : option WebServiceAccount; ge_updateDays : Z }.
Arguments GeoIP : clear implicits.
Arguments mkGeoIP {_}.

Record Config := mkFilterConfig {
  fc_IPFilterEnabled : bool; fc_IPFilterFile : bytes; fc_IPFilterMinLevel : Z; fc_IPFilterReloadMinutes : Z;
  fc_GeoIPEnabled : bool; fc_GeoIPDatabase : bytes; fc_BlockedCountries : list bytes; fc_Account : option WebServiceAccount; fc_UpdateDays : Z }.

Record Filter {D : Type} := mkFilter {
  ft_ipf : option IPFilter; ft_ipfLoaded : Z; ft_geo : option (GeoIP D); ft_cfg : Config; ft_blockedIP : Z; ft_blockedGeo : Z }.
Arguments Filter : clear implicits.
Arguments mkFilter {_}.

Record FilterInfo := mkFilterInfo {
  in_IPFilterEnabled : bool; in_IPFilterFile : bytes; in_Parsed : Z; in_Blocking : Z; in_Merged : Z; in_Skipped : Z; in_IPFilterLoaded : option Z;
  in_GeoIPEnabled : bool; in_GeoIPDatabase : bytes; in_GeoIPLoaded : bool; in_BlockedCountries : Z }.

Section Filter.
Context {D : Type} `{!CountryDB D} `{!UpperTables} `{!Unicode} `{!GoSort}.
Implicit Types (g : GeoIP D) (f : Filter D).

Definition NewGeoIP (databaseFile : bytes) (denied : list bytes) (account : option WebServiceAccount) (updateDays : Z) : GeoIP D :=
  mkGeoIP None
    (foldl (λ m c, let c := ToUpper (TrimSpace c) in if bool_decide (c = []) then m else {[ c ]} ∪ m) ∅ denied)
    databaseFile account updateDays.

Definition Ready (g : option (GeoIP D)) : bool * Z :=
  match g with None => (false, 0) | Some g => (bool_decide (is_Some (ge_db g)), Z.of_nat (size (ge_denied g))) end.

Definition geoLookup (g : option (GeoIP D)) (ip : bytes) : bytes :=
  match g with
  | None => []
  | Some g => match ge_db g with Some db => default [] (CountryOf db ip) | None => [] end
  end.

(** [GeoIP.Blocked]. *)
Definition geoBlocked (g : option (GeoIP D)) (ip : bytes) : bool * bytes :=
  match g with
  | None => (false, [])
  | Some g =>
      match ge_db g with
      | None => (false, [])
      | Some db =>
          if bool_decide (ge_denied g = ∅) then (false, [])
          else match CountryOf db ip with
               | None => (false, [])
               | Some code =>
                   if bool_decide (code = []) then (false, [])
                   else if bool_decide (code ∈ ge_denied g) then (true, str "country=" ++ code)
                   else (false, [])
               end
      end
  end.

Definition geoClose (g : option (GeoIP D)) : option (GeoIP D) := (λ g, { g with ge_db := None }) <$> g.

(** [reloadDatabase], given what opening the file yields. *)
Definition reloadDatabase (opened : option D) g : GeoIP D * bool :=
  match opened with Some db => ({ g with ge_db := Some db }, true) | None => (g, false) end.

(** ** The filter *)

(** A file that can be read, or not. *)
Definition LoadIPFilter (file : option bytes) (minLevel : Z) : result IPFilter :=
  match file with
  | None => Err (ErrNew "open ipfilter")
  | Some content => ParseIPFilter content minLevel
  end.

Definition storeIPFilter (ipf : IPFilter) (now : Z) f : Filter D := { f with ft_ipf := Some ipf; ft_ipfLoaded := now }.

Definition NewFilter (cfg : Config) (file : option bytes) (now : Z) : result (option (Filter D)) :=
  if negb (fc_IPFilterEnabled cfg) && negb (fc_GeoIPEnabled cfg) then Ok None
  else
    let f := mkFilter None 0 None cfg 0 0 in
    let withGeo f := if fc_GeoIPEnabled cfg
      then { f with ft_geo := Some (NewGeoIP (fc_GeoIPDatabase cfg) (fc_BlockedCountries cfg) (fc_Account cfg) (fc_UpdateDays cfg)) } else f in
    if fc_IPFilterEnabled cfg then
      match LoadIPFilter file (fc_IPFilterMinLevel cfg) with
      | Ok ipf => Ok (Some (withGeo (storeIPFilter ipf now f)))
      | Err e => Err e
      | Panic => Panic
      end
    else Ok (Some (withGeo f)).

(** [Filter.Blocked]: the verdict and the reason, and the count of the half that refused. *)
Definition filterBlocked (ip : bytes) f : Filter D * bool * bytes :=
  match match ft_ipf f with Some ipf => rangeBlocked ipf ip | None => (false, []) end with
  | (true, desc) => ({ f with ft_blockedIP := ft_blockedIP f + 1 }, true, str "ipfilter " ++ desc)
  | (false, _) =>
      match geoBlocked (ft_geo f) ip with
      | (true, desc) => ({ f with ft_blockedGeo := ft_blockedGeo f + 1 }, true, str "geoip " ++ desc)
      | (false, _) => (f, false, [])
      end
  end.

Definition filterStats f : Z * Z := (ft_blockedIP f, ft_blockedGeo f).
Definition filterCountry f (ip : bytes) : bytes := geoLookup (ft_geo f) ip.
Definition filterClose f : Filter D := { f with ft_geo := geoClose (ft_geo f) }.

Definition FilterInfoOf f : FilterInfo :=
  let cfg := ft_cfg f in
  let '(loaded, countries) := Ready (ft_geo f) in
  let mk p b m s at_ := mkFilterInfo (fc_IPFilterEnabled cfg) (fc_IPFilterFile cfg) p b m s at_
    (fc_GeoIPEnabled cfg) (fc_GeoIPDatabase cfg) loaded countries in
  match ft_ipf f with
  | Some ipf => mk (if_Parsed ipf) (if_Blocking ipf) (filterLen ipf) (if_Skipped ipf) (Some (ft_ipfLoaded f))
  | None => mk 0 0 0 0 None
  end.

(** [Filter.Reload]: each half that can be read anew is replaced; whether all went well. *)
Definition Reload (file : option bytes) (databaseExists : bool) (opened : option D) (now : Z) f : Filter D * bool :=
  let '(f, ok1) :=
    if fc_IPFilterEnabled (ft_cfg f) then
      match LoadIPFilter file (fc_IPFilterMinLevel (ft_cfg f)) with Ok ipf => (storeIPFilter ipf now f, true) | _ => (f, false) end
    else (f, true) in
  match ft_geo f with
  | Some g => if databaseExists then let '(g, ok2) := reloadDatabase opened g in ({ f with ft_geo := Some g }, ok1 && ok2) else (f, ok1)
  | None => (f, ok1)
  end.

(** One tick of [reloadIPFilterLoop]. *)
Definition reloadTick (file : option bytes) (now : Z) f : Filter D :=
  match LoadIPFilter file (fc_IPFilterMinLevel (ft_cfg f)) with
  | Ok ipf =>
      match ft_ipf f with
      | Some prev => if (filterLen prev =? filterLen ipf) && (if_Parsed prev =? if_Parsed ipf) then f else storeIPFilter ipf now f
      | None => storeIPFilter ipf now f
      end
  | _ => f
  end.

(** The filter the server asks. *)
#[global] Instance filterAccess : AccessFilter (Filter D) := {| Blocked ip f := let '(f, blocked, _) := filterBlocked ip f in (f, blocked) |}.
End Filter.

(** ** In front of the server *)

Section Server.
Context {D : Type} `{!CountryDB D} `{!UpperTables} `{!GoSort, !GoSortLaws}.
Context {E F P Q : Type} `{!Engine E} `{!ContentFilter F} `{!SpamObserver P Q}.
Context `{!Zlib} `{!Unicode} `{!Charmap} `{!MetaHash} `{!Adverts}.
Implicit Types (x : udpStep E F P Q (Filter D)) (f : Filter D).

(** An address a line of the file blocks. *)
Definition blockedBy (content : bytes) (minLevel : Z) (v4 : bytes) : Prop :=
  ∃ raw rng, raw ∈ scanLines content ∧ blockingRange (effectiveLevel minLevel) raw = Some rng ∧ rg_lo rng ≤ bigEndian v4 ≤ rg_hi rng.

Lemma NormalizeIP_To4 ip v4 : To4 ip = Some v4 → NormalizeIP (Some ip) = Some v4 ∧ To4 v4 = Some v4.
Proof.
  intros Hv. unfold NormalizeIP. rewrite Hv. split; [done|]. unfold To4 in *. case_bool_decide as Hl; [injection Hv as <-; by rewrite bool_decide_eq_true_2|].
  case_bool_decide as H16; [|done]. injection Hv as <-. rewrite bool_decide_eq_true_2; [done|]. rewrite length_drop. destruct H16 as [-> _]. done.
Qed.

Lemma ipf_blocked f ipf content v4 : ft_ipf f = Some ipf → ParseIPFilter content (fc_IPFilterMinLevel (ft_cfg f)) = Ok ipf → To4 v4 = Some v4 →
  (rangeBlocked ipf v4).1 = true ↔ blockedBy content (fc_IPFilterMinLevel (ft_cfg f)) v4.
Proof. intros _ Hp Hv. by apply ipfilter_exact. Qed.

(** C10: the filter in front of the UDP server says what the file says. A datagram from an
    address some line blocks, and no level lets through, is not answered and arms no timer,
    and the filter's own count is all that changes; one from an address no line blocks is not
    held up by the list, and with no country refused it is handled as if there were no filter. *)
Theorem filter_guards content ipf f enc data env x v4 :
  u_filter (x_u x) = Some f → ft_ipf f = Some ipf → ParseIPFilter content (fc_IPFilterMinLevel (ft_cfg f)) = Ok ipf →
  To4 (ua_IP (ev_remote env)) = Some v4 → data ≠ [] →
  (blockedBy content (fc_IPFilterMinLevel (ft_cfg f)) v4 →
     UDPHandler enc data env x = onU (λ u, { u with u_filter := Some { f with ft_blockedIP := ft_blockedIP f + 1 } }) x) ∧
  (¬ blockedBy content (fc_IPFilterMinLevel (ft_cfg f)) v4 → (geoBlocked (ft_geo f) v4).1 = false →
     blockedPeer (NormalizeIP (Some (ua_IP (ev_remote env)))) x = (x, false)).
Proof.
  intros Hf Hi Hp Hv Hd. destruct (NormalizeIP_To4 _ _ Hv) as [Hn Hv']. pose proof (ipf_blocked f ipf content v4 Hi Hp Hv') as Hb.
  assert (Blocked v4 f = let '(f, b, _) := filterBlocked v4 f in (f, b)) as HB by done. unfold filterBlocked in HB. rewrite Hi in HB.
  destruct (rangeBlocked ipf v4) as [[] desc]; cbn in Hb.
  - split; [|intros Hno; exfalso; by apply Hno, Hb]. intros _. unfold UDPHandler. rewrite bool_decide_eq_false_2 by done. rewrite Hn. unfold blockedPeer. rewrite Hf, HB. done.
  - split; [intros Hyes%Hb; done|]. intros _ Hg. rewrite Hn. unfold blockedPeer. rewrite Hf. destruct (geoBlocked (ft_geo f) v4) as [[] ?]; [done|]. rewrite HB.
    destruct x as [u s t], u. cbn in *. by subst.
Qed.

(** C40: a timed reload that finds as many lines and as many merged ranges as before keeps the
    old list: the server goes on blocking what the file said before it was edited, whatever
    it says now. *)
Theorem reload_keeps_stale old content now f prev ipf v4 :
  ft_ipf f = Some prev → ParseIPFilter old (fc_IPFilterMinLevel (ft_cfg f)) = Ok prev →
  ParseIPFilter content (fc_IPFilterMinLevel (ft_cfg f)) = Ok ipf → filterLen ipf = filterLen prev → if_Parsed ipf = if_Parsed prev →
  ft_geo f = None → To4 v4 = Some v4 →
  (Blocked v4 (reloadTick (Some content) now f)).2 = true ↔ blockedBy old (fc_IPFilterMinLevel (ft_cfg f)) v4.
Proof.
  intros Hf Hold Hp Hl Hn Hg Hv. assert (reloadTick (Some content) now f = f) as ->.
  { unfold reloadTick, LoadIPFilter. by rewrite Hp, Hf, Hl, Hn, !Z.eqb_refl. }
  rewrite <- (ipf_blocked f prev old v4 Hf Hold Hv). cbn. unfold filterBlocked. rewrite Hf, Hg. by destruct (rangeBlocked prev v4) as [[] ?].
Qed.
End Server.

(** ** An example *)

Definition lessLe {A} (less : A → A → bool) (a b : A) : Prop := less b a = false.
#[export] Instance lessLe_dec {A} (less : A → A → bool) : RelDecision (lessLe less).
Proof. intros a b. unfold lessLe. apply _. Defined.

Definition mergeGoSort : GoSort := λ A less l, merge_sort (lessLe less) l.

Lemma mergeGoSort_laws : GoSortLaws (H := mergeGoSort).
Proof.
  split; intros A less l; [apply merge_sort_Permutation|]. intros Hasym _.
  assert (Total (lessLe less)); [|apply (Sorted_merge_sort (lessLe less))].
  intros a b. unfold lessLe. destruct (less b a) eqn:Hba; [right; by apply Hasym|by left].
Qed.

Section Example.
Import Instances.
#[local] Existing Instances mergeGoSort mergeGoSort_laws.
#[local] Instance noCountries : CountryDB unit := λ _ _, None.
#[local] Instance asciiUpper : UpperTables := λ r, if within 0x61 0x7a r then r - 32 else r.
#[local] Instance exampleAdverts : Adverts := {| ParseURL := λ _, None; ParseNodeLink := λ _, false |}.

Definition nl : bytes := [10].
Definition oldList : bytes := str "# mine" ++ nl ++ str "001.002.003.004 - 001.002.003.010 , 000 , lab" ++ nl ++ str "10.0.0.0/8 1 private" ++ nl ++ str "9.9.9.9 , 120 , fine" ++ nl.
Definition newList : bytes := str "# mine" ++ nl ++ str "001.002.003.004 - 001.002.003.008 , 000 , lab" ++ nl ++ str "11.0.0.0/8 1 private" ++ nl ++ str "9.9.9.9 , 120 , fine" ++ nl.

Definition exampleConfig : Config := mkFilterConfig true (str "ipfilter.dat") 0 10 false [] [] None 0.
Definition readList (content : bytes) : IPFilter := match ParseIPFilter content 0 with Ok f => f | _ => mkIPFilter [] 0 0 0 end.
Definition exampleFilter : Filter unit := mkFilter (Some (readList oldList)) 0 None exampleConfig 0 0.
Definition guarded : UDPState MemoryEngine unit unit unit (Filter unit) :=
  mkUDPState demoServer (Some exampleFilter) None None newCallbackState (NewLimiter 0) newBotDetector None 0 ∅ 0 0 false.
Definition fromTen : udpEnv := mkUDPEnv (mkUDPAddr [10; 7; 7; 7] 4672) (mkReplyConn (mkListener 0 4665) None None) 0 (λ _, (1, 2, 3)) (λ _ V m, map_to_list m).

Lemma old_read : ParseIPFilter oldList (fc_IPFilterMinLevel exampleConfig) = Ok (readList oldList).
Proof. vm_compute. reflexivity. Qed.

Lemma ten_blocked : blockedBy oldList 0 [10; 7; 7; 7].
Proof.
  exists (str "10.0.0.0/8 1 private"), (mkRange 0x0a000000 0x0affffff (str "private")). split; [|split; [vm_compute; reflexivity|vm_compute; split; discriminate]].
  apply list_elem_of_In. vm_compute. right. right. left. reflexivity.
Qed.

Lemma filter_guards_witness :
  let query := [PrED2K; OpGlobServStatReq; 1; 2; 3; 4] in
  x_sent (UDPHandler false query fromTen (mkStep guarded [] [])) = [] ∧
  ft_blockedIP <$> u_filter (x_u (UDPHandler false query fromTen (mkStep guarded [] []))) = Some 1.
Proof.
  intros query. destruct (filter_guards oldList (readList oldList) exampleFilter false query fromTen (mkStep guarded [] []) [10; 7; 7; 7]
    eq_refl eq_refl old_read eq_refl ltac:(discriminate)) as [Hb _].
  rewrite (Hb ten_blocked). split; vm_compute; reflexivity.
Defined.

(** 10.7.7.7 stays blocked and 11.7.7.7 gets through after the file was changed. *)
Lemma reload_keeps_stale_witness :
  (Blocked [10; 7; 7; 7] (reloadTick (Some newList) Second exampleFilter)).2 = true ∧
  (Blocked [11; 7; 7; 7] (reloadTick (Some newList) Second exampleFilter)).2 = false ∧ (rangeBlocked (readList newList) [11; 7; 7; 7]).1 = true.
Proof.
  split; [|vm_compute; split; reflexivity].
  apply (reload_keeps_stale oldList newList Second exampleFilter (readList oldList) (readList newList) [10; 7; 7; 7] eq_refl old_read);
    [vm_compute; reflexivity..|exact ten_blocked].
Defined.
End Example.
