(* ===== verification/ServerMet.v ===== *)
(** * The peer file: [ed2k/servermet.go]

    The gossip peers survive a restart in a file of the [server.met] format. A write goes to a
    temporary file that is renamed into place, so that a failure leaves the file as it was. *)

From stdpp Require Import gmap.
From S2P Require Import Prelude Buffer Types Address Packet Builders Search SearchParse UDPHandler NatTraversal Gossip GossipWire.
Local Open Scope Z_scope.

Definition serverMetVersion : Z := 0xE0.
Definition serverMetVersionAlt : Z := 0x0E.
Definition maxServerMetEntries : Z := 65536.

Record ServerMetEntry := mkMetEntry { sm_IP : bytes; sm_Port : Z; sm_Name : bytes; sm_Description : bytes }.

Definition serverMetTags (e : ServerMetEntry) : list Tag :=
  (if bool_decide (sm_Name e = []) then [] else [mkTag TypeString TagName (AString (sm_Name e))]) ++
  (if bool_decide (sm_Description e = []) then [] else [mkTag TypeString TagDescription (AString (sm_Description e))]).

Definition metTagSize (t : Tag) : Z :=
  4 + (if tag_Type t =? TypeString then 2 + match tag_Data t with AString s => Z.of_nat (length s) | _ => 0 end
       else if tag_Type t =? TypeUint32 then 4 else 0).

Definition serverMetSize (entries : list ServerMetEntry) : Z :=
  foldl (λ size e, foldl (λ size t, size + metTagSize t) (size + (4 + 2 + 4)) (serverMetTags e)) (1 + 4) entries.

Definition putMetEntry (e : ServerMetEntry) : M Buffer unit :=
  PutUInt32LE (uint32FromV4 (default [] (To4 (sm_IP e))));;
  PutUInt16LE (sm_Port e);;
  PutTags (serverMetTags e).

(** The bytes of the file. *)
Definition serverMetBytes (entries : list ServerMetEntry) : result Buffer :=
  let v4 := List.filter (λ e, bool_decide (is_Some (To4 (sm_IP e)))) entries in
  make_buffer (serverMetSize v4) (
    PutUInt8 serverMetVersion;;
    PutUInt32LE (u32 (length v4));;
    for_each putMetEntry v4).

(** Files by name; [ioError] is the first step of the system that fails, if one does. *)
Definition WriteServerMet (path : bytes) (entries : list ServerMetEntry) (ioError : option error) (files : gmap bytes bytes) :
    result (gmap bytes bytes) :=
  if bool_decide (path = []) then Err (ErrNew "server.met path is empty")
  else match serverMetBytes entries with
  | Ok b => match ioError with Some e => Err e | None => Ok (<[path := data b]> files) end
  | Err e => Err e
  | Panic => Panic
  end.

Definition metText (name : bytes) (tags : list NamedTag) (old : bytes) : bytes :=
  foldl (λ old t, if bool_decide (nt_Name t = name) then match nt_Value t with AString s => s | _ => old end else old) old tags.

(** One entry; [None] for one without an address. *)
Definition getMetEntry : M Buffer (option ServerMetEntry) :=
  packedIP ← wrap_err (λ _, ErrNew "truncated at entry") GetUInt32LE;
  port ← wrap_err (λ _, ErrNew "truncated at entry port") GetUInt16LE;
  tags ← wrap_err (λ e, ErrWrap "entry tags" [] e) GetTags;
  mret (if packedIP =? 0 then None
        else Some (mkMetEntry (v4FromUint32 packedIP) port (metText (str "name") tags []) (metText (str "description") tags []))).

Definition parseServerMet : M Buffer (list ServerMetEntry) :=
  version ← wrap_err (λ _, ErrNew "empty file") GetUInt8;
  if negb (version =? serverMetVersion) && negb (version =? serverMetVersionAlt) then fail (ErrNew "bad version byte") else
  count ← wrap_err (λ _, ErrNew "truncated before the entry count") GetUInt32LE;
  if maxServerMetEntries <? count then fail (ErrNew "declares too many entries") else
  r ← Remaining;
  if r <? count * 10 then fail (ErrNew "declares more entries than bytes remain") else
  entries ← for_collect (Z.to_nat count) 0 (λ _, getMetEntry);
  mret (omap id entries).

(** A missing file has no entries. *)
Definition ReadServerMet (path : bytes) (files : gmap bytes bytes) : result (list ServerMetEntry) :=
  match files !! path with
  | None => Ok []
  | Some raw => (parseServerMet (NewBufferFromBytes raw)).2
  end.

(** ** Read back *)

Definition wireEntry (e : ServerMetEntry) : Prop :=
  wf_bytes (sm_IP e) ∧ fits 16 (sm_Port e) ∧ length (sm_Name e) < 2 ^ 16 ∧ length (sm_Description e) < 2 ^ 16.

(** What is left of an entry: one with an IPv4 address other than 0.0.0.0. *)
Definition metKept (e : ServerMetEntry) : option ServerMetEntry :=
  match To4 (sm_IP e) with
  | Some v4 => if bool_decide (v4 = [0; 0; 0; 0]) then None else Some (mkMetEntry v4 (sm_Port e) (sm_Name e) (sm_Description e))
  | None => None
  end.

Definition encMetEntry (e : ServerMetEntry) : bytes := default [] (To4 (sm_IP e)) ++ le_split 2 (sm_Port e) ++ encTags (serverMetTags e).

Lemma metTags_inRange e : wireEntry e → Forall tagInRange (serverMetTags e) ∧ length (serverMetTags e) < 2 ^ 32.
Proof.
  intros (_&_&Hn&Hd). unfold serverMetTags. split.
  - apply Forall_app. split; case_bool_decide; repeat constructor; cbn; try done; lia.
  - rewrite length_app. repeat case_bool_decide; cbn; lia.
Qed.

Lemma metText_decoded e : metText (str "name") (map decodedTag (serverMetTags e)) [] = sm_Name e ∧
  metText (str "description") (map decodedTag (serverMetTags e)) [] = sm_Description e.
Proof. unfold serverMetTags. destruct e as [ip port name desc]. cbn [sm_Name sm_Description]. repeat case_bool_decide; subst; split; vm_compute; reflexivity. Qed.

Lemma length_metTags e : wireEntry e → Z.of_nat (length (encTags (serverMetTags e))) = foldl (λ size t, size + metTagSize t) 4 (serverMetTags e).
Proof.
  intros (_&_&Hn&Hd). unfold encTags, serverMetTags. rewrite length_app, length_le_split. destruct e as [ip port name desc]. cbn [sm_Name sm_Description] in *.
  repeat case_bool_decide; cbn [app map concat foldl]; rewrite ?length_app, ?length_encTag; unfold metTagSize, encValue; cbn; rewrite ?length_app, ?length_le_split; cbn; lia.
Qed.

Lemma length_serverMet entries : Forall (λ e, wireEntry e ∧ is_Some (To4 (sm_IP e))) entries →
  serverMetSize entries = length (le_split 1 serverMetVersion ++ le_split 4 (u32 (length entries)) ++ concat (map encMetEntry entries)).
Proof.
  intros He. rewrite !length_app, !length_le_split. unfold serverMetSize.
  assert (∀ k, foldl (λ size e, foldl (λ size t, size + metTagSize t) (size + (4 + 2 + 4)) (serverMetTags e)) k entries = k + length (concat (map encMetEntry entries))) as Hg;
    [|rewrite Hg; lia].
  induction He as [|e entries [He [v4 H4]] _ IH]; intros k; [cbn; lia|]. cbn [foldl map concat]. rewrite IH, length_app.
  assert (∀ a tags, foldl (λ size t, size + metTagSize t) a tags = a + foldl (λ size t, size + metTagSize t) 0 tags) as Hs.
  { intros a tags. revert a. induction tags as [|t tags IHt]; intros a; [cbn; lia|]. cbn [foldl]. rewrite IHt, (IHt (0 + _)). lia. }
  pose proof (length_metTags e He) as Hl. rewrite Hs in Hl |- *. unfold encMetEntry. rewrite H4. change (default [] (Some v4)) with v4. rewrite !length_app, length_le_split.
  destruct He as [Hw _]. destruct (To4_sized _ _ Hw H4) as [_ ->]. lia.
Qed.

Lemma writes_putMetEntry e : wireEntry e → is_Some (To4 (sm_IP e)) → writes (putMetEntry e) (encMetEntry e).
Proof.
  intros He [v4 H4]. pose proof He as [Hw _]. destruct (To4_sized _ _ Hw H4) as [Hw4 Hl4]. destruct (v4_bytes v4 Hw4 Hl4) as [_ Hb].
  unfold putMetEntry, encMetEntry. rewrite H4. change (default [] (Some v4)) with v4. rewrite <- Hb at 2. apply writes_seq; [apply writes_le|]. apply writes_seq; [apply writes_le|].
  by apply writes_PutTags, metTags_inRange.
Qed.

Lemma v4_unpack v4 : wf_bytes v4 → length v4 = 4%nat → v4FromUint32 (uint32FromV4 v4) = v4.
Proof. intros Hw Hl. by apply v4_bytes. Qed.

Lemma v4_zero v4 : wf_bytes v4 → length v4 = 4%nat → uint32FromV4 v4 = 0 ↔ v4 = [0; 0; 0; 0].
Proof.
  intros Hw Hl. destruct (v4_bytes v4 Hw Hl) as [_ Hb]. split; [|by intros ->]. intros Hz. rewrite Hz in Hb. by rewrite <- Hb.
Qed.

Lemma reads_getMetEntry e : wireEntry e → is_Some (To4 (sm_IP e)) → reads getMetEntry (encMetEntry e) (metKept e).
Proof.
  intros He [v4 H4]. pose proof He as (Hw&Hp&_). destruct (To4_sized _ _ Hw H4) as [Hw4 Hl4]. destruct (v4_bytes v4 Hw4 Hl4) as [Hf Hb].
  destruct (metTags_inRange e He) as [Ht Hn]. unfold getMetEntry, encMetEntry, metKept. rewrite H4. change (default [] (Some v4)) with v4. rewrite <- Hb at 1.
  eapply reads_bind; [by apply reads_wrap, (reads_le 4)|]. eapply reads_bind; [by apply reads_wrap, (reads_le 2)|].
  rewrite <- (app_nil_r (encTags _)). eapply reads_bind; [by apply reads_wrap, reads_GetTags|]. destruct (metText_decoded e) as [-> ->].
  rewrite (v4_unpack v4) by done. destruct (Z.eqb_spec (uint32FromV4 v4) 0) as [Hz|Hz]; rewrite v4_zero in Hz by done;
    [rewrite bool_decide_eq_true_2 by done|rewrite bool_decide_eq_false_2 by done]; apply reads_ret.
Qed.

Lemma omap_filter_v4 entries : omap id (map metKept (List.filter (λ e, bool_decide (is_Some (To4 (sm_IP e)))) entries)) = omap metKept entries.
Proof.
  induction entries as [|e entries IH]; [done|]. cbn [List.filter]. case_bool_decide as Hs.
  - cbn. rewrite IH. by destruct (metKept e).
  - rewrite IH. cbn. unfold metKept at 2. destruct (To4 (sm_IP e)); [destruct Hs; by eexists|done].
Qed.

(** C31: the peer file is read back. Whatever peers are written, as long as their names fit a
    length prefix and there are at most 65536 over IPv4, the file reads back as those with
    an IPv4 address other than 0.0.0.0, in order, with their ports, names and descriptions;
    the peers over IPv6 are not in it, and no other file is touched. *)
Theorem server_met_read_back path entries files : path ≠ [] → Forall wireEntry entries →
  length (List.filter (λ e, bool_decide (is_Some (To4 (sm_IP e)))) entries) ≤ maxServerMetEntries →
  ∃ files', WriteServerMet path entries None files = Ok files' ∧ ReadServerMet path files' = Ok (omap metKept entries) ∧
    ∀ other, other ≠ path → files' !! other = files !! other.
Proof.
  intros Hpath He Hlen. set (v4 := List.filter _ entries) in *. unfold maxServerMetEntries in Hlen.
  assert (Forall (λ e, wireEntry e ∧ is_Some (To4 (sm_IP e))) v4) as Hv.
  { apply Forall_forall. intros e Hin. apply list_elem_of_In, filter_In in Hin as [Hin Hs]. rewrite Forall_forall in He. split; [by apply He, list_elem_of_In|].
    by apply bool_decide_eq_true in Hs. }
  unfold WriteServerMet, serverMetBytes. fold v4. rewrite bool_decide_eq_false_2 by done.
  erewrite make_buffer_writes; [|apply writes_seq; [apply writes_le|apply writes_seq; [apply writes_le|apply (writes_for_each putMetEntry v4 (map encMetEntry v4))]]|by apply length_serverMet].
  2: { apply Forall2_fmap_r, Forall_Forall2_diag. eapply Forall_impl; [exact Hv|]. intros e [Hw Hs]. by apply writes_putMetEntry. }
  eexists. split; [done|]. split; [|intros other Hne; by rewrite lookup_insert_ne]. unfold ReadServerMet. rewrite lookup_insert_eq. cbn [data].
  assert (u32 (length v4) = length v4) as -> by solve_range.
  rewrite (reads_all parseServerMet _ (omap metKept entries)); [done|]. unfold parseServerMet.
  eapply reads_bind; [apply reads_wrap, (reads_le 1); done|]. cbn [negb Z.eqb andb Pos.eqb serverMetVersion]. eapply reads_bind; [apply reads_wrap, (reads_le 4); solve_range|].
  unfold maxServerMetEntries. destruct (Z.ltb_spec 65536 (length v4)); [lia|].
  assert (length v4 * 10%nat ≤ length (concat (map encMetEntry v4))) as Hmin.
  { clear -Hv. induction Hv as [|e l [[Hw _] [ip H4]] _ IH]; [done|]. cbn [map concat length]. rewrite length_app. unfold encMetEntry at 1, encTags. rewrite H4.
    change (default [] (Some ip)) with ip. destruct (To4_sized _ _ Hw H4) as [_ Hl]. rewrite !length_app, !length_le_split, Hl. lia. }
  apply reads_remaining. intros n Hn. destruct (Z.ltb_spec n (length v4 * 10)); [lia|]. rewrite Nat2Z.id, <- omap_filter_v4. fold v4.
  rewrite <- (app_nil_r (concat _)). eapply reads_bind; [|apply reads_ret]. rewrite <- (length_map metKept v4). apply reads_for_collect.
  apply Forall2_fmap, Forall_Forall2_diag. eapply Forall_impl; [exact Hv|]. intros e [Hw Hs] i. by apply reads_getMetEntry.
Qed.

Lemma server_met_read_back_witness :
  let peers := [mkMetEntry [81; 2; 69; 160] 4661 (str "one") []; mkMetEntry (replicate 16 32) 4662 (str "six") []; mkMetEntry [85; 17; 3; 4] 4663 [] (str "two")] in
  ∃ files', WriteServerMet (str "server.met") peers None ∅ = Ok files' ∧
    ReadServerMet (str "server.met") files' = Ok [mkMetEntry [81; 2; 69; 160] 4661 (str "one") []; mkMetEntry [85; 17; 3; 4] 4663 [] (str "two")].
Proof.
  intros peers. destruct (server_met_read_back (str "server.met") peers ∅) as (files'&Hw&Hr&_).
  - done.
  - by repeat constructor.
  - done.
  - exists files'. split; [exact Hw|]. rewrite Hr. vm_compute. reflexivity.
Defined.
